(* ===== verification/_CoqProject ===== *)
-Q . S2P
Prelude.v
BitField.v
Float.v
Net.v
Crypto.v
Wire.v
Metainfo.v
Magnet.v
I2p.v
Chunks.v
Builder.v
Routing.v
Store.v
Auth.v
Manifest.v
Fs.v
Tee.v
Conn.v
Streams.v
Rpc.v
Kademlia.v
Lookup.v
KadInv.v
Pex.v
Bep.v
Swarm.v
Attacks.v
Discovery.v
Session.v
Download.v
Transfer.v
Disk.v
Standalone.v
Certs.v
PgpKeys.v
Endpoint.v
Socket.v
Ipc.v
Console.v
Cli.v
Manager.v
Events.v
Bqti.v
Serve.v
Start.v
