(* ===== verification/Prelude.v ===== *)
(** Verification of bqti, a BitTorrent client with an authenticated DHT.

    * The program

    A torrent is described by its metainfo ([src/src/bit_torrent/torrent]), which
    divides the concatenation of its files into hashed pieces.  A session
    ([session]) downloads or seeds one torrent: its router ([session/bep]) talks
    to peers over QUIC connections ([network]), keeps a request pipeline for
    each, and hands received pieces to a writer task, which stores them through
    the chunk handler ([chunks]); a seeder task reads pieces back and signs them.
    Peers are found through a Kademlia DHT ([dht]) whose nodes admit one another
    by proof of work, signed tokens and, on enclave hardware, attestation
    reports ([dht/auth], [bqti-tee]), and by exchanging addresses ([pex.rs]).
    Connections run over UDP or over I2P datagrams ([i2p]).  A daemon ([bqti.rs])
    owns all of it: it gives each packet to its part, keeps the sessions in a
    manager ([session/manager.rs]) and serves commands and events to clients on
    a local socket ([ipc], [bqti-ipc]).

    * The files

    - [Prelude]: the [Result] type and its notation, machine integers, the
      generic lemmas on lists, and the tactics and hint database of the library.
    - [BitField]: [session/bit_field.rs], the pieces a peer has, as bytes.
      [Float]: the part of [f64] that the console uses.
    - [Net]: socket addresses and text forms.  [Crypto]: the hash and signature
      functions as a class ([Crypto], its laws [CryptoLaws] and [SignerLaws]),
      the wrappers of [hasher.rs] and the traits of [certs/mod.rs].
    - [Wire]: message frames, the stream handlers and requests of
      [network/connection.rs], and the signed payloads of [bep/piece_auth.rs].
    - [Metainfo]: the bencoded records of [bencode/codec.rs] and the torrents of
      [torrent/metainfo]: loading, saving, validation, queries, info hashes.
    - [Magnet]: [magnet.rs], the sources of a command and the link of a torrent.
    - [I2p]: the destination map, the datagram socket, the SAM replies and the
      resolvers of [i2p] and [network].
    - [Chunks]: [chunks/file_handler.rs] over a small file system ([World]) and
      an operating system ([Os]); pieces are byte ranges across files.
    - [Builder]: [torrent/builder], [path.rs], [piece_hash.rs], [merkle.rs].
    - [Routing]: keys, buckets and the routing table of [dht], with the
      acknowledgement loop of [dht/kademlia/mod.rs].
    - [Store]: [dht/store.rs].  [Auth]: [dht/auth] and [bqti-tee/src/lib.rs].
      [Manifest]: [dht/manifest.rs], the published measurements of the enclave.
    - [Fs]: a file system with directories, hard and symbolic links and permission
      bits, and the calls of it that the program makes.
    - [Tee]: the enclave: its application ([bqti-enclave/src/eapp]), the host
      library, the Rust interface of [bqti-tee] and the prover of [dht/auth/pow.rs].
    - [Conn]: the connection table of [network/manager.rs] and the marks of a
      connection; dialling and accepting as interleaved steps.  [Streams]: the
      accept loop of one connection and the tasks of its streams, interleaved.
    - [Rpc]: the DHT messages and the pending replies of [dht/rpc.rs].
    - [Kademlia]: the client and the server of [dht/kademlia], as computations of
      a state and error monad over the four files above.  [Lookup]: what its
      lookups compute.  [KadInv]: what all its operations keep.  [Pex]: [pex.rs].
    - [Bep]: the pipeline, the peer table and every message handler of
      [session/bep/router.rs], as computations of a state, effect and error
      monad.  [Swarm]: the unchoke handlers of several peers, interleaved where they
      take a lock.
    - [Attacks]: the builds that replay or forge tokens or substitute pieces,
      against the honest [Kademlia] and [Bep].
    - [Discovery]: the DHT bootstrap, the discovery task of the router with its
      timers, and the tasks that dial the peers found.
    - [Session]: [session/transition.rs] and [session/state.rs], with the start
      and the end of the worker tasks: transitions as interleaved steps.
    - [Download]: the writer task of [session/session.rs], the resume file, and
      the check of the pieces a seed starts from.  [Transfer]: [Swarm] and [Download]
      together, the pieces in hand on their way from one to the other.
    - [Disk]: the data directory of [utils/bqti.rs] and what sessions keep there, on
      [Fs].  [Standalone]: the torrent commands of [standalone.rs].  [Certs]:
      the identities of [certs] and their files.  [PgpKeys]: the swarm keys and
      the thread that follows their directory.  [Endpoint]: the endpoint builders
      and the start of the daemon.  [Socket]: the local socket on [Fs].
    - [Ipc]: the messages and state of [bqti-ipc], the server and the client of
      [ipc].  The daemon is the interface [Torrenting] with its laws.  [Console]: what is
      printed ([utils]).  [Cli]: the commands and the client that carries them out.
    - [Manager]: [session/manager.rs] and [session/cache.rs]: sessions are objects
      that join the states of [Session] and [Bep].  [Events]: the way of a session
      event to the daemon's state and the clients.
    - [Bqti]: the daemon; it discharges the laws of [Torrenting] and joins the
      parts in [serve_packet].  [Serve]: its main task, from the binding of the socket to
      the shutdown.  [Start]: the parts as they are made at the start, and the daemon
      as a whole.

    A definition that models code carries the file and lines it translates.

    * Conventions

    Integers are [Z] with the wrap-around of the release profile written out
    ([u32], [u64]); sizes and indices into lists are [nat].  A panic is [None] of
    an [option]; a Rust [Result] is [Result].  Time, randomness, the network, the
    operating system and library code are arguments: functions, or classes with
    their documented laws, each law class instantiated by a concrete instance
    ([Toy], [toy_os] and others) that the witnesses use.  Concurrency is explicit:
    parallel file writes are run in the order of a [schedule], answers of peers in
    the order of [pick], tasks in the order of a list of events or of the relation
    [Session.step], [Conn.exec], [Rpc.rpc_exec], [Discovery.dial_step],
    [Manager.exec] or [Ipc.Watch.calm_step], or of the functions
    [Streams.reader_step], [Swarm.swarm_step], [Transfer.transfer_step],
    [Events.hub_run], [Serve.serve_step] and [Start.daemon_step].

    * What the theorems show

    Content: a download reassembles the content whatever the order of pieces and
    of file writes; reading and writing a piece refine reading and splicing the
    concatenation of the files; a torrent built from readable, non-empty files verifies against them;
    the streaming hasher and the Merkle root equal their definitions; valid
    torrents have pieces that cover their content; saving and loading, and info
    hashes, round-trip, with the exact condition where they do not.

    Transfer: the writer only writes pieces that match their hash, each once; a
    download without corrupt data that is worked off while its writer runs has the
    content on disk; the
    bit field a seed announces is exact unless a resume file claims completeness;
    an unchoke by a peer that answers downloads all it has; the handshake brings
    two sides together; requests are served exactly when allowed; pipelines are
    filled exactly; frames are delivered in order; signed pieces round-trip; an
    address is dialled by one task at a time ([dials_once]).  However the handlers
    of many peers interleave, every piece gained is handed over once, or dropped when the
    session has stopped downloading or its writer is gone ([pieces_written_once]); and with the writer at work beside them, whenever the tasks
    have run out every piece held is on disk ([concurrent_download]).

    Disk: preparing a seed adds links to the user's files and changes none, and
    removing it leaves them; a torrent written by the create command loads with the same
    hashes and validates; an identity that was stored is read back.  But linking a
    download with a file at its top keeps it from being resumed, a single file cannot be seeded, and version 2
    torrents cannot be read back.

    Life cycle: at most one worker is live and belongs to the current state;
    cancelling is final; an undisturbed transition refines the abstract life
    cycle [Session.Life].

    DHT: the routing table keeps its invariant under every sequence of locked
    operations; acknowledging terminates; the closest nodes are the closest; the
    store is bounded and returns what was inserted; tokens are only issued for
    valid proofs of work and verify, and are marked attested exactly for an enclave whose
    measurement the authority signed ([issued_token_attested]); the proof search ends and its result
    verifies; the rate limiter admits exactly what its window allows.

    A lookup ends, having asked each node it can hear of at most once, with nodes that
    answered, in order; a node that it had in its table or was told of by an answer, and
    that is closer than those, is the host or was asked in this lookup and did not
    answer.  Replies
    have the type of their request, and a reply reaches the request with its
    identifier only.  An unauthenticated connection gets nothing done, and a
    node with a valid token is authenticated; but a node that issues itself a
    token from a seen certificate is admitted too.  A replayed handshake fails unless
    it guesses the challenge, forged tokens are refused and substituted pieces
    dropped.  A proof of work made in the enclave is accepted.  Swarm keys are
    filed under their hashes and only forgotten at a removal.

    Network: the connection table holds connections under their addresses, none of which
    the manager has closed, with one dial at a time; two peers that dial each other agree on a connection
    exactly when they saw the two in opposite orders.  Swarms and exchange
    messages are bounded, and a message of changes tells the swarm exactly when
    the changes fit it.  Addresses of I2P destinations are consistent up to
    prefixes.  The packets of a stream are dispatched complete and in order, and what
    goes back on a stream answers its own request.  Magnet links round-trip exactly
    when no field has a separator.

    Daemon: a peer's message goes to the session that took its last handshake,
    which has the hash it asked for; over an unauthenticated connection a packet reaches
    neither sessions nor exchange nor the DHT, handshakes and the replies to pending calls
    excepted ([packet_gate]); what a client command reports is what the daemon did, a refused one
    changing nothing, for every implementation of [Torrenting] ([client_told]); and the list of a watching client comes to be
    the daemon's, in the schedules where events are sent in order.  The events of a
    session after the subscription reach the daemon's state in order; once the forwarding
    task lags it ends.  The daemon gives every packet to one task until it is interrupted,
    and then ends with its tasks stopped and its socket gone, after which no packet
    has an effect ([serves_until_interrupted]).  From its start on the
    whole keeps the invariants of its parts ([daemon_invariant]).  A progress bar has
    its width and never moves back ([progress_bar]); sizes are printed to the nearest
    hundredth ([format_size_nearest]).

    Some theorems state behaviour that is probably not intended: see
    [received_piece_not_refetched], [oversized_piece_refused],
    [from_wire_panics], [saved_info_iff], [attest_verify_iff],
    [self_issued_token_admitted], [tie_break_iff], [pex_never_quiet], and the
    examples [completion_loses_pieces], [stale_worker_strands],
    [resume_race_panics], [dead_connection_stays], [dest_map_misroutes],
    [addition_missed], [sends_reordered], [timeout_drops_active],
    [queued_twice], [removed_goes_on], [paused_not_purged] and
    [packets_after_disconnect], [early_events_lost]; and [single_file_seed_fails],
    [interrupted_download_cannot_resume], [created_v2_unloadable],
    [failed_run_answers_last], [lag_ends_forwarding], [second_daemon_takes_over],
    [search_schedule], [listing_printed], [rounds_past_the_unit] and [stop_unknown].

    * Fuel

    Loops that are not structural take fuel, and a theorem shows how much is
    enough: [unchoke_downloads_all] (one unit per piece),
    [acknowledge_terminates], [merkle_root_reference], [prove_then_verify] (one
    unit per nonce tried); a transition takes seven stretches at most
    ([transition_refines]); the file reader of [Builder] takes one unit per byte;
    a node lookup one unit per node that can be heard of
    ([node_lookup_correct]), a value lookup three ([find_value_correct]); the
    deliveries to a watching client end ([status_mirrors]).  The proof of work of the
    enclave takes one unit per nonce ([enclave_proof_verifies]); a path
    of [Fs] goes through 40 symbolic links at most, as on Linux.

    * Not modelled

    The QUIC, TLS, X.509, OpenPGP, keystone and serialisation libraries, the HTTP client
    and the SAM bridge, which are parameters; the library [indicatif], whose spinner and bar
    are only configured; logging and the derived argument parser; the build
    scripts and the extraction of the enclave's binaries; type aliases, re-exports and
    accessors.  The handlers of two DHT packets, and two calls of the DHT, are not
    interleaved with one another below the level of a packet or a call: [Start] runs them
    in any order.  [Serve] does interleave the tasks of packets, as arbitrary changes of
    the state.  The part of a reply that a failed write has sent is not kept, and
    opening a file to seed it fails only when it is missing.  The tasks that copy
    between the I2P sockets and their channels are left out. *)

From stdpp Require Export base tactics list list_numbers gmap strings sorting.
From stdpp Require Export numbers relations.
From Stdlib Require Export ZArith Lia.


#[global] Arguments Nat.div : simpl never.
#[global] Arguments Nat.modulo : simpl never.
#[global] Arguments Z.modulo : simpl never.
#[global] Arguments Z.div : simpl never.
#[global] Arguments Z.pow : simpl never.

(** * Notations *)

Declare Scope bqti_scope.
Delimit Scope bqti_scope with bqti.

(** ** Results

    Rust's [Result<A, E>].  A panic is not an [Err]: an operation that can
    panic returns [option], with [None] for the panic, and the two are nested
    when an operation can do both. *)

Inductive Result (E A : Type) : Type :=
| Ok (a : A)
| Err (e : E).
Arguments Ok {E A} a.
Arguments Err {E A} e.

Definition rbind {E A B} (m : Result E A) (k : A → Result E B) : Result E B :=
  match m with Ok a => k a | Err e => Err e end.

Definition rmap {E A B} (f : A → B) (m : Result E A) : Result E B :=
  match m with Ok a => Ok (f a) | Err e => Err e end.

Definition map_err {E F A} (f : E → F) (m : Result E A) : Result F A :=
  match m with Ok a => Ok a | Err e => Err (f e) end.

Definition ok_or {E A} (e : E) (o : option A) : Result E A :=
  match o with Some a => Ok a | None => Err e end.

Definition is_ok {E A} (m : Result E A) : bool :=
  match m with Ok _ => true | Err _ => false end.

(** The [?] operator. *)
Notation "'let?' x := m 'in' k" := (rbind m (fun x => k))
  (at level 200, x pattern, right associativity) : bqti_scope.
Open Scope bqti_scope.

(** * Tactics *)

(** Case analysis on every [match] and [if] in sight, with the usual clean-up. *)
Ltac break :=
  repeat (case_match || case_decide || case_bool_decide); simplify_eq/=.

(** Boolean comparisons to propositions. *)
Ltac b2p :=
  repeat match goal with
  | H : _ && _ = true |- _ => apply andb_true_iff in H; destruct H
  | H : _ || _ = false |- _ => apply orb_false_iff in H; destruct H
  | H : negb _ = true |- _ => apply negb_true_iff in H
  | H : negb _ = false |- _ => apply negb_false_iff in H
  | H : (_ =? _)%Z = true |- _ => apply Z.eqb_eq in H
  | H : (_ =? _)%Z = false |- _ => apply Z.eqb_neq in H
  | H : (_ <? _)%Z = true |- _ => apply Z.ltb_lt in H
  | H : (_ <? _)%Z = false |- _ => apply Z.ltb_ge in H
  | H : (_ <=? _)%Z = true |- _ => apply Z.leb_le in H
  | H : (_ <=? _)%Z = false |- _ => apply Z.leb_gt in H
  | H : (_ =? _) = true |- _ => apply Nat.eqb_eq in H
  | H : (_ =? _) = false |- _ => apply Nat.eqb_neq in H
  | H : (_ <? _) = true |- _ => apply Nat.ltb_lt in H
  | H : (_ <? _) = false |- _ => apply Nat.ltb_ge in H
  | H : (_ <=? _) = true |- _ => apply Nat.leb_le in H
  | H : (_ <=? _) = false |- _ => apply Nat.leb_gt in H
  | H : bool_decide _ = true |- _ => apply bool_decide_eq_true in H
  | H : bool_decide _ = false |- _ => apply bool_decide_eq_false in H
  end.

Create HintDb bqti.
#[export] Hint Rewrite @length_app @length_take @length_drop @length_replicate
  @length_fmap @length_insert @length_seq : bqti.
Ltac lens := autorewrite with bqti in *; simpl in *; lia.

(** * Machine integers

    A [w]-bit unsigned integer is a [Z] in [[0, 2^w)]; an operation that can
    leave the range is wrapped explicitly (the release profile of the crate
    does not check for overflow). *)

Definition byte_ok (b : Z) : Prop := (0 ≤ b < 256)%Z.
Definition bytes_ok (bs : list Z) : Prop := Forall byte_ok bs.

#[export] Instance byte_ok_dec b : Decision (byte_ok b).
Proof. unfold byte_ok. apply _. Defined.
#[export] Instance bytes_ok_dec bs : Decision (bytes_ok bs).
Proof. unfold bytes_ok. apply _. Defined.

Definition wrap (w : Z) (z : Z) : Z := (z mod 2 ^ w)%Z.
Notation u8 := (wrap 8).
Notation u32 := (wrap 32).
Notation u64 := (wrap 64).
(** [as i64] of a [u64]: the two's complement reading. *)
Definition i64 (z : Z) : Z := ((z + 2 ^ 63) mod 2 ^ 64 - 2 ^ 63)%Z.

Lemma wrap_range w z : (0 ≤ w)%Z → (0 ≤ wrap w z < 2 ^ w)%Z.
Proof. intros. apply Z.mod_pos_bound. lia. Qed.

Lemma wrap_small w z : (0 ≤ z < 2 ^ w)%Z → wrap w z = z.
Proof. apply Z.mod_small. Qed.
#[export] Hint Resolve wrap_range wrap_small : bqti.

Lemma wrap_add_l w a b : wrap w (wrap w a + b) = wrap w (a + b).
Proof. apply Zplus_mod_idemp_l. Qed.

Lemma wrap_sub_l w a b : wrap w (wrap w a - b) = wrap w (a - b).
Proof. apply Zminus_mod_idemp_l. Qed.

(** ** Big- and little-endian byte strings of a word *)

Fixpoint le_bytes (n : nat) (z : Z) : list Z :=
  match n with
  | O => []
  | S n => (z mod 256)%Z :: le_bytes n (z / 256)%Z
  end.

Fixpoint of_le (bs : list Z) : Z :=
  match bs with
  | [] => 0
  | b :: bs => b + 256 * of_le bs
  end%Z.

Definition be_bytes (n : nat) (z : Z) : list Z := reverse (le_bytes n z).
Definition of_be (bs : list Z) : Z := of_le (reverse bs).

Lemma length_le_bytes n z : length (le_bytes n z) = n.
Proof. revert z. induction n; intros; simpl; auto. Qed.

Lemma length_be_bytes n z : length (be_bytes n z) = n.
Proof. unfold be_bytes. by rewrite length_reverse, length_le_bytes. Qed.
#[export] Hint Rewrite length_le_bytes length_be_bytes : bqti.

Lemma le_bytes_ok n z : bytes_ok (le_bytes n z).
Proof.
  revert z. induction n as [|n IH]; intros; simpl; constructor; [|apply IH].
  apply Z.mod_pos_bound. lia.
Qed.

Lemma be_bytes_ok n z : bytes_ok (be_bytes n z).
Proof. apply Forall_reverse, le_bytes_ok. Qed.
#[export] Hint Resolve le_bytes_ok be_bytes_ok : bqti.

Lemma pow256_S n : (256 ^ Z.of_nat (S n) = 256 * 256 ^ Z.of_nat n)%Z.
Proof. rewrite Nat2Z.inj_succ, Z.pow_succ_r; lia. Qed.

Lemma of_le_bytes n z : of_le (le_bytes n z) = (z mod 256 ^ Z.of_nat n)%Z.
Proof.
  revert z. induction n as [|n IH]; intros z; cbn [le_bytes of_le].
  { change (256 ^ Z.of_nat 0)%Z with 1%Z. by rewrite Z.mod_1_r. }
  rewrite IH, pow256_S. symmetry. apply Z.rem_mul_r; lia.
Qed.

Lemma of_be_bytes n z : (0 ≤ z < 256 ^ Z.of_nat n)%Z → of_be (be_bytes n z) = z.
Proof.
  intros. unfold of_be, be_bytes. rewrite reverse_involutive, of_le_bytes.
  by apply Z.mod_small.
Qed.

Lemma le_bytes_of bs : bytes_ok bs → le_bytes (length bs) (of_le bs) = bs.
Proof.
  induction 1 as [|b bs Hb _ IH]; simpl; [done|]. unfold byte_ok in Hb.
  rewrite (Z.mul_comm 256), Z.mod_add, Z.div_add, Z.mod_small, Z.div_small by lia.
  by rewrite Z.add_0_l, IH.
Qed.

Lemma of_le_range bs : bytes_ok bs → (0 ≤ of_le bs < 256 ^ Z.of_nat (length bs))%Z.
Proof.
  induction 1 as [|b bs Hb _ IH]; simpl length; cbn [of_le]; [simpl; lia|].
  unfold byte_ok in Hb. rewrite pow256_S. lia.
Qed.

Lemma be_bytes_of bs : bytes_ok bs → be_bytes (length bs) (of_be bs) = bs.
Proof.
  intros H. unfold be_bytes, of_be.
  rewrite <-(length_reverse bs), le_bytes_of by by apply Forall_reverse.
  apply reverse_involutive.
Qed.

Lemma of_be_range bs : bytes_ok bs → (0 ≤ of_be bs < 256 ^ Z.of_nat (length bs))%Z.
Proof.
  intros H. unfold of_be. rewrite <-(length_reverse bs).
  by apply of_le_range, Forall_reverse.
Qed.

(** * Lists *)

(** [l[i .. i + n]], clipped at the end of the list. *)
Definition slice {A} (i n : nat) (l : list A) : list A := take n (drop i l).

(** [l[i .. i + d.len()].copy_from_slice(d)], for a range inside the list. *)
Definition splice {A} (i : nat) (d l : list A) : list A :=
  take i l ++ d ++ drop (i + length d) l.

(** [Iterator::position]. *)
Fixpoint position {A} (p : A → bool) (l : list A) : option nat :=
  match l with
  | [] => None
  | x :: l => if p x then Some 0 else S <$> position p l
  end.

(** [remove(i)] of a [Vec] or [VecDeque]. *)
Definition remove_at {A} (i : nat) (l : list A) : list A := take i l ++ drop (S i) l.

(** [Iterator::filter] and [Iterator::find] with a predicate that can panic. *)
Fixpoint filter_opt {A} (f : A → option bool) (l : list A) : option (list A) :=
  match l with
  | [] => Some []
  | x :: l => b ← f x; r ← filter_opt f l; Some (if (b : bool) then x :: r else r)
  end.

Fixpoint find_opt {A} (f : A → option bool) (l : list A) : option (option A) :=
  match l with
  | [] => Some None
  | x :: l => b ← f x; if (b : bool) then Some (Some x) else find_opt f l
  end.

(** [chunks(n)]: consecutive pieces of length [n], the last one possibly
    shorter; [chunks_exact(n)] drops that last one.  [n] is positive (Rust
    panics otherwise); the length of the list is fuel enough. *)
Fixpoint chunks_fuel {A} (fuel n : nat) (l : list A) : list (list A) :=
  match fuel, l with
  | S fuel, _ :: _ => take n l :: chunks_fuel fuel n (drop n l)
  | _, _ => []
  end.
Definition chunks {A} (n : nat) (l : list A) : list (list A) := chunks_fuel (length l) n l.

Fixpoint chunks_exact_fuel {A} (fuel n : nat) (l : list A) : list (list A) :=
  match fuel with
  | S fuel => if n <=? length l then take n l :: chunks_exact_fuel fuel n (drop n l) else []
  | O => []
  end.
Definition chunks_exact {A} (n : nat) (l : list A) : list (list A) :=
  chunks_exact_fuel (length l) n l.

Section list_lemmas.
Context {A : Type}.
Implicit Types (l : list A) (i n : nat).

Lemma filter_opt_total (f : A → option bool) g l :
  (∀ x, x ∈ l → f x = Some (g x)) → filter_opt f l = Some (List.filter g l).
Proof.
  induction l as [|x l IH]; intros H; [done|]. simpl.
  rewrite H by set_solver. simpl. rewrite IH by set_solver. done.
Qed.

Lemma find_opt_total (f : A → option bool) g l :
  (∀ x, x ∈ l → f x = Some (g x)) → find_opt f l = Some (List.find g l).
Proof.
  induction l as [|x l IH]; intros H; [done|]. simpl.
  rewrite H by set_solver. simpl. destruct (g x); [done|]. apply IH. set_solver.
Qed.

Lemma find_None_filter (g : A → bool) l : List.find g l = None ↔ List.filter g l = [].
Proof. induction l as [|x l IH]; simpl; [done|]. destruct (g x); [done|]. apply IH. Qed.

Lemma filter_length_split (g : A → bool) l :
  length (List.filter g l) + length (List.filter (negb ∘ g) l) = length l.
Proof. induction l as [|x l IH]; simpl; [done|]. destruct (g x); simpl; lia. Qed.

Lemma filter_ext_elem (f g : A → bool) l :
  (∀ x, x ∈ l → f x = g x) → List.filter f l = List.filter g l.
Proof.
  induction l as [|x l IH]; intros H; [done|]. simpl.
  rewrite H, IH by set_solver. done.
Qed.

Lemma elem_of_filterb (g : A → bool) l x : x ∈ List.filter g l ↔ x ∈ l ∧ g x = true.
Proof. rewrite !list_elem_of_In. apply filter_In. Qed.

Lemma NoDup_filterb (g : A → bool) l : NoDup l → NoDup (List.filter g l).
Proof.
  induction 1 as [|x l Hx _ IH]; simpl; [constructor|].
  destruct (g x); [constructor; [|done]|done]. rewrite elem_of_filterb. tauto.
Qed.

Lemma length_slice i n l : length (slice i n l) = min n (length l - i).
Proof. unfold slice. rewrite length_take, length_drop. lia. Qed.

Lemma length_splice i d l :
  i + length d ≤ length l → length (splice i d l) = length l.
Proof. intros. unfold splice. lens. Qed.

Lemma lookup_slice i n l k : k < n → slice i n l !! k = l !! (i + k).
Proof. intros. unfold slice. by rewrite lookup_take_lt, lookup_drop. Qed.

Lemma lookup_splice i d l k :
  i + length d ≤ length l →
  splice i d l !! k =
    if decide (i ≤ k < i + length d) then d !! (k - i) else l !! k.
Proof.
  intros Hl. unfold splice. destruct (decide (k < i)).
  { rewrite lookup_app_l, lookup_take_lt by lens. case_decide; [lia|done]. }
  rewrite lookup_app_r by lens. rewrite length_take, min_l by lia.
  destruct (decide (k < i + length d)).
  { rewrite lookup_app_l by lia. case_decide; [done|lia]. }
  rewrite lookup_app_r, lookup_drop by lia. case_decide; [lia|]. f_equal. lia.
Qed.

Lemma slice_splice_same i d l :
  i + length d ≤ length l → slice i (length d) (splice i d l) = d.
Proof.
  intros. apply list_eq. intros k. destruct (decide (k < length d)).
  - rewrite lookup_slice, lookup_splice by done. case_decide; [f_equal; lia|lia].
  - rewrite !lookup_ge_None_2; [done| |rewrite length_slice]; lia.
Qed.

Lemma slice_splice_other i d j n l :
  i + length d ≤ length l → j + n ≤ i ∨ i + length d ≤ j →
  slice j n (splice i d l) = slice j n l.
Proof.
  intros Hl Hd. apply list_eq. intros k. destruct (decide (k < n)).
  - rewrite !lookup_slice, lookup_splice by done. case_decide; [lia|done].
  - rewrite !lookup_ge_None_2; [done| |]; rewrite length_slice; lia.
Qed.

Lemma position_Some (p : A → bool) l i :
  position p l = Some i →
  ∃ x, l !! i = Some x ∧ p x = true ∧ ∀ j y, j < i → l !! j = Some y → p y = false.
Proof.
  revert i. induction l as [|x l IH]; intros i; simpl; [done|].
  destruct (p x) eqn:Hp.
  { intros [= <-]. exists x. repeat split; auto. lia. }
  destruct (position p l) as [k|]; [|done]. intros [= <-].
  destruct (IH k) as (y & Hy & Hpy & Hlt); [done|]. exists y.
  repeat split; auto. intros [|j] z ?; simpl; [by intros [= <-]|]. apply Hlt. lia.
Qed.

Lemma position_None (p : A → bool) l :
  position p l = None ↔ ∀ x, x ∈ l → p x = false.
Proof.
  induction l as [|x l IH]; simpl; [split; [set_solver|done]|].
  destruct (p x) eqn:Hp.
  { split; [done|]. intros H. specialize (H x). rewrite H in Hp; set_solver. }
  destruct (position p l); simpl; split; try done.
  - intros H. exfalso. assert (Some n = None) as [=]. apply IH. set_solver.
  - intros _ y [->|Hy]%elem_of_cons; [done|]. by apply IH.
Qed.

Lemma remove_at_Permutation l i x : l !! i = Some x → x :: remove_at i l ≡ₚ l.
Proof.
  intros H. unfold remove_at. rewrite <-(take_drop_middle l i x) at 3 by done.
  apply Permutation_middle.
Qed.

Lemma insert_Permutation {B} (l : list B) i x y :
  l !! i = Some x → <[i := y]> l ≡ₚ y :: remove_at i l.
Proof.
  intros E. rewrite insert_take_drop by (by eapply lookup_lt_Some).
  unfold remove_at. symmetry. apply Permutation_middle.
Qed.

Lemma Forall_remove_at {B} (P : B → Prop) i (l : list B) : Forall P l → Forall P (remove_at i l).
Proof. intros Hl. apply Forall_app. split; [by apply Forall_take|by apply Forall_drop]. Qed.

Lemma chunks_fuel_irrel fuel fuel' n l :
  0 < n → length l ≤ fuel → length l ≤ fuel' → chunks_fuel fuel n l = chunks_fuel fuel' n l.
Proof.
  intros Hn. revert fuel' l. induction fuel as [|fuel IH]; intros fuel' l H1 H2.
  { destruct l, fuel'; simpl in *; try done; lia. }
  destruct l as [|x l]; [by destruct fuel'|]. destruct fuel' as [|fuel']; simpl in *; [lia|].
  f_equal. apply IH; rewrite length_drop; simpl; lia.
Qed.

Lemma chunks_cons n l : 0 < n → l ≠ [] → chunks n l = take n l :: chunks n (drop n l).
Proof.
  intros Hn Hl. unfold chunks. destruct l as [|x l]; [done|]. simpl. f_equal.
  apply chunks_fuel_irrel; [done|rewrite length_drop; simpl; lia|done].
Qed.

Lemma chunks_exact_fuel_irrel fuel fuel' n l :
  0 < n → length l ≤ fuel → length l ≤ fuel' →
  chunks_exact_fuel fuel n l = chunks_exact_fuel fuel' n l.
Proof.
  intros Hn. revert fuel' l. induction fuel as [|fuel IH]; intros fuel' l H1 H2.
  { destruct fuel'; simpl; [done|]. rewrite (proj2 (Nat.leb_gt _ _)) by lia. done. }
  destruct fuel' as [|fuel']; simpl.
  { rewrite (proj2 (Nat.leb_gt _ _)) by lia. done. }
  destruct (Nat.leb_spec n (length l)); [|done]. f_equal.
  apply IH; rewrite length_drop; lia.
Qed.

Lemma chunks_exact_cons n l :
  0 < n → n ≤ length l → chunks_exact n l = take n l :: chunks_exact n (drop n l).
Proof.
  intros Hn Hl. unfold chunks_exact. destruct l as [|x l]; simpl in Hl; [lia|].
  cbn [length chunks_exact_fuel]. rewrite (proj2 (Nat.leb_le _ _)) by done. f_equal.
  apply chunks_exact_fuel_irrel; [done|rewrite length_drop; simpl; lia|done].
Qed.

Lemma chunks_exact_short n l : length l < n → chunks_exact n l = [].
Proof.
  intros. unfold chunks_exact. destruct (length l) eqn:E; simpl; [done|].
  by rewrite E, (proj2 (Nat.leb_gt _ _)) by lia.
Qed.

(** Induction on a list by blocks of [n]. *)
Lemma block_ind n (Hn : 0 < n) (P : list A → Prop) :
  (∀ l, length l < n → P l) →
  (∀ l, n ≤ length l → P (drop n l) → P l) → ∀ l, P l.
Proof.
  intros Hs Hd l. remember (length l) as k eqn:Hk. revert l Hk.
  induction k as [k IH] using lt_wf_ind. intros l ->.
  destruct (decide (length l < n)); [auto|]. apply Hd; [lia|].
  eapply IH; [|done]. rewrite length_drop. lia.
Qed.

Lemma length_chunks_exact n l : 0 < n → length (chunks_exact n l) = length l / n.
Proof.
  intros Hn. induction l as [l Hl|l Hl IH] using (block_ind n Hn).
  - by rewrite chunks_exact_short, Nat.div_small.
  - rewrite chunks_exact_cons by done. simpl. rewrite IH, length_drop.
    replace (length l) with (length l - n + 1 * n) at 2 by lia.
    rewrite Nat.div_add by lia. lia.
Qed.

Lemma chunks_exact_elem n l c : 0 < n → c ∈ chunks_exact n l → length c = n.
Proof.
  intros Hn. induction l as [l Hl|l Hl IH] using (block_ind n Hn).
  - rewrite chunks_exact_short by done. set_solver.
  - rewrite chunks_exact_cons by done. intros [->|]%elem_of_cons; [lens|auto].
Qed.

Lemma concat_chunks n l : 0 < n → concat (chunks n l) = l.
Proof.
  intros Hn. induction l as [l Hl|l Hl IH] using (block_ind n Hn).
  - destruct l as [|x l]; [done|]. rewrite chunks_cons by done.
    rewrite take_ge, drop_ge by lia. apply app_nil_r.
  - rewrite chunks_cons; [|done|by destruct l; simpl in *; [lia|]].
    cbn [concat]. by rewrite IH, take_drop.
Qed.

(** A concatenation of blocks of length [n] is cut back into them. *)
Lemma chunks_exact_concat n (ls : list (list A)) :
  0 < n → Forall (λ c, length c = n) ls → chunks_exact n (concat ls) = ls.
Proof.
  intros Hn. induction 1 as [|c ls Hc _ IH]; [by apply chunks_exact_short|].
  cbn [concat]. rewrite chunks_exact_cons by lens.
  rewrite take_app_length', drop_app_length' by done. by rewrite IH.
Qed.

Lemma length_concat_const n (ls : list (list A)) :
  Forall (λ c, length c = n) ls → length (concat ls) = n * length ls.
Proof. induction 1; simpl; rewrite ?length_app; lia. Qed.
End list_lemmas.

Lemma omap_remove_at {A B} (f : A → option B) (l : list A) i x :
  l !! i = Some x → omap f l ≡ₚ option_list (f x) ++ omap f (remove_at i l).
Proof.
  intros Hi. rewrite <-(remove_at_Permutation l i x Hi) at 1. cbn. by destruct (f x).
Qed.

Lemma NoDup_omap {A B} (f : A → option B) l :
  (∀ x y b, x ∈ l → y ∈ l → f x = Some b → f y = Some b → x = y) → NoDup l → NoDup (omap f l).
Proof.
  intros Hf. induction 1 as [|x l Hx _ IH]; [constructor|]. cbn.
  assert (NoDup (omap f l)) as Hl by (apply IH; intros ? ? ? ? ?; apply Hf; by right).
  destruct (f x) as [b|] eqn:E; [|exact Hl]. constructor; [|exact Hl].
  intros (y & Hy & Ey)%list_elem_of_omap. apply Hx. rewrite (Hf x y b); try done; [by left|by right].
Qed.

Lemma omap_insert_at {A B} (f : A → option B) (l : list A) i x y :
  l !! i = Some x → omap f (<[i := y]> l) ≡ₚ option_list (f y) ++ omap f (remove_at i l).
Proof. intros Hi. rewrite (insert_Permutation l i x) by done. cbn. by destruct (f y). Qed.

Lemma filter_seq_extend (f : nat → bool) n m :
  n ≤ m → (∀ i, n ≤ i → f i = false) → List.filter f (seq 0 m) = List.filter f (seq 0 n).
Proof.
  intros Hnm Hf. replace m with (n + (m - n)) by lia.
  rewrite seq_app, List.filter_app.
  assert (List.filter f (seq (0 + n) (m - n)) = []) as ->; [|by rewrite app_nil_r].
  rewrite (filter_ext_elem f (λ _, false)).
  - by induction (seq _ _).
  - intros x Hx%elem_of_seq. apply Hf. lia.
Qed.

(** * Sorting

    [sort_by]: a stable sort by a total preorder. *)

Section sort.
Context {A : Type} (leb : A → A → bool).

Fixpoint insert_sorted (x : A) (l : list A) : list A :=
  match l with
  | [] => [x]
  | y :: l => if leb x y then x :: y :: l else y :: insert_sorted x l
  end.
Definition sort_by (l : list A) : list A := foldr insert_sorted [] l.

Lemma insert_sorted_Permutation x l : insert_sorted x l ≡ₚ x :: l.
Proof.
  induction l as [|y l IH]; cbn; [done|]. destruct (leb x y); [done|].
  rewrite IH. apply Permutation_swap.
Qed.

Lemma sort_by_Permutation l : sort_by l ≡ₚ l.
Proof. induction l as [|x l IH]; cbn; [done|]. by rewrite insert_sorted_Permutation, IH. Qed.

Hypothesis leb_total : ∀ x y, leb x y = true ∨ leb y x = true.
Hypothesis leb_trans : ∀ x y z, leb x y = true → leb y z = true → leb x z = true.

Lemma insert_sorted_StronglySorted x l :
  StronglySorted (λ a b, leb a b = true) l →
  StronglySorted (λ a b, leb a b = true) (insert_sorted x l).
Proof.
  induction 1 as [|y l Hl IH Hy]; cbn; [by repeat constructor|].
  destruct (leb x y) eqn:E.
  - constructor; [by constructor|]. constructor; [done|].
    eapply Forall_impl; [exact Hy|]. intros z. by apply leb_trans.
  - constructor; [done|]. rewrite insert_sorted_Permutation. constructor; [|done].
    destruct (leb_total x y); congruence.
Qed.

Lemma sort_by_StronglySorted l : StronglySorted (λ a b, leb a b = true) (sort_by l).
Proof.
  induction l as [|x l IH]; cbn; [constructor|]. by apply insert_sorted_StronglySorted.
Qed.
End sort.
