(* ===== verification/BitField.v ===== *)
(** Piece bit fields: [src/bit_torrent/session/bit_field.rs].

    A bit field is the byte string the peers exchange, most significant bit
    first, with the number of pieces it stands for.  [from_wire] takes the byte
    string from the network without looking at its length, so the accessors
    that index it ([have], [set], [unset]) can panic: they return [option],
    [None] being the panic.  [difference] reads with [get] and never does. *)

From S2P Require Import Prelude.

(** src/src/bit_torrent/session/bit_field.rs:1-5 [BitField] *)
Record BitField := mkBitField { bf_bytes : list Z; piece_count : nat }.

#[export] Instance BitField_eq_dec : EqDecision BitField.
Proof. solve_decision. Defined.

Module BitField.

(** src/src/bit_torrent/session/bit_field.rs:8-15 [BitField::empty] *)
Definition empty (piece_count : nat) : BitField :=
  let byte_count := (piece_count + 7) / 8 in
  mkBitField (replicate byte_count 0%Z) piece_count.

(** src/src/bit_torrent/session/bit_field.rs:17-19 [BitField::from_wire] *)
Definition from_wire (bytes : list Z) (piece_count : nat) : BitField :=
  mkBitField bytes piece_count.

(** The mask [1 << (7 - index % 8)] that the three accessors compute. *)
Definition mask (index : nat) : Z := Z.shiftl 1 (Z.of_nat (7 - index mod 8)).

(** src/src/bit_torrent/session/bit_field.rs:21-30 [BitField::have] *)
Definition have (self : BitField) (index : nat) : option bool :=
  if piece_count self <=? index then Some false
  else b ← bf_bytes self !! (index / 8);
       Some (negb (Z.land b (mask index) =? 0)%Z).

(** src/src/bit_torrent/session/bit_field.rs:32-41 [BitField::set] *)
Definition set (self : BitField) (index : nat) : option BitField :=
  if piece_count self <=? index then Some self
  else b ← bf_bytes self !! (index / 8);
       Some (mkBitField (<[index / 8 := Z.lor b (mask index)]> (bf_bytes self))
                        (piece_count self)).

(** src/src/bit_torrent/session/bit_field.rs:43-52 [BitField::unset] *)
Definition unset (self : BitField) (index : nat) : option BitField :=
  if piece_count self <=? index then Some self
  else b ← bf_bytes self !! (index / 8);
       Some (mkBitField
               (<[index / 8 := Z.land b (Z.lxor 255 (mask index))]> (bf_bytes self))
               (piece_count self)).

(** src/src/bit_torrent/session/bit_field.rs:62-64 [BitField::missing_pieces] *)
Definition missing_pieces (self : BitField) : option (list nat) :=
  filter_opt (λ i, negb <$> have self i) (seq 0 (piece_count self)).

(** src/src/bit_torrent/session/bit_field.rs:54-56 [BitField::is_complete]

    The iterator is lazy: only the pieces up to the first missing one are
    looked at. *)
Definition is_complete (self : BitField) : option bool :=
  m ← find_opt (λ i, negb <$> have self i) (seq 0 (piece_count self));
  Some (match m with None => true | Some _ => false end).

(** src/src/bit_torrent/session/bit_field.rs:66-68 [BitField::available_pieces] *)
Definition available_pieces (self : BitField) : option (list nat) :=
  filter_opt (have self) (seq 0 (piece_count self)).

(** src/src/bit_torrent/session/bit_field.rs:58-60 [BitField::count] *)
Definition count (self : BitField) : option nat :=
  length <$> filter_opt (have self) (seq 0 (piece_count self)).

(** src/src/bit_torrent/session/bit_field.rs:70-72 [BitField::as_bytes] *)
Definition as_bytes (self : BitField) : list Z := bf_bytes self.

(** src/src/bit_torrent/session/bit_field.rs:74-96 [BitField::difference] *)
Definition difference (self other : BitField) : list nat :=
  let len := max (length (bf_bytes self)) (length (bf_bytes other)) in
  flat_map (λ byte_idx,
    let my_byte := default 0%Z (bf_bytes self !! byte_idx) in
    let their_byte := default 0%Z (bf_bytes other !! byte_idx) in
    let diff := Z.land my_byte (Z.lxor 255 their_byte) in
    omap (λ bit_pos,
      let piece_index := byte_idx * 8 + bit_pos in
      if piece_count self <=? piece_index then None
      else if negb (Z.land diff (Z.shiftl 1 (Z.of_nat (7 - bit_pos))) =? 0)%Z
      then Some piece_index else None)
      (seq 0 8))
    (seq 0 len).

(** * The set of pieces a bit field stands for *)

(** A bit field is well formed when its bytes cover its pieces.  [empty]
    builds such a bit field; [from_wire] need not. *)
Definition wf (b : BitField) : Prop :=
  piece_count b ≤ 8 * length (bf_bytes b) ∧ bytes_ok (bf_bytes b).

#[export] Instance wf_dec b : Decision (wf b).
Proof. unfold wf. apply _. Defined.

(** The bit of a piece, absent bytes read as zero. *)
Definition bit (b : BitField) (i : nat) : bool :=
  Z.testbit (default 0%Z (bf_bytes b !! (i / 8))) (Z.of_nat (7 - i mod 8)).

(** The abstract value: which pieces are held. *)
Definition held (b : BitField) (i : nat) : bool := (i <? piece_count b) && bit b i.

Lemma land_mask b k :
  negb (Z.land b (Z.shiftl 1 (Z.of_nat k)) =? 0)%Z = Z.testbit b (Z.of_nat k).
Proof.
  rewrite Z.shiftl_1_l. destruct (Z.testbit b (Z.of_nat k)) eqn:E.
  - apply negb_true_iff, Z.eqb_neq. intros H.
    assert (Z.testbit (Z.land b (2 ^ Z.of_nat k)) (Z.of_nat k) = true) as H'.
    { rewrite Z.land_spec, E, Z.pow2_bits_true by lia. done. }
    by rewrite H, Z.bits_0 in H'.
  - apply negb_false_iff, Z.eqb_eq. apply Z.bits_inj'. intros n Hn.
    rewrite Z.land_spec, Z.bits_0. destruct (decide (n = Z.of_nat k)) as [->|].
    + by rewrite E.
    + rewrite Z.pow2_bits_false by done. apply andb_false_r.
Qed.

Lemma byte_in_range b i : wf b → i < piece_count b → i / 8 < length (bf_bytes b).
Proof. intros [? _] ?. apply Nat.Div0.div_lt_upper_bound. lia. Qed.

Lemma have_held b i : wf b → have b i = Some (held b i).
Proof.
  intros Hwf. unfold have, held. destruct (Nat.leb_spec (piece_count b) i) as [Hi|Hi].
  { by rewrite (proj2 (Nat.ltb_ge _ _) Hi). }
  rewrite (proj2 (Nat.ltb_lt _ _) Hi). simpl.
  destruct (lookup_lt_is_Some_2 (bf_bytes b) (i / 8)) as [x Hx];
    [by apply byte_in_range|].
  rewrite Hx. simpl. unfold mask, bit. by rewrite land_mask, Hx.
Qed.

(** Two piece indices share byte and bit only when they are equal. *)
Lemma same_bit i j : i / 8 = j / 8 → 7 - i mod 8 = 7 - j mod 8 → i = j.
Proof.
  intros Hd Hm. rewrite (Nat.div_mod_eq i 8), (Nat.div_mod_eq j 8), Hd. f_equal.
  pose proof (Nat.mod_upper_bound i 8). pose proof (Nat.mod_upper_bound j 8). lia.
Qed.

Lemma mask_testbit i k :
  Z.testbit (mask i) (Z.of_nat k) = bool_decide (7 - i mod 8 = k).
Proof.
  unfold mask. rewrite Z.shiftl_1_l. case_bool_decide as H.
  - subst. apply Z.pow2_bits_true. lia.
  - apply Z.pow2_bits_false. lia.
Qed.

Lemma lxor_255_testbit z k : k < 8 → Z.testbit (Z.lxor 255 z) (Z.of_nat k) = negb (Z.testbit z (Z.of_nat k)).
Proof.
  intros. rewrite Z.lxor_spec. change 255%Z with (Z.ones 8).
  rewrite Z.ones_spec_low by lia. apply xorb_true_l.
Qed.

Lemma byte_ok_bits b : byte_ok b ↔ (0 ≤ b)%Z ∧ Z.shiftr b 8 = 0%Z.
Proof.
  unfold byte_ok. rewrite Z.shiftr_div_pow2 by lia. change (2 ^ 8)%Z with 256%Z.
  split.
  - intros. split; [lia|]. by apply Z.div_small.
  - intros [? H]. apply Z.div_small_iff in H; lia.
Qed.

Lemma mask_ok i : byte_ok (mask i).
Proof.
  unfold mask, byte_ok. rewrite Z.shiftl_1_l. change 256%Z with (2 ^ 8)%Z.
  split; [lia|]. apply Z.pow_lt_mono_r; lia.
Qed.

Lemma lor_ok a b : byte_ok a → byte_ok b → byte_ok (Z.lor a b).
Proof.
  rewrite !byte_ok_bits. intros [? Ha] [? Hb]. split; [by apply Z.lor_nonneg|].
  by rewrite Z.shiftr_lor, Ha, Hb.
Qed.

Lemma land_ok a b : byte_ok a → (0 ≤ b)%Z → byte_ok (Z.land a b).
Proof.
  rewrite !byte_ok_bits. intros [? Ha] Hb. split; [apply Z.land_nonneg; auto|].
  by rewrite Z.shiftr_land, Ha.
Qed.
#[export] Hint Resolve mask_ok lor_ok land_ok : bqti.

(** Updating the byte of a piece, the common shape of [set] and [unset]. *)
Lemma held_update b i (f : Z → Z) x (v : bool) :
  wf b → i < piece_count b → bf_bytes b !! (i / 8) = Some x →
  Z.testbit (f x) (Z.of_nat (7 - i mod 8)) = v →
  (∀ k, k < 8 → k ≠ 7 - i mod 8 →
     Z.testbit (f x) (Z.of_nat k) = Z.testbit x (Z.of_nat k)) →
  ∀ j, held (mkBitField (<[i / 8 := f x]> (bf_bytes b)) (piece_count b)) j =
       if decide (i = j) then v else held b j.
Proof.
  intros Hwf Hi Hx Hv Hk j. unfold held, bit. simpl.
  pose proof (byte_in_range b i Hwf Hi).
  destruct (decide (i = j)) as [<-|Hne].
  { rewrite (proj2 (Nat.ltb_lt _ _) Hi), list_lookup_insert_eq by done. done. }
  f_equal. destruct (decide (i / 8 = j / 8)) as [Hd|Hd].
  - rewrite <-Hd, list_lookup_insert_eq, Hx by done. apply Hk; [lia|].
    intros E. apply Hne. by apply same_bit.
  - by rewrite list_lookup_insert_ne by done.
Qed.

Lemma wf_update b i y : wf b → byte_ok y →
  wf (mkBitField (<[i := y]> (bf_bytes b)) (piece_count b)).
Proof.
  intros [? Hb] Hy. split; simpl; [by rewrite length_insert|]. by apply Forall_insert.
Qed.

Lemma lookup_byte b i : wf b → i < piece_count b →
  ∃ x, bf_bytes b !! (i / 8) = Some x ∧ byte_ok x.
Proof.
  intros Hwf Hi. destruct (lookup_lt_is_Some_2 (bf_bytes b) (i / 8)) as [x Hx];
    [by apply byte_in_range|].
  exists x. split; [done|]. eapply Forall_lookup_1; [apply Hwf|done].
Qed.

(** [set] never panics on a well-formed bit field and adds exactly its piece. *)
Lemma set_spec b i : wf b →
  ∃ b', set b i = Some b' ∧ wf b' ∧ piece_count b' = piece_count b ∧
        ∀ j, held b' j = if decide (i = j) then i <? piece_count b else held b j.
Proof.
  intros Hwf. unfold set. destruct (Nat.leb_spec (piece_count b) i) as [Hi|Hi].
  { exists b. repeat split; try apply Hwf. intros j. case_decide; [subst|done].
    unfold held. by rewrite (proj2 (Nat.ltb_ge _ _) Hi). }
  destruct (lookup_byte b i) as (x & Hx & Hok); [done..|]. rewrite Hx. simpl.
  eexists. split; [done|]. split; [apply wf_update; auto with bqti|]. split; [done|].
  rewrite (proj2 (Nat.ltb_lt _ _) Hi).
  apply (held_update b i (λ x, Z.lor x (mask i))); [done..| |].
  - rewrite Z.lor_spec, mask_testbit, bool_decide_true by done. apply orb_true_r.
  - intros k ? ?. rewrite Z.lor_spec, mask_testbit, bool_decide_false by done.
    apply orb_false_r.
Qed.

Lemma unset_spec b i : wf b →
  ∃ b', unset b i = Some b' ∧ wf b' ∧ piece_count b' = piece_count b ∧
        ∀ j, held b' j = if decide (i = j) then false else held b j.
Proof.
  intros Hwf. unfold unset. destruct (Nat.leb_spec (piece_count b) i) as [Hi|Hi].
  { exists b. repeat split; try apply Hwf. intros j. case_decide; [subst|done].
    unfold held. by rewrite (proj2 (Nat.ltb_ge _ _) Hi). }
  destruct (lookup_byte b i) as (x & Hx & Hok); [done..|]. rewrite Hx. simpl.
  eexists. split; [done|]. split.
  { apply wf_update; [done|]. apply land_ok; [done|]. apply Z.lxor_nonneg.
    pose proof (mask_ok i). unfold byte_ok in *. lia. }
  split; [done|].
  apply (held_update b i (λ x, Z.land x (Z.lxor 255 (mask i)))); [done..| |].
  - rewrite Z.land_spec, lxor_255_testbit, mask_testbit, bool_decide_true by lia.
    apply andb_false_r.
  - intros k ? ?. rewrite Z.land_spec, lxor_255_testbit, mask_testbit,
      bool_decide_false by done. apply andb_true_r.
Qed.

(** The pieces held, in ascending order. *)
Definition pieces (b : BitField) : list nat := List.filter (held b) (seq 0 (piece_count b)).

Lemma available_pieces_spec b : wf b → available_pieces b = Some (pieces b).
Proof. intros. apply filter_opt_total. intros. by apply have_held. Qed.

Lemma count_spec b : wf b → count b = Some (length (pieces b)).
Proof.
  intros. unfold count. fold (available_pieces b). by rewrite available_pieces_spec.
Qed.

Lemma missing_pieces_spec b : wf b →
  missing_pieces b = Some (List.filter (negb ∘ held b) (seq 0 (piece_count b))).
Proof. intros. apply filter_opt_total. intros. by rewrite have_held. Qed.

Lemma is_complete_spec b : wf b →
  is_complete b = Some (bool_decide (pieces b = seq 0 (piece_count b))).
Proof.
  intros Hwf. unfold is_complete.
  rewrite (find_opt_total _ (negb ∘ held b)).
  2:{ intros. by rewrite have_held. }
  simpl. f_equal. pose proof (filter_length_split (held b) (seq 0 (piece_count b))) as Hl.
  fold (pieces b) in Hl. destruct (find _ _) eqn:E.
  - symmetry. apply bool_decide_eq_false. intros Hp. rewrite Hp in Hl.
    destruct (List.filter (negb ∘ held b) (seq 0 (piece_count b))) eqn:F; [|simpl in Hl; lia].
    apply find_None_filter in F. congruence.
  - symmetry. apply bool_decide_eq_true.
    unfold pieces. rewrite (filter_ext_elem _ (λ _, true)).
    + clear. induction (seq _ _) as [|x l IH]; simpl; congruence.
    + intros x Hx%list_elem_of_In. eapply find_none in E; [|done].
      simpl in E. by apply negb_false_iff in E.
Qed.

Lemma empty_wf n : wf (empty n).
Proof.
  split; simpl.
  - rewrite length_replicate. pose proof (Nat.div_mod_eq (n + 7) 8).
    pose proof (Nat.mod_upper_bound (n + 7) 8). lia.
  - apply Forall_replicate. unfold byte_ok. lia.
Qed.

Lemma empty_held n i : held (empty n) i = false.
Proof.
  unfold held, bit. simpl. destruct (replicate _ _ !! _) as [x|] eqn:E; simpl.
  - apply lookup_replicate in E as [-> _]. rewrite Z.bits_0. apply andb_false_r.
  - rewrite Z.bits_0. apply andb_false_r.
Qed.

(** The pieces of [self] that [other] lacks, as one filter over the pieces. *)
Definition wanted (self other : BitField) (i : nat) : bool :=
  (i <? piece_count self) && (bit self i && negb (bit other i)).

Lemma div_block k j : j < 8 → (k * 8 + j) / 8 = k ∧ (k * 8 + j) mod 8 = j.
Proof.
  intros. rewrite Nat.div_add_l, Nat.div_small, Nat.add_0_r by lia. split; [done|].
  rewrite Nat.add_comm, Nat.Div0.mod_add. by apply Nat.mod_small.
Qed.

Lemma difference_byte self other k l :
  (∀ j, j ∈ l → j < 8) →
  omap (λ bit_pos,
      let piece_index := k * 8 + bit_pos in
      if piece_count self <=? piece_index then None
      else if negb (Z.land (Z.land (default 0%Z (bf_bytes self !! k))
                      (Z.lxor 255 (default 0%Z (bf_bytes other !! k))))
                   (Z.shiftl 1 (Z.of_nat (7 - bit_pos))) =? 0)%Z
      then Some piece_index else None) l
  = List.filter (wanted self other) (map (Nat.add (k * 8)) l).
Proof.
  induction l as [|j l IH]; intros Hj; [done|]. cbn [map List.filter].
  rewrite <-IH by set_solver. assert (j < 8) as Hj8 by set_solver.
  destruct (div_block k j Hj8) as [Hd Hm]. simpl.
  unfold wanted at 1, bit. rewrite Hd, Hm, land_mask, Z.land_spec, lxor_255_testbit by lia.
  rewrite Nat.ltb_antisym. destruct (piece_count self <=? k * 8 + j); simpl; [done|].
  by destruct (_ && _).
Qed.

Lemma difference_blocks self other n :
  flat_map (λ byte_idx,
    let my_byte := default 0%Z (bf_bytes self !! byte_idx) in
    let their_byte := default 0%Z (bf_bytes other !! byte_idx) in
    let diff := Z.land my_byte (Z.lxor 255 their_byte) in
    omap (λ bit_pos,
      let piece_index := byte_idx * 8 + bit_pos in
      if piece_count self <=? piece_index then None
      else if negb (Z.land diff (Z.shiftl 1 (Z.of_nat (7 - bit_pos))) =? 0)%Z
      then Some piece_index else None)
      (seq 0 8)) (seq 0 n)
  = List.filter (wanted self other) (seq 0 (n * 8)).
Proof.
  induction n as [|n IH]; [done|].
  replace (S n) with (n + 1) by lia. rewrite seq_app, flat_map_app, IH.
  replace ((n + 1) * 8) with (n * 8 + 8) by lia. rewrite seq_app, List.filter_app.
  f_equal. change (seq (0 + n) 1) with [n]. cbn [flat_map]. rewrite app_nil_r.
  etransitivity; [apply difference_byte|].
  - intros j [_ Hj]%elem_of_seq. lia.
  - f_equal. etransitivity; [apply (fmap_add_seq (n * 8) 0 8)|]. f_equal. lia.
Qed.

Lemma difference_filter self other :
  difference self other =
  List.filter (wanted self other) (seq 0 (piece_count self)).
Proof.
  unfold difference. rewrite difference_blocks.
  set (len := max _ _). destruct (decide (piece_count self ≤ len * 8)).
  - apply filter_seq_extend; [done|]. intros i Hi. unfold wanted.
    by rewrite (proj2 (Nat.ltb_ge _ _) Hi).
  - symmetry. apply filter_seq_extend; [lia|]. intros i Hi. unfold wanted, bit.
    rewrite (lookup_ge_None_2 (bf_bytes self)).
    + simpl. rewrite Z.bits_0. apply andb_false_r.
    + apply (Nat.le_trans _ len); [lia|]. apply Nat.div_le_lower_bound; lia.
Qed.

Lemma elem_of_difference_iff self other i :
  i ∈ difference self other ↔
  i < piece_count self ∧ bit self i = true ∧ bit other i = false.
Proof.
  rewrite difference_filter, elem_of_filterb, elem_of_seq. unfold wanted.
  rewrite !andb_true_iff, negb_true_iff, Nat.ltb_lt. naive_solver lia.
Qed.

Lemma NoDup_difference self other : NoDup (difference self other).
Proof. rewrite difference_filter. apply NoDup_filterb, NoDup_seq. Qed.

Lemma bit_held b i : i < piece_count b → bit b i = held b i.
Proof. intros. unfold held. by rewrite (proj2 (Nat.ltb_lt _ _) H). Qed.

(** Setting a piece that is missing adds one to the pieces held. *)
Lemma pieces_set b b' i :
  piece_count b' = piece_count b → i < piece_count b → held b i = false →
  (∀ j, held b' j = if decide (i = j) then true else held b j) →
  length (pieces b') = S (length (pieces b)).
Proof.
  intros Hpc Hi Hf Hh. unfold pieces. rewrite Hpc.
  replace (seq 0 (piece_count b)) with (seq 0 i ++ seq i (piece_count b - i)) by
    (rewrite <-seq_app; f_equal; lia).
  replace (piece_count b - i) with (S (piece_count b - i - 1)) by lia.
  cbn [seq]. rewrite !List.filter_app, !length_app. cbn [List.filter].
  rewrite (Hh i), decide_True, Hf by done. simpl.
  rewrite (filter_ext_elem (held b') (held b) (seq 0 i)),
    (filter_ext_elem (held b') (held b) (seq (S i) _)); [lia| |];
    intros x [??]%elem_of_seq; rewrite Hh, decide_False by lia; done.
Qed.

Lemma pieces_full b : length (pieces b) = piece_count b ↔ pieces b = seq 0 (piece_count b).
Proof.
  split; [|intros ->; apply length_seq]. unfold pieces. intros H.
  pose proof (filter_length_split (held b) (seq 0 (piece_count b))) as Hs.
  rewrite H, length_seq in Hs.
  destruct (List.filter (negb ∘ held b) (seq 0 (piece_count b))) eqn:E; [|simpl in Hs; lia].
  rewrite (filter_ext_elem _ (λ _, true)).
  - clear. induction (seq _ _) as [|x l IH]; simpl; congruence.
  - intros x Hx. destruct (held b x) eqn:F; [done|]. exfalso.
    assert (x ∈ List.filter (negb ∘ held b) (seq 0 (piece_count b))) as Hin.
    { apply elem_of_filterb. simpl. by rewrite F. }
    rewrite E in Hin. set_solver.
Qed.

(** * Properties *)

(** On a bit field whose bytes cover its pieces neither [set] nor [unset]
    panics, both keep the bit field well formed, and afterwards [have] answers
    as before for every other piece, while the piece itself is held (if it is a
    piece of the torrent) after [set] and not held after [unset]. *)
Theorem set_unset_have (b : BitField) (i : nat) (Hwf : wf b) :
  (∃ b', set b i = Some b' ∧ wf b' ∧ piece_count b' = piece_count b ∧
     ∀ j, have b' j = if decide (i = j) then Some (i <? piece_count b) else have b j) ∧
  (∃ b', unset b i = Some b' ∧ wf b' ∧ piece_count b' = piece_count b ∧
     ∀ j, have b' j = if decide (i = j) then Some false else have b j).
Proof.
  split.
  - destruct (set_spec b i Hwf) as (b' & ? & Hwf' & ? & Hh). exists b'.
    repeat split; try apply Hwf'; auto. intros j.
    rewrite !have_held, Hh by done. by case_decide.
  - destruct (unset_spec b i Hwf) as (b' & ? & Hwf' & ? & Hh). exists b'.
    repeat split; try apply Hwf'; auto. intros j.
    rewrite !have_held, Hh by done. by case_decide.
Qed.

Lemma set_unset_have_witness :
  ∃ b', set (empty 10) 9 = Some b' ∧ have b' 9 = Some true ∧ have b' 8 = Some false.
Proof.
  destruct (set_unset_have (empty 10) 9) as [(b' & Hb & _ & _ & Hj) _].
  - apply empty_wf.
  - exists b'. repeat split; [exact Hb|rewrite Hj; reflexivity|rewrite Hj; reflexivity].
Defined.

(** C40: The byte-and-bit loop of [difference] yields, in ascending order and
    without repetition, exactly the pieces whose bit is set in the receiver's
    bytes and clear in the argument's, bytes that are absent being read as
    zero: it equals one filter over the piece indices.  It does so for every
    pair of byte strings, of whatever lengths, so it never panics. *)
Theorem difference_reference (self other : BitField) :
  difference self other =
    List.filter (λ i, bit self i && negb (bit other i)) (seq 0 (piece_count self)) ∧
  NoDup (difference self other).
Proof.
  split; [|apply NoDup_difference]. rewrite difference_filter.
  apply filter_ext_elem. intros i [_ Hi]%elem_of_seq. simpl in Hi. unfold wanted.
  by rewrite (proj2 (Nat.ltb_lt _ _) Hi).
Qed.

(** [is_complete] holds exactly when [count] is the number of pieces, and
    setting a piece that is missing raises [count] by exactly one. *)
Theorem count_complete (b : BitField) (Hwf : wf b) :
  (is_complete b = Some true ↔ count b = Some (piece_count b)) ∧
  ∀ i, i < piece_count b → have b i = Some false →
    ∃ b' n, set b i = Some b' ∧ count b = Some n ∧ count b' = Some (S n).
Proof.
  split.
  - rewrite is_complete_spec, count_spec, !(inj_iff Some), bool_decide_eq_true by done.
    symmetry. apply pieces_full.
  - intros i Hi Hf. rewrite have_held in Hf by done. injection Hf as Hf.
    destruct (set_spec b i Hwf) as (b' & Hset & Hwf' & Hpc & Hh).
    exists b', (length (pieces b)). split; [done|]. rewrite !count_spec by done.
    split; [done|]. f_equal. apply (pieces_set b b' i); try done.
    intros j. rewrite Hh. case_decide; [|done]. by apply Nat.ltb_lt.
Qed.

Lemma count_complete_witness :
  ∃ b' n, set (empty 3) 1 = Some b' ∧ count (empty 3) = Some n ∧ count b' = Some (S n).
Proof.
  apply (proj2 (count_complete (empty 3) (empty_wf 3)) 1); [cbn; lia|reflexivity].
Defined.

(** A bit field taken from the wire answers for a piece without panicking
    exactly when the received bytes reach that piece: [have], [set] and
    [unset] all panic on a piece of the torrent that lies beyond them, and on
    no other. *)
Theorem from_wire_panics (bytes : list Z) (n i : nat) :
  let b := from_wire bytes n in
  (have b i = None ↔ i < n ∧ length bytes ≤ i / 8) ∧
  (set b i = None ↔ i < n ∧ length bytes ≤ i / 8) ∧
  (unset b i = None ↔ i < n ∧ length bytes ≤ i / 8).
Proof.
  simpl. unfold have, set, unset, from_wire. simpl.
  destruct (Nat.leb_spec n i); [repeat split; intros; simplify_eq; lia|].
  rewrite <-lookup_ge_None. destruct (bytes !! (i / 8)); simpl; naive_solver.
Qed.
End BitField.
