(* ===== verification/Float.v ===== *)
(** The part of [f64] that the console output uses: non-negative numbers, made from
    integers, divided, multiplied, rounded and printed.

    A finite number is a mantissa of at most 53 bits and an exponent; an operation
    rounds the exact result to the nearest such number, ties to even.  Subnormal numbers
    and overflow are out of reach of quotients and products of 64-bit integers. *)

From stdpp Require Import pretty.
From S2P Require Import Prelude.
#[local] Open Scope Z_scope.

Inductive f64 := NaN | Inf | Fin (mantissa exponent : Z).

(** [n / d], rounded to the nearest integer, ties to even. *)
Definition round_even (n d : Z) : Z :=
  let q := n / d in
  let r := n mod d in
  if 2 * r <? d then q else if d <? 2 * r then q + 1 else if Z.even q then q else q + 1.

(** The exponent for which [n / d] has 53 bits before the point. *)
Definition exponent_of (n d : Z) : Z :=
  let k := Z.log2 n - Z.log2 d in
  if d * 2 ^ Z.max 0 k <=? n * 2 ^ Z.max 0 (- k) then k - 52 else k - 53.

(** The number nearest to [n / d]. *)
Definition nearest (n d : Z) : f64 :=
  if n =? 0 then Fin 0 0
  else let e := exponent_of n d in
       Fin (round_even (n * 2 ^ Z.max 0 (- e)) (d * 2 ^ Z.max 0 e)) e.

(** [n as f64] *)
Definition of_u64 (n : Z) : f64 := nearest n 1.

(** [a / b] and [a * b] *)
Definition fdiv (a b : f64) : f64 :=
  match a, b with
  | Fin m e, Fin m' e' =>
    if m' =? 0 then (if m =? 0 then NaN else Inf)
    else nearest (m * 2 ^ Z.max 0 (e - e')) (m' * 2 ^ Z.max 0 (e' - e))
  | Inf, Fin _ _ => Inf
  | Fin _ _, Inf => Fin 0 0
  | _, _ => NaN
  end.
Definition fmul (a b : f64) : f64 :=
  match a, b with
  | Fin m e, Fin m' e' =>
    let x := e + e' in nearest (m * m' * 2 ^ Z.max 0 x) (2 ^ Z.max 0 (- x))
  | Inf, Fin m _ | Fin m _, Inf => if m =? 0 then NaN else Inf
  | Inf, Inf => Inf
  | _, _ => NaN
  end.

(** [a.round() as u64]: ties away from zero; what does not fit saturates, and NaN is 0. *)
Definition round_u64 (a : f64) : Z :=
  match a with
  | NaN => 0
  | Inf => 2 ^ 64 - 1
  | Fin m e =>
    Z.min (2 ^ 64 - 1)
      (if 0 <=? e then m * 2 ^ e else (2 * m + 2 ^ (- e)) / (2 * 2 ^ (- e)))
  end.

(** Digits on the left of which zeros are put. *)
Fixpoint zeros (n : nat) : string := match n with O => "" | S n => "0" +:+ zeros n end.
Definition pad0 (w : nat) (s : string) : string := zeros (w - String.length s) +:+ s.

(** [format!("{:.p}", a)]: the exact value to [p] places, ties to even. *)
Definition hundredths (p : Z) (a : f64) : Z :=
  match a with
  | Fin m e => round_even (m * 10 ^ p * 2 ^ Z.max 0 e) (2 ^ Z.max 0 (- e))
  | _ => 0
  end.
Definition print_fixed (p : Z) (q : Z) : string :=
  pretty (q / 10 ^ p) +:+ "." +:+ pad0 (Z.to_nat p) (pretty (q mod 10 ^ p)).
Definition to_fixed (p : Z) (a : f64) : string :=
  match a with NaN => "NaN" | Inf => "inf" | Fin _ _ => print_fixed p (hundredths p a) end.

(** * Lemmas *)

Lemma pow_pos a : 0 < 2 ^ Z.max 0 a.
Proof. apply Z.pow_pos_nonneg; lia. Qed.

Lemma round_even_le n d k : 0 < d -> n <= k * d -> round_even n d <= k.
Proof.
  intros Hd Hn. unfold round_even. cbv zeta.
  pose proof (Z.div_mod n d ltac:(lia)). pose proof (Z.mod_pos_bound n d Hd).
  destruct (Z.ltb_spec (2 * (n mod d)) d); [nia|].
  assert (n / d < k) by nia. destruct (_ <? _); [lia|]. destruct (Z.even _); lia.
Qed.

Lemma round_even_exact n d k : 0 < d -> n = k * d -> round_even n d = k.
Proof.
  intros Hd ->. unfold round_even. cbv zeta. rewrite Z.div_mul, Z.mod_mul by lia.
  destruct (Z.ltb_spec (2 * 0) d); lia.
Qed.

Lemma round_even_nonneg n d : 0 < d -> 0 <= n -> 0 <= round_even n d.
Proof.
  intros Hd Hn. unfold round_even. cbv zeta. pose proof (Z.div_pos n d Hn Hd).
  destruct (_ <? _); [done|]. destruct (_ <? _); [lia|]. destruct (Z.even _); lia.
Qed.

(** Scaling both sides changes nothing. *)
Lemma round_even_scale n d c : 0 < d -> 0 < c -> round_even (n * c) (d * c) = round_even n d.
Proof.
  intros Hd Hc. unfold round_even. cbv zeta.
  rewrite Z.div_mul_cancel_r, Z.mul_mod_distr_r by lia.
  replace (2 * (n mod d * c) <? d * c) with (2 * (n mod d) <? d)
    by (destruct (Z.ltb_spec (2 * (n mod d)) d), (Z.ltb_spec (2 * (n mod d * c)) (d * c)); nia).
  replace (d * c <? 2 * (n mod d * c)) with (d <? 2 * (n mod d))
    by (destruct (Z.ltb_spec d (2 * (n mod d))), (Z.ltb_spec (d * c) (2 * (n mod d * c))); nia).
  done.
Qed.

(** [d * 2^k <= n], with the power on the side where its exponent is not negative. *)
Lemma shift_le n d k s : 0 <= s -> 0 <= s + k ->
  d * 2 ^ Z.max 0 k <= n * 2 ^ Z.max 0 (- k) <-> d * 2 ^ (s + k) <= n * 2 ^ s.
Proof.
  intros Hs Hk. assert (exists c, 0 <= c /\ s = Z.max 0 (- k) + c /\ s + k = Z.max 0 k + c)
    as (c & Hc & Es & Ek) by (exists (s - Z.max 0 (- k)); lia).
  rewrite Ek, Es, !Z.pow_add_r by lia. assert (0 < 2 ^ c) by (apply Z.pow_pos_nonneg; lia).
  rewrite !Z.mul_assoc. split; intros; nia.
Qed.

(** The exponent leaves at least 53 bits, and at most 53 of a number that has no more. *)
Lemma exponent_lower n d : 0 < n -> 0 < d ->
  let e := exponent_of n d in 2 ^ 52 * d * 2 ^ Z.max 0 e <= n * 2 ^ Z.max 0 (- e).
Proof.
  intros Hn Hd. cbv zeta. unfold exponent_of. cbv zeta.
  remember (Z.log2 n - Z.log2 d) as k eqn:Ek. remember (Z.abs k + 64) as s eqn:Es.
  destruct (Z.leb_spec (d * 2 ^ Z.max 0 k) (n * 2 ^ Z.max 0 (- k))) as [Hb|Hb].
  - apply (shift_le n d k s) in Hb; [|lia..]. apply (shift_le n (2 ^ 52 * d) (k - 52) s); [lia..|].
    replace (2 ^ 52 * d * 2 ^ (s + (k - 52))) with (d * 2 ^ (s + k)); [done|].
    replace (s + k) with (52 + (s + (k - 52))) by lia. rewrite Z.pow_add_r by lia. ring.
  - apply (shift_le n (2 ^ 52 * d) (k - 53) s); [lia..|].
    replace (2 ^ 52 * d * 2 ^ (s + (k - 53))) with (d * 2 ^ (s + k - 1))
      by (replace (s + k - 1) with (52 + (s + (k - 53))) by lia; rewrite Z.pow_add_r by lia; ring).
    pose proof (Z.log2_spec n Hn) as [Hln _]. pose proof (Z.log2_spec d Hd) as [_ Hld].
    pose proof (Z.log2_nonneg n). pose proof (Z.log2_nonneg d).
    transitivity (2 ^ (Z.log2 d + 1) * 2 ^ (s + k - 1));
      [apply Z.mul_le_mono_nonneg_r; [apply Z.pow_nonneg; lia|lia]|].
    rewrite <-Z.pow_add_r by lia. replace (Z.log2 d + 1 + (s + k - 1)) with (Z.log2 n + s) by lia.
    rewrite Z.pow_add_r by lia. apply Z.mul_le_mono_nonneg_r; [apply Z.pow_nonneg; lia|done].
Qed.

Lemma exponent_small n d : 0 < n -> 0 < d -> n < 2 ^ 53 * d -> exponent_of n d <= 0.
Proof.
  intros Hn Hd Hlt. pose proof (exponent_lower n d Hn Hd) as He. cbv zeta in He.
  destruct (Z.le_gt_cases (exponent_of n d) 0) as [|Hp]; [done|exfalso].
  rewrite (Z.max_r 0 (exponent_of n d)), (Z.max_l 0 (- exponent_of n d)) in He by lia.
  assert (2 ^ 1 <= 2 ^ exponent_of n d) by (apply Z.pow_le_mono_r; lia). nia.
Qed.

(** A quotient of at most [k] is at most [k] after rounding. *)
Lemma nearest_le n d k : 0 <= n -> 0 < d -> 0 <= k < 2 ^ 53 -> n <= k * d ->
  exists m e, nearest n d = Fin m e /\ e <= 0 /\ 0 <= m <= k * 2 ^ (- e).
Proof.
  intros Hn Hd Hk Hle. unfold nearest. destruct (Z.eqb_spec n 0); [exists 0, 0; split; [done|cbn; lia]|].
  eexists _, _. split; [reflexivity|]. assert (exponent_of n d <= 0) as He.
  { apply exponent_small; [lia|done|]. apply (Z.le_lt_trans _ (k * d)); [done|].
    apply Z.mul_lt_mono_pos_r; lia. }
  rewrite (Z.max_l 0 (exponent_of n d)), (Z.max_r 0 (- exponent_of n d)) by lia.
  split; [done|]. pose proof (Z.pow_nonneg 2 (- exponent_of n d) ltac:(lia)).
  split; [apply round_even_nonneg; lia|]. apply round_even_le; nia.
Qed.

(** A number of at most 53 bits over a power of two is exact. *)
Lemma nearest_dyadic n d b j c : 0 < b < 2 ^ 53 -> 0 <= j -> 0 < c -> n = b * c -> d = 2 ^ j * c ->
  exists e, nearest n d = Fin (b * 2 ^ (- e - j)) e /\ e <= - j.
Proof.
  intros Hb Hj Hc -> ->. assert (0 < 2 ^ j) by (apply Z.pow_pos_nonneg; lia).
  assert (0 < b * c) by nia. assert (0 < 2 ^ j * c) by nia.
  unfold nearest. destruct (Z.eqb_spec (b * c) 0); [lia|]. set (e := exponent_of _ _).
  assert (e <= 0) as He.
  { apply exponent_small; [done|done|]. rewrite Z.mul_assoc. apply Z.mul_lt_mono_pos_r; nia. }
  pose proof (exponent_lower (b * c) (2 ^ j * c) ltac:(lia) ltac:(lia)) as Hl. cbv zeta in Hl. fold e in Hl.
  rewrite (Z.max_l 0 e), (Z.max_r 0 (- e)) in * by lia.
  assert (2 ^ 52 * 2 ^ j <= b * 2 ^ (- e)) as Hl' by (rewrite Z.pow_0_r in Hl; nia).
  assert (j <= - e) as Hje.
  { destruct (Z.le_gt_cases j (- e)) as [|Hgt]; [done|exfalso].
    assert (2 ^ (- e) * 2 <= 2 ^ j)
      by (change 2 with (2 ^ 1) at 2; rewrite <-Z.pow_add_r by lia; apply Z.pow_le_mono_r; lia). nia. }
  exists e. split; [|lia]. f_equal. apply round_even_exact; [lia|].
  replace (- e) with (- e - j + j) at 1 by lia. rewrite Z.pow_add_r by lia. ring.
Qed.

Lemma of_u64_exact n : 0 <= n < 2 ^ 53 -> exists e, e <= 0 /\ of_u64 n = Fin (n * 2 ^ (- e)) e.
Proof.
  intros Hn. unfold of_u64, nearest. destruct (Z.eqb_spec n 0) as [->|]; [by exists 0|].
  exists (exponent_of n 1). assert (exponent_of n 1 <= 0) by (apply exponent_small; lia).
  split; [done|]. f_equal. rewrite (Z.max_l 0 (exponent_of n 1)), (Z.max_r 0 (- exponent_of n 1)) by lia.
  apply round_even_exact; [done|ring].
Qed.

(** The quotient of two integers is the number nearest to their fraction. *)
Lemma fdiv_u64 c t : 0 <= c < 2 ^ 53 -> 0 < t < 2 ^ 53 ->
  exists x, 0 < x /\ fdiv (of_u64 c) (of_u64 t) = nearest (c * x) (t * x).
Proof.
  intros Hc Ht. destruct (of_u64_exact c) as (e & He & ->); [done|].
  destruct (of_u64_exact t) as (e' & He' & ->); [lia|]. cbn [fdiv].
  pose proof (pow_pos (- e')) as Hp. rewrite Z.max_r in Hp by lia.
  destruct (Z.eqb_spec (t * 2 ^ (- e')) 0); [nia|]. exists (2 ^ Z.max (- e) (- e')).
  split; [apply Z.pow_pos_nonneg; lia|].
  rewrite <-!Z.mul_assoc, <-!Z.pow_add_r by lia.
  replace (- e + Z.max 0 (e - e')) with (Z.max (- e) (- e')) by lia.
  by replace (- e' + Z.max 0 (e' - e)) with (Z.max (- e) (- e')) by lia.
Qed.

(** [c / t * w], the share [c] of [t] on a scale up to [w]. *)
Definition share (c t w : Z) : Z := round_u64 (fmul (fdiv (of_u64 c) (of_u64 t)) (of_u64 w)).

Lemma round_le m e w : e <= 0 -> 0 <= m <= w * 2 ^ (- e) -> 0 <= round_u64 (Fin m e) <= w.
Proof.
  intros He Hm. pose proof (pow_pos (- e)) as Hp. rewrite Z.max_r in Hp by lia. cbn [round_u64].
  destruct (Z.leb_spec 0 e) as [H0|H0].
  - assert (e = 0) as -> by lia. cbn in *. lia.
  - assert (0 <= (2 * m + 2 ^ (- e)) / (2 * 2 ^ (- e)) <= w); [|lia]. split; [apply Z.div_pos; lia|].
    apply Z.lt_succ_r, Z.div_lt_upper_bound; nia.
Qed.

Lemma round_exact w e : e <= 0 -> 0 <= w < 2 ^ 64 -> round_u64 (Fin (w * 2 ^ (- e)) e) = w.
Proof.
  intros He Hw. pose proof (pow_pos (- e)) as Hp. rewrite Z.max_r in Hp by lia. cbn [round_u64].
  destruct (Z.leb_spec 0 e) as [H0|H0].
  - assert (e = 0) as -> by lia. cbn. lia.
  - replace (2 * (w * 2 ^ (- e)) + 2 ^ (- e)) with (2 ^ (- e) + w * (2 * 2 ^ (- e))) by ring.
    rewrite Z.div_add, Z.div_small by lia. lia.
Qed.

(** The share is never more than the whole, nothing of nothing, and all of all. *)
Lemma share_le c t w : 0 <= c <= t -> 0 < t < 2 ^ 53 -> 0 <= w < 2 ^ 53 -> 0 <= share c t w <= w.
Proof.
  intros Hc Ht Hw. unfold share. destruct (fdiv_u64 c t) as (x & Hx & ->); [lia..|].
  destruct (nearest_le (c * x) (t * x) 1) as (m & e & -> & He & Hm); [nia..|].
  destruct (of_u64_exact w) as (e' & He' & ->); [done|]. cbn [fmul].
  rewrite (Z.max_l 0 (e + e')), (Z.max_r 0 (- (e + e'))) by lia.
  pose proof (pow_pos (- e)) as Hp. pose proof (pow_pos (- e')) as Hp'. rewrite Z.max_r in Hp, Hp' by lia.
  destruct (nearest_le (m * (w * 2 ^ (- e')) * 2 ^ 0) (2 ^ (- (e + e'))) w) as (m2 & e2 & -> & He2 & Hm2).
  - nia.
  - apply Z.pow_pos_nonneg; lia.
  - done.
  - replace (- (e + e')) with (- e + - e') by lia. rewrite Z.pow_add_r by lia. nia.
  - by apply round_le.
Qed.

Lemma share_none t w : 0 < t < 2 ^ 53 -> 0 <= w < 2 ^ 53 -> share 0 t w = 0.
Proof.
  intros Ht Hw. unfold share. destruct (fdiv_u64 0 t) as (x & Hx & ->); [lia..|].
  destruct (of_u64_exact w) as (e' & He' & ->); [done|]. done.
Qed.

Lemma share_all t w : 0 < t < 2 ^ 53 -> 0 <= w < 2 ^ 53 -> share t t w = w.
Proof.
  intros Ht Hw. unfold share. destruct (fdiv_u64 t t) as (x & Hx & ->); [lia..|].
  destruct (nearest_dyadic (t * x) (t * x) 1 0 (t * x)) as (e & -> & He); [lia..|nia|ring|ring|].
  rewrite Z.sub_0_r, Z.mul_1_l. destruct (of_u64_exact w) as (e' & He' & ->); [lia|]. cbn [fmul].
  rewrite (Z.max_l 0 (e + e')), (Z.max_r 0 (- (e + e'))) by lia. destruct (Z.eq_dec w 0) as [->|Hw0].
  { by replace (2 ^ (- e) * (0 * 2 ^ (- e')) * 2 ^ 0) with 0 by ring. }
  assert (0 < 2 ^ (- (e + e'))) as Hp by (apply Z.pow_pos_nonneg; lia).
  destruct (nearest_dyadic (2 ^ (- e) * (w * 2 ^ (- e')) * 2 ^ 0) (2 ^ (- (e + e'))) w 0 (2 ^ (- (e + e'))))
    as (e2 & -> & He2).
  - lia.
  - done.
  - done.
  - replace (- (e + e')) with (- e + - e') by lia. rewrite Z.pow_add_r by lia. ring.
  - by rewrite Z.pow_0_r, Z.mul_1_l.
  - rewrite Z.sub_0_r. apply round_exact; lia.
Qed.

(** ** Monotonicity *)

Lemma round_even_ge n d k : 0 < d -> k * d <= n -> k <= round_even n d.
Proof.
  intros Hd Hn. unfold round_even. cbv zeta. assert (k <= n / d) by (apply Z.div_le_lower_bound; lia).
  destruct (_ <? _); [done|]. destruct (_ <? _); [lia|]. destruct (Z.even _); lia.
Qed.

Lemma round_even_near n d : n / d <= round_even n d <= n / d + 1.
Proof.
  unfold round_even. cbv zeta. generalize (n / d) as q. intros q.
  destruct (_ <? _); [lia|]. destruct (_ <? _); [lia|]. destruct (Z.even _); lia.
Qed.

Lemma round_even_same n n' d : 0 < d -> n <= n' -> round_even n d <= round_even n' d.
Proof.
  intros Hd Hn. pose proof (round_even_near n d) as H1. pose proof (round_even_near n' d) as H2.
  pose proof (Z.div_le_mono n n' d Hd Hn) as Hq. apply Z.le_lteq in Hq as [Hq|Hq].
  { revert H1 H2 Hq. generalize (n / d) (n' / d) (round_even n d) (round_even n' d). lia. }
  assert (n mod d <= n' mod d) as Hr by (rewrite !Z.mod_eq by lia; lia).
  clear H1 H2. unfold round_even. cbv zeta. rewrite <-Hq. revert Hr.
  generalize (n / d) (n mod d) (n' mod d). intros q r r' Hr.
  destruct (Z.ltb_spec (2 * r) d), (Z.ltb_spec (2 * r') d); try lia;
    destruct (Z.ltb_spec d (2 * r)), (Z.ltb_spec d (2 * r')); try lia; destruct (Z.even q); lia.
Qed.

Lemma round_even_mono n d n' d' : 0 < d -> 0 < d' -> n * d' <= n' * d -> round_even n d <= round_even n' d'.
Proof.
  intros Hd Hd' Hn. rewrite <-(round_even_scale n d d'), <-(round_even_scale n' d' d), (Z.mul_comm d' d) by lia.
  apply round_even_same; nia.
Qed.

Lemma exponent_upper n d : 0 < n -> 0 < d ->
  let e := exponent_of n d in n * 2 ^ Z.max 0 (- e) < 2 ^ 53 * d * 2 ^ Z.max 0 e.
Proof.
  intros Hn Hd. cbv zeta. unfold exponent_of. cbv zeta.
  remember (Z.log2 n - Z.log2 d) as k eqn:Ek. remember (Z.abs k + 64) as s eqn:Es.
  apply Z.nle_gt. destruct (Z.leb_spec (d * 2 ^ Z.max 0 k) (n * 2 ^ Z.max 0 (- k))) as [Hb|Hb].
  - intros Hc. apply (shift_le n (2 ^ 53 * d) (k - 52) s) in Hc; [|lia..]. revert Hc. apply Z.nle_gt.
    replace (2 ^ 53 * d * 2 ^ (s + (k - 52))) with (d * 2 ^ (s + k + 1))
      by (replace (s + k + 1) with (53 + (s + (k - 52))) by lia; rewrite Z.pow_add_r by lia; ring).
    pose proof (Z.log2_spec n Hn) as [_ Hln]. pose proof (Z.log2_spec d Hd) as [Hld _].
    pose proof (Z.log2_nonneg n). pose proof (Z.log2_nonneg d).
    apply (Z.lt_le_trans _ (2 ^ (Z.log2 n + 1) * 2 ^ s));
      [apply Z.mul_lt_mono_pos_r; [apply Z.pow_pos_nonneg; lia|lia]|].
    rewrite <-Z.pow_add_r by lia. replace (Z.log2 n + 1 + s) with (Z.log2 d + (s + k + 1)) by lia.
    rewrite Z.pow_add_r by lia. apply Z.mul_le_mono_nonneg_r; [apply Z.pow_nonneg; lia|done].
  - intros Hc. revert Hb. apply Z.nlt_ge. apply (shift_le n d k s); [lia..|].
    apply (shift_le n (2 ^ 53 * d) (k - 53) s) in Hc; [|lia..].
    replace (d * 2 ^ (s + k)) with (2 ^ 53 * d * 2 ^ (s + (k - 53))); [done|].
    replace (s + k) with (53 + (s + (k - 53))) by lia. rewrite (Z.pow_add_r 2 53) by lia. ring.
Qed.

(** The order of two finite numbers. *)
Definition fin_le (a b : f64) : Prop :=
  match a, b with
  | Fin m e, Fin m' e' => m * 2 ^ Z.max 0 (e - e') <= m' * 2 ^ Z.max 0 (e' - e)
  | _, _ => False
  end.

Lemma exponent_mono n d n' d' : 0 < n -> 0 < d -> 0 < n' -> 0 < d' -> n * d' <= n' * d ->
  exponent_of n d <= exponent_of n' d'.
Proof.
  intros Hn Hd Hn' Hd' Hle. pose proof (exponent_lower n d Hn Hd) as Hl.
  pose proof (exponent_upper n' d' Hn' Hd') as Hu. cbv zeta in Hl, Hu.
  set (e := exponent_of n d) in *. set (e' := exponent_of n' d') in *.
  destruct (Z.le_gt_cases e e') as [|Hgt]; [done|exfalso].
  assert (exists s, 0 <= s /\ 0 <= s + e /\ 0 <= s + e') as (s & Hs & Hse & Hse')
    by (exists (Z.abs e + Z.abs e'); lia).
  apply (shift_le n (2 ^ 52 * d) e s) in Hl; [|done..].
  assert (n' * 2 ^ s < 2 ^ 53 * d' * 2 ^ (s + e')) as Hu'
    by (apply Z.nle_gt; intros Hc; apply (shift_le n' (2 ^ 53 * d') e' s) in Hc; lia).
  assert (2 ^ (s + e') * 2 <= 2 ^ (s + e)) as Hp
    by (replace (2 ^ (s + e') * 2) with (2 ^ (s + e' + 1)) by (rewrite Z.pow_add_r by lia; ring);
        apply Z.pow_le_mono_r; lia).
  assert (0 < 2 ^ s) as Hps by (apply Z.pow_pos_nonneg; lia).
  assert (n * d' * 2 ^ s < n' * d * 2 ^ s + 1) by nia.
  assert (2 ^ 53 * (d * d') * 2 ^ (s + e') <= n * d' * 2 ^ s) by nia.
  assert (n' * d * 2 ^ s < 2 ^ 53 * (d * d') * 2 ^ (s + e')) by nia. lia.
Qed.

Lemma nearest_mono n d n' d' : 0 <= n -> 0 < d -> 0 <= n' -> 0 < d' -> n * d' <= n' * d ->
  fin_le (nearest n d) (nearest n' d').
Proof.
  intros Hn Hd Hn' Hd' Hle. unfold nearest. destruct (Z.eqb_spec n 0) as [->|Hn0].
  { destruct (Z.eqb_spec n' 0); cbn [fin_le]; [done|]. rewrite Z.mul_0_l.
    apply Z.mul_nonneg_nonneg; [|apply Z.pow_nonneg; lia].
    apply round_even_nonneg; [apply Z.mul_pos_pos; [done|apply pow_pos]|].
    apply Z.mul_nonneg_nonneg; [done|apply Z.pow_nonneg; lia]. }
  destruct (Z.eqb_spec n' 0) as [->|Hn0']; [nia|]. cbn [fin_le].
  pose proof (exponent_mono n d n' d' ltac:(lia) Hd ltac:(lia) Hd' Hle) as He.
  pose proof (exponent_upper n d ltac:(lia) Hd) as Hu. pose proof (exponent_lower n' d' ltac:(lia) Hd') as Hl.
  cbv zeta in Hu, Hl. set (e := exponent_of n d) in *. set (e' := exponent_of n' d') in *.
  pose proof (pow_pos e). pose proof (pow_pos e'). pose proof (pow_pos (- e)). pose proof (pow_pos (- e')).
  rewrite (Z.max_l 0 (e - e')), Z.pow_0_r, Z.mul_1_r, (Z.max_r 0 (e' - e)) by lia.
  destruct (Z.eq_dec e e') as [Ee|Hne].
  - rewrite Ee in *. rewrite Z.sub_diag, Z.pow_0_r, Z.mul_1_r. apply round_even_mono; nia.
  - transitivity (2 ^ 53); [apply round_even_le; nia|].
    assert (2 ^ 1 <= 2 ^ (e' - e)) by (apply Z.pow_le_mono_r; lia).
    assert (2 ^ 52 <= round_even (n' * 2 ^ Z.max 0 (- e')) (d' * 2 ^ Z.max 0 e'))
      by (apply round_even_ge; nia). nia.
Qed.

Lemma round_u64_low m e : e <= 0 ->
  round_u64 (Fin m e) = Z.min (2 ^ 64 - 1) ((2 * m + 2 ^ (- e)) / (2 * 2 ^ (- e))).
Proof.
  intros He. cbn [round_u64]. destruct (Z.leb_spec 0 e); [|done]. assert (e = 0) as -> by lia.
  f_equal. cbn [Z.opp]. rewrite !Z.pow_0_r, !Z.mul_1_r.
  rewrite (Z.mul_comm 2 m), Z.add_comm, Z.div_add by lia. done.
Qed.

Lemma round_u64_mono m e m' e' : e <= 0 -> e' <= 0 ->
  m * 2 ^ (- e') <= m' * 2 ^ (- e) -> round_u64 (Fin m e) <= round_u64 (Fin m' e').
Proof.
  intros He He' Hm. rewrite !round_u64_low by done.
  pose proof (pow_pos (- e)) as Hp. pose proof (pow_pos (- e')) as Hp'. rewrite Z.max_r in Hp, Hp' by lia.
  apply Z.min_le_compat_l. rewrite <-(Z.div_mul_cancel_r _ (2 * 2 ^ (- e)) (2 ^ (- e'))) by lia.
  rewrite <-(Z.div_mul_cancel_r _ (2 * 2 ^ (- e')) (2 ^ (- e))) by lia.
  replace (2 * 2 ^ (- e') * 2 ^ (- e)) with (2 * 2 ^ (- e) * 2 ^ (- e')) by ring.
  apply Z.div_le_mono; nia.
Qed.

Lemma fin_le_low m e m' e' : e <= 0 -> e' <= 0 ->
  fin_le (Fin m e) (Fin m' e') -> m * 2 ^ (- e') <= m' * 2 ^ (- e).
Proof.
  intros He He'. cbn [fin_le]. intros Hm.
  replace (- e') with (Z.max 0 (e - e') + (- Z.max e e')) by lia.
  replace (- e) with (Z.max 0 (e' - e) + (- Z.max e e')) by lia. rewrite !Z.pow_add_r by lia.
  assert (0 < 2 ^ (- Z.max e e')) by (apply Z.pow_pos_nonneg; lia). nia.
Qed.

(** More of the whole is no smaller a share. *)
Lemma share_mono c c' t w : 0 <= c <= c' -> c' <= t -> 0 < t < 2 ^ 53 -> 0 <= w < 2 ^ 53 ->
  share c t w <= share c' t w.
Proof.
  intros Hc Hc' Ht Hw. unfold share.
  destruct (fdiv_u64 c t) as (x & Hx & ->); [lia..|]. destruct (fdiv_u64 c' t) as (x' & Hx' & ->); [lia..|].
  assert (fin_le (nearest (c * x) (t * x)) (nearest (c' * x') (t * x'))) as Hq.
  { apply nearest_mono; try nia. replace (c * x * (t * x')) with (c * (x * t * x')) by ring.
    replace (c' * x' * (t * x)) with (c' * (x * t * x')) by ring. apply Z.mul_le_mono_nonneg_r; nia. }
  revert Hq. destruct (nearest_le (c * x) (t * x) 1) as (m & e & -> & He & Hm); [nia..|].
  destruct (nearest_le (c' * x') (t * x') 1) as (m' & e' & -> & He' & Hm'); [nia..|].
  intros Hq%fin_le_low; [|done..]. destruct (of_u64_exact w) as (ew & Hew & ->); [done|]. cbn [fmul].
  rewrite (Z.max_l 0 (e + ew)), (Z.max_l 0 (e' + ew)), (Z.max_r 0 (- (e + ew))),
    (Z.max_r 0 (- (e' + ew))), Z.pow_0_r, !Z.mul_1_r by lia.
  replace (- (e + ew)) with (- e + - ew) by lia. replace (- (e' + ew)) with (- e' + - ew) by lia.
  rewrite !Z.pow_add_r by lia.
  pose proof (pow_pos (- e)) as Hp. pose proof (pow_pos (- e')) as Hp'. pose proof (pow_pos (- ew)) as Hpw.
  rewrite Z.max_r in Hp, Hp', Hpw by lia.
  set (W := w * 2 ^ (- ew)). assert (0 <= W) by nia.
  assert (fin_le (nearest (m * W) (2 ^ (- e) * 2 ^ (- ew))) (nearest (m' * W) (2 ^ (- e') * 2 ^ (- ew)))) as Hr.
  { apply nearest_mono; try nia. replace (m * W * (2 ^ (- e') * 2 ^ (- ew)))
      with (m * 2 ^ (- e') * (W * 2 ^ (- ew))) by ring.
    replace (m' * W * (2 ^ (- e) * 2 ^ (- ew))) with (m' * 2 ^ (- e) * (W * 2 ^ (- ew))) by ring.
    apply Z.mul_le_mono_nonneg_r; nia. }
  revert Hr. destruct (nearest_le (m * W) (2 ^ (- e) * 2 ^ (- ew)) w) as (m2 & e2 & -> & He2 & _); [nia..|].
  destruct (nearest_le (m' * W) (2 ^ (- e') * 2 ^ (- ew)) w) as (m3 & e3 & -> & He3 & _); [nia..|].
  intros Hr%fin_le_low; [|done..]. by apply round_u64_mono.
Qed.

(** The quotient by a power of two prints as the exact fraction does. *)
Lemma fixed_dyadic p b j : 0 <= p -> 0 < b < 2 ^ 53 -> 0 <= j < 53 ->
  to_fixed p (fdiv (of_u64 b) (of_u64 (2 ^ j))) = print_fixed p (round_even (b * 10 ^ p) (2 ^ j)).
Proof.
  intros Hp Hb Hj. assert (0 < 2 ^ j < 2 ^ 53) as Hjj
    by (split; [apply Z.pow_pos_nonneg|apply Z.pow_lt_mono_r]; lia).
  destruct (fdiv_u64 b (2 ^ j)) as (x & Hx & ->); [lia..|].
  destruct (nearest_dyadic (b * x) (2 ^ j * x) b j x) as (e & -> & He); [lia..|].
  cbn [to_fixed hundredths]. f_equal. rewrite (Z.max_l 0 e), (Z.max_r 0 (- e)) by lia.
  replace (- e) with (j + (- e - j)) at 2 by lia. rewrite Z.pow_add_r by lia.
  replace (b * 2 ^ (- e - j) * 10 ^ p * 2 ^ 0) with (b * 10 ^ p * 2 ^ (- e - j)) by ring.
  apply round_even_scale; [lia|apply Z.pow_pos_nonneg; lia].
Qed.

Module FloatExamples.
(** A third is rounded down, two thirds up, and a tie goes to the even neighbour. *)
Example thirds :
  to_fixed 4 (fdiv (of_u64 1) (of_u64 3)) = "0.3333" /\ to_fixed 4 (fdiv (of_u64 2) (of_u64 3)) = "0.6667" /\
  to_fixed 1 (fdiv (of_u64 1) (of_u64 4)) = "0.2" /\ of_u64 (2 ^ 53 + 1) = of_u64 (2 ^ 53).
Proof. by vm_compute. Qed.
End FloatExamples.
