(* ===== verification/Net.v ===== *)
(** Socket addresses and the text forms the program uses.

    [IpAddr] and [SocketAddr] are the standard library's types; their order is
    the derived one, so it is the lexicographic order of [addr_key].  The text
    syntax of addresses and the hexadecimal coding of byte strings are
    parameters: the classes [AddrText] and [Hex]. *)

From S2P Require Import Prelude.

Inductive IpAddr :=
| IpV4 (bits : Z)
| IpV6 (bits : Z).

Inductive SocketAddr :=
| SocketV4 (ip port : Z)
| SocketV6 (ip port flowinfo scope_id : Z).

Definition addr_ip (a : SocketAddr) : IpAddr :=
  match a with SocketV4 ip _ => IpV4 ip | SocketV6 ip _ _ _ => IpV6 ip end.

Definition addr_port (a : SocketAddr) : Z :=
  match a with SocketV4 _ port => port | SocketV6 _ port _ _ => port end.

#[export] Instance IpAddr_eq_dec : EqDecision IpAddr.
Proof. solve_decision. Defined.
#[export] Instance SocketAddr_eq_dec : EqDecision SocketAddr.
Proof. solve_decision. Defined.

Definition addr_key (a : SocketAddr) : list Z :=
  match a with
  | SocketV4 ip port => [0; ip; port]
  | SocketV6 ip port flowinfo scope_id => [1; ip; port; flowinfo; scope_id]
  end%Z.

Definition addr_of_key (k : list Z) : option SocketAddr :=
  match k with
  | [_; ip; port] => Some (SocketV4 ip port)
  | [_; ip; port; flowinfo; scope_id] => Some (SocketV6 ip port flowinfo scope_id)
  | _ => None
  end.

Lemma addr_of_key_key a : addr_of_key (addr_key a) = Some a.
Proof. by destruct a. Qed.

#[export] Instance SocketAddr_countable : Countable SocketAddr :=
  inj_countable addr_key addr_of_key addr_of_key_key.

(** Lexicographic comparison of sequences, as [Ord] for slices. *)
Fixpoint lex_compare (a b : list Z) : comparison :=
  match a, b with
  | [], [] => Eq
  | [], _ => Lt
  | _, [] => Gt
  | x :: a, y :: b =>
    match (x ?= y)%Z with Eq => lex_compare a b | c => c end
  end.

Definition lex_leb (a b : list Z) : bool :=
  match lex_compare a b with Gt => false | _ => true end.

Lemma lex_compare_refl a : lex_compare a a = Eq.
Proof. induction a; simpl; [done|]. by rewrite Z.compare_refl. Qed.

Lemma lex_compare_Eq a b : lex_compare a b = Eq → a = b.
Proof.
  revert b. induction a as [|x a IH]; intros [|y b]; simpl; try done.
  destruct (x ?= y)%Z eqn:E; try done. apply Z.compare_eq in E as ->.
  intros. f_equal. auto.
Qed.

Lemma lex_compare_antisym a b : lex_compare b a = CompOpp (lex_compare a b).
Proof.
  revert b. induction a as [|x a IH]; intros [|y b]; simpl; try done.
  rewrite Z.compare_antisym. destruct (x ?= y)%Z; simpl; auto.
Qed.

Lemma lex_leb_total a b : lex_leb a b = true ∨ lex_leb b a = true.
Proof.
  unfold lex_leb. rewrite (lex_compare_antisym a b).
  destruct (lex_compare a b); simpl; auto.
Qed.

Lemma lex_leb_trans a b c : lex_leb a b = true → lex_leb b c = true → lex_leb a c = true.
Proof.
  unfold lex_leb. revert b c. induction a as [|x a IH]; intros [|y b] [|z c]; simpl; try done.
  specialize (IH b c).
  destruct (Z.compare_spec x y), (Z.compare_spec y z), (Z.compare_spec x z);
    subst; try done; try lia; auto.
Qed.

Lemma lex_leb_antisym a b : lex_leb a b = true → lex_leb b a = true → a = b.
Proof.
  unfold lex_leb. rewrite (lex_compare_antisym a b).
  destruct (lex_compare a b) eqn:E; simpl; try done. intros. by apply lex_compare_Eq.
Qed.

(** [<] on socket addresses. *)
Definition addr_ltb (a b : SocketAddr) : bool :=
  match lex_compare (addr_key a) (addr_key b) with Lt => true | _ => false end.

Definition is_loopback (ip : IpAddr) : bool :=
  match ip with IpV4 b => (b / 2 ^ 24 =? 127)%Z | IpV6 b => (b =? 1)%Z end.

Definition is_unspecified (ip : IpAddr) : bool :=
  match ip with IpV4 b => (b =? 0)%Z | IpV6 b => (b =? 0)%Z end.

(** [octets()], big-endian. *)
Definition octets (ip : IpAddr) : list Z :=
  match ip with IpV4 b => be_bytes 4 b | IpV6 b => be_bytes 16 b end.

(** * Text *)

(** The text syntax of addresses: [SocketAddr]'s and [IpAddr]'s [Display] and
    [SocketAddr]'s [FromStr]. *)
Class AddrText := {
  show_socket : SocketAddr → string;
  show_ip : IpAddr → string;
  parse_socket : string → option SocketAddr;
}.

(** The [hex] crate. *)
Class Hex := {
  hex_encode : list Z → string;
  hex_decode : string → option (list Z);
}.

Class HexLaws `{Hex} : Prop := {
  hex_decode_encode bs : bytes_ok bs → hex_decode (hex_encode bs) = Some bs;
  hex_encode_length bs : String.length (hex_encode bs) = 2 * length bs;
  hex_decode_bytes s bs : hex_decode s = Some bs → bytes_ok bs;
}.

(** ** A concrete coding in lower-case hexadecimal *)

Module ToyHex.
Definition digit (d : Z) : Ascii.ascii :=
  Ascii.ascii_of_nat (Z.to_nat (if (d <? 10)%Z then 48 + d else 87 + d)).
Definition undigit (c : Ascii.ascii) : option Z :=
  let n := Z.of_nat (Ascii.nat_of_ascii c) in
  if ((48 <=? n) && (n <=? 57))%Z then Some (n - 48)%Z
  else if ((97 <=? n) && (n <=? 102))%Z then Some (n - 87)%Z else None.

Fixpoint encode (bs : list Z) : string :=
  match bs with
  | [] => ""
  | b :: bs => String (digit (b / 16)) (String (digit (b mod 16)) (encode bs))
  end.

Fixpoint decode (s : string) : option (list Z) :=
  match s with
  | "" => Some []
  | String c (String d s) =>
    x ← undigit c; y ← undigit d; r ← decode s; Some ((16 * x + y)%Z :: r)
  | _ => None
  end.

#[export] Instance hex : Hex := { hex_encode := encode; hex_decode := decode }.

Lemma undigit_digit d : (0 ≤ d < 16)%Z → undigit (digit d) = Some d.
Proof.
  intros Hd.
  assert (Forall (λ d, undigit (digit d) = Some d) (seqZ 0 16)) as H by
    (apply (bool_decide_unpack _); vm_compute; reflexivity).
  rewrite Forall_forall in H. apply H. apply elem_of_seqZ. lia.
Qed.

Lemma encode_length bs : String.length (encode bs) = 2 * length bs.
Proof. induction bs; simpl; lia. Qed.

Lemma undigit_bound c d : undigit c = Some d → (0 ≤ d < 16)%Z.
Proof.
  unfold undigit. intros Hd. repeat (case_match; simplify_eq); b2p; lia.
Qed.

Lemma decode_bytes s bs : decode s = Some bs → bytes_ok bs.
Proof.
  revert bs. induction s as [s IH] using (induction_ltof1 _ String.length).
  intros bs. destruct s as [|c [|d s]]; [intros [= <-]; constructor|done|]. cbn [decode].
  destruct (undigit c) as [x|] eqn:Ec; [|done]. destruct (undigit d) as [y|] eqn:Ed; [|done].
  destruct (decode s) as [r|] eqn:Es; [|done]. intros [= <-].
  apply undigit_bound in Ec, Ed. constructor; [unfold byte_ok; lia|].
  eapply IH; [|exact Es]. unfold ltof. cbn. lia.
Qed.

#[export] Instance hex_laws : HexLaws.
Proof.
  split; [|intros bs; simpl; by rewrite encode_length|exact decode_bytes].
  induction 1 as [|b bs Hb _ IH]; [done|]. simpl in *. unfold byte_ok in Hb.
  rewrite !undigit_digit.
  - simpl. rewrite IH. simpl. do 2 f_equal. rewrite (Z.div_mod b 16) at 3; lia.
  - split; [apply Z.div_pos; lia|]. apply Z.div_lt_upper_bound; lia.
  - apply Z.mod_pos_bound. lia.
Qed.
End ToyHex.
