(* ===== verification/Crypto.v ===== *)
(** Hashes and signatures: [src/bit_torrent/hasher.rs] and the traits of
    [src/bit_torrent/certs/mod.rs].

    The hash functions and the signature scheme are third-party code: they are
    the fields of the class [Crypto], and what the program relies on is the
    class [CryptoLaws] (digests have their documented length) and, for a signer,
    [SignerLaws] (a signature it makes has 64 bytes and verifies under its own
    public key).  [ToyCrypto] is an instance that satisfies the laws, used to
    evaluate the definitions on concrete inputs. *)

From S2P Require Import Prelude.

Class Crypto := {
  sha1 : list Z → list Z;
  sha256 : list Z → list Z;
  (** [signature::ED25519] verification: public key, message, signature. *)
  ed25519_verify : list Z → list Z → list Z → bool;
}.

Class CryptoLaws `{Crypto} : Prop := {
  sha1_length d : length (sha1 d) = 20;
  sha256_length d : length (sha256 d) = 32;
  sha1_bytes d : bytes_ok (sha1 d);
  sha256_bytes d : bytes_ok (sha256 d);
}.

(** src/src/bit_torrent/hasher.rs:4-12 [Sha1Hash::digest] *)
Definition Sha1Hash_digest `{Crypto} (data : list Z) : list Z := sha1 data.

(** src/src/bit_torrent/hasher.rs:41-49 [Sha256Hash::digest] *)
Definition Sha256Hash_digest `{Crypto} (data : list Z) : list Z := sha256 data.

(** src/src/bit_torrent/hasher.rs:18-20 [Sha1Hash::to_sha256_key] *)
Definition to_sha256_key `{Crypto} (h : list Z) : list Z := Sha256Hash_digest h.

(** src/src/bit_torrent/certs/mod.rs:26-37 [CertError] *)
Inductive CertError :=
| CertFailed
| CertRcgen
| CertTee.

(** src/src/bit_torrent/certs/mod.rs:39-45 [PublicKey, Signer]

    The two traits together: what a key pair offers the rest of the program. *)
Record Signer := mkSigner {
  signer_pub_key : list Z;
  signer_sign : list Z → Result CertError (list Z);
}.

(** src/src/bit_torrent/certs/soft.rs:100-105 [Verifier::verify] *)
Definition Verifier_verify `{Crypto} (pub_key data signature : list Z) : bool :=
  ed25519_verify pub_key data signature.

Class SignerLaws `{Crypto} (s : Signer) : Prop := {
  sign_verifies d sig :
    signer_sign s d = Ok sig → ed25519_verify (signer_pub_key s) d sig = true;
  sign_length d sig : signer_sign s d = Ok sig → length sig = 64;
}.

(** * A concrete instance *)

Module Toy.
Definition checksum (d : list Z) : Z := (foldr Z.add 0 d mod 256)%Z.

#[export] Instance ToyCrypto : Crypto := {
  sha1 d := replicate 20 (checksum d);
  sha256 d := replicate 32 (checksum d);
  ed25519_verify pk d sig := bool_decide (sig = replicate 64 (checksum (pk ++ d)));
}.

Lemma checksum_ok d : byte_ok (checksum d).
Proof. apply Z.mod_pos_bound. lia. Qed.

#[export] Instance ToyCryptoLaws : CryptoLaws.
Proof.
  split; intros d; [apply length_replicate|apply length_replicate|..];
    apply Forall_replicate, checksum_ok.
Qed.

Definition signer (pk : list Z) : Signer :=
  mkSigner pk (λ d, Ok (replicate 64 (checksum (pk ++ d)))).

#[export] Instance toy_signer_laws pk : SignerLaws (signer pk).
Proof.
  split; simpl; intros d sig [= <-].
  - by apply bool_decide_eq_true.
  - reflexivity.
Qed.
End Toy.
