(* ===== verification/Wire.v ===== *)
(** Framing of messages on a QUIC stream: [src/bit_torrent/network/message.rs],
    the stream handlers of [src/bit_torrent/network/connection.rs], and the
    signed piece payloads of [src/bit_torrent/session/bep/piece_auth.rs].

    A receive stream is the list of the bytes that the peer wrote before it
    finished the stream; [read_exact] fails when too few are left.  The texts
    of the transport's errors are not modelled. *)

From S2P Require Import Prelude Crypto.

(** * Messages *)

(** src/src/bit_torrent/network/message.rs:45-51 [Message] *)
Inductive Message :=
| KeepAlive
| DHT (payload : list Z)
| PEX (payload : list Z)
| Standard (payload : list Z).

#[export] Instance Message_eq_dec : EqDecision Message.
Proof. solve_decision. Defined.

(** src/src/bit_torrent/network/message.rs:6-10 [MessageError] *)
Inductive MessageError := ParseFailed.

Module Message.
(** src/src/bit_torrent/network/message.rs:54-70 [Message::to_bytes] *)
Definition to_bytes (self : Message) : list Z :=
  let frame (id : Z) (payload : list Z) :=
    let length := u32 (1 + Z.of_nat (length payload)) in
    be_bytes 4 length ++ [id] ++ payload in
  match self with
  | KeepAlive => [0; 0; 0; 0]%Z
  | DHT bytes => frame 100%Z bytes
  | PEX bytes => frame 20%Z bytes
  | Standard std_msg => frame 19%Z std_msg
  end.

(** src/src/bit_torrent/network/message.rs:72-83 [Message::from_bytes] *)
Definition from_bytes (id : Z) (payload : list Z) : Result MessageError Message :=
  if (id =? 20)%Z then Ok (PEX payload)
  else if (id =? 100)%Z then Ok (DHT payload)
  else if (id =? 19)%Z then Ok (Standard payload)
  else Err ParseFailed.
End Message.

(** A reply channel is named by a number. *)
Definition chan := nat.

Section packet.
Context {addr : Type}.

(** src/src/bit_torrent/network/message.rs:12-17 [Packet] *)
Record Packet := mkPacket {
  packet_message : Message;
  source_addr : addr;
  packet_reply : option chan;
}.

(** src/src/bit_torrent/network/message.rs:20-26 [Packet::new] *)
Definition Packet_new (message : Message) (source_addr : addr) : Packet :=
  mkPacket message source_addr None.

(** src/src/bit_torrent/network/message.rs:28-38 [Packet::with_reply] *)
Definition with_reply (message : Message) (source : addr) (reply : chan) : Packet :=
  mkPacket message source (Some reply).

(** src/src/bit_torrent/network/message.rs:40-42 [Packet::take_reply] *)
Definition take_reply (self : Packet) : Packet * option chan :=
  (mkPacket (packet_message self) (source_addr self) None, packet_reply self).
End packet.
Arguments Packet : clear implicits.

(** * Streams *)

(** src/src/bit_torrent/network/connection.rs:21-21 [BUFFER_SIZE] *)
Definition BUFFER_SIZE : Z := 1024 * 1024.

(** src/src/bit_torrent/network/connection.rs:24-40 [ConnectionError] *)
Inductive ConnectionError :=
| MessageLimit (len : Z)
| Io
| DispatcherClosed
| QuicConnectionError
| Protocol.

(** [quinn::RecvStream::read_exact]. *)
Definition read_exact (n : nat) (recv : list Z) : Result ConnectionError (list Z * list Z) :=
  if n <=? length recv then Ok (take n recv, drop n recv) else Err Protocol.

(** src/src/bit_torrent/network/connection.rs:220-251 [Connection::parse_incoming]

    The message and what is left of the stream. *)
Definition parse_incoming (recv : list Z) : Result ConnectionError (Message * list Z) :=
  let? (header, recv) := read_exact 4 recv in
  let length := of_be header in
  if (length =? 0)%Z then Ok (KeepAlive, recv)
  else if (BUFFER_SIZE <? length)%Z then Err (MessageLimit length)
  else
    let? (message_id, recv) := read_exact 1 recv in
    let payload_len := Z.to_nat (length - 1) in
    let? (payload_bytes, recv) := read_exact payload_len recv in
    let? message :=
      map_err (λ _, Protocol) (Message.from_bytes (default 0%Z (head message_id)) payload_bytes) in
    Ok (message, recv).

Section streams.
Context {addr : Type}.

(** src/src/bit_torrent/network/connection.rs:253-266 [Connection::handle_uni_stream]

    The packets handed to the dispatcher and the error that ends the loop;
    [accepts k] tells whether the dispatcher's channel is still open at the
    [k]-th send.  One fuel unit is one turn of the loop; every turn that goes
    on consumes at least four bytes, so [S (length recv)] turns are enough. *)
Fixpoint handle_uni_stream_loop (fuel : nat) (recv : list Z) (remote_addr : addr)
    (accepts : nat → bool) (k : nat) : option (list (Packet addr) * ConnectionError) :=
  match fuel with
  | O => None
  | S fuel =>
    match parse_incoming recv with
    | Err e => Some ([], e)
    | Ok (message, recv) =>
      if accepts k then
        '(ps, e) ← handle_uni_stream_loop fuel recv remote_addr accepts (S k);
        Some (Packet_new message remote_addr :: ps, e)
      else Some ([], DispatcherClosed)
    end
  end.

Definition handle_uni_stream (recv : list Z) (remote_addr : addr) (accepts : nat → bool)
    : option (list (Packet addr) * ConnectionError) :=
  handle_uni_stream_loop (S (length recv)) recv remote_addr accepts 0.

(** What the wait for the reply of a bidirectional stream can give: the
    connection is cancelled, the reply sender is dropped, or a reply comes. *)
Inductive ReplyOutcome :=
| Cancelled
| SenderDropped
| Replied (reply : list Z).

(** src/src/bit_torrent/network/connection.rs:268-299 [Connection::handle_bidi_stream]

    [open] is whether the dispatcher accepts the packet, [outcome] what the
    wait gives, [writes] and [finishes] whether the transport takes the
    reply.  The result is the packet dispatched, the bytes sent back and the
    function's result. *)
Definition handle_bidi_stream (recv : list Z) (remote_addr : addr) (reply : chan)
    (open : bool) (outcome : ReplyOutcome) (writes finishes : bool)
    : option (Packet addr) * list Z * Result ConnectionError unit :=
  match parse_incoming recv with
  | Err e => (None, [], Err e)
  | Ok (message, _) =>
    if open then
      let packet := with_reply message remote_addr reply in
      match outcome with
      | Cancelled | SenderDropped => (Some packet, [], Ok tt)
      | Replied reply =>
        if writes then (Some packet, reply, if finishes then Ok tt else Err Protocol)
        else (Some packet, [], Err Protocol)
      end
    else (None, [], Err DispatcherClosed)
  end.

(** src/src/bit_torrent/network/connection.rs:336-356 [Connection::request]

    [opened], [sent] and [finished] are the transport's answers; [response] is
    what the peer writes on the stream before finishing it. *)
Definition Connection_request (opened sent finished : bool) (response : list Z)
    : Result ConnectionError (list Z) :=
  if negb opened then Err Protocol
  else if negb sent then Err Protocol
  else if negb finished then Err Protocol
  else if (BUFFER_SIZE <? Z.of_nat (length response))%Z then Err Protocol
  else Ok response.
End streams.

(** * Lemmas *)

(** The frame sizes the receiver accepts. *)
Definition fits (m : Message) : Prop :=
  match m with
  | KeepAlive => True
  | DHT p | PEX p | Standard p => (1 + Z.of_nat (length p) ≤ BUFFER_SIZE)%Z
  end.

#[export] Instance fits_dec m : Decision (fits m).
Proof. destruct m; simpl; apply _. Defined.

Lemma read_exact_app n a b : length a = n → read_exact n (a ++ b) = Ok (a, b).
Proof.
  intros <-. unfold read_exact. rewrite length_app, (proj2 (Nat.leb_le _ _)) by lia.
  by rewrite take_app_length, drop_app_length.
Qed.

Lemma read_exact_Ok n s a b : read_exact n s = Ok (a, b) → s = a ++ b ∧ length a = n.
Proof.
  unfold read_exact. intros. break. b2p. rewrite take_drop, length_take. split; [done|lia].
Qed.

Lemma to_bytes_nonempty m : 4 ≤ length (Message.to_bytes m).
Proof. destruct m; simpl; lens. Qed.

Lemma parse_frame id payload rest m :
  (1 + Z.of_nat (length payload) ≤ BUFFER_SIZE)%Z →
  Message.from_bytes id payload = Ok m →
  parse_incoming (be_bytes 4 (u32 (1 + Z.of_nat (length payload))) ++ [id] ++ payload ++ rest)
  = Ok (m, rest).
Proof.
  intros Hfit Hid. unfold BUFFER_SIZE in *.
  unfold parse_incoming. rewrite (read_exact_app 4) by lens. cbn [rbind].
  rewrite wrap_small by lia. rewrite of_be_bytes by (change (256 ^ Z.of_nat 4)%Z with (2^32)%Z; lia).
  rewrite (proj2 (Z.eqb_neq _ _)), (proj2 (Z.ltb_ge _ _)) by (unfold BUFFER_SIZE; lia).
  rewrite (read_exact_app 1) by done. cbn [rbind].
  rewrite (read_exact_app _ payload rest) by lia. cbn [rbind].
  change (default 0%Z (head [id])) with id. by rewrite Hid.
Qed.

Lemma parse_to_bytes m rest : fits m → parse_incoming (Message.to_bytes m ++ rest) = Ok (m, rest).
Proof.
  destruct m as [|p|p|p]; intros Hf; [done|..]; cbn [Message.to_bytes];
    rewrite <-!app_assoc; by apply parse_frame.
Qed.

Lemma from_bytes_frame id p m : Message.from_bytes id p = Ok m →
  Message.to_bytes m = be_bytes 4 (u32 (1 + Z.of_nat (length p))) ++ [id] ++ p ∧
  (fits m ↔ (1 + Z.of_nat (length p) ≤ BUFFER_SIZE)%Z).
Proof. unfold Message.from_bytes. intros. break; b2p; by subst. Qed.

Lemma parse_sound s m rest : bytes_ok s → parse_incoming s = Ok (m, rest) →
  s = Message.to_bytes m ++ rest ∧ fits m.
Proof.
  intros Hok H. unfold parse_incoming in H.
  destruct (read_exact 4 s) as [[h s1]|] eqn:E1; [|done]. cbn [rbind] in H.
  apply read_exact_Ok in E1 as [-> Hh]. apply Forall_app in Hok as [Hokh Hok1].
  pose proof (be_bytes_of h Hokh) as Hbe. pose proof (of_be_range h Hokh) as Hr.
  rewrite Hh in Hbe, Hr. change (256 ^ Z.of_nat 4)%Z with (2 ^ 32)%Z in Hr.
  destruct (of_be h =? 0)%Z eqn:E0; b2p.
  { injection H as <- <-. rewrite E0 in Hbe. by rewrite <-Hbe. }
  destruct (BUFFER_SIZE <? of_be h)%Z eqn:E2; [done|]. b2p.
  destruct (read_exact 1 s1) as [[i s2]|] eqn:E3; [|done]. cbn [rbind] in H.
  apply read_exact_Ok in E3 as [-> Hi]. destruct i as [|i [|]]; try done.
  change (default 0%Z (head [i])) with i in H.
  destruct (read_exact _ s2) as [[p s3]|] eqn:E4; [|done]. cbn [rbind] in H.
  apply read_exact_Ok in E4 as [-> Hp].
  destruct (Message.from_bytes i p) as [m'|] eqn:E5; [|done]. simpl in H. injection H as <- <-.
  destruct (from_bytes_frame _ _ _ E5) as [-> Hf].
  assert (1 + Z.of_nat (length p) = of_be h)%Z as Hlen by lia.
  rewrite Hf, Hlen. split; [|done]. rewrite wrap_small by lia. rewrite Hbe.
  by rewrite <-!app_assoc.
Qed.

Lemma parse_consumes s m rest : parse_incoming s = Ok (m, rest) → length rest + 4 ≤ length s.
Proof.
  unfold parse_incoming. intros H.
  destruct (read_exact 4 s) as [[h s1]|] eqn:E1; [|done]. cbn [rbind] in H.
  apply read_exact_Ok in E1 as [-> Hh]. rewrite length_app.
  case_match; [simplify_eq; lia|]. case_match; [done|].
  destruct (read_exact 1 s1) as [[i s2]|] eqn:E3; [|done]. cbn [rbind] in H.
  destruct (read_exact _ s2) as [[p s3]|] eqn:E4; [|done]. cbn [rbind] in H.
  apply read_exact_Ok in E3 as [-> Hi], E4 as [-> Hp].
  destruct (map_err _ _); simpl in H; [|done]. simplify_eq. lens.
Qed.

(** * Properties of the framing *)

(** [parse_incoming] accepts a stream of bytes exactly when it starts with
    the encoding by [to_bytes] of a message whose frame is within the buffer
    limit, and then it returns that very message and leaves the stream just
    after it.  So decoding inverts encoding, no two messages share an
    encoding, and nothing that [to_bytes] does not produce is accepted. *)
Theorem parse_incoming_iff (s rest : list Z) (m : Message) (Hok : bytes_ok s) :
  parse_incoming s = Ok (m, rest) ↔ s = Message.to_bytes m ++ rest ∧ fits m.
Proof.
  split; [by apply parse_sound|]. intros [-> Hf]. by apply parse_to_bytes.
Qed.

Lemma parse_incoming_iff_witness :
  parse_incoming [0; 0; 0; 3; 100; 7; 9; 5]%Z = Ok (DHT [7; 9]%Z, [5]%Z).
Proof.
  apply parse_incoming_iff; [|split; [reflexivity|]].
  - apply (bool_decide_unpack _). vm_compute. reflexivity.
  - apply (bool_decide_unpack _). vm_compute. reflexivity.
Defined.

(** The reader of a unidirectional stream delivers every message of a
    concatenation of encodings, in order, and stops with a protocol error when
    the peer finishes the stream; it always stops, whatever the bytes are. *)
Theorem handle_uni_stream_delivers (addr : Type) (ms : list Message) (a : addr)
    (Hfit : Forall fits ms) :
  handle_uni_stream (concat (map Message.to_bytes ms)) a (λ _, true) =
    Some (map (λ m, Packet_new m a) ms, Protocol) ∧
  ∀ s accepts, ∃ ps e, handle_uni_stream s a accepts = Some (ps, e).
Proof.
  split.
  - unfold handle_uni_stream.
    assert (∀ fuel k, length (concat (map Message.to_bytes ms)) < fuel →
      handle_uni_stream_loop fuel (concat (map Message.to_bytes ms)) a (λ _, true) k =
        Some (map (λ m, Packet_new m a) ms, Protocol)) as H; [|apply H; lia].
    induction Hfit as [|m ms Hm _ IH]; intros [|fuel] k Hfuel; try lia; [done|].
    cbn [map concat handle_uni_stream_loop] in *. rewrite parse_to_bytes by done.
    pose proof (to_bytes_nonempty m). rewrite IH by lens. done.
  - intros s accepts. unfold handle_uni_stream. generalize 0 as k.
    assert (length s < S (length s)) as Hlt by lia. revert Hlt.
    generalize (S (length s)) as fuel. intros fuel. revert s.
    induction fuel as [|fuel IH]; intros s Hlt k; [lia|]. simpl.
    destruct (parse_incoming s) as [[m rest]|] eqn:E; [|eauto].
    apply parse_consumes in E. destruct (accepts k); [|eauto].
    destruct (IH rest) with (k := S k) as (ps & e & ->); [lia|]. simpl. eauto.
Qed.

Lemma handle_uni_stream_delivers_witness :
  handle_uni_stream (concat (map Message.to_bytes [KeepAlive; PEX [1]%Z])) 7 (λ _, true) =
    Some ([Packet_new KeepAlive 7; Packet_new (PEX [1]%Z) 7], Protocol).
Proof.
  apply (handle_uni_stream_delivers nat [KeepAlive; PEX [1]%Z] 7).
  apply (bool_decide_unpack _). vm_compute. reflexivity.
Defined.

(** * Signed pieces *)

(** src/src/bit_torrent/session/bep/piece_auth.rs:10-10 [SIGNATURE_LENGTH] *)
Definition SIGNATURE_LENGTH : nat := 64.

Section piece_auth.
Context `{Crypto}.

(** src/src/bit_torrent/session/bep/piece_auth.rs:12-20 [piece_hash] *)
Definition piece_hash (index : Z) (data : list Z) : list Z :=
  sha256 (le_bytes 4 index ++ data).

(** src/src/bit_torrent/session/bep/piece_auth.rs:33-45 [make_payload] *)
Definition make_payload {E} (index : Z) (data : list Z)
    (prover_sign : list Z → Result E (list Z)) : Result E (list Z) :=
  let hash := piece_hash index data in
  let? sig := prover_sign hash in
  Ok (data ++ sig).

(** src/src/bit_torrent/session/bep/piece_auth.rs:47-56 [split_payload] *)
Definition split_payload (payload : list Z) : option (list Z * list Z) :=
  if length payload <=? SIGNATURE_LENGTH then None
  else
    let at_ := length payload - SIGNATURE_LENGTH in
    let sig_bytes := drop at_ payload in
    if length sig_bytes =? SIGNATURE_LENGTH then Some (take at_ payload, sig_bytes) else None.

(** src/src/bit_torrent/session/bep/piece_auth.rs:58-60 [verify_piece] *)
Definition verify_piece (index : Z) (data sig pub_key : list Z) : bool :=
  Verifier_verify pub_key (piece_hash index data) sig.

Lemma split_payload_app data sig :
  length sig = SIGNATURE_LENGTH →
  split_payload (data ++ sig) = match data with [] => None | _ => Some (data, sig) end.
Proof.
  intros Hs. unfold split_payload. rewrite length_app, Hs.
  destruct data as [|d ds] eqn:E; [done|].
  rewrite (proj2 (Nat.leb_gt _ _)) by (simpl; lia). rewrite <-E. cbv zeta.
  replace (length data + SIGNATURE_LENGTH - SIGNATURE_LENGTH) with (length data) by lia.
  by rewrite drop_app_length, take_app_length, Hs.
Qed.

(** A piece that a seeder signs and sends is split by the downloader into
    the same data and signature, and the signature verifies for that index
    under the seeder's public key; an empty piece is refused by the split. *)
Theorem piece_payload_roundtrip (s : Signer) `{!SignerLaws s} (index : Z)
    (data payload : list Z) (Hdata : data ≠ [])
    (Hpay : make_payload index data (signer_sign s) = Ok payload) :
  ∃ sig, split_payload payload = Some (data, sig) ∧
         verify_piece index data sig (signer_pub_key s) = true.
Proof.
  unfold make_payload in Hpay.
  destruct (signer_sign s (piece_hash index data)) as [sig|] eqn:E; [|done].
  injection Hpay as <-. exists sig. split.
  - rewrite split_payload_app by (eapply sign_length; done). by destruct data.
  - by eapply sign_verifies.
Qed.

(** The response buffer bounds the pieces that can be fetched at all: a
    peer's answer to a piece request is refused, whatever the transport does,
    as soon as the data with its 64-byte signature exceed [BUFFER_SIZE], that
    is for every piece of 1 MiB - 63 bytes or more. *)
Theorem oversized_piece_refused (index : Z) (data payload : list Z) (s : Signer)
    `{!SignerLaws s} (opened sent finished : bool)
    (Hsize : (BUFFER_SIZE - 64 < Z.of_nat (length data))%Z)
    (Hpay : make_payload index data (signer_sign s) = Ok payload) :
  Connection_request opened sent finished payload = Err Protocol.
Proof.
  unfold make_payload in Hpay.
  destruct (signer_sign s (piece_hash index data)) as [sig|] eqn:E; [|done].
  injection Hpay as <-. apply sign_length in E.
  unfold Connection_request. destruct opened, sent, finished; try done. simpl.
  rewrite (proj2 (Z.ltb_lt _ _)); [done|]. rewrite length_app, E. lia.
Qed.
End piece_auth.

Lemma piece_payload_roundtrip_witness :
  ∃ sig, split_payload ([1; 2; 3]%Z ++ replicate 64 134%Z) = Some ([1; 2; 3]%Z, sig) ∧
    verify_piece (H := Toy.ToyCrypto) 0 [1; 2; 3]%Z sig [198]%Z = true.
Proof.
  apply (@piece_payload_roundtrip Toy.ToyCrypto (Toy.signer [198]%Z) (Toy.toy_signer_laws _)
    0 [1; 2; 3]%Z).
  - discriminate.
  - vm_compute. reflexivity.
Defined.

Lemma oversized_piece_refused_witness :
  let data := replicate (Z.to_nat 1048576) 0%Z in
  ∃ payload,
    make_payload (H := Toy.ToyCrypto) 0 data (signer_sign (Toy.signer [])) = Ok payload ∧
    Connection_request true true true payload = Err Protocol.
Proof.
  intros data. eexists. split; [reflexivity|].
  apply (@oversized_piece_refused Toy.ToyCrypto 0 data _ (Toy.signer [])
    (Toy.toy_signer_laws _)).
  - unfold data. rewrite length_replicate, Z2Nat.id by lia. reflexivity.
  - reflexivity.
Defined.
