(* ===== verification/Metainfo.v ===== *)
(** Torrent metadata: the bencode records of [src/bit_torrent/bencode/codec.rs],
    the metadata types of [src/bit_torrent/torrent/metainfo/] and the loading
    and saving of [src/bit_torrent/torrent/builder/mod.rs].

    Parameters: the bencode serialiser applied to the info dictionary
    ([InfoCodec]), the hash functions ([Crypto]), hexadecimal ([Hex]) and the
    text syntax of addresses ([AddrText]).  A [HashMap] whose iteration order
    the code depends on is an association list in that order. *)

From Stdlib Require Import Ascii.
From stdpp Require Import pretty.
From S2P Require Import Prelude Net Crypto.

(** * Bencode records *)

(** src/src/bit_torrent/bencode/codec.rs:217-222 [FileInfo] *)
Record FileInfo := mkFileInfo {
  fi_length : Z; fi_path : list string; fi_md5sum : option string }.

(** src/src/bit_torrent/bencode/codec.rs:126-135 [BencodeMode] *)
Inductive BencodeMode :=
| BSingleFile (length : Z) (md5sum : option string)
| BMultiFile (files : list FileInfo).

(** src/src/bit_torrent/bencode/codec.rs:224-229 [BencodeFileTreeEntry] *)
Record BencodeFileTreeEntry := mkBEntry {
  bte_length : Z; bte_pieces_root : option (list Z) }.

(** src/src/bit_torrent/bencode/codec.rs:231-239 [BencodeFileTreeNode] *)
Inductive BencodeFileTreeNode :=
| BFile (entry : BencodeFileTreeEntry)
| BDir (children : list (string * BencodeFileTreeNode)).

(** src/src/bit_torrent/bencode/codec.rs:137-167 [BencodeInfo] *)
Record BencodeInfo := mkInfo {
  bi_name : string;
  bi_version : option Z;
  bi_file_tree : option (list (string * BencodeFileTreeNode));
  bi_private : option Z;
  bi_pieces : list Z;
  bi_piece_length : Z;
  bi_length : option Z;
  bi_md5sum : option string;
  bi_files : option (list FileInfo);
}.

(** [serde_bencode::value::Value], as far as [web_seeds] looks into it. *)
Inductive BValue :=
| VBytes (b : list Z)
| VInt (i : Z)
| VList (l : list BValue)
| VDict (d : list (list Z * BValue)).

(** src/src/bit_torrent/bencode/codec.rs:11-57 [BencodeTorrent] *)
Record BencodeTorrent := mkTorrent {
  bt_announce : option string;
  bt_info : BencodeInfo;
  bt_announce_list : option (list (list string));
  bt_creation_date : option Z;
  bt_comment : option string;
  bt_created_by : option string;
  bt_url_list : option (list string);
  bt_extra : list (string * BValue);
  bt_piece_layers : list (list Z * list Z);
  bt_nodes : option (list (string * Z));
}.

Module BencodeInfo.
(** src/src/bit_torrent/bencode/codec.rs:170-193 [BencodeInfo::v1] *)
Definition v1 (name : string) (private : option Z) (pieces : list Z) (piece_length : Z)
    (mode : BencodeMode) : BencodeInfo :=
  let '(length, md5sum, files) :=
    match mode with
    | BSingleFile length md5sum => (Some length, md5sum, None)
    | BMultiFile files => (None, None, Some files)
    end in
  mkInfo name None None private pieces piece_length length md5sum files.

(** src/src/bit_torrent/bencode/codec.rs:195-197 [BencodeInfo::is_private] *)
Definition info_is_private (self : BencodeInfo) : bool :=
  match bi_private self with Some v => negb (v =? 0)%Z | None => false end.

(** src/src/bit_torrent/bencode/codec.rs:199-214 [BencodeInfo::mode] *)
Definition mode (self : BencodeInfo) : option BencodeMode :=
  match bi_length self, bi_md5sum self, bi_files self with
  | Some length, Some md5sum, None => Some (BSingleFile length (Some md5sum))
  | Some length, None, None => Some (BSingleFile length None)
  | None, None, Some files => Some (BMultiFile files)
  | _, _, _ => None
  end.
End BencodeInfo.

(** * Metadata types *)

(** src/src/bit_torrent/torrent/metainfo/mod.rs:23-39 [TorrentError] *)
Inductive TorrentError :=
| Hash20Error
| Failed (msg : string)
| NotValid (msg : string)
| UnsupportedVersion (v : Z)
| Unsupported (msg : string).

(** src/src/bit_torrent/torrent/metainfo/mod.rs:48-52 [TorrentAddr] *)
Inductive TorrentAddr :=
| Ip (addr : SocketAddr)
| I2P (dest : string).

(** src/src/bit_torrent/torrent/metainfo/mod.rs:152-156 [InfoHash] *)
Inductive InfoHash :=
| HashV1 (h : list Z)
| HashV2 (h : list Z).

#[export] Instance InfoHash_eq_dec : EqDecision InfoHash.
Proof. solve_decision. Defined.
#[export] Instance InfoHash_countable : Countable InfoHash.
Proof.
  refine (inj_countable' (λ h, match h with HashV1 b => (false, b) | HashV2 b => (true, b) end)
    (λ p : bool * list Z, if p.1 then HashV2 p.2 else HashV1 p.2) _).
  by intros [].
Defined.

(** src/src/bit_torrent/torrent/metainfo/v1.rs:53-58 [EmbededFile] *)
Record EmbededFile := mkFile {
  ef_length : Z; ef_path : list string; ef_md5sum : option string }.

(** src/src/bit_torrent/torrent/metainfo/v1.rs:16-20 [V1Mode] *)
Inductive V1Mode :=
| SingleFile (file : EmbededFile)
| MultiFile (files : list EmbededFile).

(** src/src/bit_torrent/torrent/metainfo/mod.rs:240-252 [TorrentCommon] *)
Record TorrentCommon := mkCommon {
  tc_info_hash : InfoHash;
  tc_name : string;
  tc_announce : option string;
  tc_announce_list : option (list (list string));
  tc_piece_length : Z;
  tc_creation_date : option Z;
  tc_comment : option string;
  tc_created_by : option string;
  tc_web_seeds : option (list string);
  tc_dht_nodes : option (list TorrentAddr);
}.

(** src/src/bit_torrent/torrent/metainfo/v1.rs:86-92 [TorrentV1] *)
Record TorrentV1 := mkV1 {
  v1_info : TorrentCommon;
  v1_private : bool;
  v1_pieces : list Z;
  v1_mode : V1Mode;
}.

(** src/src/bit_torrent/torrent/metainfo/v2.rs:22-26 [FileTreeEntry] *)
Record FileTreeEntry := mkEntry { fte_length : Z; fte_pieces_root : option (list Z) }.

(** src/src/bit_torrent/torrent/metainfo/v2.rs:28-32 [FileTreeNode] *)
Inductive FileTreeNode :=
| TFile (entry : FileTreeEntry)
| TDir (children : list (string * FileTreeNode)).

(** src/src/bit_torrent/torrent/metainfo/v2.rs:55-63 [TorrentV2] *)
Record TorrentV2 := mkV2 {
  v2_info : TorrentCommon;
  v2_version : option Z;
  v2_piece_layers : list (list Z * list Z);
  v2_file_tree : option (list (string * FileTreeNode));
  v2_flat_files : option (list EmbededFile);
  v2_total_size : Z;
}.

(** src/src/bit_torrent/torrent/metainfo/mod.rs:41-46 [TorrentFile] *)
Inductive TorrentFile :=
| V1 (t : TorrentV1)
| V2 (t : TorrentV2).

(** * Piece lengths *)

Module PieceLength.
(** src/src/bit_torrent/torrent/metainfo/mod.rs:362-366 [PieceLength::from] *)
Definition from (value : Z) : Z := u64 value.

(** src/src/bit_torrent/torrent/metainfo/mod.rs:340-359 [PieceLength::validate] *)
Definition validate (pl : Z) : Result TorrentError unit :=
  let MIN_LIMIT := (16 * 1024)%Z in
  let MAX_LIMIT := (128 * 1024 * 1024)%Z in
  if ((pl <? MIN_LIMIT) || (MAX_LIMIT <? pl))%Z then
    Err (NotValid ("invalid piece length " +:+ pretty pl))
  else if negb (Z.land pl (u64 (pl - 1)) =? 0)%Z then
    Err (NotValid "piece of length must be to the power of 2")
  else Ok tt.
End PieceLength.

(** * Info hashes *)

Module InfoHash.
Section info_hash.
Context `{Crypto} `{Hex}.

(** src/src/bit_torrent/torrent/metainfo/mod.rs:185-189 [InfoHashV1::new] *)
Definition v1_new (bytes : list Z) : InfoHash := HashV1 (Sha1Hash_digest bytes).

(** src/src/bit_torrent/torrent/metainfo/mod.rs:194-198 [InfoHashV2::new] *)
Definition v2_new (bytes : list Z) : InfoHash := HashV2 (Sha256Hash_digest bytes).

(** src/src/bit_torrent/torrent/metainfo/mod.rs:200-207 [AsRef for InfoHash] *)
Definition as_ref (self : InfoHash) : list Z :=
  match self with HashV1 h => h | HashV2 h => h end.

(** src/src/bit_torrent/torrent/metainfo/mod.rs:209-213 [From<&InfoHash> for Vec<u8>] *)
Definition to_vec (value : InfoHash) : list Z := as_ref value.

(** src/src/bit_torrent/torrent/metainfo/mod.rs:215-238 [TryFrom<Vec<u8>> for InfoHash] *)
Definition try_from (value : list Z) : Result string InfoHash :=
  if length value =? 20 then Ok (HashV1 value)
  else if length value =? 32 then Ok (HashV2 value)
  else Err ("Invalid InfoHash length: " +:+ pretty (length value) +:+
            " bytes (expected 20 or 32)").

(** src/src/bit_torrent/torrent/metainfo/mod.rs:176-180 [Display for InfoHash] *)
Definition to_string (self : InfoHash) : string := hex_encode (as_ref self).

(** src/src/bit_torrent/torrent/metainfo/mod.rs:158-174 [InfoHash::from_hex] *)
Definition from_hex (s : string) : option InfoHash :=
  if String.length s =? 40 then
    bytes ← hex_decode s;
    if length bytes =? 20 then Some (HashV1 bytes) else None
  else if String.length s =? 64 then
    bytes ← hex_decode s;
    if length bytes =? 32 then Some (HashV2 bytes) else None
  else None.
End info_hash.

(** The hashes the program handles: fixed-size arrays of bytes. *)
Definition wf (h : InfoHash) : Prop :=
  match h with
  | HashV1 b => length b = 20 ∧ bytes_ok b
  | HashV2 b => length b = 32 ∧ bytes_ok b
  end.

#[export] Instance wf_dec h : Decision (wf h).
Proof. destruct h; simpl; apply _. Defined.
End InfoHash.

(** * Strings *)

Fixpoint ends_with (suffix s : string) : bool :=
  bool_decide (s = suffix) || match s with "" => false | String _ s => ends_with suffix s end.

Fixpoint contains_char (c : Ascii.ascii) (s : string) : bool :=
  match s with "" => false | String d s => bool_decide (c = d) || contains_char c s end.

Fixpoint starts_with (prefix s : string) : bool :=
  match prefix, s with
  | "", _ => true
  | String c prefix, String d s => bool_decide (c = d) && starts_with prefix s
  | _, _ => false
  end.

(** * Addresses of bootstrap nodes *)

Module TorrentAddr.
Section addr.
Context `{AddrText}.

(** src/src/bit_torrent/torrent/metainfo/mod.rs:55-57 [TorrentAddr::is_i2p] *)
Definition is_i2p (s : string) : bool :=
  ends_with ".i2p" s || ((100 <? String.length s) && negb (contains_char ":"%char s)).

(** src/src/bit_torrent/torrent/metainfo/mod.rs:90-107 [FromStr for TorrentAddr] *)
Definition from_str (s : string) : Result TorrentError TorrentAddr :=
  if is_i2p s then Ok (I2P s)
  else match parse_socket s with
       | Some socket => Ok (Ip socket)
       | None => Err (Failed ("failed to parse address: " +:+ s))
       end.

(** src/src/bit_torrent/torrent/metainfo/mod.rs:59-65 [TorrentAddr::from_raw_parts] *)
Definition from_raw_parts (host : string) (port : Z) : Result TorrentError TorrentAddr :=
  if is_i2p host then Ok (I2P host)
  else from_str (host +:+ ":" +:+ pretty port).

(** src/src/bit_torrent/torrent/metainfo/mod.rs:67-72 [TorrentAddr::to_raw_parts] *)
Definition to_raw_parts (self : TorrentAddr) : string * Z :=
  match self with
  | Ip addr => (show_ip (addr_ip addr), addr_port addr)
  | I2P dest => (dest, 0%Z)
  end.

(** src/src/bit_torrent/torrent/metainfo/mod.rs:81-88 [Display for TorrentAddr] *)
Definition addr_to_string (self : TorrentAddr) : string :=
  match self with Ip addr => show_socket addr | I2P dest => dest end.
End addr.
End TorrentAddr.

Module BencodeTorrent.
Section torrent.
Context `{AddrText}.

(** src/src/bit_torrent/bencode/codec.rs:90-97 [BencodeTorrent::dht_nodes] *)
Definition dht_nodes (self : BencodeTorrent) : option (list TorrentAddr) :=
  option_map (omap (M := list) (λ '(ip_str, port),
    match TorrentAddr.from_raw_parts ip_str port with Ok a => Some a | Err _ => None end))
  (bt_nodes self).

(** src/src/bit_torrent/bencode/codec.rs:86-88 [BencodeTorrent::extra_value] *)
Definition extra_value (self : BencodeTorrent) (id : string) : option BValue :=
  snd <$> List.find (λ '(k, _), bool_decide (k = id)) (bt_extra self).

(** [String::from_utf8], on the ASCII subset; other byte strings are a
    parameter of [web_seeds]. *)
Definition from_utf8_t := list Z → option string.

(** src/src/bit_torrent/bencode/codec.rs:99-123 [BencodeTorrent::web_seeds] *)
Definition web_seeds (from_utf8 : from_utf8_t) (self : BencodeTorrent) : option (list string) :=
  match bt_url_list self with
  | None => None
  | Some [] => None
  | Some seeds =>
    match extra_value self "httpseeds" with
    | Some (VList httpseed) =>
      Some (seeds ++ omap (λ seed,
        match seed with VBytes item => from_utf8 item | _ => None end) httpseed)
    | _ => Some seeds
    end
  end.
End torrent.
End BencodeTorrent.

(** * Version 1 torrents *)

(** src/src/bit_torrent/torrent/metainfo/v1.rs:66-74 [From<FileInfo> for EmbededFile] *)
Definition EmbededFile_from (value : FileInfo) : EmbededFile :=
  mkFile (fi_length value) (fi_path value) (fi_md5sum value).

(** src/src/bit_torrent/torrent/metainfo/v1.rs:76-84 [From<EmbededFile> for FileInfo] *)
Definition FileInfo_from (value : EmbededFile) : FileInfo :=
  mkFileInfo (ef_length value) (ef_path value) (ef_md5sum value).

Module V1Mode.
(** src/src/bit_torrent/torrent/metainfo/v1.rs:23-36 [V1Mode::from_bencode_mode] *)
Definition from_bencode_mode (mode : BencodeMode) (torrent_name : string) : V1Mode :=
  match mode with
  | BSingleFile length md5sum => SingleFile (mkFile length [torrent_name] md5sum)
  | BMultiFile files => MultiFile (map EmbededFile_from files)
  end.

(** src/src/bit_torrent/torrent/metainfo/v1.rs:39-51 [From<V1Mode> for BencodeMode] *)
Definition mode_to_bencode (value : V1Mode) : BencodeMode :=
  match value with
  | SingleFile file => BSingleFile (ef_length file) (ef_md5sum file)
  | MultiFile files => BMultiFile (map FileInfo_from files)
  end.
End V1Mode.

(** [{:?}] of a byte string. *)
Definition debug_bytes (bs : list Z) : string :=
  "[" +:+ String.concat ", " (map pretty bs) +:+ "]".

Module TorrentV1.
Section v1.
Context `{Crypto} `{AddrText} (from_utf8 : BencodeTorrent.from_utf8_t).

(** src/src/bit_torrent/torrent/metainfo/v1.rs:104-138 [TorrentV1::from_bencode] *)
Definition v1_from_bencode (metadata : BencodeTorrent) (info_hash : InfoHash)
    : Result TorrentError TorrentV1 :=
  let web_seeds := BencodeTorrent.web_seeds from_utf8 metadata in
  let dht_nodes := BencodeTorrent.dht_nodes metadata in
  let file_path := bi_name (bt_info metadata) in
  let private := (default 0 (bi_private (bt_info metadata)) =? 1)%Z in
  let? mode :=
    ok_or (NotValid "Unable to determine file mode")
      ((λ mode, V1Mode.from_bencode_mode mode file_path) <$> BencodeInfo.mode (bt_info metadata)) in
  Ok (mkV1
    (mkCommon info_hash (bi_name (bt_info metadata)) (bt_announce metadata)
      (bt_announce_list metadata) (PieceLength.from (bi_piece_length (bt_info metadata)))
      (bt_creation_date metadata) (bt_comment metadata) (bt_created_by metadata)
      web_seeds dht_nodes)
    private (bi_pieces (bt_info metadata)) mode).

(** src/src/bit_torrent/torrent/metainfo/v1.rs:252-257 [TorrentV1::files] *)
Definition v1_files (self : TorrentV1) : list EmbededFile :=
  match v1_mode self with SingleFile file => [file] | MultiFile files => files end.

(** src/src/bit_torrent/torrent/metainfo/v1.rs:241-246 [TorrentV1::total_size]

    A [u64] sum, wrapping. *)
Definition v1_total_size (self : TorrentV1) : Z :=
  match v1_mode self with
  | SingleFile file => u64 (ef_length file)
  | MultiFile files => u64 (foldr (λ f acc, u64 (ef_length f) + acc) 0 files)%Z
  end.

(** src/src/bit_torrent/torrent/metainfo/v1.rs:275-280 [TorrentV1::piece_hashes] *)
Definition v1_piece_hashes (self : TorrentV1) : list (list Z) := chunks_exact 20 (v1_pieces self).

(** src/src/bit_torrent/torrent/metainfo/v1.rs:162-186 [TorrentV1::verify_hash] *)
Definition v1_verify_hash (self : TorrentV1) (index : Z) (data : list Z)
    : Result TorrentError unit :=
  let hashes := v1_piece_hashes self in
  let? expected := ok_or (NotValid ("no hash for piece " +:+ pretty index))
                         (hashes !! Z.to_nat index) in
  let actual := Sha1Hash_digest data in
  if bool_decide (actual = expected) then Ok tt
  else Err (NotValid ("piece " +:+ pretty index +:+ " hash mismatch: expected " +:+
                      debug_bytes expected +:+ ", got " +:+ debug_bytes actual)).

(** src/src/bit_torrent/torrent/metainfo/v1.rs:188-214 [TorrentV1::validate] *)
Definition v1_validate (self : TorrentV1) : Result TorrentError unit :=
  let total_size := v1_total_size self in
  let pl_len := tc_piece_length (v1_info self) in
  let? _ := PieceLength.validate pl_len in
  let expected_pieces := (u64 (total_size + pl_len - 1) / pl_len)%Z in
  if negb (length (v1_pieces self) mod 20 =? 0) then
    Err (NotValid "the pieces exceed 20 bytes")
  else
    let actual_hashes := Z.of_nat (length (v1_pieces self) / 20) in
    if negb (expected_pieces =? actual_hashes)%Z then
      Err (NotValid ("mismatch: expecting " +:+ pretty expected_pieces +:+
                     " hashes, found " +:+ pretty actual_hashes))
    else if (total_size =? 0)%Z then Err (NotValid "empty torrent")
    else Ok tt.
End v1.
End TorrentV1.

(** * Version 2 torrents *)

Module TorrentV2.
(** src/src/bit_torrent/torrent/metainfo/v2.rs:34-53 [From<&BencodeFileTreeNode> for FileTreeNode] *)
Fixpoint node_from (value : BencodeFileTreeNode) : FileTreeNode :=
  match value with
  | BFile entry => TFile (mkEntry (bte_length entry) (bte_pieces_root entry))
  | BDir files => TDir (map (λ '(name, child), (name, node_from child)) files)
  end.

(** src/src/bit_torrent/torrent/metainfo/v2.rs:128-159 [TorrentV2::walk_and_flatten]

    The path buffer is restored before the function returns, so it is an
    argument; the files found are appended to [out]. *)
Fixpoint walk_and_flatten (name : string) (node : FileTreeNode) (current_path : list string)
    (out : list EmbededFile) : Z * list EmbededFile :=
  let current_path := current_path ++ [name] in
  match node with
  | TFile entry =>
    (u64 (fte_length entry), out ++ [mkFile (fte_length entry) current_path None])
  | TDir children =>
    (fix go (cs : list (string * FileTreeNode)) (dir_size : Z) (out : list EmbededFile) :=
       match cs with
       | [] => (dir_size, out)
       | (child_name, child_node) :: cs =>
         let '(size, out) := walk_and_flatten child_name child_node current_path out in
         go cs (u64 (dir_size + size)) out
       end) children 0%Z out
  end.

Section v2.
Context `{Crypto} `{AddrText} (from_utf8 : BencodeTorrent.from_utf8_t).

(** src/src/bit_torrent/torrent/metainfo/v2.rs:84-126 [TorrentV2::from_bencode] *)
Definition v2_from_bencode (metadata : BencodeTorrent) (info_hash : InfoHash)
    : Result TorrentError TorrentV2 :=
  let web_seeds := BencodeTorrent.web_seeds from_utf8 metadata in
  let dht_nodes := BencodeTorrent.dht_nodes metadata in
  let file_tree :=
    option_map (map (λ '(name, node), (name, node_from node))) (bi_file_tree (bt_info metadata)) in
  let '(total_size, flat_files) :=
    match file_tree with
    | Some tree =>
      foldl (λ '(total, out) '(name, node),
        let '(size, out) := walk_and_flatten name node [] out in (u64 (total + size), out))
        (0%Z, []) tree
    | None => (0%Z, [])
    end in
  Ok (mkV2
    (mkCommon info_hash (bi_name (bt_info metadata)) (bt_announce metadata)
      (bt_announce_list metadata) (PieceLength.from (bi_piece_length (bt_info metadata)))
      (bt_creation_date metadata) (bt_comment metadata) (bt_created_by metadata)
      web_seeds dht_nodes)
    (bi_version (bt_info metadata)) (bt_piece_layers metadata) file_tree
    (Some flat_files) total_size).

(** src/src/bit_torrent/torrent/metainfo/v2.rs:316-321 [TorrentV2::piece_hashes] *)
Definition v2_piece_hashes (self : TorrentV2) : list (list Z) := map snd (v2_piece_layers self).

(** src/src/bit_torrent/torrent/metainfo/v2.rs:223-247 [TorrentV2::verify_hash] *)
Definition v2_verify_hash (self : TorrentV2) (index : Z) (data : list Z)
    : Result TorrentError unit :=
  let hashes := v2_piece_hashes self in
  let? expected := ok_or (NotValid ("no hash for piece " +:+ pretty index))
                         (hashes !! Z.to_nat index) in
  let actual := Sha256Hash_digest data in
  if bool_decide (actual = expected) then Ok tt
  else Err (NotValid ("piece " +:+ pretty index +:+ " hash mismatch: expected " +:+
                      debug_bytes expected +:+ ", got " +:+ debug_bytes actual)).
End v2.
End TorrentV2.

(** * The [Metainfo] trait *)

Module TorrentFile.
Definition common (self : TorrentFile) : TorrentCommon :=
  match self with V1 t => v1_info t | V2 t => v2_info t end.
(** src/src/bit_torrent/torrent/metainfo/v1.rs:233-235 [info_hash] *)
Definition info_hash (self : TorrentFile) : InfoHash := tc_info_hash (common self).
(** src/src/bit_torrent/torrent/metainfo/v1.rs:225-227 [name] *)
Definition name (self : TorrentFile) : string := tc_name (common self).
(** src/src/bit_torrent/torrent/metainfo/v1.rs:237-239 [piece_length] *)
Definition piece_length (self : TorrentFile) : Z := tc_piece_length (common self).
(** src/src/bit_torrent/torrent/metainfo/v1.rs:217-219 [announce] *)
Definition announce (self : TorrentFile) : option string := tc_announce (common self).
(** src/src/bit_torrent/torrent/metainfo/v1.rs:221-223 [announce_list] *)
Definition announce_list (self : TorrentFile) : option (list (list string)) := tc_announce_list (common self).
(** src/src/bit_torrent/torrent/metainfo/v1.rs:259-261 [web_seeds] *)
Definition torrent_web_seeds (self : TorrentFile) : option (list string) := tc_web_seeds (common self).
(** src/src/bit_torrent/torrent/metainfo/v1.rs:263-265 [comment] *)
Definition comment (self : TorrentFile) : option string := tc_comment (common self).
(** src/src/bit_torrent/torrent/metainfo/v1.rs:267-269 [created_by] *)
Definition created_by (self : TorrentFile) : option string := tc_created_by (common self).
(** src/src/bit_torrent/torrent/metainfo/v1.rs:271-273 [creation_date] *)
Definition creation_date (self : TorrentFile) : option Z := tc_creation_date (common self).
(** src/src/bit_torrent/torrent/metainfo/v1.rs:286-288 [dht_nodes] *)
Definition torrent_dht_nodes (self : TorrentFile) : option (list TorrentAddr) := tc_dht_nodes (common self).

(** src/src/bit_torrent/torrent/metainfo/v2.rs:276-278 [version] *)
Definition version (self : TorrentFile) : Z :=
  match self with V1 _ => 1 | V2 t => default 2 (v2_version t) end%Z.

(** src/src/bit_torrent/torrent/metainfo/v2.rs:292-294 [is_private] *)
Definition is_private (self : TorrentFile) : bool :=
  match self with V1 t => v1_private t | V2 _ => false end.

(** src/src/bit_torrent/torrent/metainfo/v2.rs:296-298 [files] *)
Definition files (self : TorrentFile) : list EmbededFile :=
  match self with V1 t => TorrentV1.v1_files t | V2 t => default [] (v2_flat_files t) end.

(** src/src/bit_torrent/torrent/metainfo/v2.rs:288-290 [total_size] *)
Definition total_size (self : TorrentFile) : Z :=
  match self with V1 t => TorrentV1.v1_total_size t | V2 t => v2_total_size t end.

(** src/src/bit_torrent/torrent/metainfo/v2.rs:323-325 [raw_pieces] *)
Definition raw_pieces (self : TorrentFile) : list Z :=
  match self with V1 t => v1_pieces t | V2 _ => [] end.

Definition piece_hashes (self : TorrentFile) : list (list Z) :=
  match self with V1 t => TorrentV1.v1_piece_hashes t | V2 t => TorrentV2.v2_piece_hashes t end.

Definition verify_hash `{Crypto} (self : TorrentFile) (index : Z) (data : list Z)
    : Result TorrentError unit :=
  match self with
  | V1 t => TorrentV1.v1_verify_hash t index data
  | V2 t => TorrentV2.v2_verify_hash t index data
  end.

(** src/src/bit_torrent/torrent/metainfo/mod.rs:133-139 [Metainfo::num_pieces] *)
Definition num_pieces (self : TorrentFile) : Z :=
  let pl := piece_length self in
  if (pl =? 0)%Z then 0%Z else (u64 (total_size self + pl - 1) / pl)%Z.

(** src/src/bit_torrent/session/session.rs:605-621 [TorrentSession::piece_size] *)
Definition piece_size (metadata : TorrentFile) (index : Z) : Z :=
  let total_pieces := u32 (Z.of_nat (length (piece_hashes metadata))) in
  let piece_length := u32 (piece_length metadata) in
  let total_size := total_size metadata in
  if negb (index =? u32 (total_pieces - 1))%Z then piece_length
  else
    let remainder := u32 (total_size mod piece_length) in
    if (remainder =? 0)%Z then piece_length else remainder.

Section save_load.
Context `{Crypto} `{AddrText} (from_utf8 : BencodeTorrent.from_utf8_t).

(** [bencode::info_hash]: the serialisation of the info dictionary. *)
Variable encode_info : BencodeInfo → Result string (list Z).

(** src/src/bit_torrent/torrent/metainfo/mod.rs:282-309 [From<&TorrentFile> for BencodeInfo] *)
Definition to_info (value : TorrentFile) : BencodeInfo :=
  let all_files := files value in
  let '(length, files) :=
    match all_files with
    | [file] => (Some (ef_length file), None)
    | _ => (None, Some (map FileInfo_from all_files))
    end in
  mkInfo (name value)
    (if negb (version value =? 1)%Z then Some (version value) else None)
    None
    (if is_private value then Some 1%Z else None)
    (raw_pieces value)
    (i64 (piece_length value)) length None files.

(** src/src/bit_torrent/torrent/metainfo/mod.rs:311-330 [From<&TorrentFile> for BencodeTorrent] *)
Definition to_bencode (value : TorrentFile) : BencodeTorrent :=
  let c := common value in
  mkTorrent (tc_announce c) (to_info value) (tc_announce_list c) (tc_creation_date c)
    (tc_comment c) (tc_created_by c) (tc_web_seeds c) [] []
    (option_map (map TorrentAddr.to_raw_parts) (tc_dht_nodes c)).

(** src/src/bit_torrent/torrent/builder/mod.rs:40-64 [TorrentBuilder::apply_from_metadata] *)
Definition apply_from_metadata (metadata : BencodeTorrent) : Result TorrentError TorrentFile :=
  let has_pieces := match bi_pieces (bt_info metadata) with [] => false | _ => true end in
  let has_file_tree := match bi_file_tree (bt_info metadata) with Some _ => true | None => false end in
  let? raw_hash := map_err Failed (encode_info (bt_info metadata)) in
  match has_pieces, has_file_tree with
  | true, false =>
    let info_hash := InfoHash.v1_new raw_hash in
    let? torrent := TorrentV1.v1_from_bencode from_utf8 metadata info_hash in
    Ok (V1 torrent)
  | false, true =>
    let info_hash := InfoHash.v2_new raw_hash in
    let? torrent := TorrentV2.v2_from_bencode from_utf8 metadata info_hash in
    Ok (V2 torrent)
  | true, true => Err (Unsupported "Hybrid v1+v2 not yet implemented")
  | false, false => Err (Unsupported "no matching version")
  end.
End save_load.
End TorrentFile.

(** * Lemmas *)

(** The test [pl & (pl - 1) == 0] singles out the powers of two. *)
Lemma land_pred_zero pl : (0 < pl)%Z → (Z.land pl (pl - 1) = 0 ↔ pl = 2 ^ Z.log2 pl)%Z.
Proof.
  intros Hpos. pose proof (Z.log2_spec pl Hpos) as [Hlo Hhi].
  pose proof (Z.log2_nonneg pl). split; intros E.
  - destruct (decide (pl = 2 ^ Z.log2 pl)%Z) as [|Hne]; [done|]. exfalso.
    assert (Z.testbit (Z.land pl (pl - 1)) (Z.log2 pl) = true) as Hb.
    { rewrite Z.land_spec, Z.bit_log2 by done. simpl.
      replace (Z.log2 pl) with (Z.log2 (pl - 1)); [apply Z.bit_log2; lia|].
      apply Z.log2_unique; lia. }
    by rewrite E, Z.bits_0 in Hb.
  - rewrite E at 1 2. replace (2 ^ Z.log2 pl - 1)%Z with (Z.ones (Z.log2 pl)).
    + rewrite Z.land_ones by done. by apply Z.mod_same, Z.pow_nonzero.
    + rewrite Z.ones_equiv. lia.
Qed.

Lemma validate_piece_length_iff pl :
  PieceLength.validate pl = Ok tt ↔ ∃ k, (14 ≤ k ≤ 27)%Z ∧ pl = (2 ^ k)%Z.
Proof.
  unfold PieceLength.validate. cbv zeta.
  destruct (Z.ltb_spec pl (16 * 1024)), (Z.ltb_spec (128 * 1024 * 1024) pl); simpl.
  1-3: split; [done|]; intros (k & Hk & ->); exfalso.
  1,2: assert (2 ^ 14 ≤ 2 ^ k)%Z by (apply Z.pow_le_mono_r; lia);
       change (2 ^ 14)%Z with (16 * 1024)%Z in *; lia.
  1: assert (2 ^ k ≤ 2 ^ 27)%Z by (apply Z.pow_le_mono_r; lia);
     change (2 ^ 27)%Z with (128 * 1024 * 1024)%Z in *; lia.
  rewrite (wrap_small 64) by (split; [lia|]; change (2^64)%Z with 18446744073709551616%Z; lia).
  destruct (Z.eqb_spec (Z.land pl (pl - 1)) 0) as [E|E]; simpl.
  - apply land_pred_zero in E; [|lia]. split; [|done]. intros _.
    exists (Z.log2 pl). split; [|done]. split.
    + change 14%Z with (Z.log2 (16 * 1024)). by apply Z.log2_le_mono.
    + change 27%Z with (Z.log2 (128 * 1024 * 1024)). by apply Z.log2_le_mono.
  - split; [done|]. intros (k & Hk & ->). exfalso. apply E.
    apply land_pred_zero; [lia|]. by rewrite Z.log2_pow2 by lia.
Qed.

Lemma i64_u64 z : (- 2 ^ 63 ≤ z < 2 ^ 63)%Z → i64 (u64 z) = z.
Proof.
  intros Hz. unfold i64, wrap. rewrite Z.add_mod_idemp_l by done.
  rewrite Z.mod_small; [lia|]. change (2 ^ 64)%Z with (2 ^ 63 + 2 ^ 63)%Z. lia.
Qed.

Lemma map_FileInfo_from l : map FileInfo_from (map EmbededFile_from l) = l.
Proof. induction l as [|[] l IH]; simpl; [done|]. by rewrite IH. Qed.

Lemma map_EmbededFile_from l : map EmbededFile_from (map FileInfo_from l) = l.
Proof. induction l as [|[] l IH]; simpl; [done|]. by rewrite IH. Qed.

Section reload.
Context `{Crypto} `{AddrText} (from_utf8 : BencodeTorrent.from_utf8_t)
  (encode_info : BencodeInfo → Result string (list Z)).
Abbreviation load := (TorrentFile.apply_from_metadata from_utf8 encode_info).

(** What loading a version 1 torrent gives, field by field. *)
Lemma load_v1_inv md t : load md = Ok (V1 t) →
  ∃ raw mode, encode_info (bt_info md) = Ok raw ∧ bi_pieces (bt_info md) ≠ [] ∧
    bi_file_tree (bt_info md) = None ∧ BencodeInfo.mode (bt_info md) = Some mode ∧
    t = mkV1 (mkCommon (InfoHash.v1_new raw) (bi_name (bt_info md)) (bt_announce md)
          (bt_announce_list md) (PieceLength.from (bi_piece_length (bt_info md)))
          (bt_creation_date md) (bt_comment md) (bt_created_by md)
          (BencodeTorrent.web_seeds from_utf8 md) (BencodeTorrent.dht_nodes md))
          (default 0 (bi_private (bt_info md)) =? 1)%Z (bi_pieces (bt_info md))
          (V1Mode.from_bencode_mode mode (bi_name (bt_info md))).
Proof.
  unfold TorrentFile.apply_from_metadata. intros Hl.
  destruct (encode_info _) as [raw|] eqn:E1; [|done]. simpl in Hl.
  destruct (bi_pieces (bt_info md)) as [|x l] eqn:E2.
  { destruct (bi_file_tree _); [|done]. unfold TorrentV2.v2_from_bencode in Hl.
    destruct (match option_map _ _ with Some _ => _ | None => _ end). simpl in Hl. done. }
  destruct (bi_file_tree _) eqn:E3; [done|]. unfold TorrentV1.v1_from_bencode in Hl.
  destruct (BencodeInfo.mode _) as [mode|] eqn:E4; [|done]. simpl in Hl.
  injection Hl as <-. exists raw, mode. by rewrite E2.
Qed.

(** The info dictionaries that saving reproduces. *)
Definition canonical_info (i : BencodeInfo) : Prop :=
  bi_md5sum i = None ∧ bi_version i = None ∧
  (bi_private i = None ∨ bi_private i = Some 1%Z) ∧
  match bi_files i with Some [_] => False | _ => True end.

Lemma to_info_iff md t : load md = Ok (V1 t) →
  (- 2 ^ 63 ≤ bi_piece_length (bt_info md) < 2 ^ 63)%Z →
  TorrentFile.to_info (V1 t) = bt_info md ↔ canonical_info (bt_info md).
Proof.
  intros (raw & mode & _ & _ & Hft & Hm & ->)%load_v1_inv Hpl.
  unfold TorrentFile.to_info, TorrentFile.files, TorrentV1.v1_files, canonical_info,
    TorrentFile.name, TorrentFile.piece_length, BencodeInfo.mode in *. simpl.
  unfold PieceLength.from. rewrite i64_u64 by done.
  destruct (bt_info md) as [nm ver ft pr pcs pl len md5 fs]; simpl in *. subst ft.
  assert ((if (default 0 pr =? 1)%Z then Some 1%Z else None) = pr ↔ pr = None ∨ pr = Some 1%Z) as Hpr.
  { destruct pr as [z|]; simpl; [|naive_solver].
    destruct (Z.eqb_spec z 1); subst; naive_solver. }
  destruct len as [len|], md5 as [m|], fs as [fs|]; simplify_eq/=.
  - split; [intros [=]|naive_solver].
  - split; [intros [=]; naive_solver|]. intros (_ & -> & Hp & _). apply Hpr in Hp. by rewrite Hp.
  - destruct fs as [|f [|g fs]]; simpl.
    + split; [intros [=]; naive_solver|]. intros (_ & -> & Hp & _). apply Hpr in Hp. by rewrite Hp.
    + split; [intros [=]|naive_solver].
    + destruct f, g. simpl. rewrite map_FileInfo_from.
      split; [intros [=]; naive_solver|]. intros (_ & -> & Hp & _). apply Hpr in Hp. by rewrite Hp.
Qed.

(** The documented text round trip, for one bootstrap node: a destination is
    an I2P name, or an IPv4 address whose [ip:port] text parses back (and is
    not taken for an I2P name).  The text of an IPv6 address is not of that
    form: it needs brackets. *)
Definition node_text_ok (a : TorrentAddr) : Prop :=
  match a with
  | I2P dest => TorrentAddr.is_i2p dest = true
  | Ip (SocketV4 ip port) =>
    let host := show_ip (IpV4 ip) in
    let text := host +:+ ":" +:+ pretty port in
    TorrentAddr.is_i2p host = false ∧ TorrentAddr.is_i2p text = false ∧
    parse_socket text = Some (SocketV4 ip port)
  | Ip (SocketV6 _ _ _ _) => False
  end.

#[export] Instance node_text_ok_dec a : Decision (node_text_ok a).
Proof. destruct a as [[]|]; simpl; apply _. Defined.

Lemma node_roundtrip a : node_text_ok a →
  TorrentAddr.from_raw_parts (TorrentAddr.to_raw_parts a).1 (TorrentAddr.to_raw_parts a).2 = Ok a.
Proof.
  destruct a as [[ip port|]|d]; simpl; [|done|].
  - intros (H1 & H2 & H3). unfold TorrentAddr.from_raw_parts. rewrite H1.
    unfold TorrentAddr.from_str. by rewrite H2, H3.
  - intros Ha. unfold TorrentAddr.from_raw_parts. by rewrite Ha.
Qed.

Lemma nodes_roundtrip o : Forall node_text_ok (default [] o) →
  option_map (omap (M := list) (λ '(ip_str, port),
    match TorrentAddr.from_raw_parts ip_str port with Ok a => Some a | Err _ => None end))
    (option_map (map TorrentAddr.to_raw_parts) o) = o.
Proof.
  destruct o as [l|]; [|done]. simpl. intros Hl. f_equal.
  induction Hl as [|a l Ha _ IH]; [done|]. apply node_roundtrip in Ha.
  cbn. destruct (TorrentAddr.to_raw_parts a) as [h p]. simpl in Ha. rewrite Ha.
  f_equal. apply IH.
Qed.

Lemma web_seeds_nonempty md : BencodeTorrent.web_seeds from_utf8 md ≠ Some [].
Proof.
  unfold BencodeTorrent.web_seeds. destruct (bt_url_list md) as [[|s l]|]; [done| |done].
  break; done.
Qed.

(** * Properties *)

(** Saving a version 1 torrent writes back the very info dictionary it was
    loaded from, and so keeps its info hash, exactly when that dictionary has
    no [md5sum], no [meta version], a [private] flag that is absent or 1, and
    is not a one-element [files] list; otherwise the saved dictionary is a
    different one. *)
Theorem saved_info_iff (md : BencodeTorrent) (t : TorrentV1)
    (Hload : load md = Ok (V1 t))
    (Hpl : (- 2 ^ 63 ≤ bi_piece_length (bt_info md) < 2 ^ 63)%Z) :
  TorrentFile.to_info (V1 t) = bt_info md ↔ canonical_info (bt_info md).
Proof. by apply to_info_iff. Qed.

(** Saving and reloading a version 1 torrent whose info dictionary is of
    the form above gives back the same torrent, info hash, trackers, web seeds
    and bootstrap nodes included, provided its bootstrap nodes are I2P names or
    IPv4 addresses. *)
Theorem save_load_roundtrip (md : BencodeTorrent) (t : TorrentV1)
    (Hload : load md = Ok (V1 t))
    (Hpl : (- 2 ^ 63 ≤ bi_piece_length (bt_info md) < 2 ^ 63)%Z)
    (Hcanon : canonical_info (bt_info md))
    (Hnodes : Forall node_text_ok (default [] (tc_dht_nodes (v1_info t)))) :
  load (TorrentFile.to_bencode (V1 t)) = Ok (V1 t).
Proof.
  pose proof (proj2 (to_info_iff md t Hload Hpl) Hcanon) as Hinfo.
  apply load_v1_inv in Hload as (raw & mode & Henc & Hpcs & Hft & Hm & Ht).
  unfold TorrentFile.apply_from_metadata, TorrentFile.to_bencode.
  cbn [bt_info]. rewrite Hinfo, Henc, Hft. cbn [rbind map_err].
  destruct (bi_pieces (bt_info md)) as [|x l] eqn:Ep; [done|].
  unfold TorrentV1.v1_from_bencode, BencodeTorrent.dht_nodes. cbn [bt_info bt_nodes TorrentFile.common].
  rewrite Hm, nodes_roundtrip by done. rewrite Ht. cbn. rewrite Ep.
  do 4 f_equal. pose proof (web_seeds_nonempty md) as Hne.
  unfold BencodeTorrent.web_seeds at 1. cbn.
  by destruct (BencodeTorrent.web_seeds from_utf8 md) as [[|s ss]|].
Qed.
End reload.

(** * The pieces of a valid torrent *)

Lemma v1_validate_inv t : TorrentV1.v1_validate t = Ok tt →
  let pl := tc_piece_length (v1_info t) in
  let total := TorrentV1.v1_total_size t in
  PieceLength.validate pl = Ok tt ∧ total ≠ 0%Z ∧
  length (v1_pieces t) mod 20 = 0 ∧
  (u64 (total + pl - 1) / pl)%Z = Z.of_nat (length (v1_pieces t) / 20).
Proof.
  unfold TorrentV1.v1_validate. intros Hv.
  destruct (PieceLength.validate _) as [[]|] eqn:Epl; [|done]. cbn [rbind] in Hv.
  repeat case_match; try done. by b2p.
Qed.

Lemma total_size_range t : (0 ≤ TorrentV1.v1_total_size t < 2 ^ 64)%Z.
Proof. unfold TorrentV1.v1_total_size. break; apply wrap_range; lia. Qed.

(** The facts the loops over pieces rest on: [n] pieces, the last of them
    nonempty, and the length of each. *)
Lemma valid_pieces t :
  TorrentV1.v1_validate t = Ok tt → (TorrentV1.v1_total_size t ≤ 2 ^ 45)%Z →
  let pl := tc_piece_length (v1_info t) in
  let total := TorrentV1.v1_total_size t in
  let n := Z.of_nat (length (TorrentV1.v1_piece_hashes t)) in
  (2 ^ 14 ≤ pl ≤ 2 ^ 27)%Z ∧ (1 ≤ n ≤ 2 ^ 31)%Z ∧ TorrentFile.num_pieces (V1 t) = n ∧
  (pl * (n - 1) < total ≤ pl * n)%Z ∧
  ∀ i, (0 ≤ i < n)%Z → TorrentFile.piece_size (V1 t) i = Z.min pl (total - pl * i).
Proof.
  intros Hv Hsz. cbv zeta. apply v1_validate_inv in Hv as (Hpl & Hnz & _ & Hn).
  pose proof (total_size_range t) as Hr. revert Hpl Hnz Hn Hr Hsz.
  unfold TorrentFile.num_pieces, TorrentFile.piece_size, TorrentFile.piece_length,
    TorrentFile.total_size, TorrentFile.piece_hashes, TorrentFile.common.
  unfold TorrentV1.v1_piece_hashes. rewrite length_chunks_exact by lia.
  generalize (tc_piece_length (v1_info t)) (TorrentV1.v1_total_size t)
    (length (v1_pieces t) / 20). intros pl total n.
  intros (k & Hk & Epl)%validate_piece_length_iff Hnz Hn Hr Hsz.
  assert (2 ^ 14 ≤ pl)%Z by (subst; apply Z.pow_le_mono_r; lia).
  assert (pl ≤ 2 ^ 27)%Z by (subst; apply Z.pow_le_mono_r; lia). clear Epl k Hk.
  change (2 ^ 14)%Z with 16384%Z in *. change (2 ^ 27)%Z with 134217728%Z in *.
  change (2 ^ 45)%Z with 35184372088832%Z in *. change (2 ^ 31)%Z with 2147483648%Z.
  rewrite wrap_small in Hn |- * by (change (2 ^ 64)%Z with 18446744073709551616%Z in *; lia).
  pose proof (Z.div_mod (total + pl - 1) pl ltac:(lia)) as Hdm.
  pose proof (Z.mod_pos_bound (total + pl - 1) pl ltac:(lia)) as Hmb.
  rewrite Hn in Hdm.
  assert (1 ≤ Z.of_nat n ≤ 2147483648)%Z by nia.
  split_and!; try lia.
  { destruct (Z.eqb_spec pl 0); lia. }
  intros i Hi.
  rewrite !(wrap_small 32 (Z.of_nat n)), (wrap_small 32 (Z.of_nat n - 1)),
    !(wrap_small 32 pl) by (change (2 ^ 32)%Z with 4294967296%Z; lia).
  destruct (Z.eqb_spec i (Z.of_nat n - 1)) as [->|]; cbn [negb]; [|nia].
  pose proof (Z.mod_pos_bound total pl ltac:(lia)) as Hm2.
  rewrite wrap_small by (change (2 ^ 32)%Z with 4294967296%Z; lia).
  destruct (decide (total = pl * Z.of_nat n)%Z) as [->|].
  { rewrite Z.mul_comm, Z.mod_mul by lia. simpl. lia. }
  assert (total mod pl = total - pl * (Z.of_nat n - 1))%Z as ->.
  { symmetry. apply (Z.mod_unique_pos _ _ (Z.of_nat n - 1)); lia. }
  destruct (Z.eqb_spec (total - pl * (Z.of_nat n - 1)) 0); lia.
Qed.

Lemma sum_pieces pl total n :
  (0 < pl)%Z → (pl * (Z.of_nat n - 1) < total)%Z → (1 ≤ n) → (total ≤ pl * Z.of_nat n)%Z →
  foldr Z.add 0%Z (map (λ i, Z.min pl (total - pl * Z.of_nat i)) (seq 0 n)) = total.
Proof.
  intros Hpl Hlo Hn Hhi.
  assert (∀ m a : nat, (a + m = n)%nat → (1 ≤ m)%nat →
    foldr Z.add 0%Z (map (λ i, Z.min pl (total - pl * Z.of_nat i)) (seq a m))
      = total - pl * Z.of_nat a)%Z as Hgen.
  { induction m as [|m IH]; intros a Ha Hm; [lia|]. cbn [seq map foldr].
    destruct m as [|m]; [simpl; nia|]. rewrite IH by lia. nia. }
  rewrite Hgen by lia. lia.
Qed.

(** The pieces of a torrent that validates cover its content exactly: there
    is one hash per piece, every piece is nonempty and at most the piece length
    long, and the lengths the session requests add up to the total size (for
    content of up to 32 TiB, the most that [u32] piece numbers address at the
    smallest piece length with room to spare). *)
Theorem valid_pieces_cover (t : TorrentV1)
    (Hvalid : TorrentV1.v1_validate t = Ok tt)
    (Hsize : (TorrentV1.v1_total_size t ≤ 2 ^ 45)%Z) :
  let n := length (TorrentFile.piece_hashes (V1 t)) in
  TorrentFile.num_pieces (V1 t) = Z.of_nat n ∧
  (∀ i, (0 ≤ i < Z.of_nat n)%Z →
     0 < TorrentFile.piece_size (V1 t) i ≤ TorrentFile.piece_length (V1 t))%Z ∧
  foldr Z.add 0%Z (map (λ i, TorrentFile.piece_size (V1 t) (Z.of_nat i)) (seq 0 n))
    = TorrentFile.total_size (V1 t).
Proof.
  destruct (valid_pieces t Hvalid Hsize) as (Hpl & Hn & Hnum & Htot & Hps).
  cbv zeta. cbn [TorrentFile.piece_hashes]. split; [done|].
  change (2 ^ 14)%Z with 16384%Z in *. split.
  - intros i Hi. rewrite Hps by done. unfold TorrentFile.piece_length. cbn. nia.
  - etransitivity; [|apply (sum_pieces (tc_piece_length (v1_info t))
      (TorrentV1.v1_total_size t) (length (TorrentV1.v1_piece_hashes t))); lia].
    f_equal. apply map_ext_in. intros i [_ Hi]%in_seq. apply Hps. lia.
Qed.

(** * Info hashes *)

(** An info hash goes through its byte string and through its hexadecimal
    text unchanged, for both versions; byte strings of any other length are
    refused. *)
Theorem info_hash_roundtrip `{HexLaws} (h : InfoHash) (Hwf : InfoHash.wf h) :
  InfoHash.try_from (InfoHash.to_vec h) = Ok h ∧
  InfoHash.from_hex (InfoHash.to_string h) = Some h ∧
  (∀ b, length b ≠ 20 → length b ≠ 32 → is_ok (InfoHash.try_from b) = false).
Proof.
  unfold InfoHash.try_from, InfoHash.to_vec, InfoHash.from_hex, InfoHash.to_string.
  destruct h as [b|b]; destruct Hwf as [Hl Hb]; cbn [InfoHash.as_ref];
    rewrite hex_encode_length, Hl, hex_decode_encode by done; cbn; rewrite ?Hl;
    (split_and!; [done|done|]); intros c H20 H32;
    by rewrite (proj2 (Nat.eqb_neq _ _) H20), (proj2 (Nat.eqb_neq _ _) H32).
Qed.

(** A hash that was parsed has the right size. *)
Lemma from_hex_wf `{HexLaws} s h : InfoHash.from_hex s = Some h → InfoHash.wf h.
Proof.
  unfold InfoHash.from_hex. destruct (_ =? 40); [|destruct (_ =? 64); [|done]].
  all: destruct (hex_decode s) as [bs|] eqn:Ed; [|done]; cbn; destruct (length bs =? _) eqn:El; [|done];
    intros [= <-]; split; [by apply Nat.eqb_eq|by eapply hex_decode_bytes].
Qed.

Lemma info_hash_roundtrip_witness :
  @InfoHash.from_hex ToyHex.hex (@InfoHash.to_string ToyHex.hex
    (HashV1 (replicate 20 171%Z))) = Some (HashV1 (replicate 20 171%Z)).
Proof.
  apply (@info_hash_roundtrip ToyHex.hex ToyHex.hex_laws (HashV1 (replicate 20 171%Z))).
  by apply (bool_decide_unpack _).
Defined.

(** * Instances of the properties *)

Module MetainfoExamples.
(** A text syntax with one host. *)
Definition toy_text : AddrText := {|
  show_socket _ := "192.0.2.1:6881";
  show_ip _ := "192.0.2.1";
  parse_socket s := if bool_decide (s = "192.0.2.1:6881") then Some (SocketV4 3221225985 6881)
                    else None |}.
Definition toy_utf8 : BencodeTorrent.from_utf8_t := λ _, Some "seed".
Definition toy_encode (i : BencodeInfo) : Result string (list Z) :=
  Ok (bi_pieces i ++ [Z.of_nat (String.length (bi_name i)); bi_piece_length i]).

(** Two files of together 20000 bytes, in two pieces of 16 KiB. *)
Definition info : BencodeInfo :=
  mkInfo "demo" None None (Some 1%Z) (replicate 40 7%Z) 16384 None None
    (Some [mkFileInfo 12000 ["a"] None; mkFileInfo 8000 ["dir"; "b"] None]).
Definition metadata : BencodeTorrent :=
  mkTorrent (Some "udp://tracker") info None (Some 0%Z) None None (Some ["http://seed"])
    [("httpseeds", VList [VBytes [115%Z]; VInt 3])] []
    (Some [("192.0.2.1", 6881%Z); ("router.i2p", 0%Z); ("unparsable", 1%Z)]).
Definition torrent : TorrentV1 :=
  match @TorrentFile.apply_from_metadata Toy.ToyCrypto toy_text toy_utf8 toy_encode metadata with
  | Ok (V1 t) => t
  | _ => mkV1 (mkCommon (HashV1 []) "" None None 0 None None None None None) false []
           (MultiFile [])
  end.

Lemma saved_info_iff_witness :
  canonical_info info ∧ TorrentFile.to_info (V1 torrent) = info.
Proof.
  assert (canonical_info info) as Hc by (repeat split; by right).
  split; [done|].
  apply (@saved_info_iff Toy.ToyCrypto toy_text toy_utf8 toy_encode metadata torrent);
    [vm_compute; reflexivity|vm_compute; by split|done].
Defined.

Lemma save_load_roundtrip_witness :
  length (default [] (tc_dht_nodes (v1_info torrent))) = 2 ∧
  @TorrentFile.apply_from_metadata Toy.ToyCrypto toy_text toy_utf8 toy_encode
    (@TorrentFile.to_bencode toy_text (V1 torrent)) = Ok (V1 torrent).
Proof.
  split; [vm_compute; reflexivity|].
  apply (@save_load_roundtrip Toy.ToyCrypto toy_text toy_utf8 toy_encode metadata torrent);
    [vm_compute; reflexivity|vm_compute; by split|repeat split; by right|].
  apply (bool_decide_unpack _). vm_compute. exact I.
Defined.

Lemma valid_pieces_cover_witness :
  TorrentV1.v1_validate torrent = Ok tt ∧
  map (λ i, TorrentFile.piece_size (V1 torrent) (Z.of_nat i)) (seq 0 2) = [16384; 3616]%Z ∧
  TorrentFile.num_pieces (V1 torrent) = 2%Z.
Proof.
  split; [vm_compute; reflexivity|]. split; [vm_compute; reflexivity|].
  apply (valid_pieces_cover torrent); [vm_compute; reflexivity|vm_compute; done].
Defined.
End MetainfoExamples.
