(* ===== verification/Magnet.v ===== *)
(** Magnet links: [src/bit_torrent/magnet.rs], and the links the program accepts
    ([TorrentSource] of [bqti.rs]) and prints ([Magnet] of [metainfo/mod.rs]).

    A [&str] is a [string]; [split] and [split_once] are the standard
    library's, on one character. *)

From Stdlib Require Import Ascii.
From S2P Require Import Prelude Net Metainfo.

#[local] Arguments String.append !_ _ /.

(** * Splitting text *)

(** [str::strip_prefix]. *)
Fixpoint strip_prefix (prefix s : string) : option string :=
  match prefix, s with
  | "", _ => Some s
  | String a prefix, String b s => if Ascii.eqb a b then strip_prefix prefix s else None
  | _, "" => None
  end.

#[local] Arguments strip_prefix : simpl never.

(** [str::split]: the parts between the occurrences of [c], at least one. *)
Fixpoint split (c : Ascii.ascii) (s : string) : list string :=
  match s with
  | "" => [""]
  | String a s =>
    if Ascii.eqb a c then "" :: split c s
    else match split c s with
         | [] => [String a ""]
         | p :: ps => String a p :: ps
         end
  end.

(** [str::split_once]: around the first occurrence of [c]. *)
Fixpoint split_once (c : Ascii.ascii) (s : string) : option (string * string) :=
  match s with
  | "" => None
  | String a s =>
    if Ascii.eqb a c then Some ("", s)
    else '(k, v) ← split_once c s; Some (String a k, v)
  end.

(** * Links *)

(** src/src/bit_torrent/magnet.rs:3-10 [MagnetLink] *)
Record MagnetLink := mkMagnet {
  mg_hash : string;
  mg_name : option string;
  mg_bootstrap : option string;
  mg_trackers : list string;
  mg_web_seed : option string;
}.

(** The variables of the parsing loop. *)
Record MagnetVars := mkVars {
  mv_hash : option string;
  mv_name : option string;
  mv_bootstrap : option string;
  mv_trackers : list string;
  mv_web_seed : option string;
}.

Module MagnetLink.
(** src/src/bit_torrent/magnet.rs:23-32 [MagnetLink::new, one pair] *)
Definition pair_step (v : MagnetVars) (kv : string) : option MagnetVars :=
  '(key, value) ← split_once "="%char kv;
  Some (
    if String.eqb key "xt" then
      mkVars (strip_prefix "urn:bqti:" value) (mv_name v) (mv_bootstrap v) (mv_trackers v)
        (mv_web_seed v)
    else if String.eqb key "dn" then
      mkVars (mv_hash v) (Some value) (mv_bootstrap v) (mv_trackers v) (mv_web_seed v)
    else if String.eqb key "bs" then
      mkVars (mv_hash v) (mv_name v) (Some value) (mv_trackers v) (mv_web_seed v)
    else if String.eqb key "tr" then
      mkVars (mv_hash v) (mv_name v) (mv_bootstrap v) (mv_trackers v ++ [value]) (mv_web_seed v)
    else if String.eqb key "ws" then
      mkVars (mv_hash v) (mv_name v) (mv_bootstrap v) (mv_trackers v) (Some value)
    else v).

Fixpoint pairs_loop (v : MagnetVars) (pairs : list string) : option MagnetVars :=
  match pairs with
  | [] => Some v
  | kv :: pairs => v ← pair_step v kv; pairs_loop v pairs
  end.

(** src/src/bit_torrent/magnet.rs:13-42 [MagnetLink::new] *)
Definition magnet_new (link : string) : option MagnetLink :=
  query ← strip_prefix "magnet:?" link;
  v ← pairs_loop (mkVars None None None [] None) (split "&"%char query);
  hash ← mv_hash v;
  Some (mkMagnet hash (mv_name v) (mv_bootstrap v) (mv_trackers v) (mv_web_seed v)).

(** [if let Some(x) = o { write!(f, "&k={}", x) }]. *)
Definition write_opt (key : string) (o : option string) : string :=
  match o with Some v => "&" +:+ key +:+ "=" +:+ v | None => "" end.

(** src/src/bit_torrent/magnet.rs:45-67 [Display for MagnetLink] *)
Definition magnet_to_string (self : MagnetLink) : string :=
  "magnet:?xt=urn:bqti:" +:+ mg_hash self +:+
  write_opt "dn" (mg_name self) +:+
  write_opt "bs" (mg_bootstrap self) +:+
  foldr (λ tracker rest, ("&tr=" +:+ tracker) +:+ rest) "" (mg_trackers self) +:+
  write_opt "ws" (mg_web_seed self).
End MagnetLink.

(** src/src/bit_torrent/bqti.rs:85-88 [TorrentSource] *)
Inductive TorrentSource :=
| SourceMagnet (link : MagnetLink)
| SourceFile (path : string).

(** src/src/bit_torrent/bqti.rs:90-100 [TorrentSource::parse] *)
Definition source_parse (link : string) : Result string TorrentSource :=
  if starts_with "magnet:" link then
    match MagnetLink.magnet_new link with
    | Some m => Ok (SourceMagnet m)
    | None => Err "invalid magnet link"
    end
  else Ok (SourceFile link).

(** * The link of a torrent *)

Section magnet_of.
Context `{Hex} `{AddrText}.

(** [join(",")]. *)
Definition join_comma (l : list string) : string :=
  match l with
  | [] => ""
  | x :: l => foldl (λ acc y, acc +:+ "," +:+ y) x l
  end.

(** src/src/bit_torrent/torrent/metainfo/v1.rs:141-161 [Magnet for TorrentV1] *)
Definition magnet_v1 (self : TorrentV1) : MagnetLink :=
  let c := v1_info self in
  mkMagnet (InfoHash.to_string (tc_info_hash c)) (Some (tc_name c))
    (option_map (λ nodes, join_comma (map TorrentAddr.addr_to_string nodes)) (tc_dht_nodes c))
    (default [] (option_map (@concat string) (tc_announce_list c)))
    (seeds ← tc_web_seeds c; head seeds).

(** src/src/bit_torrent/torrent/metainfo/v2.rs:202-222 [Magnet for TorrentV2] *)
Definition magnet_v2 (self : TorrentV2) : MagnetLink :=
  let c := v2_info self in
  mkMagnet (InfoHash.to_string (tc_info_hash c)) (Some (tc_name c))
    (option_map (λ nodes, join_comma (map TorrentAddr.addr_to_string nodes)) (tc_dht_nodes c))
    (default [] (option_map (@concat string) (tc_announce_list c)))
    (seeds ← tc_web_seeds c; head seeds).

Definition magnet (self : TorrentFile) : MagnetLink :=
  match self with V1 t => magnet_v1 t | V2 t => magnet_v2 t end.
End magnet_of.

(** * Properties *)

(** ** Splitting and joining *)

Notation free s := (contains_char "&"%char s = false).

(** The text between two separators. *)
Fixpoint join (c : ascii) (l : list string) : string :=
  match l with
  | [] => ""
  | [x] => x
  | x :: l => x +:+ String c (join c l)
  end.

Lemma contains_char_app c a b :
  contains_char c (a +:+ b) = contains_char c a || contains_char c b.
Proof. induction a as [|d a IH]; simpl; [done|]. by rewrite IH, orb_assoc. Qed.

Lemma split_free c s : contains_char c s = false → split c s = [s].
Proof.
  induction s as [|d s IH]; simpl; [done|]. intros [Hd Hs]%orb_false_iff. b2p.
  rewrite (proj2 (Ascii.eqb_neq d c)) by congruence. by rewrite IH.
Qed.

Lemma split_app c a b :
  contains_char c a = false → split c (a +:+ String c b) = a :: split c b.
Proof.
  induction a as [|d a IH]; simpl; [by rewrite Ascii.eqb_refl|].
  intros [Hd Ha]%orb_false_iff. b2p.
  rewrite (proj2 (Ascii.eqb_neq d c)) by congruence. by rewrite IH.
Qed.

Lemma split_join c l :
  l ≠ [] → Forall (λ s, contains_char c s = false) l → split c (join c l) = l.
Proof.
  intros Hne Hl. induction Hl as [|x l Hx Hl IH]; [done|].
  destruct l as [|y l]; [by apply split_free|].
  change (split c (x +:+ String c (join c (y :: l))) = x :: y :: l).
  rewrite split_app by done. by rewrite IH.
Qed.

Lemma split_elem_free c s x : x ∈ split c s → contains_char c x = false.
Proof.
  revert x. induction s as [|d s IH]; simpl; intros x; [set_solver|].
  destruct (Ascii.eqb_spec d c) as [->|Hd].
  - intros [->|]%elem_of_cons; auto.
  - destruct (split c s) as [|p ps] eqn:E.
    + intros ->%list_elem_of_singleton. simpl. rewrite bool_decide_false by congruence. done.
    + intros [->|Hx]%elem_of_cons; simpl; [|apply IH; set_solver].
      rewrite bool_decide_false by congruence. simpl. apply IH. set_solver.
Qed.

Lemma split_once_free c s k v :
  split_once "="%char s = Some (k, v) → contains_char c s = false → contains_char c v = false.
Proof.
  revert k. induction s as [|d s IH]; simpl; intros k; [done|].
  intros Hs [Hd Hf]%orb_false_iff. destruct (Ascii.eqb d "="); [by simplify_eq|].
  destruct (split_once "=" s) as [[k' v']|]; simplify_eq/=. by eapply IH.
Qed.

Lemma strip_prefix_Some prefix s r : strip_prefix prefix s = Some r ↔ s = prefix +:+ r.
Proof.
  revert s. induction prefix as [|a prefix IH]; intros [|b s]; cbv [strip_prefix]; fold strip_prefix; simpl.
  1,2: split; [intros [= <-]; done|intros Hr; by rewrite Hr].
  - split; discriminate.
  - destruct (Ascii.eqb_spec a b) as [->|Hab]; [rewrite IH; split|split].
    + by intros ->.
    + by intros [= ->].
    + done.
    + intros [= -> _]. done.
Qed.

(** ** Printing and parsing *)

(** The fields of a link, none of which the syntax can quote. *)
Definition fields (m : MagnetLink) : list string :=
  mg_hash m :: option_list (mg_name m) ++ option_list (mg_bootstrap m) ++ mg_trackers m ++
  option_list (mg_web_seed m).

Definition var_fields (v : MagnetVars) : list string :=
  option_list (mv_hash v) ++ option_list (mv_name v) ++ option_list (mv_bootstrap v) ++
  mv_trackers v ++ option_list (mv_web_seed v).

Notation no_amp l := (Forall (λ s, free s) l).

Definition pairs_of (m : MagnetLink) : list string :=
  ("xt=urn:bqti:" +:+ mg_hash m) :: map (String.append "dn=") (option_list (mg_name m)) ++
  map (String.append "bs=") (option_list (mg_bootstrap m)) ++ map (String.append "tr=") (mg_trackers m) ++
  map (String.append "ws=") (option_list (mg_web_seed m)).

Lemma string_app_nil_r s : s +:+ "" = s.
Proof. induction s as [|d s IH]; simpl; [done|]. by rewrite IH. Qed.

Lemma string_app_assoc a b c : (a +:+ b) +:+ c = a +:+ b +:+ c.
Proof. induction a as [|d a IH]; simpl; [done|]. by rewrite IH. Qed.

Lemma foldr_pairs key l r :
  foldr (λ y r, "&" +:+ y +:+ r) r (map (String.append key) l) =
    foldr (λ v r, ("&" +:+ key +:+ v) +:+ r) "" l +:+ r.
Proof.
  induction l as [|x l IH]; [done|]. cbn [foldr map]. by rewrite IH, !string_app_assoc.
Qed.

Lemma print_join m : MagnetLink.magnet_to_string m = "magnet:?" +:+ join "&"%char (pairs_of m).
Proof.
  assert (∀ x l, join "&"%char (x :: l) = x +:+ foldr (λ y r, "&" +:+ y +:+ r) "" l) as Hj.
  { intros x l. revert x. induction l as [|y l IH]; intros x.
    - simpl. by rewrite string_app_nil_r.
    - change (x +:+ String "&" (join "&"%char (y :: l)) = x +:+ String "&" (y +:+ foldr (λ y r, "&" +:+ y +:+ r) "" l)).
      by rewrite IH. }
  unfold MagnetLink.magnet_to_string, pairs_of. rewrite Hj, !foldr_app, !foldr_pairs.
  destruct m as [h n b t w]; cbn [mg_hash mg_name mg_bootstrap mg_trackers mg_web_seed].
  destruct n, b, w; simpl; rewrite ?string_app_nil_r; done.
Qed.

Lemma pairs_loop_app v l1 l2 :
  MagnetLink.pairs_loop v (l1 ++ l2) =
    v' ← MagnetLink.pairs_loop v l1; MagnetLink.pairs_loop v' l2.
Proof.
  revert v. induction l1 as [|x l1 IH]; intros v; [done|]. simpl.
  destruct (MagnetLink.pair_step v x); [apply IH|done].
Qed.

Lemma pairs_loop_trackers v l :
  MagnetLink.pairs_loop v (map (String.append "tr=") l) =
    Some (mkVars (mv_hash v) (mv_name v) (mv_bootstrap v) (mv_trackers v ++ l) (mv_web_seed v)).
Proof.
  revert v. induction l as [|x l IH]; intros v; simpl.
  - rewrite app_nil_r. by destruct v.
  - rewrite IH. simpl. by rewrite <-app_assoc.
Qed.

Lemma pairs_of_free m : no_amp (fields m) → no_amp (pairs_of m).
Proof.
  unfold fields, pairs_of. rewrite !Forall_cons, !Forall_app, !Forall_map.
  intros (Hh & Hn & Hb & Ht & Hw). repeat split; try (eapply Forall_impl; [eassumption|]);
    simpl; auto.
Qed.

Lemma parse_pairs m :
  no_amp (fields m) → MagnetLink.magnet_new (MagnetLink.magnet_to_string m) = Some m.
Proof.
  intros Hf. unfold MagnetLink.magnet_new.
  rewrite (proj2 (strip_prefix_Some _ _ _) (print_join m)). cbn [mbind option_bind].
  rewrite split_join by (done || by apply pairs_of_free).
  unfold pairs_of. cbn [MagnetLink.pairs_loop]. simpl.
  rewrite !pairs_loop_app. destruct m as [h n b t w]; simpl.
  destruct n, b; simpl; rewrite pairs_loop_app, pairs_loop_trackers; destruct w; done.
Qed.

Lemma pair_step_free v kv v' :
  MagnetLink.pair_step v kv = Some v' → free kv → no_amp (var_fields v) → no_amp (var_fields v').
Proof.
  unfold MagnetLink.pair_step. destruct (split_once _ kv) as [[k x]|] eqn:Hs; [|done].
  cbn [mbind option_bind]. intros [= <-] Hf.
  pose proof (split_once_free _ _ _ _ Hs Hf) as Hx.
  unfold var_fields. rewrite !Forall_app. intros (Hh & Hn & Hb & Ht & Hw).
  destruct (String.eqb k "xt").
  { cbn [mv_hash mv_name mv_bootstrap mv_trackers mv_web_seed]. repeat split; auto.
    destruct (strip_prefix "urn:bqti:" x) as [r|] eqn:Hr; [|constructor].
    apply strip_prefix_Some in Hr as ->. rewrite contains_char_app in Hx.
    apply orb_false_iff in Hx as [_ Hx]. constructor; auto. }
  destruct (String.eqb k "dn"), (String.eqb k "bs"), (String.eqb k "tr"), (String.eqb k "ws");
    cbn; rewrite ?Forall_app; auto 10.
Qed.

Lemma parse_free s m : MagnetLink.magnet_new s = Some m → no_amp (fields m).
Proof.
  unfold MagnetLink.magnet_new. destruct (strip_prefix _ s) as [q|]; [|done]. simpl.
  pose proof (split_elem_free "&" q) as Hfree. revert Hfree.
  assert (no_amp (var_fields (mkVars None None None [] None))) as Hv by constructor.
  revert Hv. generalize (mkVars None None None [] None).
  induction (split "&" q) as [|kv l IH]; intros v Hv Hfree; simpl.
  - destruct v as [[h|] n b t w]; simpl; [|done]. by intros [= <-].
  - destruct (MagnetLink.pair_step v kv) as [v'|] eqn:Hst; [|done]. apply IH; [|set_solver].
    eapply pair_step_free; [done| |done]. apply Hfree. set_solver.
Qed.

(** parsing a printed link gives the link back exactly when none of its
    fields contains the separator, since the printer quotes nothing; a link
    that was parsed is printed and parsed back unchanged. *)
Theorem magnet_roundtrip (m : MagnetLink) :
  (MagnetLink.magnet_new (MagnetLink.magnet_to_string m) = Some m ↔ no_amp (fields m)) ∧
  (∀ s, MagnetLink.magnet_new s = Some m →
        source_parse (MagnetLink.magnet_to_string m) = Ok (SourceMagnet m)).
Proof.
  split; [split; [apply parse_free|apply parse_pairs]|].
  intros s Hs%parse_free. unfold source_parse. rewrite parse_pairs by done. done.
Qed.

(** A torrent's link loses its name, and is refused, when the name has the
    separator in it. *)
Example magnet_name_with_separator :
  MagnetLink.magnet_new (MagnetLink.magnet_to_string
    (mkMagnet "aa" (Some "salt & pepper") None [] None)) = None.
Proof. reflexivity. Qed.
