(* ===== verification/I2p.v ===== *)
(** The I2P transport: [src/i2p].

    QUIC wants socket addresses, and I2P has destinations (long strings), so
    [DestMap] invents an address for each destination; the datagram socket
    translates in both directions.  The conversation with the SAM bridge that
    opens a session is a list of the results its reads and writes get. *)

From Stdlib Require Import Ascii.
From S2P Require Import Prelude Net Crypto Metainfo Magnet.

(** The order in which a [HashMap] is iterated: some order of its entries. *)
Class MapIter := map_iter : gmap string SocketAddr → list (string * SocketAddr).
Class MapIterLaws `{MapIter} : Prop :=
  map_iter_perm : ∀ m, map_iter m ≡ₚ map_to_list m.

(** * The address book *)

(** src/src/i2p/dest_map.rs:10-19 [DestMapInner, DestMap] *)
Record DestMap := mkDestMap {
  dest_to_addr : gmap string SocketAddr;
  addr_to_dest : gmap SocketAddr string;
  next_ip : Z;
}.

Module DestMap.
Section dest_map.
Context `{MapIter}.

(** src/src/i2p/dest_map.rs:22-27 [DestMap::new] *)
Definition dm_new : DestMap := mkDestMap ∅ ∅ 1.

(** src/src/i2p/dest_map.rs:29-31 [DestMap::resolve] *)
Definition resolve (self : DestMap) (addr : SocketAddr) : option string :=
  addr_to_dest self !! addr.

(** src/src/i2p/dest_map.rs:43-43 [the closure of prefix_match] *)
Definition related (k dest : string) : bool := starts_with dest k || starts_with k dest.

(** src/src/i2p/dest_map.rs:58-59 [the address of the next destination] *)
Definition addr_of (ip : Z) : SocketAddr := SocketV4 (u32 (0x0A000000 + ip)) 4242.

(** src/src/i2p/dest_map.rs:33-65 [DestMap::get_or_insert] *)
Definition get_or_insert (self : DestMap) (dest : string) : SocketAddr * DestMap :=
  match dest_to_addr self !! dest with
  | Some addr => (addr, self)
  | None =>
    match List.find (λ '(k, _), related k dest) (map_iter (dest_to_addr self)) with
    | Some (_, addr) =>
      let a2d := match addr_to_dest self !! addr with
                 | Some existing =>
                   if String.length existing <? String.length dest
                   then <[addr := dest]> (addr_to_dest self)
                   else addr_to_dest self
                 | None => addr_to_dest self
                 end in
      (addr, mkDestMap (<[dest := addr]> (dest_to_addr self)) a2d (next_ip self))
    | None =>
      let ip := next_ip self in
      let addr := addr_of ip in
      (addr, mkDestMap (<[dest := addr]> (dest_to_addr self))
               (<[addr := dest]> (addr_to_dest self)) (u32 (ip + 1)))
    end
  end.

Definition get_all (self : DestMap) (dests : list string) : DestMap :=
  foldl (λ m d, (get_or_insert m d).2) self dests.
End dest_map.
End DestMap.

(** * The datagram socket *)

(** src/src/i2p/socket.rs:31-38 [I2pDatagramSocket]

    The inbound channel is the queue of datagrams it holds and whether its
    sender is gone. *)
Record I2pDatagramSocket := mkSocket {
  sk_session_id : string;
  sk_dest_map : DestMap;
  sk_local_addr : SocketAddr;
  sk_inbound : list (list Z * SocketAddr);
  sk_closed : bool;
}.

(** [as_bytes] of a string. *)
Definition str_bytes (s : string) : list Z :=
  map (λ c, Z.of_nat (nat_of_ascii c)) (String.list_ascii_of_string s).

(** [std::str::from_utf8]. *)
Class Utf8 := from_utf8 : list Z → option string.

(** src/src/i2p/socket.rs:183-189 [quinn::udp::RecvMeta], the fields set *)
Record RecvMeta := mkMeta { rm_addr : SocketAddr; rm_len : nat; rm_stride : nat; rm_dst_ip : IpAddr }.

Inductive Poll (A : Type) := Ready (a : A) | Pending.
Arguments Ready {A} a.
Arguments Pending {A}.

Inductive IoError := IoWouldBlock | IoBrokenPipe | IoOther.

Module Socket.
Section socket.
Context `{MapIter} `{Utf8}.

(** src/src/i2p/socket.rs:45-68 [I2pDatagramSocket::new] *)
Definition socket_new (session_id destination : string) (dest_map : DestMap) : I2pDatagramSocket :=
  let '(local_addr, dest_map) := DestMap.get_or_insert dest_map destination in
  mkSocket session_id dest_map local_addr [] false.

(** src/src/i2p/socket.rs:41-43 [I2pDatagramSocket::register_dest] *)
Definition register_dest (self : I2pDatagramSocket) (dest : string)
    : SocketAddr * I2pDatagramSocket :=
  let '(a, m) := DestMap.get_or_insert (sk_dest_map self) dest in
  (a, mkSocket (sk_session_id self) m (sk_local_addr self) (sk_inbound self) (sk_closed self)).

(** src/src/i2p/socket.rs:84-116 [recv_loop, one datagram]

    The datagram is pushed on the channel; [None] ends the loop (a receive
    error). *)
Definition recv_one (self : I2pDatagramSocket) (result : option (list Z)) : I2pDatagramSocket :=
  match result with
  | None =>
    mkSocket (sk_session_id self) (sk_dest_map self) (sk_local_addr self) (sk_inbound self) true
  | Some data =>
    match position (λ b, (b =? 10)%Z) data with
    | None => self
    | Some nl =>
      match from_utf8 (take nl data) with
      | None => self
      | Some source =>
        let payload := drop (nl + 1) data in
        let '(src_addr, m) := DestMap.get_or_insert (sk_dest_map self) source in
        mkSocket (sk_session_id self) m (sk_local_addr self)
          (sk_inbound self ++ [(payload, src_addr)]) (sk_closed self)
      end
    end
  end.

(** src/src/i2p/socket.rs:138-160 [AsyncUdpSocket::try_send]

    [udp] is the result of sending the packet to the SAM bridge, whose address
    is a constant. *)
Definition try_send (self : I2pDatagramSocket) (udp : list Z → Result IoError unit)
    (destination : SocketAddr) (contents : list Z) : Result IoError unit :=
  match DestMap.resolve (sk_dest_map self) destination with
  | None => Ok tt
  | Some d =>
    let udp_header := "3.0 " +:+ sk_session_id self +:+ " " +:+ d +:+ String (ascii_of_nat 10) "" in
    udp (str_bytes udp_header ++ contents)
  end.

(** src/src/i2p/socket.rs:177-201 [poll_recv, the loop]

    [bufs] are the lengths of the buffers; the result is what is written to
    each, with its metadata. *)
Fixpoint poll_loop (self : I2pDatagramSocket) (bufs : list nat) (n : list (list Z * RecvMeta))
    : Result IoError (list (list Z * RecvMeta)) * I2pDatagramSocket :=
  match bufs with
  | [] => (Ok n, self)
  | buf :: bufs =>
    match sk_inbound self with
    | (packet, src_addr) :: rest =>
      let len := min (length packet) buf in
      let meta := mkMeta src_addr len len (addr_ip (sk_local_addr self)) in
      poll_loop (mkSocket (sk_session_id self) (sk_dest_map self) (sk_local_addr self) rest
                   (sk_closed self)) bufs (n ++ [(take len packet, meta)])
    | [] => if sk_closed self then (Err IoBrokenPipe, self) else (Ok n, self)
    end
  end.

(** src/src/i2p/socket.rs:166-208 [AsyncUdpSocket::poll_recv] *)
Definition poll_recv (self : I2pDatagramSocket) (bufs : list nat)
    : Poll (Result IoError (list (list Z * RecvMeta))) * I2pDatagramSocket :=
  match poll_loop self bufs [] with
  | (Err e, s) => (Ready (Err e), s)
  | (Ok [], s) => (Pending, s)
  | (Ok n, s) => (Ready (Ok n), s)
  end.
End socket.
End Socket.

(** * The SAM session *)

(** src/src/i2p/session.rs:15-25 [SamError] *)
Inductive SamError :=
| SamIo (e : IoError)
| SamBridge (msg : string)
| SamMissingField (field : string).

(** [char::is_whitespace] on ASCII, in which the bridge answers. *)
Definition is_space (c : ascii) : bool :=
  let n := nat_of_ascii c in (n =? 32) || ((9 <=? n) && (n <=? 13)).

(** [str::split_whitespace]: the maximal runs of other characters. *)
Fixpoint words (s : string) : list string :=
  match s with
  | "" => []
  | String c s =>
    if is_space c then words s
    else match s with
         | String d _ => if is_space d then String c "" :: words s
                         else match words s with
                              | w :: ws => String c w :: ws
                              | [] => [String c ""]
                              end
         | "" => [String c ""]
         end
  end.

(** [str::trim]. *)
Fixpoint trim_start (s : string) : string :=
  match s with
  | "" => ""
  | String c r => if is_space c then trim_start r else s
  end.
Fixpoint trim_end (s : string) : string :=
  match s with
  | "" => ""
  | String c s => match trim_end s with
                  | "" => if is_space c then "" else String c ""
                  | t => String c t
                  end
  end.

(** [str::contains]. *)
Fixpoint contains (pat s : string) : bool :=
  starts_with pat s || match s with "" => false | String _ s => contains pat s end.

(** [str::replace] of one character by another. *)
Fixpoint replace_char (a b : ascii) (s : string) : string :=
  match s with
  | "" => ""
  | String c s => String (if Ascii.eqb c a then b else c) (replace_char a b s)
  end.

(** The codings of the base64 and data-encoding libraries. *)
Class I2pCoding := {
  b64_decode : string → option (list Z);
  b32_encode_lower : list Z → string;
}.

(** src/src/i2p/session.rs:36-42 [SamSession], the fields that are data *)
Record SamSession := mkSam {
  sam_session_id : string;
  sam_destination : string;
  sam_b32_addr : string;
}.

(** What the reads and writes on the bridge's connection will return. *)
Definition Script := list (Result IoError string).

Module Sam.
Section sam.
Context `{Crypto} `{I2pCoding}.

(** src/src/i2p/session.rs:161-167 [parse_field] *)
Definition parse_field (reply field : string) : option string :=
  s ← List.find (starts_with (field +:+ "=")) (words reply);
  snd <$> split_once "="%char s.

(** src/src/i2p/session.rs:152-159 [ensure_ok] *)
Definition ensure_ok (reply : string) : Result SamError unit :=
  if contains "RESULT=OK" reply then Ok tt
  else Err (SamBridge (default reply (parse_field reply "MESSAGE"))).

(** src/src/i2p/session.rs:135-139 [send] *)
Definition send (io : Script) (msg : string) : Result SamError unit * Script :=
  match io with
  | Ok _ :: io => (Ok tt, io)
  | Err e :: io => (Err (SamIo e), io)
  | [] => (Err (SamIo IoOther), [])
  end.

(** src/src/i2p/session.rs:141-150 [read_line] *)
Definition read_line (io : Script) : Result SamError string * Script :=
  match io with
  | Ok "" :: io => (Err (SamBridge "SAM bridge closed connection"), io)
  | Ok line :: io => (Ok (trim_start (trim_end line)), io)
  | Err e :: io => (Err (SamIo e), io)
  | [] => (Err (SamIo IoOther), [])
  end.

(** A request and its checked reply. *)
Definition exchange (io : Script) (msg : string) : Result SamError string * Script :=
  match send io msg with
  | (Err e, io) => (Err e, io)
  | (Ok _, io) =>
    match read_line io with
    | (Err e, io) => (Err e, io)
    | (Ok reply, io) => (let? _ := ensure_ok reply in Ok reply, io)
    end
  end.

(** src/src/i2p/session.rs:122-133 [lookup] *)
Definition lookup_name (io : Script) (name : string) : Result SamError string * Script :=
  match exchange io ("NAMING LOOKUP NAME=" +:+ name +:+ String (ascii_of_nat 10) "") with
  | (Err e, io) => (Err e, io)
  | (Ok reply, io) => (ok_or (SamMissingField "VALUE") (parse_field reply "VALUE"), io)
  end.

(** src/src/i2p/session.rs:107-120 [calculate_b32_address] *)
Definition calculate_b32_address (destination : string) : Result SamError string :=
  let normalized_dest := replace_char "-" "+" (replace_char "~" "/" destination) in
  let? decoded_bytes :=
    ok_or (SamMissingField "Failed to decode Base64 destination") (b64_decode normalized_dest) in
  Ok (b32_encode_lower (sha256 decoded_bytes) +:+ ".b32.i2p").

(** src/src/i2p/session.rs:53-97 [SamSession::from_addr], after the connections are made *)
Definition from_addr (io : Script) (session_id udp_host udp_port : string)
    : Result SamError SamSession * Script :=
  match exchange io ("HELLO VERSION MIN=3.0 MAX=3.1" +:+ String (ascii_of_nat 10) "") with
  | (Err e, io) => (Err e, io)
  | (Ok _, io) =>
    match exchange io ("SESSION CREATE STYLE=DATAGRAM ID=" +:+ session_id +:+
                       " DESTINATION=TRANSIENT HOST=" +:+ udp_host +:+ " PORT=" +:+ udp_port +:+
                       String (ascii_of_nat 10) "") with
    | (Err e, io) => (Err e, io)
    | (Ok reply, io) =>
      match parse_field reply "DESTINATION" with
      | None => (Err (SamMissingField "DESTINATION"), io)
      | Some raw_dest =>
        match lookup_name io raw_dest with
        | (Err e, io) => (Err e, io)
        | (Ok destination, io) =>
          (let? b32_addr := calculate_b32_address destination in
           Ok (mkSam session_id destination b32_addr), io)
        end
      end
    end
  end.
End sam.
End Sam.

(** * Resolving addresses *)

Module Resolver.
Section resolver.
Context `{AddrText} `{MapIter}.

(** src/src/bit_torrent/network/resolver.rs:14-19 [IPResolver::resolve] *)
Definition ip_resolve (addr : string) : Result string SocketAddr :=
  ok_or "failed to parse IP address" (parse_socket addr).

(** src/src/bit_torrent/network/resolver.rs:31-43 [I2PResolver::resolve] *)
Definition i2p_resolve (dest_map : DestMap) (addr : string)
    : Result string SocketAddr * DestMap :=
  match parse_socket addr with
  | Some socket_addr => (Ok socket_addr, dest_map)
  | None =>
    if ends_with ".b32.i2p" addr || (200 <? String.length addr) then
      let '(a, m) := DestMap.get_or_insert dest_map addr in (Ok a, m)
    else (Err ("Invalid address format: " +:+ addr), dest_map)
  end.

(** src/src/bit_torrent/network/endpoint.rs:28-35 [NetworkEndpoint::resolver] *)
Inductive Resolver := IPResolver | I2PResolver (dest_map : DestMap).

(** src/src/bit_torrent/network/resolver.rs:45-48 [resolve_address] *)
Definition resolve_address (r : Resolver) (addr : string) : Result string SocketAddr * Resolver :=
  if String.eqb addr "" then (Err "address can't be empty", r)
  else match r with
       | IPResolver => (ip_resolve addr, r)
       | I2PResolver m => let '(a, m) := i2p_resolve m addr in (a, I2PResolver m)
       end.
End resolver.
End Resolver.

(** * Properties of the address book *)

Section dest_map_props.
Context `{MI : MapIter} `{!MapIterLaws}.
Import DestMap.

Lemma starts_with_refl s : starts_with s s = true.
Proof. induction s; simpl; [done|]. by rewrite bool_decide_true. Qed.

Lemma related_refl d : related d d = true.
Proof. unfold related. by rewrite starts_with_refl. Qed.

Lemma related_comm d e : related d e = related e d.
Proof. apply orb_comm. Qed.

(** No destination is related to two that are unrelated. *)
Definition coherent (ds : list string) : bool :=
  forallb (λ x, forallb (λ y, forallb (λ z,
    implb (related x y && related y z) (related x z)) ds) ds) ds.

Lemma coherent_spec ds x y z :
  coherent ds = true → x ∈ ds → y ∈ ds → z ∈ ds →
  related x y = true → related y z = true → related x z = true.
Proof.
  intros Hc Hx Hy Hz Hxy Hyz. rewrite !list_elem_of_In in *. unfold coherent in Hc.
  rewrite forallb_forall in Hc. specialize (Hc x Hx).
  rewrite forallb_forall in Hc. specialize (Hc y Hy).
  rewrite forallb_forall in Hc. specialize (Hc z Hz).
  by rewrite Hxy, Hyz in Hc.
Qed.

Lemma coherent_app_l ds es : coherent (ds ++ es) = true → coherent ds = true.
Proof.
  intros Hc. unfold coherent.
  repeat (rewrite forallb_forall; intros ? ?%list_elem_of_In).
  destruct (related x x0 && related x0 x1) eqn:E; [|done]. b2p. simpl.
  eapply coherent_spec; [exact Hc|..]; eauto; set_solver.
Qed.

Lemma addr_of_inj i j :
  (0 ≤ i < 2 ^ 32)%Z → (0 ≤ j < 2 ^ 32)%Z → addr_of i = addr_of j → i = j.
Proof.
  unfold addr_of, wrap. intros Hi Hj [= Heq].
  apply (f_equal (λ a, (a - 0x0A000000) mod 2 ^ 32)%Z) in Heq.
  rewrite !Zminus_mod_idemp_l in Heq.
  replace (0x0A000000 + i - 0x0A000000)%Z with i in Heq by lia.
  replace (0x0A000000 + j - 0x0A000000)%Z with j in Heq by lia.
  by rewrite !Z.mod_small in Heq by lia.
Qed.

Record book_inv (m : DestMap) (ds : list string) : Prop := {
  bi_dom d : is_Some (dest_to_addr m !! d) ↔ d ∈ ds;
  bi_share d e a b : dest_to_addr m !! d = Some a → dest_to_addr m !! e = Some b →
    a = b ↔ related d e = true;
  bi_back d a : dest_to_addr m !! d = Some a →
    ∃ e, addr_to_dest m !! a = Some e ∧ dest_to_addr m !! e = Some a ∧
         String.length d ≤ String.length e;
  bi_addr d a : dest_to_addr m !! d = Some a →
    ∃ i, (1 ≤ i < next_ip m)%Z ∧ a = addr_of i;
  bi_next : (1 ≤ next_ip m ≤ 1 + Z.of_nat (length ds))%Z;
}.

Lemma find_related m d :
  match List.find (λ '(k, _), related k d) (map_iter m) with
  | Some (k, a) => m !! k = Some a ∧ related k d = true
  | None => ∀ k a, m !! k = Some a → related k d = false
  end.
Proof.
  destruct (List.find _ _) as [[k a]|] eqn:Hf.
  - apply find_some in Hf as [Hin Hr]. split; [|done].
    apply elem_of_map_to_list. rewrite <-map_iter_perm. by apply list_elem_of_In.
  - intros k a Hk. apply (find_none _ _ Hf (k, a)).
    apply list_elem_of_In. rewrite map_iter_perm. by apply elem_of_map_to_list.
Qed.

Lemma book_inv_new : book_inv dm_new [].
Proof.
  split; unfold dm_new; simpl; try (intros *; rewrite lookup_empty; discriminate); [|lia].
  intros d. rewrite lookup_empty. split; [by intros []|set_solver].
Qed.

Lemma book_inv_known m ds d :
  book_inv m ds → d ∈ ds → book_inv m (ds ++ [d]).
Proof.
  intros [H1 H2 H3 H4 H5] Hd. split; auto; [|lens].
  intros e. rewrite H1. set_solver.
Qed.

Lemma book_inv_shared m ds d k a e :
  book_inv m ds → coherent (ds ++ [d]) = true → dest_to_addr m !! d = None →
  dest_to_addr m !! k = Some a → related k d = true → addr_to_dest m !! a = Some e →
  book_inv (mkDestMap (<[d := a]> (dest_to_addr m))
              (if String.length e <? String.length d then <[a := d]> (addr_to_dest m)
               else addr_to_dest m) (next_ip m)) (ds ++ [d]).
Proof.
  intros [H1 H2 H3 H4 H5] Hc Hd Hk Hr He.
  assert (∀ f b, dest_to_addr m !! f = Some b → a = b ↔ related d f = true) as Hnew.
  { intros f b Hf. rewrite (H2 k f a b) by done.
    assert (k ∈ ds) by (apply H1; eauto). assert (f ∈ ds) by (apply H1; eauto).
    assert (k ∈ ds ++ [d] ∧ f ∈ ds ++ [d] ∧ d ∈ ds ++ [d]) as (? & ? & ?) by set_solver.
    split; intros Hx; [|by apply (coherent_spec (ds ++ [d]) k d f)].
    apply (coherent_spec (ds ++ [d]) d k f); auto. by rewrite related_comm. }
  split; simpl.
  - intros f. rewrite lookup_insert_is_Some', H1. set_solver.
  - intros f g b c. rewrite !lookup_insert_Some.
    intros [[<- <-]|[Hf1 Hf2]] [[<- <-]|[Hg1 Hg2]]; [|by apply Hnew| |by apply H2].
    + by rewrite related_refl.
    + rewrite related_comm, <-(Hnew f b) by done. done.
  - intros f b. rewrite lookup_insert_Some. intros [[<- <-]|[Hf1 Hf2]].
    + destruct (Nat.ltb_spec (String.length e) (String.length d)).
      * exists d. by rewrite !lookup_insert_eq.
      * destruct (H3 k a Hk) as (e' & He' & Hb & _). simplify_eq.
        exists e. rewrite lookup_insert_ne by congruence. auto.
    + destruct (H3 f b Hf2) as (e' & He' & Hb & Hl).
      destruct (Nat.ltb_spec (String.length e) (String.length d)).
      * destruct (decide (a = b)) as [<-|].
        { simplify_eq. exists d. rewrite !lookup_insert_eq. auto with lia. }
        exists e'. rewrite !lookup_insert_ne by congruence. auto.
      * exists e'. rewrite lookup_insert_ne by congruence. auto.
  - intros f b. rewrite lookup_insert_Some. intros [[<- <-]|[_ Hf]]; eauto.
  - lens.
Qed.

Lemma book_inv_fresh m ds d :
  book_inv m ds → dest_to_addr m !! d = None → (Z.of_nat (length ds) < 2 ^ 32 - 2)%Z →
  (∀ k a, dest_to_addr m !! k = Some a → related k d = false) →
  book_inv (mkDestMap (<[d := addr_of (next_ip m)]> (dest_to_addr m))
              (<[addr_of (next_ip m) := d]> (addr_to_dest m)) (u32 (next_ip m + 1))) (ds ++ [d]).
Proof.
  intros [H1 H2 H3 H4 H5] Hd Hlen Hnone.
  assert (∀ f b, dest_to_addr m !! f = Some b → b ≠ addr_of (next_ip m)) as Hnew.
  { intros f b (i & Hi & ->)%H4 Heq%addr_of_inj; lia. }
  assert (u32 (next_ip m + 1) = next_ip m + 1)%Z as Hw by (apply wrap_small; lia).
  split; simpl; rewrite ?Hw.
  - intros f. rewrite lookup_insert_is_Some', H1. set_solver.
  - intros f g b c. rewrite !lookup_insert_Some.
    intros [[<- <-]|[Hf1 Hf2]] [[<- <-]|[Hg1 Hg2]]; [|..|by apply H2].
    + by rewrite related_refl.
    + rewrite related_comm, (Hnone g c) by done. split; [|done].
      intros Heq. by apply Hnew in Hg2.
    + rewrite (Hnone f b) by done. split; [|done]. intros Heq. by apply Hnew in Hf2.
  - intros f b. rewrite lookup_insert_Some. intros [[<- <-]|[Hf1 Hf2]].
    + exists d. by rewrite !lookup_insert_eq.
    + destruct (H3 f b Hf2) as (e & He & Hb & Hl). exists e.
      rewrite !lookup_insert_ne; eauto; [congruence|]. intros Heq. by apply Hnew in Hf2.
  - intros f b. rewrite lookup_insert_Some. intros [[<- <-]|[_ Hf]].
    + exists (next_ip m). split; [lia|done].
    + destruct (H4 f b Hf) as (i & Hi & ->). exists i. split; [lia|done].
  - lens.
Qed.

Lemma book_inv_step m ds d :
  book_inv m ds → coherent (ds ++ [d]) = true → (Z.of_nat (length ds) < 2 ^ 32 - 2)%Z →
  book_inv (get_or_insert m d).2 (ds ++ [d]) ∧
  dest_to_addr (get_or_insert m d).2 !! d = Some (get_or_insert m d).1.
Proof.
  intros Hi Hc Hlen. unfold get_or_insert.
  destruct (dest_to_addr m !! d) as [a|] eqn:Hd.
  { split; [|done]. apply book_inv_known; [done|]. apply (bi_dom _ _ Hi). eauto. }
  pose proof (find_related (dest_to_addr m) d) as Hf.
  destruct (List.find _ _) as [[k a]|]; simpl; rewrite lookup_insert_eq; split; try done.
  - destruct Hf as [Hk Hr]. destruct (bi_back _ _ Hi k a Hk) as (e & He & _ & _).
    rewrite He. by eapply book_inv_shared.
  - by apply book_inv_fresh.
Qed.

Lemma book_inv_all ds :
  coherent ds = true → (Z.of_nat (length ds) < 2 ^ 32 - 1)%Z →
  book_inv (get_all dm_new ds) ds.
Proof.
  induction ds as [|d ds IH] using rev_ind; intros Hc Hl; [apply book_inv_new|].
  unfold get_all. rewrite foldl_app. simpl. apply book_inv_step; [|done|lens].
  apply IH; [by eapply coherent_app_l|lens].
Qed.

(** After any sequence of destinations in which being one a prefix of the
    other is transitive, asking for a known destination changes nothing; two
    destinations have the same address exactly when one is a prefix of the other;
    and an address resolves to the longest destination of its family.  This
    holds until the 32-bit counter of addresses is used up. *)
Theorem dest_map_correct (ds : list string) (d e : string) :
  coherent ds = true → (Z.of_nat (length ds) < 2 ^ 32 - 1)%Z → d ∈ ds → e ∈ ds →
  let m := get_all dm_new ds in
  ∃ a b l, get_or_insert m d = (a, m) ∧ get_or_insert m e = (b, m) ∧
    (a = b ↔ related d e = true) ∧
    resolve m a = Some l ∧ l ∈ ds ∧ related d l = true ∧
    ∀ f, f ∈ ds → related d f = true → String.length f ≤ String.length l.
Proof.
  intros Hc Hl Hd He m. pose proof (book_inv_all ds Hc Hl) as Hi. fold m in Hi.
  destruct (proj2 (bi_dom _ _ Hi d) Hd) as [a Ha].
  destruct (proj2 (bi_dom _ _ Hi e) He) as [b Hb].
  destruct (bi_back _ _ Hi d a Ha) as (l & Hal & Hla & _). exists a, b, l.
  unfold get_or_insert. rewrite Ha, Hb. split_and!; try done.
  - by apply (bi_share _ _ Hi).
  - apply (bi_dom _ _ Hi). eauto.
  - by apply (bi_share _ _ Hi d l a a).
  - intros f Hf Hr. destruct (proj2 (bi_dom _ _ Hi f) Hf) as [c Hfc].
    apply (bi_share _ _ Hi d f a c) in Hr as <-; [|done..].
    destruct (bi_back _ _ Hi f a Hfc) as (l' & ? & _ & ?). by simplify_eq.
Qed.

(** An answer to a received datagram is sent to the destination the datagram
    came from, when that is not a prefix of another. *)
Lemma reply_reaches_source `{Utf8} (s : I2pDatagramSocket) ds data nl src buf udp contents :
  book_inv (sk_dest_map s) ds → coherent (ds ++ [src]) = true →
  (Z.of_nat (length ds) < 2 ^ 32 - 2)%Z → (∀ f, f ∈ ds → related src f = true → f = src) →
  sk_inbound s = [] → position (λ b, (b =? 10)%Z) data = Some nl →
  from_utf8 (take nl data) = Some src →
  ∃ a s', Socket.poll_recv (Socket.recv_one s (Some data)) [buf] =
      (Ready (Ok [(take buf (drop (nl + 1) data),
        mkMeta a (min (length (drop (nl + 1) data)) buf) (min (length (drop (nl + 1) data)) buf)
          (addr_ip (sk_local_addr s)))]), s') ∧
    Socket.try_send s' udp a contents =
      udp (str_bytes ("3.0 " +:+ sk_session_id s +:+ " " +:+ src +:+
             String (ascii_of_nat 10) "") ++ contents).
Proof.
  intros Hi Hc Hl Hf Hin Hnl Hsrc. destruct (book_inv_step _ _ _ Hi Hc Hl) as [Hi' Ha].
  unfold Socket.recv_one. rewrite Hnl, Hsrc.
  destruct (get_or_insert (sk_dest_map s) src) as [a m]; simpl in Hi', Ha.
  unfold Socket.poll_recv. cbn [Socket.poll_loop sk_inbound]. rewrite Hin. cbn [app].
  eexists a, _. split.
  { cbn [Socket.poll_loop app sk_local_addr]. do 5 f_equal. apply list_eq. intros i.
    rewrite !lookup_take. repeat case_decide; try done; [lia|].
    symmetry. apply lookup_ge_None_2. lia. }
  unfold Socket.try_send, resolve. cbn [sk_dest_map sk_session_id].
  destruct (bi_back _ _ Hi' src a Ha) as (l & Hal & Hla & _). rewrite Hal.
  replace l with src; [done|].
  assert (l ∈ ds ++ [src]) as [Hl'| ->%list_elem_of_singleton]%elem_of_app;
    [apply (bi_dom _ _ Hi'); eauto| |done].
  symmetry. apply Hf; [done|]. by apply (bi_share _ _ Hi' src l a a).
Qed.
End dest_map_props.

(** * A concrete order, and what happens beyond the condition *)

Module ToyIter.
#[export] Instance toy_iter : MapIter := map_to_list.
#[export] Instance toy_iter_laws : MapIterLaws.
Proof. by intros m. Qed.
End ToyIter.
Import ToyIter.

Lemma dest_map_correct_witness :
  let m := DestMap.get_all DestMap.dm_new ["abc"; "xyz"; "ab"; "abcd"] in
  ∃ a b l, DestMap.get_or_insert m "ab" = (a, m) ∧ DestMap.get_or_insert m "xyz" = (b, m) ∧
    (a = b ↔ DestMap.related "ab" "xyz" = true) ∧
    DestMap.resolve m a = Some l ∧ l ∈ ["abc"; "xyz"; "ab"; "abcd"] ∧
    DestMap.related "ab" l = true ∧
    ∀ f, f ∈ ["abc"; "xyz"; "ab"; "abcd"] → DestMap.related "ab" f = true →
         String.length f ≤ String.length l.
Proof. apply dest_map_correct; [reflexivity|reflexivity|set_solver|set_solver]. Defined.

(** Without the condition a packet goes to the wrong destination: once the
    short ["a"] is known, ["ac"] shares its address with ["ab"]. *)
Example dest_map_misroutes :
  let m := DestMap.get_all DestMap.dm_new ["a"; "ab"; "ac"] in
  DestMap.resolve m (DestMap.get_or_insert m "ac").1 = Some "ab".
Proof. vm_compute. reflexivity. Qed.

(** A session is opened by three exchanges. *)
Example sam_session_opens `{Crypto} :
  let coding := {| b64_decode s := Some []; b32_encode_lower _ := "b32" |} in
  fst (@Sam.from_addr _ coding
    [Ok ""; Ok "HELLO REPLY RESULT=OK VERSION=3.1"; Ok "";
     Ok "SESSION STATUS RESULT=OK DESTINATION=priv"; Ok "";
     Ok "NAMING REPLY RESULT=OK NAME=priv VALUE=pub~-"] "id" "127.0.0.1" "5000") =
  Ok (mkSam "id" "pub~-" "b32.b32.i2p").
Proof. reflexivity. Qed.

(** The closing of the channel hides the datagrams taken in the same call. *)
Example poll_recv_loses :
  let s := mkSocket "id" DestMap.dm_new (SocketV4 1 1) [([1; 2]%Z, SocketV4 2 2)] true in
  Socket.poll_recv s [10; 10] =
    (Ready (Err IoBrokenPipe), mkSocket "id" DestMap.dm_new (SocketV4 1 1) [] true).
Proof. reflexivity. Qed.
