(* ===== verification/Chunks.v ===== *)
(** The content store: [src/bit_torrent/chunks/], which maps the pieces of a
    torrent to byte ranges of its files.

    An open file is named by its inode; [World] holds the names and the
    contents.  What the operating system decides is the class [Os]: which inode
    a created name gets, whether a directory, an allocation or a truncation
    succeeds, and how many bytes a positioned read or write transfers.  The
    write tasks of a piece run in parallel, so their order is an argument. *)

From S2P Require Import Prelude Metainfo.

(** * The operating system *)

Record World := mkWorld {
  names : gmap string nat;
  contents : gmap nat (list Z);
}.

Inductive Errno := EOPNOTSUPP | OtherErrno (msg : string).

Class Os := {
  os_is_file : World → string → bool;
  (** [create_dir_all] of the parent of a path. *)
  os_create_dir_all : string → Result string unit;
  (** The inode of a name that does not exist yet, opened with [create]. *)
  os_create : World → string → Result string nat;
  os_fallocate : nat → Z → option Errno;
  os_set_len : nat → Z → Result string unit;
  (** Bytes transferred by [pread] and [pwrite]: inode, offset, bytes asked. *)
  os_read_at : World → nat → Z → nat → Result string nat;
  os_write_at : World → nat → Z → nat → Result string nat;
}.

(** Regular files: reads stop at the end of the file only, writes are complete. *)
Class FullTransfer `{Os} : Prop := {
  full_read w h off n c : contents w !! h = Some c →
    os_read_at w h off n = Ok (min n (length c - Z.to_nat off));
  full_write w h off n : os_write_at w h off n = Ok n;
}.

(** The bytes of [pwrite] at [off]: a gap past the end is filled with zeros. *)
Definition pwrite (off : nat) (d c : list Z) : list Z :=
  take off (c ++ replicate (off - length c) 0%Z) ++ d ++ drop (off + length d) c.

(** * Paths *)

(** [PathBuf::push] on Unix, on the text of the path. *)
Definition path_push (p part : string) : string :=
  if starts_with "/" part then part
  else if bool_decide (p = "") || ends_with "/" p then p +:+ part
  else p +:+ "/" +:+ part.

(** src/src/bit_torrent/torrent/metainfo/v1.rs:60-64 [EmbededFile::to_path] *)
Definition to_path (self : EmbededFile) : string := foldl path_push "" (ef_path self).

(** * The handler *)

(** src/src/bit_torrent/chunks/file_handler.rs:21-31 [ChunkHandlerError] *)
Inductive ChunkHandlerError :=
| IoError (msg : string)
| ThreadFailed
| OutOfBounds (index : Z).

(** src/src/bit_torrent/chunks/mod.rs:7-12 [FileChunk] *)
Record FileChunk := mkChunk { handle : nat; start_byte : Z; fc_length : Z }.

(** src/src/bit_torrent/chunks/file_handler.rs:49-55 [MultiFileHandler] *)
Record MultiFileHandler := mkHandler {
  targets : list FileChunk; h_piece_length : Z; total_length : Z }.

(** src/src/bit_torrent/chunks/file_handler.rs:134-138 [PieceOverlap] *)
Record PieceOverlap := mkOverlap { file_offset : Z; buffer_offset : nat; ov_size : nat }.

(** src/src/bit_torrent/chunks/file_handler.rs:141-163 [MultiFileHandler::piece_overlap] *)
Definition piece_overlap (target_start target_length piece_start piece_end : Z)
    : option PieceOverlap :=
  let file_end := u64 (target_start + target_length) in
  if ((piece_end <=? target_start) || (file_end <=? piece_start))%Z then None
  else
    let overlap_start := Z.max target_start piece_start in
    let overlap_end := Z.min piece_end file_end in
    Some (mkOverlap (u64 (overlap_start - target_start))
            (Z.to_nat (u64 (overlap_start - piece_start)))
            (Z.to_nat (u64 (overlap_end - overlap_start)))).

Section os.
Context `{Os}.

(** src/src/utils/bqti.rs:171-187 [preallocate]

    The Linux branch: [fallocate] extends a file and never shortens it,
    [set_len] sets its length. *)
Definition preallocate (w : World) (h : nat) (length : Z) : Result string World :=
  let c := default [] (contents w !! h) in
  let n := Z.to_nat length in
  match os_fallocate h length with
  | None => Ok (mkWorld (names w) (<[h := c ++ replicate (n - List.length c) 0%Z]> (contents w)))
  | Some EOPNOTSUPP =>
    let? _ := os_set_len h length in
    Ok (mkWorld (names w)
          (<[h := take n c ++ replicate (n - List.length c) 0%Z]> (contents w)))
  | Some (OtherErrno msg) => Err msg
  end.

Definition full_path (w : World) (base_path : string) (embedded : EmbededFile) : string :=
  if os_is_file w base_path then base_path else path_push base_path (to_path embedded).

Fixpoint seed_loop (w : World) (base_path : string) (files : list EmbededFile)
    (acc : list FileChunk) (current_offset : Z)
    : Result ChunkHandlerError (list FileChunk * Z) :=
  match files with
  | [] => Ok (acc, current_offset)
  | embedded :: files =>
    let path := full_path w base_path embedded in
    let? file := ok_or (IoError path) (names w !! path) in
    let length := Z.of_nat (List.length (default [] (contents w !! file))) in
    seed_loop w base_path files (acc ++ [mkChunk file current_offset length])
      (u64 (current_offset + length))
  end.

(** src/src/bit_torrent/chunks/file_handler.rs:58-88 [MultiFileHandler::seed]

    Opening fails when there is no file of that name; other refusals of the operating
    system end in the same error and are left out. *)
Definition seed (w : World) (base_path : string) (piece_length : Z) (files : list EmbededFile)
    : Result ChunkHandlerError MultiFileHandler :=
  let? (targets, current_offset) := seed_loop w base_path files [] 0%Z in
  Ok (mkHandler targets piece_length current_offset).

(** [OpenOptions::new().read(true).write(true).create(true).open]. *)
Definition open_create (w : World) (path : string) : Result string (World * nat) :=
  match names w !! path with
  | Some h => Ok (w, h)
  | None =>
    let? h := os_create w path in
    Ok (mkWorld (<[path := h]> (names w))
          (<[h := default [] (contents w !! h)]> (contents w)), h)
  end.

Fixpoint download_loop (w : World) (base_path : string) (files : list EmbededFile)
    (acc : list FileChunk) (current_offset : Z)
    : Result ChunkHandlerError (World * list FileChunk * Z) :=
  match files with
  | [] => Ok (w, acc, current_offset)
  | embedded :: files =>
    let path := full_path w base_path embedded in
    let? _ := map_err IoError (os_create_dir_all path) in
    let? (w, file) := map_err IoError (open_create w path) in
    let length := u64 (ef_length embedded) in
    let? w := map_err IoError (preallocate w file length) in
    download_loop w base_path files (acc ++ [mkChunk file current_offset length])
      (u64 (current_offset + length))
  end.

(** src/src/bit_torrent/chunks/file_handler.rs:92-131 [MultiFileHandler::download]

    The files created before an error stay behind; the error path returns no
    handler, so the world it leaves is not part of the result. *)
Definition download (w : World) (base_path : string) (piece_length : Z)
    (files : list EmbededFile) : Result ChunkHandlerError (World * MultiFileHandler) :=
  let? (w, targets, current_offset) := download_loop w base_path files [] 0%Z in
  Ok (w, mkHandler targets piece_length current_offset).

(** One [read_at] into a zeroed buffer. *)
Definition read_chunk (w : World) (h : nat) (off : Z) (size : nat)
    : Result ChunkHandlerError (list Z) :=
  let? n := map_err IoError (os_read_at w h off size) in
  let got := slice (Z.to_nat off) n (default [] (contents w !! h)) in
  Ok (got ++ replicate (size - length got) 0%Z).

(** The loop over the targets; [None] is the panic of the slice index. *)
Fixpoint read_loop (w : World) (targets : list FileChunk) (piece_start piece_end : Z)
    (buffer : list Z) : option (Result ChunkHandlerError (list Z)) :=
  match targets with
  | [] => Some (Ok buffer)
  | target :: targets =>
    match piece_overlap (start_byte target) (fc_length target) piece_start piece_end with
    | None => read_loop w targets piece_start piece_end buffer
    | Some overlap =>
      match read_chunk w (handle target) (file_offset overlap) (ov_size overlap) with
      | Err e => Some (Err e)
      | Ok chunk =>
        if buffer_offset overlap + ov_size overlap <=? length buffer then
          read_loop w targets piece_start piece_end
            (splice (buffer_offset overlap) chunk buffer)
        else None
      end
    end
  end.

(** src/src/bit_torrent/chunks/file_handler.rs:166-200 [Reader::read_piece] *)
Definition read_piece (w : World) (self : MultiFileHandler) (index : Z)
    : option (Result ChunkHandlerError (list Z)) :=
  let piece_start := u64 (index * h_piece_length self) in
  let piece_end := Z.min (u64 (piece_start + h_piece_length self)) (total_length self) in
  if (total_length self <=? piece_start)%Z then Some (Err (OutOfBounds index))
  else
    let buffer := replicate (Z.to_nat (u64 (piece_end - piece_start))) 0%Z in
    read_loop w (targets self) piece_start piece_end buffer.

(** The tasks of a write: target inode, file offset, range of the data. *)
Definition write_tasks (self : MultiFileHandler) (piece_start piece_end : Z)
    : list (nat * PieceOverlap) :=
  omap (λ target,
    overlap ← piece_overlap (start_byte target) (fc_length target) piece_start piece_end;
    Some (handle target, overlap)) (targets self).

(** One task: the contents after it, and what awaiting it yields. *)
Definition run_task (data : list Z) (w : World) (task : nat * PieceOverlap)
    : World * Result ChunkHandlerError unit :=
  let '(h, overlap) := task in
  if negb (buffer_offset overlap + ov_size overlap <=? length data) then (w, Err ThreadFailed)
  else
    match os_write_at w h (file_offset overlap) (ov_size overlap) with
    | Err msg => (w, Err (IoError msg))
    | Ok n =>
      let d := take n (slice (buffer_offset overlap) (ov_size overlap) data) in
      (mkWorld (names w)
         (<[h := pwrite (Z.to_nat (file_offset overlap)) d (default [] (contents w !! h))]>
            (contents w)), Ok tt)
    end.

(** The tasks run in the order [schedule] gives their positions. *)
Definition run_tasks (data : list Z) (tasks : list (nat * PieceOverlap)) (schedule : list nat)
    (w : World) : World * gmap nat (Result ChunkHandlerError unit) :=
  foldl (λ '(w, results) i,
    match tasks !! i with
    | Some task => let '(w, r) := run_task data w task in (w, <[i := r]> results)
    | None => (w, results)
    end) (w, ∅) schedule.

(** Awaiting the tasks in the order they were spawned: the first error. *)
Fixpoint await_tasks (results : gmap nat (Result ChunkHandlerError unit)) (ids : list nat)
    : Result ChunkHandlerError unit :=
  match ids with
  | [] => Ok tt
  | i :: ids =>
    match results !! i with
    | Some (Err e) => Err e
    | _ => await_tasks results ids
    end
  end.

(** src/src/bit_torrent/chunks/file_handler.rs:202-242 [Writer::write_piece]

    [schedule] gives, for a number of spawned tasks, the order in which they
    run.  Every task runs, also after one has failed. *)
Definition write_piece (schedule : nat → list nat) (w : World) (self : MultiFileHandler)
    (index : Z) (data : list Z) : World * Result ChunkHandlerError unit :=
  let piece_start := u64 (index * h_piece_length self) in
  let piece_end := u64 (piece_start + Z.of_nat (length data)) in
  if (total_length self <=? piece_start)%Z then (w, Err (OutOfBounds index))
  else
    let tasks := write_tasks self piece_start piece_end in
    let '(w, results) := run_tasks data tasks (schedule (length tasks)) w in
    (w, await_tasks results (seq 0 (length tasks))).
End os.

(** * The flat view

    What the handler stands for: one byte array, the concatenation of its
    files. *)

Definition size_of (ts : list FileChunk) : nat := sum_list (map (Z.to_nat ∘ fc_length) ts).

Definition target_bytes (w : World) (t : FileChunk) : list Z :=
  take (Z.to_nat (fc_length t)) (default [] (contents w !! handle t)).

Definition flat (w : World) (ts : list FileChunk) : list Z := concat (map (target_bytes w) ts).

(** The targets follow one another from offset [s]. *)
Fixpoint laid_out (s : nat) (ts : list FileChunk) : Prop :=
  match ts with
  | [] => True
  | t :: ts => start_byte t = Z.of_nat s ∧ (0 ≤ fc_length t)%Z ∧
               laid_out (s + Z.to_nat (fc_length t)) ts
  end.

(** The files hold the bytes their targets claim. *)
Definition backed (w : World) (ts : list FileChunk) : Prop :=
  Forall (λ t, ∃ c, contents w !! handle t = Some c ∧ Z.to_nat (fc_length t) ≤ length c) ts.

Record handler_ok (w : World) (h : MultiFileHandler) : Prop := {
  ok_layout : laid_out 0 (targets h);
  ok_total : total_length h = Z.of_nat (size_of (targets h));
  ok_bound : (total_length h ≤ 2 ^ 62)%Z;
  ok_piece_length : (0 < h_piece_length h ≤ 2 ^ 30)%Z;
  ok_backed : backed w (targets h);
}.

(** Piece [index] starts at byte [piece_lo]. *)
Definition piece_lo (h : MultiFileHandler) (index : nat) : nat :=
  index * Z.to_nat (h_piece_length h).

(** * Lemmas *)

Lemma length_target_bytes w t : backed w [t] → length (target_bytes w t) = Z.to_nat (fc_length t).
Proof.
  intros (c & Hc & Hl)%Forall_singleton. unfold target_bytes. rewrite Hc. simpl. lens.
Qed.

Lemma backed_cons w t ts : backed w (t :: ts) ↔ backed w [t] ∧ backed w ts.
Proof. unfold backed. rewrite Forall_cons, Forall_singleton. done. Qed.

Lemma length_flat w ts : backed w ts → length (flat w ts) = size_of ts.
Proof.
  induction ts as [|t ts IH]; [done|]. intros [Ht Hts]%backed_cons. unfold flat, size_of in *.
  simpl. rewrite length_app, IH, length_target_bytes by done. done.
Qed.

(** Without wrap-around, the overlap of a file and a piece. *)
Lemma piece_overlap_nat s len ps pe : (Z.of_nat (s + len) < 2 ^ 64)%Z → ps ≤ pe →
  (Z.of_nat pe < 2 ^ 64)%Z →
  piece_overlap (Z.of_nat s) (Z.of_nat len) (Z.of_nat ps) (Z.of_nat pe) =
    if decide (s < pe ∧ ps < s + len) then
      Some (mkOverlap (Z.of_nat (max s ps - s)) (max s ps - ps)
                      (min pe (s + len) - max s ps))
    else None.
Proof.
  intros Hb Hp Hpe. unfold piece_overlap. rewrite (wrap_small 64 (_ + _)) by lia.
  destruct (Z.leb_spec (Z.of_nat pe) (Z.of_nat s)); simpl; [case_decide; [lia|done]|].
  destruct (Z.leb_spec (Z.of_nat s + Z.of_nat len) (Z.of_nat ps)); simpl;
    (case_decide; [|lia || done]); [lia|].
  rewrite !wrap_small by lia. do 2 f_equal; lia.
Qed.

Lemma slice_pad (i n : nat) (c : list Z) : i + n ≤ length c →
  slice i n c ++ replicate (n - length (slice i n c)) 0%Z = slice i n c.
Proof.
  intros. rewrite length_slice. replace (n - _) with 0 by lia. apply app_nil_r.
Qed.

Lemma pwrite_splice off d c : off + length d ≤ length c → pwrite off d c = splice off d c.
Proof.
  intros. unfold pwrite, splice. replace (off - length c) with 0 by lia.
  simpl. by rewrite app_nil_r.
Qed.

Section flat_view.
Context `{FullTransfer}.

Lemma read_chunk_full w h c off n : contents w !! h = Some c → off + n ≤ length c →
  read_chunk w h (Z.of_nat off) n = Ok (slice off n c).
Proof.
  intros Hc Hl. unfold read_chunk. rewrite (full_read _ _ _ _ _ Hc), Hc. cbn.
  rewrite Nat2Z.id. replace (min n (length c - off)) with n by lia. by rewrite slice_pad.
Qed.

(** The read loop: the bytes of the piece that lie in the targets are those of
    the flat view, the others are untouched. *)
Lemma read_loop_spec w ts s ps n buffer :
  laid_out s ts → backed w ts → (Z.of_nat (s + size_of ts) < 2 ^ 63)%Z →
  (Z.of_nat (ps + n) < 2 ^ 63)%Z → length buffer = n →
  ∃ buffer', read_loop w ts (Z.of_nat ps) (Z.of_nat (ps + n)) buffer = Some (Ok buffer') ∧
    length buffer' = n ∧
    ∀ k, k < n → buffer' !! k =
      if decide (s ≤ ps + k < s + size_of ts) then flat w ts !! (ps + k - s) else buffer !! k.
Proof.
  revert s buffer. induction ts as [|t ts IH]; intros s buffer Hlay Hb Hs Hp Hlen.
  { exists buffer. split_and!; [done|done|]. intros k Hk. unfold size_of. simpl.
    case_decide; [lia|done]. }
  destruct Hlay as (Hst & Hnn & Hlay). apply backed_cons in Hb as [Hbt Hb].
  pose proof (length_target_bytes w t Hbt) as Hlt.
  apply Forall_singleton in Hbt as (c & Hc & Hcl).
  set (len := Z.to_nat (fc_length t)) in *.
  assert (size_of (t :: ts) = len + size_of ts) as Esz by done. rewrite Esz in Hs |- *.
  assert (flat w (t :: ts) = take len c ++ flat w ts) as Efl.
  { unfold flat, target_bytes. simpl. by rewrite Hc. }
  assert (length (take len c) = len) as Htk by lens.
  cbn [read_loop]. rewrite Hst. replace (fc_length t) with (Z.of_nat len) by lia.
  rewrite piece_overlap_nat by lia. case_decide as Hov.
  - cbn [file_offset buffer_offset ov_size].
    rewrite (read_chunk_full _ _ c) by (done || lia).
    set (o := max s ps). set (e := min (ps + n) (s + len)).
    assert (length (slice (o - s) (e - o) c) = e - o) as Hsl by (rewrite length_slice; lia).
    rewrite (proj2 (Nat.leb_le _ _)) by lia.
    destruct (IH (s + len) (splice (o - ps) (slice (o - s) (e - o) c) buffer))
      as (b' & E & Hl' & Hk'); [done|done|lia|done|rewrite length_splice; lia|].
    exists b'. split_and!; [done|done|]. intros k Hk. rewrite Hk' by done.
    rewrite Efl. case_decide as H1.
    { case_decide; [|lia]. rewrite lookup_app_r by lia. f_equal. lia. }
    rewrite lookup_splice by lia. rewrite Hsl. case_decide as H2.
    + case_decide; [|lia]. rewrite lookup_slice by lia.
      rewrite lookup_app_l by lia. rewrite lookup_take_lt by lia. f_equal. lia.
    + case_decide; [lia|done].
  - destruct (IH (s + len) buffer) as (b' & E & Hl' & Hk'); [done|done|lia|done|done|].
    exists b'. split_and!; [done|done|]. intros k Hk. rewrite Hk' by done. rewrite Efl.
    case_decide; case_decide; try lia; [|done].
    rewrite lookup_app_r by lia. f_equal. lia.
Qed.

Lemma piece_bounds w h index : handler_ok w h → (Z.of_nat index < 2 ^ 32)%Z →
  u64 (Z.of_nat index * h_piece_length h) = Z.of_nat (piece_lo h index) ∧
  (Z.of_nat (piece_lo h index) + h_piece_length h < 2 ^ 63)%Z.
Proof.
  intros [_ _ _ Hpl _] Hi. unfold piece_lo.
  assert (Z.of_nat (index * Z.to_nat (h_piece_length h)) = Z.of_nat index * h_piece_length h)%Z
    as -> by lia.
  change (2 ^ 63)%Z with 9223372036854775808%Z. change (2 ^ 32)%Z with 4294967296%Z in Hi.
  change (2 ^ 30)%Z with 1073741824%Z in Hpl.
  split; [|nia]. apply wrap_small. change (2 ^ 64)%Z with 18446744073709551616%Z. nia.
Qed.

Lemma read_piece_flat w h index : handler_ok w h → (Z.of_nat index < 2 ^ 32)%Z →
  read_piece w h (Z.of_nat index) =
    if decide (piece_lo h index < size_of (targets h)) then
      Some (Ok (slice (piece_lo h index) (Z.to_nat (h_piece_length h)) (flat w (targets h))))
    else Some (Err (OutOfBounds (Z.of_nat index))).
Proof.
  intros Hok Hi. destruct (piece_bounds w h index Hok Hi) as [Eps Hps].
  destruct Hok as [Hlay Htot Hbd Hpl Hb].
  change (2 ^ 63)%Z with 9223372036854775808%Z in Hps.
  change (2 ^ 62)%Z with 4611686018427387904%Z in Hbd.
  unfold read_piece. rewrite Eps, Htot. set (ps := piece_lo h index) in *.
  set (pl := Z.to_nat (h_piece_length h)).
  replace (h_piece_length h) with (Z.of_nat pl) in * by lia.
  rewrite (wrap_small 64 (_ + _)) by (change (2 ^ 64)%Z with 18446744073709551616%Z; lia).
  destruct (Z.leb_spec (Z.of_nat (size_of (targets h))) (Z.of_nat ps));
    (case_decide; [|lia || done]); [lia|].
  set (n := min pl (size_of (targets h) - ps)).
  replace (Z.min _ _) with (Z.of_nat (ps + n)) by lia.
  replace (Z.of_nat (ps + n) - Z.of_nat ps)%Z with (Z.of_nat n) by lia.
  rewrite wrap_small, Nat2Z.id by (change (2 ^ 64)%Z with 18446744073709551616%Z; lia).
  destruct (read_loop_spec w (targets h) 0 ps n (replicate n 0%Z)) as (b & E & Hl & Hk);
    [done|done| | |lens|]; [change (2 ^ 63)%Z with 9223372036854775808%Z; lia..|].
  rewrite E. do 2 f_equal. apply list_eq. intros k. destruct (decide (k < n)).
  - rewrite Hk by done. case_decide; [|lia]. rewrite lookup_slice by lia. f_equal. lia.
  - rewrite !lookup_ge_None_2; [done| |lia]. rewrite length_slice, length_flat by done. lia.
Qed.

(** ** Writing *)

Definition applied (data : list Z) (o : PieceOverlap) (c : list Z) : list Z :=
  splice (Z.to_nat (file_offset o)) (slice (buffer_offset o) (ov_size o) data) c.

Definition task_ok (data : list Z) (w : World) (task : nat * PieceOverlap) : Prop :=
  buffer_offset task.2 + ov_size task.2 ≤ length data ∧
  ∃ c, contents w !! task.1 = Some c ∧
       Z.to_nat (file_offset task.2) + ov_size task.2 ≤ length c.

Lemma run_task_full data w h o c : task_ok data w (h, o) → contents w !! h = Some c →
  run_task data w (h, o) =
    (mkWorld (names w) (<[h := applied data o c]> (contents w)), Ok tt).
Proof.
  intros (Hbo & c' & Hc' & Hl) Hc. cbn [fst snd] in *. rewrite Hc in Hc'. injection Hc' as <-.
  unfold run_task. rewrite (proj2 (Nat.leb_le _ _)) by done. cbn [negb].
  rewrite full_write, Hc. simpl.
  assert (length (slice (buffer_offset o) (ov_size o) data) = ov_size o) as El
    by (rewrite length_slice; lia).
  rewrite take_ge by lia. unfold applied. by rewrite pwrite_splice by lia.
Qed.

(** Whatever the order, every file of a task is changed by that task alone. *)
Lemma run_tasks_spec data tasks sched w :
  NoDup (map fst tasks) → NoDup sched → Forall (λ i, i < length tasks) sched →
  Forall (task_ok data w) tasks →
  let '(w', results) := run_tasks data tasks sched w in
  names w' = names w ∧
  (∀ i r, results !! i = Some r → r = Ok tt) ∧
  (∀ i h o, i ∈ sched → tasks !! i = Some (h, o) →
     contents w' !! h = applied data o <$> contents w !! h) ∧
  (∀ h, (∀ i o, i ∈ sched → tasks !! i ≠ Some (h, o)) → contents w' !! h = contents w !! h).
Proof.
  intros Hnd. induction sched as [|i sched IH] using rev_ind; intros Hs Hlt Hok.
  { cbn. split_and!; [done|set_solver|set_solver|done]. }
  apply NoDup_app in Hs as (Hs & Hi & _). apply Forall_app in Hlt as [Hlt Hli].
  apply Forall_singleton, lookup_lt_is_Some_2 in Hli as [[h o] Hh].
  specialize (IH Hs Hlt Hok). unfold run_tasks in *. rewrite foldl_app.
  destruct (foldl _ _ sched) as [w' rs]. destruct IH as (Hnm & Hr & Hin & Hout).
  cbn [foldl]. rewrite Hh.
  assert (∀ j h' o', j ∈ sched ∨ j ≠ i → tasks !! j = Some (h', o') → h' ≠ h) as Hneq.
  { intros j h' o' Hj Hj' ->. assert (j = i) as ->.
    { eapply (NoDup_lookup (map fst tasks)); [done| |]; rewrite list_lookup_fmap; simplify_option_eq;
        by rewrite ?Hj', ?Hh. }
    destruct Hj as [Hj|Hj]; [|done]. apply (Hi i); set_solver. }
  pose proof (Forall_lookup_1 _ _ _ _ Hok Hh) as (Hbo & c & Hc & Hcl).
  assert (contents w' !! h = Some c) as Hc'.
  { rewrite Hout; [done|]. intros j o' Hj E. by eapply Hneq; [left| |]. }
  rewrite (run_task_full data w' h o c) by first [done | split; [done|by exists c]].
  split_and!; cbn [names contents]; [done| | |].
  - intros j r. rewrite lookup_insert_Some. naive_solver.
  - intros j h' o' [Hj| ->%list_elem_of_singleton]%elem_of_app E.
    + rewrite lookup_insert_ne by (symmetry; by eapply Hneq; [left|]). by eapply Hin.
    + simplify_eq. simpl in Hc. by rewrite lookup_insert_eq, Hc.
  - intros h' Hh'. rewrite lookup_insert_ne by (intros ->; eapply (Hh' i); set_solver).
    apply Hout. intros j o' Hj. apply Hh'. set_solver.
Qed.

Lemma await_ok results ids :
  (∀ i r, results !! i = Some r → r = Ok tt) → await_tasks results ids = Ok tt.
Proof.
  intros Hr. induction ids as [|i ids IH]; [done|]. simpl.
  destruct (results !! i) as [[]|] eqn:E; [done| |done]. by apply Hr in E.
Qed.

(** The contents after the write, target by target. *)
Definition wrote (data : list Z) (ps : nat) (w w' : World) (ts : list FileChunk) : Prop :=
  Forall (λ t, ∃ c, contents w !! handle t = Some c ∧
    contents w' !! handle t = Some
      match piece_overlap (start_byte t) (fc_length t) (Z.of_nat ps)
              (Z.of_nat (ps + length data)) with
      | Some o => applied data o c
      | None => c
      end) ts.

Lemma wrote_flat data ps w w' ts s :
  laid_out s ts → backed w ts → wrote data ps w w' ts →
  (Z.of_nat (s + size_of ts) < 2 ^ 63)%Z → (Z.of_nat (ps + length data) < 2 ^ 63)%Z →
  backed w' ts ∧
  ∀ k, flat w' ts !! k =
    if decide (ps ≤ s + k < ps + length data ∧ k < size_of ts) then data !! (s + k - ps)
    else flat w ts !! k.
Proof.
  revert s. induction ts as [|t ts IH]; intros s Hlay Hb Hw Hs Hp.
  { split; [constructor|]. intros k. case_decide as Hd; [|done].
    unfold size_of in Hd. simpl in Hd. lia. }
  destruct Hlay as (Hst & Hnn & Hlay). apply backed_cons in Hb as [Hbt Hb].
  apply Forall_cons in Hw as [(c & Hc & Hc') Hw].
  apply Forall_singleton in Hbt as (c0 & Hc0 & Hcl). rewrite Hc in Hc0. injection Hc0 as <-.
  set (len := Z.to_nat (fc_length t)) in *.
  assert (size_of (t :: ts) = len + size_of ts) as Esz by done. rewrite Esz in Hs |- *.
  destruct (IH (s + len)) as [Hb' Hk']; [done|done|done|lia|done|].
  rewrite Hst in Hc'. replace (fc_length t) with (Z.of_nat len) in Hc' by lia.
  rewrite piece_overlap_nat in Hc' by lia.
  assert (∃ c', contents w' !! handle t = Some c' ∧ length c' = length c ∧
    ∀ k, k < len → c' !! k = if decide (ps ≤ s + k < ps + length data)
                             then data !! (s + k - ps) else c !! k) as (c' & Ec' & Hl' & Hck).
  { eexists. split; [exact Hc'|]. case_decide as Hov; cycle 1.
    { split; [done|]. intros k Hk. case_decide; [lia|done]. }
    unfold applied. cbn [file_offset buffer_offset ov_size]. rewrite Nat2Z.id.
    set (o := max s ps). set (e := min (ps + length data) (s + len)).
    assert (length (slice (o - ps) (e - o) data) = e - o) as Hsl by (rewrite length_slice; lia).
    split; [apply length_splice; lia|]. intros k Hk. rewrite lookup_splice by lia. rewrite Hsl.
    case_decide; case_decide; try lia; [|done]. rewrite lookup_slice by lia. f_equal. lia. }
  clear Hc'. split.
  { apply Forall_cons. split; [exists c'; split; [done|fold len; lia]|done]. }
  intros k. unfold flat, target_bytes in *. cbn [map concat].
  rewrite Hc, Ec'. cbn [default from_option id]. fold len.
  assert (length (take len c) = len) as Htk by lens.
  assert (length (take len c') = len) as Htk' by lens.
  destruct (decide (k < len)).
  - rewrite !lookup_app_l by lia. rewrite !lookup_take_lt by lia. rewrite Hck by done.
    case_decide; case_decide; try lia; done.
  - rewrite !lookup_app_r by lia. rewrite Htk, Htk', Hk'.
    case_decide; case_decide; try lia; [f_equal; lia|done].
Qed.

Lemma NoDup_write_tasks h ps pe :
  NoDup (map handle (targets h)) → NoDup (map fst (write_tasks h ps pe)).
Proof.
  unfold write_tasks. induction (targets h) as [|t ts IH]; [by constructor|].
  intros [Ht Hts]%NoDup_cons. cbn.
  destruct (piece_overlap _ _ _ _) as [o|] eqn:E; cbn; [|by apply IH].
  constructor; [|by apply IH]. intros ([h' o'] & Hh & Hin)%list_elem_of_fmap. cbn in Hh.
  apply list_elem_of_omap in Hin as (t' & Ht' & Eo).
  destruct (piece_overlap (start_byte t') _ _ _); [|done]. injection Eo as <- <-.
  apply Ht, list_elem_of_fmap. by exists t'.
Qed.

Lemma laid_out_elem s ts t : laid_out s ts → t ∈ ts →
  ∃ s', start_byte t = Z.of_nat s' ∧ (0 ≤ fc_length t)%Z ∧
        s' + Z.to_nat (fc_length t) ≤ s + size_of ts.
Proof.
  revert s. induction ts as [|t' ts IH]; intros s Hl; [set_solver|].
  destruct Hl as (Hst & Hnn & Hl). unfold size_of in *. cbn [map sum_list_with sum_list] in *.
  intros [->|Ht]%elem_of_cons.
  - exists s. split_and!; [done|done|]. unfold compose. simpl. lia.
  - destruct (IH _ Hl Ht) as (s' & ? & ? & ?). exists s'. split_and!; [done|done|].
    unfold compose in *. simpl. lia.
Qed.

(** The tasks stay inside the data and inside their files. *)
Lemma write_tasks_ok w h ps data :
  laid_out 0 (targets h) → backed w (targets h) → ps + length data ≤ size_of (targets h) →
  (Z.of_nat (size_of (targets h)) < 2 ^ 64)%Z →
  Forall (task_ok data w) (write_tasks h (Z.of_nat ps) (Z.of_nat (ps + length data))).
Proof.
  intros Hlay Hb Hfit Hbd. apply Forall_forall. intros [h' o] (t & Ht & Eo)%list_elem_of_omap.
  destruct (laid_out_elem _ _ _ Hlay Ht) as (s & Es & Hnn & Hle).
  pose proof (proj1 (Forall_forall _ _) Hb t Ht) as (c & Hc & Hcl).
  rewrite Es in Eo. replace (fc_length t) with (Z.of_nat (Z.to_nat (fc_length t))) in Eo by lia.
  rewrite piece_overlap_nat in Eo by lia. case_decide; [|done]. injection Eo as <- <-.
  split; cbn [fst snd file_offset buffer_offset ov_size]; [lia|]. exists c. split; [done|lia].
Qed.

Lemma handle_inj h t t' : NoDup (map handle (targets h)) → t ∈ targets h → t' ∈ targets h →
  handle t = handle t' → t = t'.
Proof.
  intros Hnd [a Ha]%list_elem_of_lookup [b Hb]%list_elem_of_lookup E.
  assert (a = b) as ->; [|congruence].
  eapply (NoDup_lookup (map handle (targets h))); [done| |]; rewrite list_lookup_fmap.
  - by rewrite Ha.
  - rewrite Hb. simpl. by rewrite E.
Qed.

Lemma run_tasks_wrote sched w w' results h ps data :
  let tasks := write_tasks h (Z.of_nat ps) (Z.of_nat (ps + length data)) in
  NoDup (map handle (targets h)) → backed w (targets h) → Forall (task_ok data w) tasks →
  sched ≡ₚ seq 0 (length tasks) → run_tasks data tasks sched w = (w', results) →
  await_tasks results (seq 0 (length tasks)) = Ok tt ∧ wrote data ps w w' (targets h).
Proof.
  intros tasks Hnd Hb Htasks Hsched Hrun.
  assert (∀ i, i ∈ sched ↔ i < length tasks) as Hin.
  { intros i. rewrite Hsched, elem_of_seq. lia. }
  pose proof (run_tasks_spec data tasks sched w (NoDup_write_tasks _ _ _ Hnd)) as Hspec.
  rewrite Hrun in Hspec. destruct Hspec as (_ & Hr & Hw & Hkeep);
    [rewrite Hsched; apply NoDup_seq|apply Forall_forall; intros i; apply Hin|done|].
  split; [by apply await_ok|]. apply Forall_forall. intros t Ht.
  pose proof (proj1 (Forall_forall _ _) Hb t Ht) as (c & Hc & Hcl). exists c. split; [done|].
  destruct (piece_overlap _ _ _ _) as [o|] eqn:Eo.
  - assert ((handle t, o) ∈ tasks) as [i Hti]%list_elem_of_lookup.
    { apply list_elem_of_omap. exists t. split; [done|]. by rewrite Eo. }
    rewrite (Hw i _ o); [by rewrite Hc|apply Hin; by eapply lookup_lt_Some|done].
  - rewrite Hkeep; [done|]. intros i o _ Hti.
    apply list_elem_of_lookup_2, list_elem_of_omap in Hti as (t' & Ht' & E).
    destruct (piece_overlap (start_byte t') _ _ _) eqn:E'; [|done]. injection E as E _.
    assert (t' = t) as -> by (by eapply handle_inj). congruence.
Qed.

(** Writing a piece into distinct files, the tasks in any order. *)
Lemma write_piece_flat sched w h index data :
  handler_ok w h → NoDup (map handle (targets h)) → (Z.of_nat index < 2 ^ 32)%Z →
  (∀ n, sched n ≡ₚ seq 0 n) → piece_lo h index < size_of (targets h) →
  piece_lo h index + length data ≤ size_of (targets h) →
  ∃ w', write_piece sched w h (Z.of_nat index) data = (w', Ok tt) ∧ handler_ok w' h ∧
    flat w' (targets h) = splice (piece_lo h index) data (flat w (targets h)).
Proof.
  intros Hok Hnd Hi Hsched Hlo Hfit. destruct (piece_bounds w h index Hok Hi) as [Eps Hps].
  pose proof Hok as [Hlay Htot Hbd Hpl Hb].
  change (2 ^ 63)%Z with 9223372036854775808%Z in Hps.
  change (2 ^ 62)%Z with 4611686018427387904%Z in Hbd.
  unfold write_piece. rewrite Eps. set (ps := piece_lo h index) in *.
  rewrite (proj2 (Z.leb_gt _ _)) by lia.
  rewrite wrap_small by (change (2 ^ 64)%Z with 18446744073709551616%Z; lia).
  rewrite <-Nat2Z.inj_add.
  destruct (run_tasks _ _ _ _) as [w' results] eqn:Hrun.
  assert (Forall (task_ok data w)
    (write_tasks h (Z.of_nat ps) (Z.of_nat (ps + length data)))) as Htasks.
  { apply write_tasks_ok; [done..|]. change (2 ^ 64)%Z with 18446744073709551616%Z. lia. }
  destruct (run_tasks_wrote _ w w' results h ps data Hnd Hb Htasks (Hsched _) Hrun)
    as [-> Hwrote].
  exists w'. split; [done|].
  destruct (wrote_flat _ _ _ _ _ 0 Hlay Hb Hwrote) as [Hb' Hk];
    [change (2 ^ 63)%Z with 9223372036854775808%Z; lia..|].
  split; [by split|]. apply list_eq. intros k. rewrite Hk, lookup_splice
    by (rewrite length_flat; done). simpl. repeat case_decide; (lia || done).
Qed.
End flat_view.

(** ** Opening the files *)

Section open_files.
Context `{Os}.

Lemma backed_insert w h c ts :
  h ∉ map handle ts → backed w ts → backed (mkWorld (names w) (<[h := c]> (contents w))) ts.
Proof.
  intros Hh Hb. apply Forall_forall. intros t Ht.
  pose proof (proj1 (Forall_forall _ _) Hb t Ht) as (c' & Hc & Hl). exists c'.
  split; [|done]. cbn. rewrite lookup_insert_ne; [done|].
  intros ->. apply Hh, list_elem_of_fmap. by exists t.
Qed.

Lemma backed_open w p w' h ts : open_create w p = Ok (w', h) → backed w ts → backed w' ts.
Proof.
  unfold open_create. destruct (names w !! p); [by intros [= <- <-]|].
  destruct (os_create w p) as [h'|]; [|done]. intros [= <- <-] Hb.
  eapply Forall_impl; [exact Hb|]. intros t (c & Hc & Hl). cbn.
  destruct (decide (handle t = h')) as [<-|].
  - exists c. rewrite lookup_insert_eq, Hc. done.
  - exists c. by rewrite lookup_insert_ne by done.
Qed.

Lemma preallocate_backed w h n w' s : preallocate w h (Z.of_nat n) = Ok w' →
  backed w' [mkChunk h s (Z.of_nat n)] ∧
  ∀ ts, h ∉ map handle ts → backed w ts → backed w' ts.
Proof.
  unfold preallocate. rewrite Nat2Z.id.
  destruct (os_fallocate _ _) as [[|]|]; [destruct (os_set_len _ _)|done|]; try done.
  all: intros [= <-]; (split; [|intros; by apply backed_insert]).
  all: apply Forall_singleton; cbn; rewrite lookup_insert_eq; eexists; (split; [done|]);
    rewrite Nat2Z.id; lens.
Qed.

Definition files_size (files : list EmbededFile) : nat :=
  sum_list (map (Z.to_nat ∘ ef_length) files).

Lemma download_loop_spec base files w acc s w' ts off :
  Forall (λ f, 0 ≤ ef_length f)%Z files → (Z.of_nat (s + files_size files) ≤ 2 ^ 62)%Z →
  download_loop w base files acc (Z.of_nat s) = Ok (w', ts, off) →
  ∃ new, ts = acc ++ new ∧ laid_out s new ∧ size_of new = files_size files ∧
    off = Z.of_nat (s + files_size files) ∧
    (NoDup (map handle ts) → backed w acc → backed w' ts).
Proof.
  revert w acc s. induction files as [|f files IH]; intros w acc s Hf Hs; cbn [download_loop].
  { intros [= <- <- <-]. exists []. rewrite app_nil_r, Nat.add_0_r. done. }
  apply Forall_cons in Hf as [Hf0 Hf].
  assert (files_size (f :: files) = Z.to_nat (ef_length f) + files_size files) as Esz by done.
  rewrite Esz in Hs |- *.
  change (2 ^ 62)%Z with 4611686018427387904%Z in *.
  destruct (os_create_dir_all _) as [[]|]; [|done]. cbn [map_err rbind].
  destruct (open_create w _) as [[w1 h]|] eqn:Eo; [|done]. cbn [map_err rbind].
  replace (u64 (ef_length f)) with (Z.of_nat (Z.to_nat (ef_length f))); cycle 1.
  { rewrite wrap_small by (change (2 ^ 64)%Z with 18446744073709551616%Z; lia). lia. }
  destruct (preallocate w1 h _) as [w2|] eqn:Ep; [|done]. cbn [map_err rbind].
  rewrite <-Nat2Z.inj_add, wrap_small by (change (2 ^ 64)%Z with 18446744073709551616%Z; lia).
  set (t := mkChunk h (Z.of_nat s) (Z.of_nat (Z.to_nat (ef_length f)))). intros Hl.
  apply IH in Hl; [|done|lia]. destruct Hl as (new & -> & Hlay & Hsz & -> & Hb).
  exists (t :: new). rewrite <-app_assoc in Hb |- *. split_and!; [done| | |f_equal; lia|].
  - cbn. rewrite Nat2Z.id. split_and!; [done|lia|done].
  - unfold size_of in *. cbn. rewrite Nat2Z.id. by f_equal.
  - intros Hnd Hacc. apply Hb; [done|]. apply (preallocate_backed _ _ _ _ (Z.of_nat s)) in Ep
      as [Ht Hkeep]. apply Forall_app. split; [|done].
    apply Hkeep; [|by eapply backed_open].
    rewrite map_app in Hnd. apply NoDup_app in Hnd as (_ & Hd & _). intros Hin.
    apply (Hd h Hin). cbn. by left.
Qed.

Lemma download_ok w base pl files w' h :
  Forall (λ f, 0 ≤ ef_length f)%Z files → (Z.of_nat (files_size files) ≤ 2 ^ 62)%Z →
  (0 < pl ≤ 2 ^ 30)%Z → download w base pl files = Ok (w', h) →
  NoDup (map handle (targets h)) →
  handler_ok w' h ∧ size_of (targets h) = files_size files ∧ h_piece_length h = pl.
Proof.
  intros Hf Hs Hpl. unfold download. change 0%Z with (Z.of_nat 0) at 1.
  destruct (download_loop _ _ _ _ _) as [[[w1 ts] off]|] eqn:E; [|done]. intros [= <- <-] Hnd.
  apply download_loop_spec in E as (new & -> & Hlay & Hsz & -> & Hb); [|done|done].
  cbn [total_length targets h_piece_length app Nat.add] in *.
  split_and!; [|done|done]. split; cbn [total_length targets h_piece_length];
    [done|by rewrite Hsz|done|done|].
  apply Hb; [done|constructor].
Qed.
End open_files.

(** ** A whole download *)

Section reassembly.
Context `{FullTransfer} (schedule : nat → list nat).

(** Writing pieces one after the other; the first error is kept. *)
Definition write_pieces (h : MultiFileHandler) (pieces : list (nat * list Z)) (w : World)
    : World * Result ChunkHandlerError unit :=
  foldl (λ '(w, r) '(i, d),
    let '(w, r') := write_piece schedule w h (Z.of_nat i) d in
    (w, match r with Ok _ => r' | Err e => Err e end)) (w, Ok tt) pieces.

(** The piece of [content] that belongs at [index]. *)
Definition piece_of (h : MultiFileHandler) (content : list Z) (index : nat) : nat * list Z :=
  (index, slice (piece_lo h index) (Z.to_nat (h_piece_length h)) content).

Lemma write_pieces_spec w h content order :
  handler_ok w h → NoDup (map handle (targets h)) → (∀ n, schedule n ≡ₚ seq 0 n) →
  length content = size_of (targets h) →
  Forall (λ i, (Z.of_nat i < 2 ^ 32)%Z ∧ piece_lo h i < length content) order →
  ∃ w', write_pieces h (map (piece_of h content) order) w = (w', Ok tt) ∧ handler_ok w' h ∧
    ∀ k, k / Z.to_nat (h_piece_length h) ∈ order → flat w' (targets h) !! k = content !! k.
Proof.
  intros Hok Hnd Hsched Hlen. induction order as [|i order IH] using rev_ind; intros Hord.
  { exists w. split_and!; [done|done|set_solver]. }
  apply Forall_app in Hord as [Hord [Hi Hlo]%Forall_singleton].
  destruct (IH Hord) as (w1 & E1 & Hok1 & Hk1). unfold write_pieces in *.
  rewrite map_app, foldl_app, E1. cbn [map foldl piece_of].
  set (pl := Z.to_nat (h_piece_length h)) in *.
  assert (0 < pl) as Hpl by (destruct Hok as [_ _ _ Hp _]; lia).
  set (d := slice (piece_lo h i) pl content).
  assert (length d = min pl (length content - piece_lo h i)) as Hd by apply length_slice.
  destruct (write_piece_flat schedule w1 h i d) as (w2 & E2 & Hok2 & Hfl); try done; try lia.
  rewrite E2. exists w2. split_and!; [done|done|]. intros k Hk.
  assert (length (flat w1 (targets h)) = size_of (targets h)) as Hl1 by apply length_flat, Hok1.
  rewrite Hfl, lookup_splice by lia. case_decide as Hin.
  - unfold d. rewrite lookup_slice by lia. f_equal. lia.
  - apply elem_of_app in Hk as [Hk|Hk%list_elem_of_singleton]; [by apply Hk1|].
    assert (pl * (k / pl) ≤ k < pl * S (k / pl)) as Hdiv.
    { split; [apply Nat.mul_div_le; lia|apply Nat.mul_succ_div_gt; lia]. }
    unfold piece_lo in *. fold pl in Hin, Hd, Hlo. rewrite Hk in Hdiv.
    rewrite !lookup_ge_None_2; [done|nia|nia].
Qed.

(** Once every piece is written the files hold the content. *)
Lemma write_pieces_all w h content order n :
  handler_ok w h → NoDup (map handle (targets h)) → (∀ n, schedule n ≡ₚ seq 0 n) →
  length content = size_of (targets h) →
  n = (length content + Z.to_nat (h_piece_length h) - 1) / Z.to_nat (h_piece_length h) →
  (Z.of_nat n ≤ 2 ^ 32)%Z → (∀ i, i ∈ order ↔ i < n) →
  ∃ w', write_pieces h (map (piece_of h content) order) w = (w', Ok tt) ∧
        flat w' (targets h) = content.
Proof.
  intros Hok Hnd Hsched Hlen Hn Hn32 Hord. set (pl := Z.to_nat (h_piece_length h)) in *.
  assert (0 < pl) by (destruct Hok as [_ _ _ Hp _]; lia).
  assert (∀ i, i < n ↔ i * pl < length content) as Hlt.
  { intros i. pose proof (Nat.mul_div_le (length content + pl - 1) pl ltac:(lia)).
    pose proof (Nat.mul_succ_div_gt (length content + pl - 1) pl ltac:(lia)).
    rewrite <-Hn in *. nia. }
  destruct (write_pieces_spec w h content order) as (w' & E & Hok' & Hk); [done..| |].
  { apply Forall_forall. intros i Hi%Hord. split; [lia|]. by apply Hlt. }
  exists w'. split; [done|]. apply list_eq. intros k. destruct (decide (k < length content)).
  - apply Hk, Hord, Hlt. fold pl. pose proof (Nat.mul_div_le k pl). nia.
  - rewrite !lookup_ge_None_2; [done|lia|]. rewrite length_flat by apply Hok'. lia.
Qed.
End reassembly.

(** * Properties *)

Section properties.
Context `{FullTransfer}.

(** C1: A download puts the content together: once the files of a torrent are
    allocated (under distinct files), writing its pieces in any order, the
    parallel file writes of each in any order too and each transferring all the bytes
    it is given, succeeds and leaves the concatenation of the files equal to
    the content. *)
Theorem download_reassembles (schedule : nat → list nat) (w w0 : World) (base : string)
    (piece_length : Z) (files : list EmbededFile) (h : MultiFileHandler)
    (content : list Z) (order : list nat) (n : nat)
    (Hfiles : Forall (λ f, 0 ≤ ef_length f)%Z files)
    (Hsize : (Z.of_nat (files_size files) ≤ 2 ^ 62)%Z)
    (Hpl : (0 < piece_length ≤ 2 ^ 30)%Z)
    (Hdown : download w base piece_length files = Ok (w0, h))
    (Hdistinct : NoDup (map handle (targets h)))
    (Hschedule : ∀ n, schedule n ≡ₚ seq 0 n)
    (Hcontent : length content = files_size files)
    (Hn : n = (length content + Z.to_nat piece_length - 1) / Z.to_nat piece_length)
    (Hn32 : (Z.of_nat n ≤ 2 ^ 32)%Z)
    (Horder : order ≡ₚ seq 0 n) :
  ∃ w', write_pieces schedule h (map (piece_of h content) order) w0 = (w', Ok tt) ∧
        flat w' (targets h) = content.
Proof.
  destruct (download_ok _ _ _ _ _ _ Hfiles Hsize Hpl Hdown Hdistinct) as (Hok & Hsz & Epl).
  eapply write_pieces_all; [done..|by rewrite Hsz|by rewrite Epl|done|].
  intros i. rewrite Horder, elem_of_seq. lia.
Qed.

(** Reading a piece never panics and gives exactly the bytes of the piece
    in the concatenation of the files, however they straddle file boundaries,
    the last piece cut at the end of the content; a piece past the end is
    [OutOfBounds]. *)
Theorem read_piece_reference (w : World) (h : MultiFileHandler) (index : nat)
    (Hok : handler_ok w h) (Hindex : (Z.of_nat index < 2 ^ 32)%Z) :
  read_piece w h (Z.of_nat index) =
    if decide (piece_lo h index < size_of (targets h)) then
      Some (Ok (slice (piece_lo h index) (Z.to_nat (h_piece_length h)) (flat w (targets h))))
    else Some (Err (OutOfBounds (Z.of_nat index))).
Proof. by apply read_piece_flat. Qed.

(** C2: Writing a piece that fits, into distinct files, succeeds and updates
    exactly its own byte range of the concatenated files, whatever the order
    in which the parallel file writes run, as long as each transfers all the bytes it
    is given; reading the piece back gives the data when it fills the piece, and a piece
    that starts past the end is refused without a write. *)
Theorem write_piece_refines (schedule : nat → list nat) (w : World) (h : MultiFileHandler)
    (index : nat) (data : list Z)
    (Hok : handler_ok w h) (Hdistinct : NoDup (map handle (targets h)))
    (Hindex : (Z.of_nat index < 2 ^ 32)%Z)
    (Hschedule : ∀ n, schedule n ≡ₚ seq 0 n)
    (Hfit : piece_lo h index + length data ≤ size_of (targets h)) :
  if decide (piece_lo h index < size_of (targets h)) then
    ∃ w', write_piece schedule w h (Z.of_nat index) data = (w', Ok tt) ∧ handler_ok w' h ∧
      flat w' (targets h) = splice (piece_lo h index) data (flat w (targets h)) ∧
      (length data = min (Z.to_nat (h_piece_length h)) (size_of (targets h) - piece_lo h index) →
       read_piece w' h (Z.of_nat index) = Some (Ok data))
  else write_piece schedule w h (Z.of_nat index) data = (w, Err (OutOfBounds (Z.of_nat index))).
Proof.
  case_decide as Hlo; cycle 1.
  { unfold write_piece. destruct (piece_bounds w h index Hok Hindex) as [-> _].
    destruct Hok as [_ -> _ _ _]. by rewrite (proj2 (Z.leb_le _ _)) by lia. }
  destruct (write_piece_flat schedule w h index data) as (w' & E & Hok' & Hfl); [done..|].
  exists w'. split_and!; [done|done|done|]. intros Hlen.
  rewrite read_piece_flat by done. case_decide; [|done]. do 2 f_equal. rewrite Hfl.
  assert (length (flat w (targets h)) = size_of (targets h)) as Hl by apply length_flat, Hok.
  rewrite <-(slice_splice_same (piece_lo h index) data (flat w (targets h))) at 2 by lia.
  unfold slice. rewrite !take_drop_commute.
  destruct (decide (piece_lo h index + Z.to_nat (h_piece_length h) ≤ size_of (targets h))).
  - do 3 f_equal. lia.
  - f_equal. rewrite !take_ge; [done| |]; rewrite length_splice; lia.
Qed.
End properties.

(** * Instances of the properties *)

Module ChunksExamples.
(** An operating system on which everything succeeds; a new name gets the next
    inode. *)
#[local] Instance toy_os : Os := {|
  os_is_file w p := bool_decide (is_Some (names w !! p));
  os_create_dir_all _ := Ok tt;
  os_create w _ := Ok (size (names w));
  os_fallocate _ _ := None;
  os_set_len _ _ := Ok tt;
  os_read_at w h off n := Ok (min n (length (default [] (contents w !! h)) - Z.to_nat off));
  os_write_at _ _ _ n := Ok n;
|}.

#[local] Instance toy_full : FullTransfer.
Proof. split; [|done]. intros w h off n c Hc. cbn. by rewrite Hc. Qed.

Definition demo_files : list EmbededFile :=
  [mkFile 5 ["a"] None; mkFile 0 ["empty"] None; mkFile 6 ["d"; "b"] None].
Definition opened : World * MultiFileHandler :=
  match download (mkWorld ∅ ∅) "/data" 4 demo_files with
  | Ok r => r
  | Err _ => (mkWorld ∅ ∅, mkHandler [] 0 0)
  end.
Definition demo_content : list Z := [1; 2; 3; 4; 5; 6; 7; 8; 9; 10; 11]%Z.

Lemma opened_ok : handler_ok opened.1 opened.2.
Proof.
  apply (download_ok (mkWorld ∅ ∅) "/data" 4 demo_files).
  - repeat constructor; vm_compute; done.
  - vm_compute; done.
  - vm_compute; done.
  - vm_compute; reflexivity.
  - apply (bool_decide_unpack _). vm_compute. exact I.
Qed.

Lemma read_piece_reference_witness :
  read_piece opened.1 opened.2 2 = Some (Ok [0; 0; 0]%Z) ∧
  read_piece opened.1 opened.2 3 = Some (Err (OutOfBounds 3)).
Proof.
  split.
  - change 2%Z with (Z.of_nat 2). rewrite (read_piece_reference opened.1 opened.2 2 opened_ok);
      vm_compute; reflexivity.
  - change 3%Z with (Z.of_nat 3). rewrite (read_piece_reference opened.1 opened.2 3 opened_ok);
      vm_compute; reflexivity.
Defined.

Lemma write_piece_refines_witness :
  ∃ w', write_piece (λ n, reverse (seq 0 n)) opened.1 opened.2 1 [5; 6; 7; 8]%Z = (w', Ok tt) ∧
        read_piece w' opened.2 1 = Some (Ok [5; 6; 7; 8]%Z).
Proof.
  pose proof (write_piece_refines (λ n, reverse (seq 0 n)) opened.1 opened.2 1 [5; 6; 7; 8]%Z
    opened_ok) as Hw.
  destruct Hw as (w' & E & _ & _ & Hr); [|done|intros; apply reverse_Permutation|vm_compute; lia|].
  - apply (bool_decide_unpack _). vm_compute. exact I.
  - exists w'. split; [exact E|]. apply Hr. vm_compute. reflexivity.
Defined.

Lemma download_reassembles_witness :
  ∃ w', write_pieces (λ n, reverse (seq 0 n)) opened.2
          (map (piece_of opened.2 demo_content) [1; 2; 0]) opened.1 = (w', Ok tt) ∧
        flat w' (targets opened.2) = demo_content.
Proof.
  apply (download_reassembles (λ n, reverse (seq 0 n)) (mkWorld ∅ ∅) opened.1 "/data" 4
    demo_files opened.2 demo_content [1; 2; 0] 3).
  - repeat constructor; vm_compute; done.
  - vm_compute; done.
  - vm_compute; done.
  - vm_compute; reflexivity.
  - apply (bool_decide_unpack _). vm_compute. exact I.
  - intros; apply reverse_Permutation.
  - reflexivity.
  - vm_compute; reflexivity.
  - vm_compute; done.
  - apply (bool_decide_unpack _). vm_compute. exact I.
Defined.
End ChunksExamples.
