(* ===== verification/Builder.v ===== *)
(** Creating torrents: the directory walk of [torrent/path.rs], the piece
    hasher of [torrent/piece_hash.rs], the builders of [torrent/builder/] and
    the Merkle trees of [torrent/merkle.rs] with the version 2 integrity check.

    The file system is given by what [File::open], [is_file] and [read_dir]
    answer; how many bytes a buffered read returns is an argument of the reading
    loop. *)

From Stdlib Require Import Ascii.
From S2P Require Import Prelude Net Crypto Metainfo Chunks.

(** * Paths *)

Fixpoint split_on (c : Ascii.ascii) (s : string) : list string :=
  match s with
  | "" => [""]
  | String d s =>
    if bool_decide (c = d) then "" :: split_on c s
    else match split_on c s with
         | [] => [String d ""]
         | p :: ps => String d p :: ps
         end
  end.

(** [Path::components], as text: a leading slash is a component, empty and [.]
    components are dropped (except a leading [.]). *)
Definition components (p : string) : list string :=
  let parts := split_on "/" p in
  let keep := List.filter (λ s, negb (bool_decide (s = "")) && negb (bool_decide (s = "."))) in
  if starts_with "/" p then "/" :: keep parts
  else match parts with "." :: rest => "." :: keep rest | _ => keep parts end.

(** [Path::strip_prefix]. *)
Definition strip_prefix (base p : string) : option string :=
  let b := components base in
  let c := components p in
  if bool_decide (take (length b) c = b) then Some (foldl path_push "" (drop (length b) c))
  else None.

(** The file system as the walk sees it. *)
Class Tree := {
  tree_is_file : string → bool;
  (** The readable entries of a directory; [None] when it cannot be listed. *)
  tree_read_dir : string → option (list string);
  tree_open : string → option (list Z);
}.

(** src/src/bit_torrent/torrent/path.rs:6-10 [TorrentPath] *)
Record TorrentPath := mkPath { base_path : string; paths : list string }.

(** src/src/bit_torrent/torrent/path.rs:13-19 [TorrentPath::new] *)
Definition TorrentPath_new (path : string) : TorrentPath := mkPath path [].

(** src/src/bit_torrent/torrent/path.rs:21-41 [TorrentPath::add]

    [fuel] bounds the nesting depth of the directories. *)
Fixpoint add `{Tree} (fuel : nat) (self : TorrentPath) (current : string) : TorrentPath :=
  if tree_is_file current then mkPath (base_path self) (paths self ++ [current])
  else
    match fuel, tree_read_dir current with
    | S fuel, Some entries => foldl (λ self e, add fuel self e) self entries
    | _, _ => self
    end.

(** src/src/bit_torrent/torrent/path.rs:43-45 [TorrentPath::is_empty] *)
Definition is_empty (self : TorrentPath) : bool :=
  match paths self with [] => true | _ => false end.

(** src/src/bit_torrent/torrent/path.rs:47-59 [TorrentPath::build] *)
Definition path_build (self : TorrentPath) : list (string * string) :=
  map (λ abs, (abs, default abs (strip_prefix (base_path self) abs))) (paths self).

(** * The piece hasher *)

(** src/src/bit_torrent/torrent/piece_hash.rs:24-27 [FileEntry] *)
Record FileEntry := mkFileEntry { absolute : string; relative : string }.

(** [sort_by_key], stable. *)
Definition sort_by_key {A} (l : list (nat * A)) : list (nat * A) :=
  sort_by (λ x y, x.1 <=? y.1) l.

(** The reader's state: [piece_index], [buffer], [bytes_buffered] and the
    pieces sent so far. *)
Record HashState := mkHash {
  piece_index : nat; buffer : list Z; bytes_buffered : nat; sent : list (nat * list Z) }.

Section hasher.
Context `{Crypto} `{Tree}.

(** What one [read] into [cap] bytes returns, by file and position; an error
    counts as 0. *)
Variable read_count : string → nat → nat → nat.

(** The inner loop over one file; every round reads at least one byte, so the
    length of the file bounds the rounds. *)
Fixpoint read_file (fuel : nat) (piece_length : nat) (path : string) (content : list Z)
    (offset : nat) (st : HashState) : HashState :=
  match fuel with
  | O => st
  | S fuel =>
    let position := read_count path offset (length (buffer st) - bytes_buffered st) in
    if position =? 0 then st
    else
      let data := slice offset position content in
      let buffer' := splice (bytes_buffered st) data (buffer st) in
      let buffered := bytes_buffered st + position in
      let st' :=
        if buffered =? piece_length then
          mkHash (S (piece_index st)) (replicate piece_length 0%Z) 0
            (sent st ++ [(piece_index st, buffer')])
        else mkHash (piece_index st) buffer' buffered (sent st) in
      read_file fuel piece_length path content (offset + position) st'
  end.

(** src/src/bit_torrent/torrent/piece_hash.rs:136-165 [dispatch_file_metadata] *)
Definition dispatch_file_metadata (entry : FileEntry)
    : Result TorrentError (EmbededFile * list Z) :=
  match tree_open (absolute entry) with
  | None => Err (Failed "failed to open file")
  | Some content =>
    Ok (mkFile (i64 (Z.of_nat (length content))) (components (relative entry)) None, content)
  end.

(** The loop over the files, with the metadata sent; the flag is false when a
    file could not be opened and the function returned early. *)
Fixpoint hash_files (files : list FileEntry) (piece_length : nat) (st : HashState)
    (meta : list EmbededFile) : HashState * list EmbededFile * bool :=
  match files with
  | [] => (st, meta, true)
  | entry :: files =>
    match dispatch_file_metadata entry with
    | Err _ => (st, meta, false)
    | Ok (file, content) =>
      hash_files files piece_length
        (read_file (S (length content)) piece_length (absolute entry) content 0 st)
        (meta ++ [file])
    end
  end.

(** src/src/bit_torrent/torrent/piece_hash.rs:96-134 [file_handle]

    The pieces and the file descriptions sent; the final, shorter piece is
    sent only when every file was opened. *)
Definition file_handle (files : list FileEntry) (piece_length : nat)
    : list (nat * list Z) * list EmbededFile :=
  let '(st, meta, all_read) :=
    hash_files files piece_length (mkHash 0 (replicate piece_length 0%Z) 0 []) [] in
  let pieces :=
    if all_read && (0 <? bytes_buffered st) then
      sent st ++ [(piece_index st, take (bytes_buffered st) (buffer st))]
    else sent st in
  (pieces, meta).

(** src/src/bit_torrent/torrent/piece_hash.rs:55-93 [PieceHasherV1::finalize]

    The result of the reading thread is not looked at. *)
Definition finalize (files : list FileEntry) (piece_length : nat)
    : Result TorrentError (list Z * V1Mode) :=
  let '(pieces, files) := file_handle files piece_length in
  let results := sort_by_key (map (λ '(idx, data), (idx, sha1 data)) pieces) in
  let hashes := concat (map snd results) in
  match files with
  | [file] => Ok (hashes, SingleFile file)
  | _ => Ok (hashes, MultiFile files)
  end.
End hasher.

(** * The builders *)

(** src/src/bit_torrent/torrent/builder/v1_builder.rs:21-33 [V1Builder] *)
Record V1Builder := mkV1Builder {
  b_name : string;
  b_private : bool;
  b_piece_length : Z;
  b_files : TorrentPath;
  b_announce : option string;
  b_announce_list : option (list (list string));
  b_web_seeds : option (list string);
  b_creation_date : option Z;
  b_comment : option string;
  b_created_by : option string;
  b_dht_nodes : option (list TorrentAddr);
}.

(** src/src/bit_torrent/torrent/builder/v1_builder.rs:37-55 [V1Builder::new] *)
Definition V1Builder_new (name path : string) (piece_length : Z) : V1Builder :=
  mkV1Builder name false (PieceLength.from piece_length) (TorrentPath_new path)
    None None None None None None None.

(** src/src/bit_torrent/torrent/builder/v1_builder.rs:57-62 [V1Builder::file] *)
Definition builder_file `{Tree} (fuel : nat) (self : V1Builder) (input : string) : V1Builder :=
  mkV1Builder (b_name self) (b_private self) (b_piece_length self)
    (add fuel (b_files self) input) (b_announce self) (b_announce_list self) (b_web_seeds self)
    (b_creation_date self) (b_comment self) (b_created_by self) (b_dht_nodes self).

(** src/src/bit_torrent/torrent/builder/v1_builder.rs:64-70 [V1Builder::files] *)
Definition builder_files `{Tree} (fuel : nat) (self : V1Builder) (inputs : list string)
    : V1Builder := foldl (builder_file fuel) self inputs.

(** src/src/bit_torrent/torrent/builder/v1_builder.rs:72-88 [V1Builder::announce] *)
Definition builder_announce (self : V1Builder) (url : string) : V1Builder :=
  let tiers :=
    match default [[]] (b_announce_list self) with
    | [] => [[url]]
    | tier :: rest => (tier ++ [url]) :: rest
    end in
  mkV1Builder (b_name self) (b_private self) (b_piece_length self) (b_files self)
    (match b_announce self with Some a => Some a | None => Some url end) (Some tiers)
    (b_web_seeds self) (b_creation_date self) (b_comment self) (b_created_by self)
    (b_dht_nodes self).

(** src/src/bit_torrent/torrent/builder/v1_builder.rs:90-101 [V1Builder::announce_list] *)
Definition builder_announce_list (self : V1Builder) (tiers : list (list string)) : V1Builder :=
  mkV1Builder (b_name self) (b_private self) (b_piece_length self) (b_files self)
    (tier ← head tiers; head tier) (Some tiers)
    (b_web_seeds self) (b_creation_date self) (b_comment self) (b_created_by self)
    (b_dht_nodes self).

(** src/src/bit_torrent/torrent/builder/v1_builder.rs:108-116 [V1Builder::dht_nodes] *)
Definition builder_dht_nodes `{AddrText} (self : V1Builder) (nodes : option (list string))
    : V1Builder :=
  mkV1Builder (b_name self) (b_private self) (b_piece_length self) (b_files self)
    (b_announce self) (b_announce_list self) (b_web_seeds self) (b_creation_date self)
    (b_comment self) (b_created_by self)
    (option_map (omap (M := list) (λ s,
       match TorrentAddr.from_str s with Ok a => Some a | Err _ => None end)) nodes).

(** src/src/bit_torrent/torrent/builder/v1_builder.rs:103-106 [V1Builder::web_seeds] *)
Definition builder_web_seeds (self : V1Builder) (urls : option (list string)) : V1Builder :=
  mkV1Builder (b_name self) (b_private self) (b_piece_length self) (b_files self)
    (b_announce self) (b_announce_list self) urls (b_creation_date self)
    (b_comment self) (b_created_by self) (b_dht_nodes self).

(** src/src/bit_torrent/torrent/builder/v1_builder.rs:118-121 [V1Builder::comment] *)
Definition builder_comment (self : V1Builder) (comment : option string) : V1Builder :=
  mkV1Builder (b_name self) (b_private self) (b_piece_length self) (b_files self)
    (b_announce self) (b_announce_list self) (b_web_seeds self) (b_creation_date self)
    comment (b_created_by self) (b_dht_nodes self).

(** src/src/bit_torrent/torrent/builder/v1_builder.rs:123-126 [V1Builder::created_by] *)
Definition builder_created_by (self : V1Builder) (created_by : option string) : V1Builder :=
  mkV1Builder (b_name self) (b_private self) (b_piece_length self) (b_files self)
    (b_announce self) (b_announce_list self) (b_web_seeds self) (b_creation_date self)
    (b_comment self) created_by (b_dht_nodes self).

(** src/src/bit_torrent/torrent/builder/v1_builder.rs:128-131 [V1Builder::creation_date] *)
Definition builder_creation_date (self : V1Builder) (date : option Z) : V1Builder :=
  mkV1Builder (b_name self) (b_private self) (b_piece_length self) (b_files self)
    (b_announce self) (b_announce_list self) (b_web_seeds self) date
    (b_comment self) (b_created_by self) (b_dht_nodes self).

(** src/src/bit_torrent/torrent/builder/v1_builder.rs:133-136 [V1Builder::private] *)
Definition builder_private (self : V1Builder) (value : bool) : V1Builder :=
  mkV1Builder (b_name self) value (b_piece_length self) (b_files self)
    (b_announce self) (b_announce_list self) (b_web_seeds self) (b_creation_date self)
    (b_comment self) (b_created_by self) (b_dht_nodes self).

Section build.
Context `{Crypto} `{Tree} (read_count : string → nat → nat → nat)
  (encode_info : BencodeInfo → Result string (list Z)).

(** src/src/bit_torrent/torrent/builder/v1_builder.rs:138-153 [V1Builder::info_hash] *)
Definition builder_info_hash (self : V1Builder) (pieces : list Z) (mode : BencodeMode)
    : Result TorrentError InfoHash :=
  let private_flag := if b_private self then Some 1%Z else None in
  let meta_info := BencodeInfo.v1 (b_name self) private_flag pieces
                     (i64 (b_piece_length self)) mode in
  match encode_info meta_info with
  | Ok info_hash => Ok (InfoHash.v1_new info_hash)
  | Err e => Err (Failed e)
  end.

(** src/src/bit_torrent/torrent/builder/v1_builder.rs:155-191 [V1Builder::build]

    [now] and [version] are the current time and the program's version. *)
Definition build (now : Z) (version : string) (self : V1Builder)
    : Result TorrentError TorrentFile :=
  let? _ := PieceLength.validate (b_piece_length self) in
  if is_empty (b_files self) then Err (NotValid "the provided path contains no files")
  else
    let entries := map (λ '(abs, rel), mkFileEntry abs rel) (path_build (b_files self)) in
    let? (pieces, mode) := finalize read_count entries (Z.to_nat (b_piece_length self)) in
    let? info_hash := builder_info_hash self pieces (V1Mode.mode_to_bencode mode) in
    Ok (V1 (mkV1
      (mkCommon info_hash (b_name self) (b_announce self) (b_announce_list self)
        (b_piece_length self)
        (match b_creation_date self with Some d => Some d | None => Some now end)
        (b_comment self)
        (match b_created_by self with Some v => Some v | None => Some version end)
        (b_web_seeds self) (b_dht_nodes self))
      (b_private self) pieces mode)).
End build.

(** ** The version 2 builder

    It has the fields of [V1Builder] less [private], and two that nothing
    uses; its setters are those of [V1Builder]. *)

(** src/src/bit_torrent/torrent/builder/v2_builder.rs:21-40 [V2Builder] *)
Definition V2Builder : Type := V1Builder.

(** src/src/bit_torrent/torrent/builder/v2_builder.rs:43-58 [V2Builder::new] *)
Definition V2Builder_new (name path : string) (piece_length : Z) : V2Builder :=
  mkV1Builder name false (PieceLength.from piece_length) (TorrentPath_new path)
    None None None None None None None.

(** src/src/bit_torrent/torrent/builder/v2_builder.rs:60-65 [V2Builder::file] *)
Definition v2_file `{Tree} (fuel : nat) (self : V2Builder) (input : string) : V2Builder :=
  builder_file fuel self input.

(** src/src/bit_torrent/torrent/builder/v2_builder.rs:67-73 [V2Builder::files] *)
Definition v2_files `{Tree} (fuel : nat) (self : V2Builder) (file_paths : list string) : V2Builder :=
  foldl (v2_file fuel) self file_paths.

(** src/src/bit_torrent/torrent/builder/v2_builder.rs:75-91 [V2Builder::announce] *)
Definition v2_announce (self : V2Builder) (url : string) : V2Builder := builder_announce self url.

(** src/src/bit_torrent/torrent/builder/v2_builder.rs:93-104 [V2Builder::announce_list] *)
Definition v2_announce_list (self : V2Builder) (tiers : list (list string)) : V2Builder :=
  builder_announce_list self tiers.

(** src/src/bit_torrent/torrent/builder/v2_builder.rs:106-109 [V2Builder::web_seeds] *)
Definition v2_web_seeds (self : V2Builder) (urls : option (list string)) : V2Builder :=
  builder_web_seeds self urls.

(** src/src/bit_torrent/torrent/builder/v2_builder.rs:111-119 [V2Builder::dht_nodes] *)
Definition v2_dht_nodes `{AddrText} (self : V2Builder) (nodes : option (list string)) : V2Builder :=
  builder_dht_nodes self nodes.

(** src/src/bit_torrent/torrent/builder/v2_builder.rs:121-124 [V2Builder::comment] *)
Definition v2_comment (self : V2Builder) (comment : option string) : V2Builder :=
  builder_comment self comment.

(** src/src/bit_torrent/torrent/builder/v2_builder.rs:126-129 [V2Builder::created_by] *)
Definition v2_created_by (self : V2Builder) (created_by : option string) : V2Builder :=
  builder_created_by self created_by.

(** src/src/bit_torrent/torrent/builder/v2_builder.rs:131-134 [V2Builder::creation_date] *)
Definition v2_creation_date (self : V2Builder) (date : option Z) : V2Builder :=
  builder_creation_date self date.

(** src/src/bit_torrent/torrent/builder/v2_builder.rs:136-149 [V2Builder::info_hash] *)
Definition v2_info_hash `{Crypto} (encode_info : BencodeInfo → Result string (list Z))
    (self : V2Builder) (pieces : list Z) (mode : BencodeMode) : Result TorrentError InfoHash :=
  let meta_info := BencodeInfo.v1 (b_name self) None pieces (i64 (b_piece_length self)) mode in
  match encode_info meta_info with
  | Ok info_hash => Ok (InfoHash.v2_new info_hash)
  | Err e => Err (Failed e)
  end.

(** src/src/bit_torrent/torrent/builder/v2_builder.rs:151-189 [V2Builder::build] *)
Definition v2_build `{Crypto} `{Tree} (read_count : string → nat → nat → nat)
    (encode_info : BencodeInfo → Result string (list Z)) (now : Z) (version : string)
    (self : V2Builder) : Result TorrentError TorrentFile :=
  let? _ := PieceLength.validate (b_piece_length self) in
  if is_empty (b_files self) then Err (NotValid "the provided path contains no files")
  else
    let entries := map (λ '(abs, rel), mkFileEntry abs rel) (path_build (b_files self)) in
    let? (pieces, mode) := finalize read_count entries (Z.to_nat (b_piece_length self)) in
    let? info_hash := v2_info_hash encode_info self pieces (V1Mode.mode_to_bencode mode) in
    Ok (V2 (mkV2
      (mkCommon info_hash (b_name self) (b_announce self) (b_announce_list self)
        (b_piece_length self)
        (match b_creation_date self with Some d => Some d | None => Some now end)
        (b_comment self)
        (match b_created_by self with Some v => Some v | None => Some version end)
        (b_web_seeds self) (b_dht_nodes self))
      (Some 2%Z) [] None None 0)).

(** * Merkle trees *)

Section merkle.
Context `{Crypto}.

Definition ZERO : list Z := replicate 32 0%Z.

(** One level: neighbours are hashed together, a last one alone with zeros. *)
Definition next_level (current_level : list (list Z)) : list (list Z) :=
  map (λ chunk,
    match chunk with
    | [a; b] => sha256 (a ++ b)
    | [a] => sha256 (a ++ ZERO)
    | _ => ZERO
    end) (chunks 2 current_level).

(** Each round at least halves the level (rounding up), so its length is fuel
    enough. *)
Fixpoint merkle_loop (fuel : nat) (current_level : list (list Z)) : option (list Z) :=
  match current_level with
  | [] => None
  | [root] => Some root
  | _ =>
    match fuel with
    | O => None
    | S fuel => merkle_loop fuel (next_level current_level)
    end
  end.

(** src/src/bit_torrent/torrent/merkle.rs:35-64 [MerkleTree::from_piece_hashes] *)
Definition from_piece_hashes (hashes : list (list Z)) : option (list Z) :=
  match hashes with
  | [] => Some ZERO
  | _ => merkle_loop (length hashes) hashes
  end.

(** src/src/bit_torrent/torrent/merkle.rs:10-33 [MerkleTree::from_piece_layers]

    The outer [option] is [None] only for a loop that does not end. *)
Definition from_piece_layers (bytes : list Z) : option (Result TorrentError (list Z)) :=
  match bytes with
  | [] => Some (Err (NotValid "Piece layer data is empty"))
  | _ =>
    if negb (length bytes mod 32 =? 0) then
      Some (Err (NotValid ("Piece layer length (" +:+ pretty.pretty (length bytes) +:+
                           ") is not a multiple of 32")))
    else Ok <$> from_piece_hashes (chunks_exact 32 bytes)
  end.

Context `{Hex}.

(** src/src/bit_torrent/torrent/metainfo/v2.rs:161-199 [TorrentV2::check_integrity] *)
Fixpoint check_integrity (self : TorrentV2) (node : FileTreeNode)
    : option (Result TorrentError unit) :=
  match node with
  | TFile entry =>
    if (fte_length entry <=? i64 (tc_piece_length (v2_info self)))%Z then Some (Ok tt)
    else
      match fte_pieces_root entry with
      | None => Some (Err (NotValid "missing piece root"))
      | Some expected_root =>
        match snd <$> List.find (λ '(k, _), bool_decide (k = expected_root))
                        (v2_piece_layers self) with
        | None => Some (Err (NotValid "missing layer root"))
        | Some layers =>
          match from_piece_layers layers with
          | None => None
          | Some (Err e) => Some (Err e)
          | Some (Ok root) =>
            if bool_decide (root = expected_root) then Some (Ok tt)
            else Some (Err (NotValid ("mismatch roots! Expected: " +:+ hex_encode root +:+
                                      ", got " +:+ hex_encode expected_root)))
          end
        end
      end
  | TDir files =>
    (fix go (files : list (string * FileTreeNode)) :=
       match files with
       | [] => Some (Ok tt)
       | (_, file) :: files =>
         match check_integrity self file with
         | Some (Ok _) => go files
         | r => r
         end
       end) files
  end.

(** src/src/bit_torrent/torrent/metainfo/v2.rs:249-261 [Integrity::validate for TorrentV2] *)
Definition v2_validate (self : TorrentV2) : option (Result TorrentError unit) :=
  match v2_file_tree self with
  | None => Some (Err (NotValid "file tree did not compose"))
  | Some file_tree => check_integrity self (TDir file_tree)
  end.
End merkle.

(** * Lemmas *)

Lemma chunks_blocks {A} n (ls : list (list A)) (r : list A) :
  0 < n → Forall (λ c, length c = n) ls → length r < n →
  chunks n (concat ls ++ r) = ls ++ (if decide (r = []) then [] else [r]).
Proof.
  intros Hn Hls Hr. induction Hls as [|c ls Hc _ IH]; cbn [concat app].
  - case_decide; [by subst|]. rewrite chunks_cons by done.
    rewrite take_ge, drop_ge by lia. done.
  - rewrite chunks_cons; [|done|destruct c; simpl in *; [lia|done]].
    rewrite <-app_assoc, take_app_length', drop_app_length' by done. by rewrite IH.
Qed.

Lemma sort_by_key_seq {A} a (l : list (nat * A)) :
  map fst l = seq a (length l) → sort_by_key l = l.
Proof.
  revert a. induction l as [|[i x] l IH]; intros a; [done|]. cbn [map length seq].
  intros [= -> Hl]. change (sort_by_key ((a, x) :: l))
    with (insert_sorted (λ x y, x.1 <=? y.1) (a, x) (sort_by_key l)).
  rewrite (IH (S a)) by done.
  destruct l as [|[j y] l]; [done|]. injection Hl as -> _. simpl.
  by rewrite (proj2 (Nat.leb_le a (S a))) by lia.
Qed.

(** ** The reading loop *)

Section reading.
Context `{Crypto} `{Tree} (read_count : string → nat → nat → nat) (pl : nat) (Hpl : 0 < pl).

(** [Read::read]: some bytes while there are any and the buffer has room, no
    more than either. *)
Definition reads (path : string) (content : list Z) : Prop :=
  ∀ off cap,
    read_count path off cap ≤ cap ∧ read_count path off cap ≤ length content - off ∧
    (off < length content → 0 < cap → 0 < read_count path off cap).

Record hash_ok (st : HashState) : Prop := {
  hk_buffer : length (buffer st) = pl;
  hk_room : bytes_buffered st < pl;
  hk_sent : Forall (λ p, length p.2 = pl) (sent st);
  hk_index : map fst (sent st) = seq 0 (length (sent st));
  hk_next : piece_index st = length (sent st);
}.

(** The bytes read so far. *)
Definition stream (st : HashState) : list Z :=
  concat (map snd (sent st)) ++ take (bytes_buffered st) (buffer st).

Lemma read_file_spec path content fuel off st :
  reads path content → hash_ok st → length content - off < fuel →
  hash_ok (read_file read_count fuel pl path content off st) ∧
  stream (read_file read_count fuel pl path content off st) = stream st ++ drop off content.
Proof.
  intros Hr. revert off st. induction fuel as [|fuel IH]; intros off st Hok Hfuel; [lia|].
  pose proof Hok as [Hb Hbb Hs Hi Hn].
  cbn [read_file]. set (n := read_count path off (length (buffer st) - bytes_buffered st)).
  destruct (Hr off (length (buffer st) - bytes_buffered st)) as (Hn1 & Hn2 & Hn3).
  fold n in Hn1, Hn2, Hn3. destruct (Nat.eqb_spec n 0) as [E0|E0].
  { split; [done|]. rewrite drop_ge by lia. by rewrite app_nil_r. }
  set (data := slice off n content).
  assert (length data = n) as Hd by (unfold data; rewrite length_slice; lia).
  set (buffer' := splice (bytes_buffered st) data (buffer st)).
  assert (length buffer' = pl) as Hb' by (unfold buffer'; rewrite length_splice; lia).
  assert (take (bytes_buffered st + n) buffer' = take (bytes_buffered st) (buffer st) ++ data)
    as Htake.
  { unfold buffer', splice. rewrite app_assoc. apply take_app_length'. lens. }
  assert (drop off content = data ++ drop (off + n) content) as Hdrop.
  { unfold data, slice. rewrite <-drop_drop. by rewrite take_drop. }
  match goal with |- context [read_file _ _ _ _ _ _ ?s] => set (st' := s) end.
  assert (hash_ok st' ∧ stream st' = stream st ++ data) as [Hok' Hst'].
  { unfold st'. destruct (Nat.eqb_spec (bytes_buffered st + n) pl) as [Efull|Efull].
    - split.
      + split; cbn [buffer bytes_buffered sent piece_index]; [lens|lia| | |lens].
        * apply Forall_app. split; [done|by apply Forall_singleton].
        * rewrite map_app, length_app, Hi, Hn. cbn. by rewrite seq_app.
      + unfold stream. cbn [buffer bytes_buffered sent]. rewrite map_app, concat_app. cbn.
        rewrite !app_nil_r, <-app_assoc, <-Htake. by rewrite take_ge by lia.
    - split; [split; cbn [buffer bytes_buffered sent piece_index]; (done || lia)|].
      unfold stream. cbn [buffer bytes_buffered sent]. by rewrite Htake, app_assoc. }
  destruct (IH (off + n) st' Hok') as [Hok2 Hst2]; [lia|]. split; [done|].
  by rewrite Hst2, Hst', Hdrop, app_assoc.
Qed.

(** The description of a file that opens. *)
Definition described (e : FileEntry) (content : list Z) : EmbededFile :=
  mkFile (i64 (Z.of_nat (length content))) (components (relative e)) None.

Definition opens (e : FileEntry) (content : list Z) : Prop :=
  tree_open (absolute e) = Some content ∧ reads (absolute e) content.

Lemma hash_files_spec entries cs st meta :
  Forall2 opens entries cs → hash_ok st →
  ∃ st', hash_files read_count entries pl st meta =
           (st', meta ++ zip_with described entries cs, true) ∧
    hash_ok st' ∧ stream st' = stream st ++ concat cs.
Proof.
  intros Ho. revert st meta. induction Ho as [|e c entries cs [Hopen Hr] _ IH]; intros st meta Hok.
  { exists st. cbn. by rewrite !app_nil_r. }
  cbn [hash_files]. unfold dispatch_file_metadata. rewrite Hopen.
  destruct (read_file_spec (absolute e) c (S (length c)) 0 st Hr Hok) as [Hok1 Hst1]; [lia|].
  match goal with |- context [hash_files _ _ _ ?s ?m] => destruct (IH s m Hok1) as (st' & E & Hok' & Hst') end.
  exists st'. rewrite E. cbn [zip_with concat]. rewrite <-app_assoc. split_and!; [done|done|].
  rewrite Hst', Hst1. cbn. by rewrite app_assoc.
Qed.

Lemma file_handle_spec entries cs : Forall2 opens entries cs →
  let '(pieces, meta) := file_handle read_count entries pl in
  map snd pieces = chunks pl (concat cs) ∧ map fst pieces = seq 0 (length pieces) ∧
  meta = zip_with described entries cs.
Proof.
  intros Ho. unfold file_handle.
  destruct (hash_files_spec entries cs (mkHash 0 (replicate pl 0%Z) 0 []) [] Ho)
    as (st & E & [Hb Hbb Hs Hi Hn] & Hst).
  { split; cbn; [lens|lia|constructor|done|done]. }
  rewrite E. unfold stream in Hst. cbn in Hst. rewrite take_0 in Hst. cbn in Hst. rewrite <-Hst.
  rewrite chunks_blocks; [|done|by apply Forall_map|lens].
  destruct (Nat.ltb_spec 0 (bytes_buffered st)); cbn [andb].
  - rewrite decide_False by (intros E0%(f_equal length); revert E0; rewrite length_take; simpl; lia).
    rewrite map_app, map_app, length_app, Hi, Hn. cbn. by rewrite seq_app.
  - replace (bytes_buffered st) with 0 by lia. cbn. by rewrite app_nil_r.
Qed.

Definition mode_of (files : list EmbededFile) : V1Mode :=
  match files with [file] => SingleFile file | _ => MultiFile files end.

Lemma finalize_spec entries cs : Forall2 opens entries cs →
  finalize read_count entries pl =
    Ok (concat (map sha1 (chunks pl (concat cs))), mode_of (zip_with described entries cs)).
Proof.
  intros Ho. pose proof (file_handle_spec entries cs Ho) as Hf. unfold finalize.
  destruct (file_handle read_count entries pl) as [pieces meta].
  destruct Hf as (Hp & Hi & ->).
  assert (map (λ '(idx, data), (idx, sha1 data)) pieces
          = zip (map fst pieces) (map sha1 (map snd pieces))) as Em.
  { clear. induction pieces as [|[] ? IH]; cbn; [done|]. by f_equal. }
  rewrite (sort_by_key_seq 0); cycle 1.
  { rewrite length_map, <-Hi. clear. induction pieces as [|[] ? IH]; cbn; [done|]. by f_equal. }
  rewrite Em, Hp. unfold mode_of.
  assert (map snd (zip (map fst pieces) (map sha1 (chunks pl (concat cs))))
          = map sha1 (chunks pl (concat cs))) as ->.
  { rewrite <-Hp. clear. induction pieces as [|[] ? IH]; cbn; [done|]. by f_equal. }
  generalize (zip_with described entries cs). by intros [|? []].
Qed.
End reading.

(** ** The content of a built torrent *)

Lemma length_nonnil {A} (l : list A) : 0 < length l → l ≠ [].
Proof. by destruct l; [simpl; lia|]. Qed.

Lemma chunks_lookup {A} n (l : list A) i : 0 < n → i * n < length l →
  chunks n l !! i = Some (slice (i * n) n l).
Proof.
  intros Hn. revert i. induction l as [l Hl|l Hl IH] using (block_ind n Hn); intros i Hi.
  - rewrite chunks_cons by first [done|apply length_nonnil; lia].
    assert (i = 0) as -> by nia. done.
  - rewrite chunks_cons by first [done|apply length_nonnil; lia].
    destruct i as [|i]; [done|]. cbn [lookup list_lookup]. rewrite IH by (rewrite length_drop; lia).
    unfold slice. rewrite drop_drop. by do 3 f_equal; lia.
Qed.

Lemma length_chunks {A} n (l : list A) : 0 < n → length (chunks n l) = (length l + n - 1) / n.
Proof.
  intros Hn. induction l as [l Hl|l Hl IH] using (block_ind n Hn).
  - destruct l as [|x l]; [cbn; by rewrite Nat.div_small by lia|].
    rewrite chunks_cons, drop_ge by (done || lia). cbn [length chunks chunks_fuel].
    change (length (chunks n [])) with 0. simpl in Hl.
    apply (Nat.div_unique _ _ 1 (length l)); simpl; lia.
  - rewrite chunks_cons by first [done|apply length_nonnil; lia].
    cbn [length]. rewrite IH, length_drop.
    replace (length l + n - 1) with ((length l - n + n - 1) + 1 * n) by lia.
    rewrite Nat.div_add by lia. lia.
Qed.

Section built.
Context `{CryptoLaws} `{Tree} (read_count : string → nat → nat → nat)
  (encode_info : BencodeInfo → Result string (list Z)) (now : Z) (version : string).

Definition entries_of (b : V1Builder) : list FileEntry :=
  map (λ '(abs, rel), mkFileEntry abs rel) (path_build (b_files b)).

Lemma build_inv b t cs :
  build read_count encode_info now version b = Ok (V1 t) →
  Forall2 (opens read_count) (entries_of b) cs →
  PieceLength.validate (b_piece_length b) = Ok tt ∧
  tc_piece_length (v1_info t) = b_piece_length b ∧
  v1_pieces t = concat (map sha1 (chunks (Z.to_nat (b_piece_length b)) (concat cs))) ∧
  v1_mode t = mode_of (zip_with described (entries_of b) cs).
Proof.
  unfold build. intros Hb Ho. destruct (PieceLength.validate _) as [[]|] eqn:Ev; [|done].
  cbn [rbind] in Hb. pose proof Ev as (k & Hk & Epl)%validate_piece_length_iff.
  assert (0 < Z.to_nat (b_piece_length b)) as Hpl.
  { rewrite Epl. assert (0 < 2 ^ k)%Z by (apply Z.pow_pos_nonneg; lia). lia. }
  destruct (is_empty _); [done|]. fold (entries_of b) in Hb.
  rewrite (finalize_spec _ _ Hpl _ _ Ho) in Hb. cbn [rbind] in Hb.
  destruct (builder_info_hash _ _ _ _); [|done]. cbn [rbind] in Hb. by injection Hb as <-.
Qed.

Lemma total_size_described es cs : length es = length cs →
  (Z.of_nat (length (concat cs)) < 2 ^ 63)%Z →
  ∀ pl pcs pr c, TorrentV1.v1_total_size (mkV1 c pr pcs (mode_of (zip_with described es cs))) = pl →
  pl = Z.of_nat (length (concat cs)).
Proof.
  intros Hl Hb pl pcs pr c <-.
  assert (∀ x, (Z.of_nat x < 2 ^ 63)%Z → i64 (Z.of_nat x) = Z.of_nat x) as Hi.
  { intros x Hx. unfold i64. rewrite Z.mod_small; [lia|]. change (2 ^ 64)%Z with (2 ^ 63 + 2 ^ 63)%Z. lia. }
  assert (∀ x, (Z.of_nat x < 2 ^ 63)%Z → u64 (Z.of_nat x) = Z.of_nat x) as Hu.
  { intros x Hx. apply wrap_small. change (2 ^ 64)%Z with (2 ^ 63 + 2 ^ 63)%Z. lia. }
  assert (foldr (λ f acc, u64 (ef_length f) + acc)%Z 0%Z (zip_with described es cs)
          = Z.of_nat (length (concat cs))) as Hsum.
  { clear pcs pr c. revert cs Hl Hb. induction es as [|e es IH]; intros [|x cs]; cbn; try done.
    intros [= Hl]. rewrite length_app. intros Hb. rewrite IH by lia. rewrite Hi, Hu by lia. lia. }
  unfold TorrentV1.v1_total_size. cbn [v1_mode].
  destruct (zip_with described es cs) as [|f [|g fs]]; cbn in Hsum |- *.
  - rewrite Hsum. by apply Hu.
  - rewrite <-Hsum. lia.
  - rewrite Hsum. by apply Hu.
Qed.
End built.

(** A built torrent describes its content, and is valid. *)
Lemma built_valid `{CryptoLaws} `{Tree} (read_count : string → nat → nat → nat)
    (encode_info : BencodeInfo → Result string (list Z)) (now : Z) (version : string)
    (b : V1Builder) (t : TorrentV1) (cs : list (list Z)) :
  build read_count encode_info now version b = Ok (V1 t) →
  Forall2 (opens read_count) (entries_of b) cs →
  0 < length (concat cs) → (Z.of_nat (length (concat cs)) ≤ 2 ^ 45)%Z →
  (2 ^ 14 ≤ b_piece_length b ≤ 2 ^ 27)%Z ∧
  TorrentV1.v1_total_size t = Z.of_nat (length (concat cs)) ∧
  TorrentV1.v1_piece_hashes t =
    map sha1 (chunks (Z.to_nat (b_piece_length b)) (concat cs)) ∧
  TorrentV1.v1_validate t = Ok tt.
Proof.
  intros Hbuild Hopens Hcontent Hsize.
  destruct (build_inv _ _ _ _ b t cs Hbuild Hopens) as (Hv & Etpl & Epcs & Emode).
  pose proof Hv as (k & Hk & Epl)%validate_piece_length_iff.
  assert (2 ^ 14 ≤ b_piece_length b)%Z as Hlo by (rewrite Epl; apply Z.pow_le_mono_r; lia).
  assert (b_piece_length b ≤ 2 ^ 27)%Z as Hhi by (rewrite Epl; apply Z.pow_le_mono_r; lia).
  split; [done|].
  change (2 ^ 14)%Z with 16384%Z in Hlo. change (2 ^ 27)%Z with 134217728%Z in Hhi.
  change (2 ^ 45)%Z with 35184372088832%Z in Hsize.
  set (pl := Z.to_nat (b_piece_length b)) in *. set (content := concat cs) in *.
  assert (TorrentV1.v1_total_size t = Z.of_nat (length content)) as Etot.
  { destruct t as [c pr pcs m]. cbn in Emode. subst m. eapply total_size_described; [|  |done].
    - by eapply Forall2_length.
    - change (2 ^ 63)%Z with 9223372036854775808%Z. fold content. lia. }
  assert (length (v1_pieces t) = 20 * length (chunks pl content)) as Elen.
  { rewrite Epcs, (length_concat_const 20), length_map; [done|].
    apply Forall_map, Forall_true. intros. apply sha1_length. }
  rewrite length_chunks in Elen by lia. split; [done|]. split.
  { unfold TorrentV1.v1_piece_hashes. rewrite Epcs. apply chunks_exact_concat; [lia|].
    apply Forall_map, Forall_true. intros. apply sha1_length. }
  unfold TorrentV1.v1_validate. rewrite Etpl, Hv, Etot, Elen. cbn [rbind].
  rewrite Nat.mul_comm, Nat.Div0.mod_mul, Nat.div_mul by lia. cbn [Nat.eqb negb].
  rewrite wrap_small by (change (2 ^ 64)%Z with 18446744073709551616%Z; lia).
  rewrite (proj2 (Z.eqb_eq _ _)); cycle 1.
  { rewrite Nat2Z.inj_div. f_equal; lia. }
  cbn [negb]. by rewrite (proj2 (Z.eqb_neq _ _)) by lia.
Qed.

(** ** Merkle trees *)

Section merkle_lemmas.
Context `{Crypto}.

(** The reference: the tree of depth [d] over at most [2 ^ d] leaves, split in
    the middle; a missing right half is 32 zero bytes. *)
Fixpoint merkle_tree (d : nat) (l : list (list Z)) : list Z :=
  match d with
  | O => default ZERO (head l)
  | S d =>
    if decide (length l ≤ 2 ^ d) then sha256 (merkle_tree d l ++ ZERO)
    else sha256 (merkle_tree d (take (2 ^ d) l) ++ merkle_tree d (drop (2 ^ d) l))
  end.

Lemma next_level_app a b : Nat.Even (length a) → next_level (a ++ b) = next_level a ++ next_level b.
Proof.
  unfold next_level. intros Ha. rewrite <-map_app. f_equal.
  assert (0 < 2) as H2 by lia.
  induction a as [a Hl|a Hl IH] using (block_ind 2 H2).
  - destruct a as [|x [|y a]]; simpl in *; [done| |lia]. destruct Ha; lia.
  - rewrite (chunks_cons 2 (a ++ b)), (chunks_cons 2 a);
      [|lia|by apply length_nonnil; lia|lia|apply length_nonnil; rewrite length_app; lia].
    rewrite take_app_le, drop_app_le by lia. cbn [app]. f_equal. apply IH.
    rewrite length_drop. destruct Ha as [m Hm]. exists (m - 1). lia.
Qed.

Lemma length_next_level l : length (next_level l) = (length l + 1) / 2.
Proof. unfold next_level. rewrite length_map, length_chunks by lia. f_equal. lia. Qed.

Lemma next_level_take_drop d l : 2 * 2 ^ d < length l →
  take (2 ^ d) (next_level l) = next_level (take (2 * 2 ^ d) l) ∧
  drop (2 ^ d) (next_level l) = next_level (drop (2 * 2 ^ d) l).
Proof.
  intros Hl. assert (length (take (2 * 2 ^ d) l) = 2 * 2 ^ d) as Ht by lens.
  assert (length (next_level (take (2 * 2 ^ d) l)) = 2 ^ d) as Hn.
  { rewrite length_next_level, Ht. symmetry. apply (Nat.div_unique _ _ _ 1); lia. }
  rewrite <-(take_drop (2 * 2 ^ d) l) at 1 3. rewrite next_level_app by (rewrite Ht; by eexists).
  by rewrite take_app_length', drop_app_length'.
Qed.

Lemma merkle_tree_next d l : 0 < length l ≤ 2 ^ S d →
  merkle_tree d (next_level l) = merkle_tree (S d) l.
Proof.
  revert l. induction d as [|d IH]; intros l Hl.
  - simpl in Hl. destruct l as [|a [|b [|c l]]]; simpl in Hl; try lia; done.
  - rewrite !Nat.pow_succ_r' in Hl.
    assert (length (next_level l) = (length l + 1) / 2) as Hn by apply length_next_level.
    pose proof (Nat.div_mod (length l + 1) 2 ltac:(lia)) as Hdm.
    pose proof (Nat.mod_upper_bound (length l + 1) 2 ltac:(lia)).
    assert (0 < 2 ^ d) by (apply Nat.neq_0_lt_0, Nat.pow_nonzero; lia).
    cbn [merkle_tree]. rewrite Nat.pow_succ_r'.
    destruct (decide (length l ≤ 2 * 2 ^ d)).
    + rewrite decide_True by lia. rewrite IH; [done|]. rewrite Nat.pow_succ_r'. lia.
    + rewrite decide_False by lia. destruct (next_level_take_drop d l) as [-> ->]; [lia|].
      rewrite !IH; [done| |]; rewrite Nat.pow_succ_r'; lens.
Qed.

Lemma merkle_loop_spec fuel d l : 0 < length l ≤ 2 ^ d → length l ≤ fuel →
  (length l = 1 → d = 0) → (∀ e, d = S e → 2 ^ e < length l) →
  merkle_loop fuel l = Some (merkle_tree d l).
Proof.
  revert d l. induction fuel as [|fuel IH]; intros d l Hl Hf H1 Hd; [lia|].
  destruct l as [|a [|b l]]; [simpl in Hl; lia|by rewrite H1|].
  set (m := a :: b :: l) in *. change (merkle_loop (S fuel) m) with (merkle_loop fuel (next_level m)).
  assert (2 ≤ length m) as Hm by (simpl; lia).
  destruct d as [|d]; [simpl in Hl; lia|]. rewrite <-merkle_tree_next by done.
  pose proof (length_next_level m) as Hn.
  pose proof (Nat.div_mod (length m + 1) 2 ltac:(lia)) as Hdm.
  pose proof (Nat.mod_upper_bound (length m + 1) 2 ltac:(lia)).
  specialize (Hd d eq_refl). rewrite Nat.pow_succ_r' in Hl.
  apply IH; [lia|lia| |].
  - intros. destruct d as [|d]; [done|]. rewrite Nat.pow_succ_r' in *.
    assert (0 < 2 ^ d) by (apply Nat.neq_0_lt_0, Nat.pow_nonzero; lia). lia.
  - intros e ->. rewrite Nat.pow_succ_r' in Hd. lia.
Qed.

(** Every loop over a piece layer ends. *)
Lemma merkle_loop_ends fuel l : 0 < length l ≤ fuel → is_Some (merkle_loop fuel l).
Proof.
  revert l. induction fuel as [|fuel IH]; intros l Hl; [lia|].
  destruct l as [|a [|b l]]; [simpl in Hl; lia|by eexists|].
  set (m := a :: b :: l) in *. change (merkle_loop (S fuel) m) with (merkle_loop fuel (next_level m)).
  assert (2 ≤ length m) as Hm by (simpl; lia). apply IH. rewrite length_next_level.
  pose proof (Nat.div_mod (length m + 1) 2 ltac:(lia)) as Hdm.
  pose proof (Nat.mod_upper_bound (length m + 1) 2 ltac:(lia)). lia.
Qed.

Lemma from_piece_layers_ends bytes : is_Some (from_piece_layers bytes).
Proof.
  unfold from_piece_layers. destruct bytes as [|b bs]; [by eexists|].
  destruct (negb _); [by eexists|]. unfold from_piece_hashes.
  destruct (chunks_exact 32 (b :: bs)) as [|h hs]; [by eexists|].
  destruct (merkle_loop_ends (length (h :: hs)) (h :: hs)) as [r ->]; [simpl; lia|]. by eexists.
Qed.

Lemma check_integrity_ends `{Hex} self node : is_Some (check_integrity self node).
Proof.
  revert node. fix IH 1. intros [entry|files]; simpl.
  - destruct (_ <=? _)%Z; [by eexists|]. destruct (fte_pieces_root entry); [|by eexists].
    destruct (snd <$> _) as [layers|]; [|by eexists].
    destruct (from_piece_layers_ends layers) as [[root|e] ->]; [|by eexists].
    case_bool_decide; by eexists.
  - induction files as [|[k file] files IHf]; [by eexists|].
    destruct (IH file) as [[[]|e] ->]; [apply IHf|by eexists].
Qed.

Lemma v2_validate_ends `{Hex} self : is_Some (v2_validate self).
Proof.
  unfold v2_validate. destruct (v2_file_tree self); [apply check_integrity_ends|by eexists].
Qed.
End merkle_lemmas.

(** * Properties *)

Section properties.
Context `{CryptoLaws} `{Tree} (read_count : string → nat → nat → nat).

(** However the reads of the files are cut up, hashing a list of files that
    open gives the SHA-1 hashes of the pieces of their concatenation, in order,
    and describes the files in order. *)
Theorem hasher_reference (piece_length : nat) (entries : list FileEntry) (cs : list (list Z))
    (Hpl : 0 < piece_length)
    (Hopens : Forall2 (opens read_count) entries cs) :
  finalize read_count entries piece_length =
    Ok (concat (map sha1 (chunks piece_length (concat cs))),
        mode_of (zip_with described entries cs)).
Proof. by apply finalize_spec. Qed.

(** C3: What one side hashes and cuts into pieces is what the other verifies.  When the
    version 1 builder makes a torrent from files that can all be opened and read to
    their end, with something in them and at most 2^45 bytes, the torrent is
    valid, and every piece read back with full transfers from a store with the same
    piece length that holds the same bytes passes its hash check. *)
Theorem built_torrent_verifies `{!Os} `{!FullTransfer}
    (encode_info : BencodeInfo → Result string (list Z)) (now : Z) (version : string)
    (b : V1Builder) (t : TorrentV1) (cs : list (list Z)) (w : World) (h : MultiFileHandler)
    (Hbuild : build read_count encode_info now version b = Ok (V1 t))
    (Hopens : Forall2 (opens read_count) (entries_of b) cs)
    (Hcontent : 0 < length (concat cs)) (Hsize : (Z.of_nat (length (concat cs)) ≤ 2 ^ 45)%Z)
    (Hstore : handler_ok w h) (Hbytes : flat w (targets h) = concat cs)
    (Hpl : h_piece_length h = b_piece_length b) :
  TorrentV1.v1_validate t = Ok tt ∧
  ∀ i, i < length (TorrentV1.v1_piece_hashes t) →
    ∃ d, read_piece w h (Z.of_nat i) = Some (Ok d) ∧
         TorrentV1.v1_verify_hash t (Z.of_nat i) d = Ok tt.
Proof.
  destruct (built_valid _ _ _ _ b t cs Hbuild Hopens Hcontent Hsize) as ([Hlo Hhi] & _ & Ehs & Hval).
  change (2 ^ 14)%Z with 16384%Z in Hlo. change (2 ^ 27)%Z with 134217728%Z in Hhi.
  change (2 ^ 45)%Z with 35184372088832%Z in Hsize.
  set (pl := Z.to_nat (b_piece_length b)) in *. set (content := concat cs) in *.
  split; [done|].
  intros i Hi. rewrite Ehs, length_map in Hi.
    pose proof Hi as Hi2. rewrite length_chunks in Hi2 by lia.
    assert (i * pl < length content) as Hlt.
    { pose proof (Nat.mul_div_le (length content + pl - 1) pl ltac:(lia)). nia. }
    rewrite read_piece_flat; [|done|change (2 ^ 32)%Z with 4294967296%Z; nia].
    assert (size_of (targets h) = length content) as Esz.
    { rewrite <-Hbytes. symmetry. apply length_flat, Hstore. }
    unfold piece_lo. rewrite Hpl. fold pl. rewrite Esz, Hbytes, decide_True by done.
    eexists. split; [done|]. unfold TorrentV1.v1_verify_hash. rewrite Nat2Z.id, Ehs.
    rewrite list_lookup_fmap, chunks_lookup by lia. cbn.
    by rewrite bool_decide_eq_true_2.
Qed.

(** The level-by-level loop of the Merkle tree ends for every number of
    leaves, and computes the recursive tree whose missing right halves are
    zeros; its depth is the logarithm of the number of leaves. *)
Theorem merkle_root_reference (hashes : list (list Z)) (Hne : hashes ≠ []) :
  from_piece_hashes hashes = Some (merkle_tree (Nat.log2_up (length hashes)) hashes).
Proof.
  unfold from_piece_hashes. destruct hashes as [|a l]; [done|]. set (m := a :: l).
  assert (0 < length m) by (simpl; lia).
  apply merkle_loop_spec; [|done| |].
  - split; [done|]. destruct (decide (length m = 1)) as [->|]; [done|].
    apply Nat.log2_up_spec. lia.
  - intros ->. done.
  - intros e He. destruct (decide (length m = 1)) as [E1|]; [by rewrite E1 in He|].
    pose proof (Nat.log2_up_spec (length m)) as Hs. rewrite He in Hs. simpl Nat.pred in Hs. lia.
Qed.
End properties.

(** * Instances of the properties *)

Module BuilderExamples.
#[local] Instance toy_tree : Tree := {|
  tree_is_file p := bool_decide (p = "/data/a") || bool_decide (p = "/data/sub/b");
  tree_read_dir p := if bool_decide (p = "/data") then Some ["/data/a"; "/data/sub"]
                     else if bool_decide (p = "/data/sub") then Some ["/data/sub/b"] else None;
  tree_open p := if bool_decide (p = "/data/a") then Some [1; 2; 3]%Z
                 else if bool_decide (p = "/data/sub/b") then Some [4; 5; 6]%Z else None;
|}.

(** At most two bytes at a time. *)
Definition toy_read (_ : string) (off cap : nat) : nat := min 2 (min cap (3 - off)).

Lemma toy_reads p c : length c = 3 → reads toy_read p c.
Proof. intros Hc off cap. unfold toy_read. rewrite Hc. lia. Qed.

Definition builder : V1Builder :=
  builder_file 3 (builder_announce (V1Builder_new "demo" "/data" 16384) "udp://t") "/data".
Definition toy_entries : list FileEntry :=
  [mkFileEntry "/data/a" "a"; mkFileEntry "/data/sub/b" "sub/b"].
Definition toy_cs : list (list Z) := [[1; 2; 3]; [4; 5; 6]]%Z.

Lemma toy_opens : Forall2 (opens toy_read) toy_entries toy_cs.
Proof.
  constructor; [split; [reflexivity|by apply toy_reads]|].
  constructor; [split; [reflexivity|by apply toy_reads]|constructor].
Qed.

Lemma hasher_reference_witness :
  @finalize Toy.ToyCrypto _ toy_read toy_entries 4 =
    Ok (replicate 20 10%Z ++ replicate 20 11%Z,
        MultiFile [mkFile 3 ["a"] None; mkFile 3 ["sub"; "b"] None]).
Proof.
  rewrite (@hasher_reference Toy.ToyCrypto _ toy_read 4 toy_entries toy_cs);
    [vm_compute; reflexivity|lia|exact toy_opens].
Defined.

Definition toy_torrent : TorrentV1 :=
  match @build Toy.ToyCrypto _ toy_read MetainfoExamples.toy_encode 0 "v" builder with
  | Ok (V1 t) => t
  | _ => MetainfoExamples.torrent
  end.
Definition toy_world : World :=
  mkWorld ∅ (<[0 := [1; 2; 3]%Z]> (<[1 := [4; 5; 6]%Z]> ∅)).
Definition toy_handler : MultiFileHandler :=
  mkHandler [mkChunk 0 0 3; mkChunk 1 3 3] 16384 6.

Lemma toy_handler_ok : handler_ok toy_world toy_handler.
Proof.
  split; [vm_compute; done|reflexivity|vm_compute; done|vm_compute; done|].
  constructor; [by exists [1; 2; 3]%Z|constructor; [by exists [4; 5; 6]%Z|constructor]].
Qed.

Lemma built_torrent_verifies_witness :
  TorrentV1.v1_validate toy_torrent = Ok tt ∧
  ∃ d, @read_piece ChunksExamples.toy_os toy_world toy_handler 0 = Some (Ok d) ∧
       @TorrentV1.v1_verify_hash Toy.ToyCrypto toy_torrent 0 d = Ok tt.
Proof.
  assert (build (H := Toy.ToyCrypto) toy_read MetainfoExamples.toy_encode 0 "v" builder
          = Ok (V1 toy_torrent)) as Hb by (vm_compute; reflexivity).
  pose proof (@built_torrent_verifies Toy.ToyCrypto Toy.ToyCryptoLaws _ toy_read
    ChunksExamples.toy_os ChunksExamples.toy_full MetainfoExamples.toy_encode 0 "v" builder
    toy_torrent toy_cs toy_world toy_handler Hb) as Hv.
  destruct Hv as [Hvalid Hpieces];
    [|vm_compute; lia|vm_compute; done|exact toy_handler_ok|vm_compute; reflexivity|reflexivity|].
  - assert (entries_of builder = toy_entries) as -> by (vm_compute; reflexivity). exact toy_opens.
  - split; [exact Hvalid|]. apply (Hpieces 0). vm_compute. lia.
Defined.

Lemma merkle_root_reference_witness :
  @from_piece_hashes Toy.ToyCrypto [replicate 32 1%Z; replicate 32 2%Z; replicate 32 3%Z]
  = Some (replicate 32 0%Z).
Proof.
  rewrite (@merkle_root_reference Toy.ToyCrypto); [vm_compute; reflexivity|done].
Defined.
End BuilderExamples.
