(* ===== verification/Routing.v ===== *)
(** The Kademlia routing table: [src/bit_torrent/dht/key_id.rs], [node.rs],
    [k_bucket.rs], [route_table.rs], and the insertion loop [acknowledge] of
    [kademlia/mod.rs].

    The table is shared behind a lock that is released while a node is pinged,
    so its history is a sequence of the locked operations ([table_step]) of all
    the tasks. *)

From S2P Require Import Prelude Net Crypto.

(** * Keys and nodes *)

(** src/src/bit_torrent/dht/key_id.rs:6-6 [KEY_ID_LENGTH] *)
Definition KEY_ID_LENGTH : nat := 32.

(** src/src/bit_torrent/dht/key_id.rs:12-16 [Key]

    Equality is the derived one, on both fields; [Ord] looks at the id only. *)
Record Key := mkKey { key_id : list Z; key_pub : list Z }.

#[export] Instance Key_eq_dec : EqDecision Key.
Proof. solve_decision. Defined.
#[export] Instance Key_countable : Countable Key.
Proof.
  refine (inj_countable' (λ k, (key_id k, key_pub k)) (λ p, mkKey p.1 p.2) _). by intros [].
Defined.

(** src/src/bit_torrent/dht/node.rs:17-21 [Node] *)
Record Node := mkNode { node_id : Key; node_addr : SocketAddr }.

#[export] Instance Node_eq_dec : EqDecision Node.
Proof. solve_decision. Defined.

Section keys.
Context `{Crypto}.

(** src/src/bit_torrent/dht/key_id.rs:19-24 [Key::new] *)
Definition Key_new (pub_key : list Z) : Key := mkKey (Sha256Hash_digest pub_key) pub_key.

(** src/src/bit_torrent/dht/key_id.rs:62-72 [OrdDistance::distance]

    The result is built with [Key::new], so its id is the hash of the XOR. *)
Definition distance (self other : Key) : Key :=
  Key_new (zip_with Z.lxor (key_id self) (key_id other)).

(** src/src/bit_torrent/dht/key_id.rs:80-84 [Ord::cmp for Key] *)
Definition key_leb (a b : Key) : bool := lex_leb (key_id a) (key_id b).

(** [result[i / 8] ^= ..] and the like, on bit [i] counted from the left. *)
Definition update_bit (f : Z → Z → Z) (i : nat) (bytes : list Z) : list Z :=
  alter (λ b, f b (Z.shiftl 1 (7 - Z.of_nat (i mod 8)))) (i / 8) bytes.

(** src/src/bit_torrent/dht/key_id.rs:34-55 [Key::randomize]

    [rng] gives the random bit of a position. *)
Definition randomize (rng : nat → bool) (self : Key) (index : nat) : option Key :=
  if index / 8 <? length (key_id self) then
    let result := update_bit Z.lxor index (key_id self) in
    Some (Key_new (foldl (λ result i,
      update_bit (if rng i then Z.lor else Z.ldiff) i result)
      result (seq (index + 1) (256 - (index + 1)))))
  else None.

(** src/src/bit_torrent/dht/node.rs:46-51 [Node::from_socket] *)
Definition from_socket (key : Key) (socket : SocketAddr) : Node := mkNode key socket.

(** src/src/bit_torrent/dht/node.rs:79-81 [BootStrap::from_socket] *)
Definition bootstrap_from_socket (socket : SocketAddr) : Node :=
  from_socket (Key_new (replicate 32 0%Z)) socket.
End keys.

(** * Buckets *)

(** src/src/bit_torrent/dht/k_bucket.rs:5-10 [KBucket] *)
Record KBucket := mkBucket { nodes : list Node; bucket_size : nat; depth : nat }.

Definition same_id (n : Node) : Node → bool := λ m, bool_decide (node_id m = node_id n).

Module KBucket.
(** src/src/bit_torrent/dht/k_bucket.rs:13-19 [KBucket::new] *)
Definition bucket_new (bucket_size depth : nat) : KBucket := mkBucket [] bucket_size depth.

(** src/src/bit_torrent/dht/k_bucket.rs:21-23 [KBucket::contains] *)
Definition contains (self : KBucket) (key : Key) : bool :=
  existsb (λ n, bool_decide (node_id n = key)) (nodes self).

(** src/src/bit_torrent/dht/k_bucket.rs:25-27 [KBucket::is_full] *)
Definition is_full (self : KBucket) : bool := length (nodes self) =? bucket_size self.

(** src/src/bit_torrent/dht/k_bucket.rs:34-46 [KBucket::insert] *)
Definition insert (self : KBucket) (node : Node) : KBucket :=
  match position (same_id node) (nodes self) with
  | Some node_pos =>
    mkBucket (remove_at node_pos (nodes self) ++ [node]) (bucket_size self) (depth self)
  | None =>
    if bucket_size self <=? length (nodes self) then self
    else mkBucket (nodes self ++ [node]) (bucket_size self) (depth self)
  end.

(** src/src/bit_torrent/dht/k_bucket.rs:29-32 [KBucket::envict_and_insert] *)
Definition envict_and_insert (self : KBucket) (node : Node) : KBucket :=
  insert (mkBucket (tail (nodes self)) (bucket_size self) (depth self)) node.

(** src/src/bit_torrent/dht/k_bucket.rs:48-52 [KBucket::remove] *)
Definition remove (self : KBucket) (key : Key) : KBucket :=
  match position (λ n, bool_decide (node_id n = key)) (nodes self) with
  | Some pos => mkBucket (remove_at pos (nodes self)) (bucket_size self) (depth self)
  | None => self
  end.

(** src/src/bit_torrent/dht/k_bucket.rs:54-56 [KBucket::get_oldest_node] *)
Definition get_oldest_node (self : KBucket) : option Node := head (nodes self).

(** src/src/bit_torrent/dht/k_bucket.rs:75-84 [KBucket::get_bit] *)
Definition get_bit (id : Key) (bit_index : nat) : bool :=
  let byte_index := bit_index / 8 in
  let bit_offset := 7 - bit_index mod 8 in
  match key_id id !! byte_index with
  | None => false
  | Some b => (Z.land (Z.shiftr b (Z.of_nat bit_offset)) 1 =? 1)%Z
  end.

(** src/src/bit_torrent/dht/k_bucket.rs:58-73 [KBucket::split]

    The arguments of the two [KBucket::new] calls are in the source's order:
    the new depth is passed as the bucket size. *)
Definition split (self : KBucket) : KBucket * KBucket :=
  let next_depth := depth self + 1 in
  let left_bucket := bucket_new next_depth (bucket_size self) in
  let right_bucket := bucket_new next_depth (bucket_size self) in
  foldl (λ '(left_bucket, right_bucket) node,
    if get_bit (node_id node) (depth self) then (left_bucket, insert right_bucket node)
    else (insert left_bucket node, right_bucket)) (left_bucket, right_bucket) (nodes self).
End KBucket.

(** * The table *)

(** src/src/bit_torrent/dht/route_table.rs:3-3 [KBUCKET_MAX] *)
Definition KBUCKET_MAX : nat := 20.

(** src/src/bit_torrent/dht/route_table.rs:5-10 [InsertResult] *)
Inductive InsertResult :=
| RNone
| Inserted
| Split
| Ping (old new : Node).

(** src/src/bit_torrent/dht/route_table.rs:12-16 [RouteTable] *)
Record RouteTable := mkTable { host : Node; kbuckets : list KBucket }.

Module RouteTable.
(** src/src/bit_torrent/dht/route_table.rs:32-36 [RouteTable::gen_kbuckets] *)
Definition gen_kbuckets : list KBucket :=
  map (λ depth, KBucket.bucket_new KBUCKET_MAX depth) (seq 0 (KEY_ID_LENGTH * 8)).

(** src/src/bit_torrent/dht/route_table.rs:19-26 [RouteTable::new] *)
Definition table_new (host : Node) : RouteTable := mkTable host gen_kbuckets.

Section table.
Context `{Crypto}.

(** Bit [n] of a byte string, counted from the left; the loops of
    [get_bucket_index] visit [n = i * 8 + (7 - j)] in increasing order. *)
Definition bit_at (id : list Z) (n : nat) : bool :=
  negb (Z.land (Z.shiftr (nth (n / 8) id 0%Z) (7 - Z.of_nat (n mod 8))) 1 =? 0)%Z.

(** src/src/bit_torrent/dht/route_table.rs:38-50 [RouteTable::get_bucket_index] *)
Definition get_bucket_index (self : RouteTable) (key : Key) : nat :=
  let distance := distance (node_id (host self)) key in
  default (KEY_ID_LENGTH * 8 - 1)
    (List.find (bit_at (key_id distance)) (seq 0 (KEY_ID_LENGTH * 8))).

Definition set_bucket (self : RouteTable) (index : nat) (b : KBucket) : RouteTable :=
  mkTable (host self) (<[index := b]> (kbuckets self)).

(** src/src/bit_torrent/dht/route_table.rs:52-82 [RouteTable::try_insert] *)
Definition try_insert (self : RouteTable) (node : Node) : RouteTable * InsertResult :=
  let index := get_bucket_index self (node_id node) in
  match kbuckets self !! index with
  | None => (self, RNone)
  | Some kbucket =>
    if bool_decide (node_id node = node_id (host self)) then (self, RNone)
    else if negb (KBucket.is_full kbucket) then
      (set_bucket self index (KBucket.insert kbucket node), Inserted)
    else if KBucket.contains kbucket (node_id (host self)) then
      let '(left_b, right_b) := KBucket.split kbucket in
      let bs := <[index := left_b]> (kbuckets self) in
      (mkTable (host self) (take (index + 1) bs ++ [right_b] ++ drop (index + 1) bs), Split)
    else
      match KBucket.get_oldest_node kbucket with
      | None => (self, RNone)
      | Some oldest_node => (self, Ping oldest_node node)
      end
  end.

(** src/src/bit_torrent/dht/route_table.rs:84-92 [RouteTable::replace] *)
Definition replace (self : RouteTable) (node : Node) : RouteTable :=
  let index := get_bucket_index self (node_id node) in
  match kbuckets self !! index with
  | None => self
  | Some kbucket => set_bucket self index (KBucket.envict_and_insert kbucket node)
  end.

(** src/src/bit_torrent/dht/route_table.rs:94-102 [RouteTable::remove] *)
Definition table_remove (self : RouteTable) (node : Node) : RouteTable :=
  let kbucket_index := get_bucket_index self (node_id node) in
  match kbuckets self !! kbucket_index with
  | None => self
  | Some kbucket => set_bucket self kbucket_index (KBucket.remove kbucket (node_id node))
  end.

(** The nodes of all buckets other than the host. *)
Definition all_nodes (self : RouteTable) : list Node :=
  List.filter (λ node, negb (bool_decide (node_id node = node_id (host self))))
    (concat (map nodes (kbuckets self))).

(** src/src/bit_torrent/dht/route_table.rs:104-120 [RouteTable::get_closest_nodes] *)
Definition get_closest_nodes (self : RouteTable) (key : Key) (count : nat) : list Node :=
  let distances := map (λ node, (distance key (node_id node), node)) (all_nodes self) in
  map snd (take count (sort_by (λ a b, key_leb a.1 b.1) distances)).
End table.
End RouteTable.

Section acknowledge.
Context `{Crypto}.

(** src/src/bit_torrent/dht/kademlia/mod.rs:256-276 [Kademlia::acknowledge]

    [ping] answers the pings, by round and target; [None] is a loop that has
    not ended after [fuel] rounds. *)
Fixpoint acknowledge (fuel : nat) (ping : nat → Node → bool) (t : RouteTable) (node : Node)
    : option RouteTable :=
  match fuel with
  | O => None
  | S fuel =>
    match RouteTable.try_insert t node with
    | (t, RNone) => Some t
    | (t, Inserted) => Some t
    | (t, Split) => acknowledge fuel (λ n, ping (S n)) t node
    | (t, Ping old new) =>
      if ping 0 old then Some t
      else acknowledge fuel (λ n, ping (S n)) (RouteTable.replace t new) node
    end
  end.
End acknowledge.

(** * The invariant *)

(** A bucket of nodes whose keys satisfy [P]. *)
Record bucket_ok (P : Key → Prop) (b : KBucket) : Prop := {
  bk_size : bucket_size b = KBUCKET_MAX;
  bk_len : length (nodes b) ≤ KBUCKET_MAX;
  bk_nodup : NoDup (map node_id (nodes b));
  bk_keys : Forall (λ n, P (node_id n)) (nodes b);
}.

Section buckets.
Context (P : Key → Prop).
Implicit Types (b : KBucket) (n : Node).

Lemma same_id_true n m : same_id n m = true ↔ node_id m = node_id n.
Proof. unfold same_id. apply bool_decide_eq_true. Qed.

Lemma remove_at_sublist {A} i (l : list A) : remove_at i l `sublist_of` l.
Proof.
  unfold remove_at. rewrite <-(take_drop i l) at 3. apply sublist_app; [done|].
  replace (S i) with (i + 1) by lia. rewrite <-drop_drop. apply sublist_drop.
Qed.

Lemma length_remove_at {A} i (l : list A) : i < length l → length (remove_at i l) = length l - 1.
Proof. intros. unfold remove_at. lens. Qed.

Lemma bucket_ok_sublist b l : bucket_ok P b → l `sublist_of` nodes b →
  bucket_ok P (mkBucket l (bucket_size b) (depth b)).
Proof.
  intros [H1 H2 H3 H4] Hl. split; cbn; [done| | |].
  - apply sublist_length in Hl. lia.
  - eapply sublist_NoDup; [exact H3|]. clear -Hl. induction Hl; cbn; by constructor.
  - apply Forall_forall. intros n Hn. eapply Forall_forall in H4; [done|].
    by eapply elem_of_submseteq; [|apply sublist_submseteq].
Qed.

Lemma insert_absent_NoDup b n i :
  position (same_id n) (nodes b) = Some i → NoDup (map node_id (nodes b)) →
  node_id n ∉ map node_id (remove_at i (nodes b)).
Proof.
  intros (m & Hi & Hm%same_id_true & _)%position_Some Hnd.
  apply remove_at_Permutation in Hi. rewrite <-Hi in Hnd. cbn in Hnd.
  rewrite Hm in Hnd. by apply NoDup_cons in Hnd as [? _].
Qed.

Lemma bucket_insert_ok b n : P (node_id n) → bucket_ok P b → bucket_ok P (KBucket.insert b n).
Proof.
  intros Hp Hb. pose proof Hb as [H1 H2 H3 H4]. unfold KBucket.insert.
  destruct (position _ _) as [i|] eqn:E.
  - pose proof (insert_absent_NoDup _ _ _ E H3) as Hab.
    apply position_Some in E as (m & Hi & _). apply lookup_lt_Some in Hi.
    destruct (bucket_ok_sublist b (remove_at i (nodes b)) Hb (remove_at_sublist _ _))
      as [_ H6 H7 H8]. cbn in *.
    split; cbn; [done|rewrite length_app, length_remove_at by done; simpl; lia| |].
    + rewrite map_app. apply NoDup_app. split_and!; [done| |apply NoDup_singleton].
      intros k Hk ->%list_elem_of_singleton. done.
    + apply Forall_app. split; [done|by apply Forall_singleton].
  - destruct (Nat.leb_spec (bucket_size b) (length (nodes b))); [done|].
    split; cbn; [done|rewrite length_app; simpl; lia| |].
    + rewrite map_app. apply NoDup_app. split_and!; [done| |apply NoDup_singleton].
      intros k (m & -> & Hm)%list_elem_of_fmap Hk%list_elem_of_singleton.
      pose proof (proj1 (position_None _ _) E m Hm) as Hf. apply same_id_true in Hk. congruence.
    + apply Forall_app. split; [done|by apply Forall_singleton].
Qed.

Lemma evict_ok b n : P (node_id n) → bucket_ok P b → bucket_ok P (KBucket.envict_and_insert b n).
Proof.
  intros Hp Hb. apply bucket_insert_ok; [done|]. apply bucket_ok_sublist; [done|].
  destruct (nodes b); [done|]. by apply sublist_cons.
Qed.

Lemma remove_ok b k : bucket_ok P b → bucket_ok P (KBucket.remove b k).
Proof.
  intros Hb. unfold KBucket.remove. destruct (position _ _); [|done].
  apply bucket_ok_sublist; [done|apply remove_at_sublist].
Qed.

(** A bucket with room, or one that has the node, has it after [insert]; in
    the second case it does not grow. *)
Lemma insert_present b n :
  length (nodes b) < bucket_size b ∨ node_id n ∈ map node_id (nodes b) →
  n ∈ nodes (KBucket.insert b n).
Proof.
  intros Hb. unfold KBucket.insert. destruct (position _ _) as [i|] eqn:E; [cbn; set_solver|].
  destruct Hb as [Hb|(m & Hm & Hin)%list_elem_of_fmap].
  - rewrite (proj2 (Nat.leb_gt _ _)) by done. cbn. set_solver.
  - pose proof (proj1 (position_None _ _) E m Hin) as Hf. symmetry in Hm.
    apply same_id_true in Hm. congruence.
Qed.

Lemma insert_length_present b n : node_id n ∈ map node_id (nodes b) →
  length (nodes (KBucket.insert b n)) = length (nodes b).
Proof.
  intros (m & Hm & Hin)%list_elem_of_fmap. unfold KBucket.insert.
  destruct (position _ _) as [i|] eqn:E.
  - apply position_Some in E as (m' & Hi & _). apply lookup_lt_Some in Hi.
    cbn. rewrite length_app, length_remove_at by done. simpl. lia.
  - pose proof (proj1 (position_None _ _) E m Hin) as Hf. symmetry in Hm.
    apply same_id_true in Hm. congruence.
Qed.
End buckets.

Section invariant.
Context `{Crypto}.
Implicit Types (t : RouteTable) (n : Node).

Record table_ok t : Prop := {
  tb_count : length (kbuckets t) = KEY_ID_LENGTH * 8;
  tb_bucket i b : kbuckets t !! i = Some b →
    bucket_ok (λ k, k ≠ node_id (host t) ∧ RouteTable.get_bucket_index t k = i) b;
}.

Lemma get_bucket_index_lt t k : RouteTable.get_bucket_index t k < KEY_ID_LENGTH * 8.
Proof.
  unfold RouteTable.get_bucket_index. cbv zeta.
  destruct (List.find _ _) as [n|] eqn:E; cbn [default from_option id].
  - apply List.find_some in E as [Hn%in_seq _]. lia.
  - unfold KEY_ID_LENGTH. lia.
Qed.

Lemma bucket_exists t k : table_ok t →
  is_Some (kbuckets t !! RouteTable.get_bucket_index t k).
Proof. intros [Hc _]. apply lookup_lt_is_Some. rewrite Hc. apply get_bucket_index_lt. Qed.

Lemma set_bucket_ok t i b : table_ok t →
  bucket_ok (λ k, k ≠ node_id (host t) ∧ RouteTable.get_bucket_index t k = i) b →
  table_ok (RouteTable.set_bucket t i b).
Proof.
  intros [Hc Hb] Hnew. split; cbn; [by rewrite length_insert|].
  intros j b' Hj. change (RouteTable.get_bucket_index (RouteTable.set_bucket t i b))
    with (RouteTable.get_bucket_index t).
  apply list_lookup_insert_Some in Hj as [(-> & -> & _)|[_ Hj]]; [done|by apply Hb].
Qed.

Lemma table_new_ok h : table_ok (RouteTable.table_new h).
Proof.
  split; [reflexivity|].
  intros i b Hi. cbn [kbuckets RouteTable.table_new] in Hi. unfold RouteTable.gen_kbuckets in Hi.
  rewrite list_lookup_fmap in Hi. destruct (seq 0 _ !! i); [|done]. injection Hi as <-.
  split; cbn; [done|lia|constructor|constructor].
Qed.

(** The host is in no bucket, so no bucket is ever split. *)
Lemma host_absent t i b : table_ok t → kbuckets t !! i = Some b →
  KBucket.contains b (node_id (host t)) = false.
Proof.
  intros [_ Hb] Hi. destruct (Hb i b Hi) as [_ _ _ Hk]. unfold KBucket.contains.
  apply not_true_iff_false. intros (n & Hn & E%bool_decide_eq_true)%existsb_exists.
  apply list_elem_of_In in Hn. eapply Forall_forall in Hk; [|done]. by destruct Hk.
Qed.

(** What [try_insert] does on a good table. *)
Lemma try_insert_cases t n : table_ok t →
  (node_id n = node_id (host t) ∧ RouteTable.try_insert t n = (t, RNone)) ∨
  ∃ b, kbuckets t !! RouteTable.get_bucket_index t (node_id n) = Some b ∧
    node_id n ≠ node_id (host t) ∧
    ((length (nodes b) < KBUCKET_MAX ∧
      RouteTable.try_insert t n =
        (RouteTable.set_bucket t (RouteTable.get_bucket_index t (node_id n))
           (KBucket.insert b n), Inserted)) ∨
     (length (nodes b) = KBUCKET_MAX ∧
      ∃ old rest, nodes b = old :: rest ∧ RouteTable.try_insert t n = (t, Ping old n))).
Proof.
  intros Hok. unfold RouteTable.try_insert. cbv zeta.
  destruct (bucket_exists t (node_id n) Hok) as [b Hb]. rewrite Hb.
  case_bool_decide as Hh; [by left|]. right. exists b. split_and!; [done|done|].
  pose proof (tb_bucket t Hok _ _ Hb) as [Hsz Hlen _ _]. unfold KBucket.is_full. rewrite Hsz.
  destruct (Nat.eqb_spec (length (nodes b)) KBUCKET_MAX) as [E|E]; cbn [negb].
  - right. split; [done|]. rewrite (host_absent t _ b) by done.
    unfold KBucket.get_oldest_node. destruct (nodes b) as [|old rest]; [done|]. by exists old, rest.
  - left. split; [lia|done].
Qed.

Lemma try_insert_ok t n : table_ok t → table_ok (RouteTable.try_insert t n).1.
Proof.
  intros Hok. destruct (try_insert_cases t n Hok)
    as [[_ ->]|(b & Hb & Hh & [[_ ->]|(_ & old & rest & _ & ->)])]; [done| |done].
  cbn. apply set_bucket_ok; [done|]. apply bucket_insert_ok; [done|]. by apply Hok.
Qed.

Lemma replace_ok t n : node_id n ≠ node_id (host t) → table_ok t →
  table_ok (RouteTable.replace t n).
Proof.
  intros Hh Hok. unfold RouteTable.replace. destruct (kbuckets t !! _) as [b|] eqn:Hb; [|done].
  apply set_bucket_ok; [done|]. apply evict_ok; [done|]. by apply Hok.
Qed.

Lemma table_remove_ok t n : table_ok t → table_ok (RouteTable.table_remove t n).
Proof.
  intros Hok. unfold RouteTable.table_remove. destruct (kbuckets t !! _) as [b|] eqn:Hb; [|done].
  apply set_bucket_ok; [done|]. apply remove_ok. by apply Hok.
Qed.

(** The locked operations of the tasks that share the table.  A [replace] is
    only ever called with the new node of a [Ping] that [try_insert] returned
    earlier, possibly on an older table of the same host. *)
Inductive table_step : RouteTable → RouteTable → Prop :=
| step_insert t n : table_step t (RouteTable.try_insert t n).1
| step_replace t t0 n old : table_ok t0 → host t0 = host t →
    (RouteTable.try_insert t0 n).2 = Ping old n → table_step t (RouteTable.replace t n)
| step_remove t n : table_step t (RouteTable.table_remove t n).

Lemma ping_not_host t n old new : table_ok t →
  (RouteTable.try_insert t n).2 = Ping old new → new = n ∧ node_id n ≠ node_id (host t).
Proof.
  intros Hok. destruct (try_insert_cases t n Hok)
    as [[_ ->]|(b & _ & Hh & [[_ ->]|(_ & o & r & _ & ->)])]; [done|done|].
  cbn. intros [= <- <-]. done.
Qed.

Lemma table_step_ok t t' : table_step t t' → table_ok t → table_ok t'.
Proof.
  intros [t1 n|t1 t0 n old Hok0 Eh Hp|t1 n] Hok.
  - by apply try_insert_ok.
  - apply replace_ok; [|done]. rewrite <-Eh. by apply (ping_not_host t0 n old n).
  - by apply table_remove_ok.
Qed.
End invariant.

(** ** Termination of [acknowledge] *)

Section acknowledge_lemmas.
Context `{Crypto}.
Implicit Types (t : RouteTable) (n : Node).

Lemma length_tl {A} (l : list A) : length (tail l) = length l - 1.
Proof. destruct l; simpl; lia. Qed.

Definition bucket_of t n : KBucket :=
  default (KBucket.bucket_new 0 0) (kbuckets t !! RouteTable.get_bucket_index t (node_id n)).

Lemma bucket_of_lookup t n : table_ok t →
  kbuckets t !! RouteTable.get_bucket_index t (node_id n) = Some (bucket_of t n).
Proof. intros Hok. unfold bucket_of. by destruct (bucket_exists t (node_id n) Hok) as [b ->]. Qed.

Lemma bucket_of_set t n b : table_ok t →
  bucket_of (RouteTable.set_bucket t (RouteTable.get_bucket_index t (node_id n)) b) n = b.
Proof.
  intros Hok. unfold bucket_of. cbn.
  change (RouteTable.get_bucket_index (RouteTable.set_bucket t _ b))
    with (RouteTable.get_bucket_index t).
  rewrite list_lookup_insert_eq; [done|]. rewrite (tb_count t Hok). apply get_bucket_index_lt.
Qed.

Lemma bucket_of_replace t n : table_ok t →
  bucket_of (RouteTable.replace t n) n = KBucket.envict_and_insert (bucket_of t n) n.
Proof.
  intros Hok. unfold RouteTable.replace. cbv zeta. rewrite bucket_of_lookup by done.
  by apply bucket_of_set.
Qed.

(** The node is stored, with the address given. *)
Definition stored t n : Prop := n ∈ nodes (bucket_of t n).

(** After a failed ping the node has taken a place. *)
Lemma replace_stored t n : table_ok t → node_id n ≠ node_id (host t) →
  length (nodes (bucket_of t n)) = KBUCKET_MAX → stored (RouteTable.replace t n) n.
Proof.
  intros Hok Hh Hlen. unfold stored. rewrite bucket_of_replace by done.
  apply insert_present. left. cbn.
  rewrite (bk_size _ _ (tb_bucket t Hok _ _ (bucket_of_lookup t n Hok))), length_tl.
  unfold KBUCKET_MAX in *. lia.
Qed.

(** A second failed ping, with the node already in place, makes room. *)
Lemma replace_again t n : table_ok t → stored t n →
  length (nodes (bucket_of t n)) = KBUCKET_MAX → head (nodes (bucket_of t n)) ≠ Some n →
  length (nodes (bucket_of (RouteTable.replace t n) n)) < KBUCKET_MAX.
Proof.
  intros Hok Hst Hlen Hhd. rewrite bucket_of_replace by done.
  unfold KBucket.envict_and_insert. rewrite insert_length_present; cbn.
  - rewrite length_tl. unfold KBUCKET_MAX in *. lia.
  - unfold stored in Hst. destruct (nodes (bucket_of t n)) as [|m l]; [by apply elem_of_nil in Hst|].
    apply list_elem_of_fmap. exists n. split; [done|]. cbn.
    apply elem_of_cons in Hst as [->|]; [|done]. by cbn in Hhd.
Qed.

Lemma insert_last b n : n ∈ nodes (KBucket.insert b n) →
  NoDup (map node_id (nodes (KBucket.insert b n))) → 1 < length (nodes (KBucket.insert b n)) →
  (length (nodes b) < bucket_size b ∨ node_id n ∈ map node_id (nodes b)) →
  head (nodes (KBucket.insert b n)) ≠ Some n.
Proof.
  intros _ Hnd Hlen Hcase.
  assert (∃ l, nodes (KBucket.insert b n) = l ++ [n]) as [l El].
  { unfold KBucket.insert in *. destruct (position _ _) as [i|] eqn:E; [by eexists|].
    destruct Hcase as [Hb|(m & Hm & Hin)%list_elem_of_fmap].
    - rewrite (proj2 (Nat.leb_gt _ _)) by done. by eexists.
    - pose proof (proj1 (position_None _ _) E m Hin) as Hf. symmetry in Hm.
      apply same_id_true in Hm. congruence. }
  rewrite El in *. destruct l as [|m l]; [simpl in Hlen; lia|].
  cbn. intros [= ->]. rewrite map_app in Hnd. apply NoDup_app in Hnd as (_ & Hd & _).
  apply (Hd (node_id n)); cbn; set_solver.
Qed.

Lemma replace_not_first t n : table_ok t → node_id n ≠ node_id (host t) →
  length (nodes (bucket_of t n)) = KBUCKET_MAX →
  length (nodes (bucket_of (RouteTable.replace t n) n)) = KBUCKET_MAX →
  head (nodes (bucket_of (RouteTable.replace t n) n)) ≠ Some n.
Proof.
  intros Hok Hh Hlen Hlen'. pose proof (replace_ok t n Hh Hok) as Hok'.
  pose proof (tb_bucket _ Hok' _ _ (bucket_of_lookup _ n Hok')) as [_ _ Hnd _].
  pose proof (bk_size _ _ (tb_bucket t Hok _ _ (bucket_of_lookup t n Hok))) as Hsz.
  rewrite bucket_of_replace in * by done. unfold KBucket.envict_and_insert in *.
  assert (length (tail (nodes (bucket_of t n))) < bucket_size (bucket_of t n)) as Hroom.
  { rewrite Hsz, length_tl. unfold KBUCKET_MAX in *. lia. }
  apply insert_last; [apply insert_present; by left|done|rewrite Hlen'; unfold KBUCKET_MAX; lia|by left].
Qed.

(** One round: the loop ends, or the oldest node did not answer. *)
Lemma ack_round fuel ping t n : table_ok t →
  (∃ t', acknowledge (S fuel) ping t n = Some t' ∧ table_ok t' ∧
     (node_id n = node_id (host t) ∨ stored t' n ∨ ∃ old, ping 0 old = true)) ∨
  (node_id n ≠ node_id (host t) ∧ length (nodes (bucket_of t n)) = KBUCKET_MAX ∧
   acknowledge (S fuel) ping t n =
     acknowledge fuel (λ i, ping (S i)) (RouteTable.replace t n) n).
Proof.
  intros Hok. cbn [acknowledge]. pose proof (try_insert_ok t n Hok) as Hok'.
  destruct (try_insert_cases t n Hok) as [[Hh E]|(b & Hb & Hh & [[Hl E]|(Hl & o & r & Hr & E)])];
    rewrite E in *; cbn in Hok'.
  - left. eauto.
  - left. eexists. split_and!; [done|done|]. right. left. unfold stored.
    rewrite bucket_of_set by done. apply insert_present. left.
    by rewrite (bk_size _ _ (tb_bucket t Hok _ _ Hb)).
  - destruct (ping 0 o) eqn:Ep; [left; eauto 7|]. right. split_and!; [done| |done].
    unfold bucket_of. by rewrite Hb.
Qed.
End acknowledge_lemmas.

(** * Properties *)

Section properties.
Context `{Crypto}.

(** Whatever sequence of insertions, replacements and removals the tasks of
    the DHT perform, starting from a new table: there are 256 buckets of at
    most 20 nodes with distinct keys, every node is in the bucket of its own
    key, the host is nowhere, and no insertion ever splits a bucket. *)
Theorem routing_invariant (h : Node) (t : RouteTable) (n : Node)
    (Hreach : rtc table_step (RouteTable.table_new h) t) :
  length (kbuckets t) = 256 ∧
  (∀ i b, kbuckets t !! i = Some b →
     length (nodes b) ≤ 20 ∧ NoDup (map node_id (nodes b)) ∧
     ∀ m, m ∈ nodes b → node_id m ≠ node_id (host t) ∧
                        RouteTable.get_bucket_index t (node_id m) = i) ∧
  (RouteTable.try_insert t n).2 ≠ Split.
Proof.
  assert (table_ok t) as Hok.
  { revert Hreach. generalize (table_new_ok h). generalize (RouteTable.table_new h).
    intros t0 Hok0 Hr. induction Hr as [|t1 t2 t3 Hs _ IH]; [done|].
    apply IH. by eapply table_step_ok. }
  split_and!; [apply Hok| |].
  - intros i b Hb. destruct (tb_bucket t Hok i b Hb) as [_ Hl Hnd Hk].
    split_and!; [exact Hl|exact Hnd|]. intros m Hm. by eapply Forall_forall in Hk.
  - destruct (try_insert_cases t n Hok)
      as [[_ ->]|(b & _ & _ & [[_ ->]|(_ & o & r & _ & ->)])]; done.
Qed.

Lemma acknowledge_ends (ping : nat → Node → bool) (t : RouteTable) (n : Node)
    (Hok : table_ok t) :
  ∃ t', acknowledge 3 ping t n = Some t' ∧ table_ok t' ∧
    (node_id n = node_id (host t) ∨ stored t' n ∨ ∃ i old, ping i old = true).
Proof.
  destruct (ack_round 2 ping t n Hok) as [(t' & E & Ht & Hc)|(Hh & Hl & E)];
    [exists t'; naive_solver|rewrite E].
  pose proof (replace_ok t n Hh Hok) as Hok1. pose proof (replace_stored t n Hok Hh Hl) as Hst1.
  set (t1 := RouteTable.replace t n) in *.
  assert (node_id (host t1) = node_id (host t)) as Eh1.
  { unfold t1, RouteTable.replace. by destruct (kbuckets t !! _). }
  destruct (ack_round 1 (λ i, ping (S i)) t1 n Hok1) as [(t' & E1 & Ht & Hc)|(Hh1 & Hl1 & E1)];
    [exists t'; rewrite E1; rewrite Eh1 in Hc; naive_solver|rewrite E1].
  pose proof (replace_ok t1 n Hh1 Hok1) as Hok2.
  pose proof (replace_again t1 n Hok1 Hst1 Hl1 (replace_not_first t n Hok Hh Hl Hl1)) as Hroom.
  destruct (ack_round 0 (λ i, ping (S (S i))) _ n Hok2) as [(t' & E2 & Ht & Hc)|(_ & Hl2 & _)];
    [|lia].
  exists t'. rewrite E2. split_and!; [done|done|]. destruct Hc as [Hc|[Hc|[o Hc]]]; [|by right; left|].
  - left. rewrite Hc, <-Eh1. unfold RouteTable.replace. by destruct (kbuckets t1 !! _).
  - right. right. by exists 2, o.
Qed.

(** The insertion loop ends after at most three rounds whatever the pinged
    nodes answer, keeps the table's invariant, and ends with the node stored,
    unless it is the host itself or an older node of the full bucket is still
    alive. *)
Theorem acknowledge_terminates (ping : nat → Node → bool) (t : RouteTable) (n : Node)
    (Hok : table_ok t) :
  ∃ t', acknowledge 3 ping t n = Some t' ∧ table_ok t' ∧
    (node_id n = node_id (host t) ∨ stored t' n ∨ ∃ i old, ping i old = true).
Proof. by apply acknowledge_ends. Qed.

Lemma buckets_NoDup (idx : Key → nat) k bs :
  (∀ i b, bs !! i = Some b →
     NoDup (map node_id (nodes b)) ∧ ∀ m, m ∈ nodes b → idx (node_id m) = k + i) →
  NoDup (map node_id (concat (map nodes bs))).
Proof.
  revert k. induction bs as [|b bs IH]; intros k Hb; [constructor|].
  cbn [map concat]. rewrite map_app. apply NoDup_app. destruct (Hb 0 b eq_refl) as [Hnd Hi].
  split_and!; [done| |].
  - intros x (m & -> & Hm)%list_elem_of_fmap (m' & Hx & Hm')%list_elem_of_fmap.
    apply list_elem_of_In, in_concat in Hm' as (l & Hl & Hm').
    apply in_map_iff in Hl as (b' & <- & Hb').
    apply list_elem_of_In, list_elem_of_lookup in Hb' as [j Hj].
    destruct (Hb (S j) b' Hj) as [_ Hi']. apply list_elem_of_In in Hm'.
    specialize (Hi m Hm). specialize (Hi' m' Hm'). rewrite Hx in Hi. lia.
  - apply (IH (S k)). intros i b' Hj. destruct (Hb (S i) b' Hj) as [? Hi'].
    split; [done|]. intros m Hm. rewrite Hi' by done. lia.
Qed.

Lemma map_filterb_sublist {A B} (g : A → B) (f : A → bool) l :
  map g (List.filter f l) `sublist_of` map g l.
Proof.
  induction l as [|x l IH]; cbn; [constructor|]. by destruct (f x); constructor.
Qed.

Lemma all_nodes_NoDup t : table_ok t → NoDup (map node_id (RouteTable.all_nodes t)).
Proof.
  intros Hok. eapply sublist_NoDup; [|apply map_filterb_sublist].
  apply (buckets_NoDup (RouteTable.get_bucket_index t) 0). intros i b Hb.
  destruct (tb_bucket t Hok i b Hb) as [_ _ Hnd Hk]. split; [exact Hnd|].
  intros m Hm. by eapply Forall_forall in Hk as [_ Hk].
Qed.

Lemma closest_nodes_split t key count :
  ∃ rest, RouteTable.get_closest_nodes t key count ++ rest ≡ₚ RouteTable.all_nodes t.
Proof.
  unfold RouteTable.get_closest_nodes. cbv zeta.
  match goal with |- context [sort_by ?leb ?l] => exists (map snd (drop count (sort_by leb l))) end.
  rewrite <-map_app, take_drop, sort_by_Permutation, map_map. by rewrite map_id.
Qed.

(** C36: The closest nodes are what they claim: [count] nodes of the table or all
    of them if there are fewer, in order of distance, and every node
    of the table that is left out is at least as far from the key as every
    node returned. *)
Theorem closest_nodes_correct (t : RouteTable) (key : Key) (count : nat) :
  let near m m' := key_leb (distance key (node_id m)) (distance key (node_id m')) = true in
  let result := RouteTable.get_closest_nodes t key count in
  ∃ rest, result ++ rest ≡ₚ RouteTable.all_nodes t ∧
    length result = min count (length (RouteTable.all_nodes t)) ∧
    StronglySorted near result ∧
    ∀ m m', m ∈ result → m' ∈ rest → near m m'.
Proof.
  cbv zeta. unfold RouteTable.get_closest_nodes. cbv zeta.
  set (f := λ node, (distance key (node_id node), node)).
  set (leb := λ a b : Key * Node, key_leb a.1 b.1).
  set (l := RouteTable.all_nodes t). set (s := sort_by leb (map f l)).
  assert (StronglySorted (λ a b, leb a b = true) s) as Hs.
  { apply sort_by_StronglySorted; intros; [apply lex_leb_total|by eapply lex_leb_trans]. }
  assert (Forall (λ p, p = f p.2) s) as Hf.
  { unfold s. rewrite sort_by_Permutation. by apply Forall_map, Forall_true. }
  assert (map snd s ≡ₚ l) as Hp.
  { unfold s. rewrite sort_by_Permutation, map_map. by rewrite map_id. }
  exists (map snd (drop count s)). rewrite <-map_app, take_drop. split_and!; [done| | |].
  - rewrite length_map, length_take, <-Hp, length_map. done.
  - rewrite <-(take_drop count s) in Hs. apply StronglySorted_app in Hs as (_ & Hs & _).
    assert (Forall (λ p, p = f p.2) (take count s)) as Hf' by by apply Forall_take.
    clear -Hs Hf'. revert Hf'. induction Hs as [|a l' _ IH Ha]; intros Hf'; cbn; [constructor|].
    apply Forall_cons in Hf' as [Ea Hf']. constructor; [by apply IH|].
    apply Forall_map. apply Forall_forall. intros b Hb.
    pose proof (proj1 (Forall_forall _ _) Ha b Hb) as Hab.
    pose proof (proj1 (Forall_forall _ _) Hf' b Hb) as Eb.
    unfold leb in Hab. rewrite Ea, Eb in Hab. done.
  - intros m m' (a & -> & Ha)%list_elem_of_fmap (b & -> & Hb)%list_elem_of_fmap.
    rewrite <-(take_drop count s) in Hs. apply StronglySorted_app in Hs as (Hab & _ & _).
    specialize (Hab a b Ha Hb). unfold leb in Hab.
    rewrite Forall_forall in Hf. rewrite (Hf a), (Hf b) in Hab; [done| |];
      rewrite <-(take_drop count s); apply elem_of_app; auto.
Qed.
End properties.

(** * Instances of the properties *)

Module RoutingExamples.
#[local] Existing Instance Toy.ToyCrypto.
Definition node (i : Z) : Node := mkNode (Key_new [(8 * i)%Z]) (SocketV4 (3232235520 + i) 6881).
Definition home : Node := node 0.
(** Under the toy hash they all fall in the last bucket. *)
Definition crowd : list Node := map (λ i, node (Z.of_nat i)) (seq 1 21).
Definition full_table : RouteTable :=
  foldl (λ t n, (RouteTable.try_insert t n).1) (RouteTable.table_new home) (take 20 crowd).

Lemma full_table_reachable : rtc table_step (RouteTable.table_new home) full_table.
Proof.
  unfold full_table. generalize (RouteTable.table_new home).
  induction (take 20 crowd) as [|n l IH]; intros t; [apply rtc_refl|].
  cbn. eapply rtc_l; [apply (step_insert t n)|apply IH].
Qed.

Lemma routing_invariant_witness :
  length (kbuckets full_table) = 256 ∧ (RouteTable.try_insert full_table (node 21)).2 ≠ Split.
Proof.
  destruct (routing_invariant home full_table (node 21) full_table_reachable) as (Hc & _ & Hs).
  split; [exact Hc|exact Hs].
Defined.

Lemma full_table_ok : table_ok full_table.
Proof.
  pose proof full_table_reachable as Hr. revert Hr. generalize (table_new_ok home).
  generalize (RouteTable.table_new home). intros t0 H0 Hr.
  induction Hr as [|t1 t2 t3 Hs _ IH]; [done|]. apply IH. by eapply table_step_ok.
Qed.

Lemma acknowledge_terminates_witness :
  length (nodes (bucket_of full_table (node 21))) = 20 ∧
  ∃ t', acknowledge 3 (λ _ _, false) full_table (node 21) = Some t' ∧ stored t' (node 21).
Proof.
  split; [vm_compute; reflexivity|].
  destruct (acknowledge_terminates (λ _ _, false) full_table (node 21) full_table_ok)
    as (t' & E & _ & [Hh|[Hs|(i & o & Hp)]]).
  - vm_compute in Hh. discriminate Hh.
  - exists t'. split; [exact E|exact Hs].
  - discriminate Hp.
Defined.
End RoutingExamples.
