(* ===== verification/Store.v ===== *)
(** The value store of a DHT node: [src/bit_torrent/dht/store.rs] and the data
    it holds ([KademliaData] of [dht/message.rs]).

    An [IndexMap] is an association list in its iteration order.  Operations
    that read the clock take the time, in seconds, as an argument. *)

From S2P Require Import Prelude Net Crypto Routing.

(** src/src/bit_torrent/dht/message.rs:58-63 [KademliaData] *)
Inductive KademliaData :=
| Peers (peers : gset SocketAddr)
| I2Peers (peers : gset string)
| Value (value : list Z).

(** src/src/bit_torrent/dht/message.rs:65-74 [KademliaData::merge] *)
Definition merge (self other : KademliaData) : KademliaData :=
  match self, other with
  | Peers existing, Peers new => Peers (existing ∪ new)
  | _, new => new
  end.

(** src/src/bit_torrent/dht/store.rs:13-13 [MAX_STORE_ENTRIES] *)
Definition MAX_STORE_ENTRIES : nat := 10000.
(** src/src/bit_torrent/dht/store.rs:14-14 [DEFAULT_TTL] *)
Definition DEFAULT_TTL : Z := 35 * 60.

(** src/src/bit_torrent/dht/store.rs:16-20 [StoreValue] *)
Record StoreValue := mkValue { sv_data : KademliaData; expires_at : Z }.

(** src/src/bit_torrent/dht/store.rs:22-25 [DHTStore] *)
Record DHTStore := mkStore { store : list (Key * StoreValue); max_entries : nat }.

(** [IndexMap::get] and [IndexMap::shift_remove]. *)
Definition im_get (m : list (Key * StoreValue)) (key : Key) : option StoreValue :=
  snd <$> List.find (λ '(k, _), bool_decide (k = key)) m.
Definition im_shift_remove (m : list (Key * StoreValue)) (key : Key) : list (Key * StoreValue) :=
  List.filter (λ '(k, _), negb (bool_decide (k = key))) m.

Module DHTStore.
(** src/src/bit_torrent/dht/store.rs:28-33 [DHTStore::new] *)
Definition store_new : DHTStore := mkStore [] MAX_STORE_ENTRIES.

(** src/src/bit_torrent/dht/store.rs:35-60 [DHTStore::insert] *)
Definition store_insert (now : Z) (self : DHTStore) (key : Key) (value : KademliaData) : DHTStore :=
  let expiry := u64 (now + DEFAULT_TTL) in
  match im_get (store self) key with
  | Some entry =>
    let entry_owned := mkValue (merge (sv_data entry) value) expiry in
    mkStore (im_shift_remove (store self) key ++ [(key, entry_owned)]) (max_entries self)
  | None =>
    let kept := if max_entries self <=? length (store self) then tail (store self)
                else store self in
    mkStore (kept ++ [(key, mkValue value expiry)]) (max_entries self)
  end.

(** src/src/bit_torrent/dht/store.rs:62-65 [DHTStore::prune] *)
Definition prune (now : Z) (self : DHTStore) : DHTStore :=
  mkStore (List.filter (λ '(_, entry), (now <? expires_at entry)%Z) (store self))
    (max_entries self).

(** src/src/bit_torrent/dht/store.rs:67-77 [DHTStore::get] *)
Definition store_get (now : Z) (self : DHTStore) (key : Key) : option KademliaData :=
  entry ← im_get (store self) key;
  if (expires_at entry <? now)%Z then None else Some (sv_data entry).
End DHTStore.

(** * The invariant *)

(** At time [now]: distinct keys, at most [max_entries] of them, in order of
    expiry, none expiring later than a fresh entry. *)
Record store_ok (now : Z) (s : DHTStore) : Prop := {
  st_nodup : NoDup (map fst (store s));
  st_bound : length (store s) ≤ max_entries s;
  st_sorted : StronglySorted (λ a b, expires_at a.2 ≤ expires_at b.2)%Z (store s);
  st_fresh : Forall (λ e, expires_at e.2 ≤ now + DEFAULT_TTL)%Z (store s);
}.

Implicit Types (s : DHTStore) (k : Key) (m : list (Key * StoreValue)).

Lemma StronglySorted_filterb {A} (R : A → A → Prop) (f : A → bool) l :
  StronglySorted R l → StronglySorted R (List.filter f l).
Proof.
  induction 1 as [|x l Hl IH Hx]; cbn; [constructor|]. destruct (f x); [|done].
  constructor; [done|]. apply Forall_forall. intros y [Hy _]%elem_of_filterb.
  by eapply Forall_forall in Hx.
Qed.

Lemma filterb_keys f m : NoDup (map fst m) → NoDup (map fst (List.filter f m)).
Proof.
  induction m as [|[k v] m IH]; cbn; [done|]. intros [Hk Hm]%NoDup_cons.
  destruct (f (k, v)); cbn; [|by apply IH]. constructor; [|by apply IH].
  intros (e & -> & [He _]%elem_of_filterb)%list_elem_of_fmap.
  apply Hk, list_elem_of_fmap. eauto.
Qed.

Lemma filterb_length {A} (f : A → bool) l : length (List.filter f l) ≤ length l.
Proof. induction l as [|x l IH]; cbn; [done|]. destruct (f x); cbn; lia. Qed.

Lemma filter_ok now s f : store_ok now s →
  store_ok now (mkStore (List.filter f (store s)) (max_entries s)).
Proof.
  intros [H1 H2 H3 H4]. split; cbn.
  - by apply filterb_keys.
  - pose proof (filterb_length f (store s)). lia.
  - by apply StronglySorted_filterb.
  - apply Forall_forall. intros e [He _]%elem_of_filterb. by eapply Forall_forall in H4.
Qed.

Lemma im_get_None m k : im_get m k = None → k ∉ map fst m.
Proof.
  unfold im_get. destruct (List.find _ m) as [[k' v]|] eqn:E; [done|]. intros _ (e & -> & He)%list_elem_of_fmap.
  apply list_elem_of_In in He. pose proof (List.find_none _ _ E e He) as Hf.
  destruct e as [k' v]. cbn in Hf. by rewrite bool_decide_eq_true_2 in Hf.
Qed.

Lemma shift_remove_keys m k : k ∉ map fst (im_shift_remove m k).
Proof.
  intros ([k' v] & -> & [_ He]%elem_of_filterb)%list_elem_of_fmap. cbn in He.
  by rewrite bool_decide_eq_true_2 in He.
Qed.

(** Appending a fresh entry under a new key. *)
Lemma append_ok now s k e : store_ok now s → k ∉ map fst (store s) →
  length (store s) < max_entries s → expires_at e = (now + DEFAULT_TTL)%Z →
  store_ok now (mkStore (store s ++ [(k, e)]) (max_entries s)).
Proof.
  intros [H1 H2 H3 H4] Hk Hlen He. split; cbn.
  - rewrite map_app. apply NoDup_app. split_and!; [done| |apply NoDup_singleton].
    intros k' Hk' ->%list_elem_of_singleton. done.
  - rewrite length_app. simpl. lia.
  - apply StronglySorted_app_2; [|done|repeat constructor].
    intros x y Hx ->%list_elem_of_singleton. cbn. rewrite He. by eapply Forall_forall in H4.
  - apply Forall_app. split; [done|]. apply Forall_singleton. cbn. lia.
Qed.

Lemma store_ok_later now now' s : (now ≤ now')%Z → store_ok now s → store_ok now' s.
Proof.
  intros Hle [H1 H2 H3 H4]. split; [done|done|done|].
  eapply Forall_impl; [exact H4|]. cbn. lia.
Qed.

Lemma tail_filter m : NoDup (map fst m) →
  ∃ f, tail m = List.filter f m.
Proof.
  destruct m as [|[k v] m]; intros Hnd; [by exists (λ _, true)|].
  exists (λ e, negb (bool_decide (e.1 = k))). cbn. rewrite bool_decide_eq_true_2 by done. cbn.
  apply NoDup_cons in Hnd as [Hk _]. symmetry.
  rewrite (filter_ext_elem _ (λ _, true)); [clear; induction m as [|x m IH]; cbn; [done|by rewrite IH]|].
  intros [k' v'] Hin. cbn. rewrite bool_decide_eq_false_2; [done|]. intros ->.
  apply Hk, list_elem_of_fmap. by exists (k, v').
Qed.

Lemma remove_shorter m k e : im_get m k = Some e → length (im_shift_remove m k) < length m.
Proof.
  unfold im_get, im_shift_remove. induction m as [|[k' v] m IH]; cbn; [done|].
  case_bool_decide; cbn; [|intros; apply le_n_S, IH; done].
  intros _. pose proof (filterb_length (λ '(k0, _), negb (bool_decide (k0 = k))) m). lia.
Qed.

Lemma store_insert_ok now s k v : (0 ≤ now ∧ now + DEFAULT_TTL < 2 ^ 64)%Z → 0 < max_entries s →
  store_ok now s → store_ok now (DHTStore.store_insert now s k v).
Proof.
  intros Hnow Hmax Hok. unfold DHTStore.store_insert. cbv zeta.
  unfold DEFAULT_TTL in *. rewrite wrap_small by lia.
  destruct (im_get (store s) k) as [e|] eqn:E.
  - apply (append_ok now (mkStore (im_shift_remove (store s) k) (max_entries s)));
      [by apply filter_ok|apply shift_remove_keys| |done].
    pose proof (remove_shorter _ _ _ E). pose proof (st_bound _ _ Hok). cbn. lia.
  - destruct (Nat.leb_spec (max_entries s) (length (store s))).
    + destruct (tail_filter (store s) (st_nodup _ _ Hok)) as [f Hf].
      apply (append_ok now (mkStore (tail (store s)) (max_entries s))); [| | |done].
      * rewrite Hf. by apply filter_ok.
      * cbn. intros Hin. apply (im_get_None _ _ E).
        destruct (store s); [done|]. cbn in *. by right.
      * cbn. pose proof (st_bound _ _ Hok). destruct (store s); simpl in *; lia.
    + by apply append_ok; [|apply im_get_None| |].
Qed.

(** ** Look-ups *)

Lemma im_get_app_same m k e : k ∉ map fst m → im_get (m ++ [(k, e)]) k = Some e.
Proof.
  unfold im_get. induction m as [|[k' v] m IH]; cbn; intros Hk.
  - by rewrite bool_decide_eq_true_2.
  - rewrite bool_decide_eq_false_2 by set_solver. apply IH. set_solver.
Qed.

Lemma im_get_app_other m k k' e : k ≠ k' → im_get (m ++ [(k, e)]) k' = im_get m k'.
Proof.
  intros Hk. unfold im_get. induction m as [|[k0 v] m IH]; cbn.
  - by rewrite bool_decide_eq_false_2.
  - case_bool_decide; [done|apply IH].
Qed.

Lemma im_get_remove_other m k k' : k ≠ k' → im_get (im_shift_remove m k) k' = im_get m k'.
Proof.
  intros Hk. unfold im_get, im_shift_remove. induction m as [|[k0 v] m IH]; cbn; [done|].
  case_bool_decide as E; cbn.
  - subst k0. rewrite bool_decide_eq_false_2 by done. apply IH.
  - case_bool_decide; [done|apply IH].
Qed.

Lemma im_get_tail m k : NoDup (map fst m) → (fst <$> head m) ≠ Some k →
  im_get (tail m) k = im_get m k.
Proof.
  destruct m as [|[k0 v] m]; intros _ Hhd; [done|]. cbn in *. unfold im_get. cbn.
  rewrite bool_decide_eq_false_2; [done|congruence].
Qed.

(** The histories of a store: insertions and prunings at non-decreasing times. *)
Inductive store_run : Z → DHTStore → Prop :=
| run_new now : (0 ≤ now)%Z → store_run now DHTStore.store_new
| run_insert now now' s k v : store_run now s → (now ≤ now' ∧ now' + DEFAULT_TTL < 2 ^ 64)%Z →
    store_run now' (DHTStore.store_insert now' s k v)
| run_prune now now' s : store_run now s → (now ≤ now')%Z → store_run now' (DHTStore.prune now' s).

Lemma store_run_ok now s : store_run now s →
  (0 ≤ now)%Z ∧ max_entries s = MAX_STORE_ENTRIES ∧ store_ok now s.
Proof.
  induction 1 as [now Hn|now now' s k v _ (Hn & Hm & Hok) Hle|now now' s _ (Hn & Hm & Hok) Hle].
  - split_and!; [done|done|]. split; cbn [store DHTStore.store_new max_entries map length];
      [constructor|apply Nat.le_0_l|constructor|constructor].
  - split_and!; [lia| |].
    + unfold DHTStore.store_insert. cbv zeta. rewrite <-Hm. by destruct (im_get _ _).
    + apply store_insert_ok; [lia|rewrite Hm; by apply Nat.ltb_lt|].
      eapply store_ok_later; [|exact Hok]. lia.
  - split_and!; [lia|done|]. apply filter_ok. by eapply store_ok_later; [|exact Hok].
Qed.

(** * Properties *)

(** However insertions and prunings follow one another as time passes, the
    store holds at most 10000 entries under distinct keys, oldest expiry first
    (so a full store evicts the entry that expires first), and after a pruning
    no entry has expired. *)
Theorem store_bounded (now : Z) (s : DHTStore) (Hrun : store_run now s) :
  length (store s) ≤ 10000 ∧ NoDup (map fst (store s)) ∧
  StronglySorted (λ a b, expires_at a.2 ≤ expires_at b.2)%Z (store s) ∧
  ∀ e, e ∈ store (DHTStore.prune now s) → (now < expires_at e.2)%Z.
Proof.
  destruct (store_run_ok now s Hrun) as (_ & Hm & [H1 H2 H3 _]).
  split_and!; [|done|done|].
  - rewrite Hm in H2. exact H2.
  - intros [k e] [_ He]%elem_of_filterb. cbn. by apply Z.ltb_lt.
Qed.

(** A value is found from the moment it is stored until its time to live
    has passed, peer sets of the same key being merged, and storing it changes
    no other key except, in a full store, the one that was first to expire. *)
Theorem store_insert_get (now later : Z) (s : DHTStore) (k : Key) (v : KademliaData)
    (Hrun : store_run now s) (Hnow : (now + DEFAULT_TTL < 2 ^ 64)%Z) :
  let s' := DHTStore.store_insert now s k v in
  DHTStore.store_get later s' k =
    (if decide (later ≤ now + DEFAULT_TTL)%Z then
       Some (match im_get (store s) k with Some e => merge (sv_data e) v | None => v end)
     else None) ∧
  ∀ k', k' ≠ k → (length (store s) < MAX_STORE_ENTRIES ∨ (fst <$> head (store s)) ≠ Some k') →
    im_get (store s') k' = im_get (store s) k'.
Proof.
  destruct (store_run_ok now s Hrun) as (Hn & Hm & Hok).
  assert (u64 (now + DEFAULT_TTL) = now + DEFAULT_TTL)%Z as Ew
    by (apply wrap_small; unfold DEFAULT_TTL in *; lia).
  cbv zeta. unfold DHTStore.store_insert, DHTStore.store_get. cbv zeta. rewrite Ew.
  destruct (im_get (store s) k) as [e|] eqn:E; cbn [store].
  - rewrite im_get_app_same by apply shift_remove_keys. cbn. split.
    + case_decide; destruct (Z.ltb_spec (now + DEFAULT_TTL) later); (lia || done).
    + intros k' Hk' _. rewrite im_get_app_other, im_get_remove_other by done. done.
  - assert (k ∉ map fst (store s)) as Hk by by apply im_get_None. split.
    + rewrite im_get_app_same; cbn.
      * case_decide; destruct (Z.ltb_spec (now + DEFAULT_TTL) later); (lia || done).
      * case_match; [|done]. destruct (store s); [done|]. cbn in *. set_solver.
    + intros k' Hk' Hroom. rewrite im_get_app_other by done.
      destruct (Nat.leb_spec (max_entries s) (length (store s))); [|done].
      destruct Hroom as [Hroom|Hroom]; [lia|]. by apply im_get_tail; [apply Hok|].
Qed.

(** * Instances of the properties *)

Module StoreExamples.
Definition key (i : Z) : Key := mkKey [i] [i].
Definition peer (i : Z) : KademliaData := Peers {[ SocketV4 i 6881 ]}.
Definition demo : DHTStore :=
  DHTStore.store_insert 2000 (DHTStore.prune 1500
    (DHTStore.store_insert 1000 DHTStore.store_new (key 1) (peer 1))) (key 2) (peer 2).

Lemma demo_run : store_run 2000 demo.
Proof.
  apply (run_insert 1500); [|by split; vm_compute].
  apply (run_prune 1000); [|done]. apply (run_insert 0); [|by split; vm_compute].
  by apply run_new.
Qed.

Lemma store_bounded_witness : length (store demo) ≤ 10000 ∧ NoDup (map fst (store demo)).
Proof.
  destruct (store_bounded 2000 demo demo_run) as (H1 & H2 & _). split; [exact H1|exact H2].
Defined.

Lemma store_insert_get_witness :
  DHTStore.store_get 4100 (DHTStore.store_insert 2000 demo (key 1) (peer 3)) (key 1)
  = Some (Peers ({[ SocketV4 1 6881 ]} ∪ {[ SocketV4 3 6881 ]})).
Proof.
  destruct (store_insert_get 2000 4100 demo (key 1) (peer 3) demo_run) as [Hg _];
    [vm_compute; reflexivity|].
  rewrite Hg. vm_compute. reflexivity.
Defined.
End StoreExamples.
