(* ===== verification/Auth.v ===== *)
(** Admission to the DHT: proofs of work, tokens, attestation reports and the
    rate limiter of [src/bit_torrent/dht/auth/] and [bqti-tee/src/lib.rs].

    Parameters: the signature check of attestation reports and the PGP check
    (class [AuthCrypto]), the answer of the version manifest, the clock (an
    argument).  An array index out of range is [None]. *)

From S2P Require Import Prelude Net Crypto Routing.

Class AuthCrypto := {
  (** [verify_keccak_ed25519]: public key, message, signature. *)
  keccak_verify : list Z → list Z → list Z → bool;
  (** A detached PGP signature parses and verifies: key, data, signature. *)
  PgpKey : Type;
  pgp_verify : PgpKey → list Z → list Z → bool;
}.

(** src/src/bit_torrent/dht/auth/mod.rs:23-23 [TOKEN_EXP_SECONDS] *)
Definition TOKEN_EXP_SECONDS : Z := 30 * 60.
(** src/src/bit_torrent/dht/auth/mod.rs:24-24 [DIFFICULTY] *)
Definition DIFFICULTY : Z := 24.

(** src/src/bit_torrent/dht/auth/mod.rs:26-33 [TrustLevel] *)
Inductive TrustLevel := Attested | Unattested | Rejected.
Definition trust_byte (l : TrustLevel) : Z :=
  match l with Attested => 0 | Unattested => 1 | Rejected => 2 end.

(** src/src/bit_torrent/dht/auth/mod.rs:50-76 [AuthError] *)
Inductive AuthError :=
| UnAuthorized
| InvalidToken
| InvalidPGPSignature
| RoguePeer
| RateLimited
| PowSignFailed (e : CertError)
| ManifestError.

(** * Attestation reports *)

(** src/bqti-tee/src/lib.rs:5-16 [EnclaveReport] *)
Record EnclaveReport := mkEnclave {
  en_hash : list Z; en_data_len : Z; en_data : list Z; en_signature : list Z }.
(** src/bqti-tee/src/lib.rs:18-27 [SmReport] *)
Record SmReport := mkSm { sm_hash : list Z; sm_public_key : list Z; sm_signature : list Z }.
(** src/bqti-tee/src/lib.rs:29-34 [KeystoneAttestReport] *)
Record AttestReport := mkReport {
  enclave : EnclaveReport; sm : SmReport; dev_public_key : list Z }.

(** src/bqti-tee/src/lib.rs:36-39 [SANCTUM_DEV_PUBLIC_KEY] *)
Definition SANCTUM_DEV_PUBLIC_KEY : list Z :=
  [15; 170; 212; 255; 1; 23; 133; 131; 186; 165; 136; 150; 111; 124; 31; 243;
   37; 100; 221; 23; 215; 220; 43; 70; 203; 80; 168; 74; 105; 39; 11; 76]%Z.

Section attest.
Context `{AuthCrypto}.

(** src/bqti-tee/src/lib.rs:50-80 [KeystoneAttestReport::verify]

    [None] is the panic of slicing the 1024 data bytes at a longer [data_len]. *)
Definition report_verify (self : AttestReport) (nonce expected_hash trusted_dev_key : list Z)
    : option bool :=
  if negb (bool_decide (trusted_dev_key = dev_public_key self)) then Some false
  else
    let sm_msg := sm_hash (sm self) ++ sm_public_key (sm self) in
    if negb (keccak_verify trusted_dev_key sm_msg (sm_signature (sm self))) then Some false
    else
      let e := enclave self in
      let data_len := Z.to_nat (en_data_len e) in
      if negb (data_len <=? length (en_data e)) then None
      else
        let enclave_msg := en_hash e ++ le_bytes 8 (en_data_len e) ++ take data_len (en_data e) in
        if negb (keccak_verify (sm_public_key (sm self)) enclave_msg (en_signature e))
        then Some false
        else if negb (bool_decide (en_hash e = expected_hash)) then Some false
        else
          let nonce_len := min (length nonce) data_len in
          Some ((0 <? nonce_len) &&
                bool_decide (take nonce_len (en_data e) = take nonce_len nonce)).

(** src/bqti-tee/src/lib.rs:88-94 [AttestReport::verify] *)
Definition attest_verify (self : AttestReport) (nonce expected_hash : list Z) : option bool :=
  report_verify self nonce expected_hash SANCTUM_DEV_PUBLIC_KEY.
End attest.

(** * Proofs of work *)

(** src/src/bit_torrent/dht/auth/pow.rs:153-160 [PoW] *)
Record PoW := mkPoW {
  pow_value : list Z; pow_challange : Z; pow_nonce : Z;
  pow_signature : option (list Z); pow_attestation : option AttestReport;
  pow_difficulty : Z }.

Section pow.
Context `{Crypto}.

(** src/src/bit_torrent/dht/auth/pow.rs:133-150 [SecretSalt::calculate_challenge] *)
Definition calculate_challenge (pub_key : list Z) (sender_ip : IpAddr) (secret_salt : list Z) : Z :=
  of_be (take 4 (sha256 (pub_key ++ octets sender_ip ++ secret_salt))).

(** src/src/bit_torrent/dht/auth/pow.rs:163-179 [PoW::new] *)
Definition PoW_new (value : list Z) (challange nonce difficulty : Z) (signature : list Z)
    (attestation : option AttestReport) : PoW :=
  mkPoW value challange nonce (Some signature) attestation difficulty.

(** src/src/bit_torrent/dht/auth/pow.rs:181-189 [PoW::calculate] *)
Definition calculate (pub_key : list Z) (challenge nonce : Z) : list Z :=
  sha256 (pub_key ++ be_bytes 4 challenge ++ be_bytes 4 nonce).

(** src/src/bit_torrent/dht/auth/pow.rs:191-211 [PoW::validate]

    [None] is an index past the 32 bytes. *)
Definition validate (hash : list Z) (difficulty : Z) : option bool :=
  let target_zeros := Z.to_nat difficulty in
  let full_bytes := target_zeros / 8 in
  let remaining_bits := target_zeros mod 8 in
  let check_rest :=
    if 0 <? remaining_bits then
      let mask := u8 (Z.shiftl 255 (Z.of_nat (8 - remaining_bits))) in
      b ← hash !! full_bytes; Some (Z.land b mask =? 0)%Z
    else Some true in
  (fix go (ids : list nat) : option bool :=
     match ids with
     | [] => check_rest
     | i :: ids => b ← hash !! i; if (b =? 0)%Z then go ids else Some false
     end) (seq 0 full_bytes).

(** src/src/bit_torrent/dht/auth/pow.rs:214-232 [ChallangeProof::verify for PoW] *)
Definition pow_verify (self : PoW) (pub_key : list Z) : option bool :=
  match pow_signature self with
  | None => Some false
  | Some signature =>
    let expected_hash := calculate pub_key (pow_challange self) (pow_nonce self) in
    if negb (bool_decide (expected_hash = pow_value self)) then Some false
    else
      ok ← validate expected_hash (pow_difficulty self);
      if negb ok then Some false
      else Some (Verifier_verify pub_key (pow_value self) signature)
  end.

(** src/src/bit_torrent/dht/auth/pow.rs:60-81 [SoftwareProver::prove]

    The loop over the nonces, which wraps around at 2^32; [None] is a panic, or
    a loop that has not ended after [fuel] nonces. *)
Fixpoint prove_loop (fuel : nat) (signer : Signer) (public_key : list Z)
    (challenge difficulty nonce : Z) : option (Result AuthError PoW) :=
  match fuel with
  | O => None
  | S fuel =>
    let hash := calculate public_key challenge nonce in
    ok ← validate hash difficulty;
    if (ok : bool) then
      Some (let? signature := map_err PowSignFailed (signer_sign signer hash) in
            Ok (mkPoW hash challenge nonce (Some signature) None difficulty))
    else prove_loop fuel signer public_key challenge difficulty (u32 (nonce + 1))
  end.

Definition prove (fuel : nat) (signer : Signer) (public_key : list Z) (challenge difficulty : Z)
    : option (Result AuthError PoW) :=
  prove_loop fuel signer public_key challenge difficulty 0.
End pow.

(** * Tokens *)

(** src/src/bit_torrent/dht/auth/token.rs:17-29 [Token]

    The sizes of the arrays and of the integers are in [Token.token_wf]. *)
Record Token := mkToken {
  swarm_id : list Z;
  tk_peer : list Z;
  tk_pow : list Z;
  issued_at : Z;
  exp_at : Z;
  issuer : list Z;
  issuer_ca_cert : list Z;
  issuer_ca_cert_sig : list Z;
  trust_level : TrustLevel;
  tk_signature : option (list Z);
}.

Module Token.
(** The tokens that are values of the program: [swarm_id] and [pow] are arrays of 32
    bytes, the rest vectors of bytes and 64-bit times. *)
Definition token_wf (self : Token) : Prop :=
  (length (swarm_id self) = 32 ∧ bytes_ok (swarm_id self)) ∧
  (length (tk_pow self) = 32 ∧ bytes_ok (tk_pow self)) ∧
  (0 ≤ issued_at self < 2 ^ 64)%Z ∧ (0 ≤ exp_at self < 2 ^ 64)%Z ∧
  bytes_ok (tk_peer self) ∧ bytes_ok (issuer self) ∧ bytes_ok (issuer_ca_cert self) ∧
  bytes_ok (issuer_ca_cert_sig self) ∧ bytes_ok (default [] (tk_signature self)).
#[export] Instance token_wf_dec t : Decision (token_wf t).
Proof. unfold token_wf. apply _. Defined.

Section token.
Context `{Crypto} `{AuthCrypto}.

(** src/src/bit_torrent/dht/auth/token.rs:32-48 [Token::new] *)
Definition token_new (peer pow : list Z) (level : TrustLevel) : Token :=
  mkToken (replicate 32 0%Z) peer pow 0 0 [] [] [] level None.

(** src/src/bit_torrent/dht/auth/token.rs:73-87 [Token::calculate_hash] *)
Definition calculate_hash (self : Token) (issuer : list Z) : list Z :=
  sha256 (tk_peer self ++ tk_pow self ++ be_bytes 8 (exp_at self) ++ be_bytes 8 (issued_at self)
          ++ [trust_byte (trust_level self)] ++ swarm_id self ++ issuer_ca_cert self
          ++ issuer_ca_cert_sig self ++ issuer).

(** src/src/bit_torrent/dht/auth/token.rs:50-52 [Token::hash] *)
Definition hash (self : Token) : list Z := calculate_hash self (issuer self).

(** src/src/bit_torrent/dht/auth/token.rs:54-56 [Token::sender] *)
Definition sender (self : Token) : Key := Key_new (tk_peer self).

(** src/src/bit_torrent/dht/auth/token.rs:62-71 [Token::bind_swarm] *)
Definition bind_swarm (self : Token) (swarm ca_cert_der ca_cert_sig : list Z) : Token :=
  mkToken swarm (tk_peer self) (tk_pow self) (issued_at self) (exp_at self) (issuer self)
    ca_cert_der ca_cert_sig (trust_level self) (tk_signature self).

(** src/src/bit_torrent/dht/auth/token.rs:90-106 [Evidence::sign for Token] *)
Definition token_sign (now : Z) (signer : Signer) (self : Token) : Result AuthError Token :=
  let self := mkToken (swarm_id self) (tk_peer self) (tk_pow self) now
                (u64 (now + TOKEN_EXP_SECONDS)) (issuer self) (issuer_ca_cert self)
                (issuer_ca_cert_sig self) (trust_level self) (tk_signature self) in
  let secret := calculate_hash self (signer_pub_key signer) in
  let? signature := map_err (λ _, UnAuthorized) (signer_sign signer secret) in
  Ok (mkToken (swarm_id self) (tk_peer self) (tk_pow self) (issued_at self) (exp_at self)
        (signer_pub_key signer) (issuer_ca_cert self) (issuer_ca_cert_sig self)
        (trust_level self) (Some signature)).

(** src/src/bit_torrent/dht/auth/token.rs:130-136 [Authorizable::is_expired] *)
Definition is_expired (now : Z) (self : Token) : bool :=
  if (exp_at self =? 0)%Z then true else (exp_at self <? now)%Z.

(** src/src/bit_torrent/dht/auth/token.rs:117-128 [Authorizable::verify] *)
Definition token_verify (now : Z) (self : Token) : bool :=
  if is_expired now self then false
  else
    match tk_signature self with
    | None => false
    | Some signature =>
      let secret := calculate_hash self (issuer self) in
      Verifier_verify (issuer self) secret signature
    end.

(** src/src/bit_torrent/dht/auth/token.rs:109-115 [Authorizable::verify_for] *)
Definition verify_for (now : Z) (self : Token) (pub_key : list Z) : bool :=
  if negb (bool_decide (tk_peer self = pub_key)) then false else token_verify now self.

(** src/src/bit_torrent/dht/auth/token.rs:138-152 [Authorizable::verify_pgp] *)
Definition verify_pgp (self : Token) (pgp_keys : gmap (list Z) PgpKey) : bool :=
  match issuer_ca_cert_sig self with
  | [] => false
  | _ =>
    match pgp_keys !! swarm_id self with
    | None => false
    | Some pgp_key => pgp_verify pgp_key (issuer_ca_cert self) (issuer_ca_cert_sig self)
    end
  end.
End token.
End Token.

(** * The authentication manager *)

(** src/src/bit_torrent/dht/auth/manager.rs:34-43 [AuthManager]

    The state the operations below use. *)
Record AuthManager := mkAuth {
  ca_root_der : list Z;
  pgp_details : option (list Z * option (list Z));
  inner_cert : Signer;
  secret_salt : list Z;
  token : option Token;
}.

Section manager.
Context `{Crypto} `{AuthCrypto}.

(** src/src/bit_torrent/dht/auth/manager.rs:88-95 [AuthManager::challange] *)
Definition challange (self : AuthManager) (pub_key : list Z) (ip : IpAddr) : Z :=
  calculate_challenge pub_key ip (secret_salt self).

(** src/src/bit_torrent/dht/auth/manager.rs:97-144 [AuthManager::issue_token]

    [manifest] answers [Manifest::get_enclave_hash]; the second component of
    [pgp_details] is [None] when the signature does not serialise; the outer
    [option] is a panic. *)
Definition issue_token (now : Z) (manifest : string → Result unit (list Z)) (self : AuthManager)
    (sender : Node) (secret : PoW) (app_version : string) : option (Result AuthError Token) :=
  ok ← pow_verify secret (key_pub (node_id sender));
  if negb ok then Some (Err RoguePeer)
  else
    level ← match pow_attestation secret with
            | None => Some (Ok Unattested)
            | Some report =>
              match manifest app_version with
              | Err _ => Some (Err ManifestError)
              | Ok expected_enclave_hash =>
                good ← attest_verify report (pow_value secret) expected_enclave_hash;
                Some (Ok (if (good : bool) then Attested else Rejected))
              end
            end;
    Some (
      let? trust_level := level in
      let token := Token.token_new (key_pub (node_id sender)) (pow_value secret) trust_level in
      let? token :=
        match pgp_details self with
        | None => Ok token
        | Some (_, None) => Err InvalidPGPSignature
        | Some (swarm, Some sig) => Ok (Token.bind_swarm token swarm (ca_root_der self) sig)
        end in
      Token.token_sign now (inner_cert self) token).

(** src/src/bit_torrent/dht/auth/manager.rs:146-148 [AuthManager::store_token] *)
Definition store_token (self : AuthManager) (t : Token) : AuthManager :=
  mkAuth (ca_root_der self) (pgp_details self) (inner_cert self) (secret_salt self) (Some t).

(** src/src/bit_torrent/dht/auth/manager.rs:150-157 [AuthManager::best_token] *)
Definition best_token (now : Z) (self : AuthManager) : option Token :=
  t ← token self; if Token.is_expired now t then None else Some t.
End manager.

(** * The rate limiter *)

(** src/src/bit_torrent/dht/auth/manager.rs:185-189 [RateLimiter] *)
Record RateLimiter := mkLimiter {
  requests : gmap Key (Z * Z); max_per_window : Z; window_seconds : Z }.

Module RateLimiter.
(** src/src/bit_torrent/dht/auth/manager.rs:192-198 [RateLimiter::new] *)
Definition limiter_new (max_per_window window_seconds : Z) : RateLimiter :=
  mkLimiter ∅ max_per_window window_seconds.

(** src/src/bit_torrent/dht/auth/manager.rs:200-220 [RateLimiter::check] *)
Definition check (now : Z) (self : RateLimiter) (sender_key : Key) : RateLimiter * bool :=
  let reqs := filter (λ '(_, (_, start)), (u64 (now - start) ≤ window_seconds self)%Z)
                (requests self) in
  let '(count, start) := default (0%Z, now) (reqs !! sender_key) in
  let upd w := mkLimiter (<[sender_key := w]> reqs) (max_per_window self) (window_seconds self) in
  if (window_seconds self <? u64 (now - start))%Z then (upd (1%Z, now), true)
  else if (max_per_window self <=? count)%Z then (upd (count, start), false)
  else (upd (u32 (count + 1), start), true).
End RateLimiter.

(** src/src/bit_torrent/dht/auth/manager.rs:167-173 [AuthManager::check_rate] *)
Definition check_rate (now : Z) (limiter : RateLimiter) (peer : Key)
    : RateLimiter * Result AuthError unit :=
  let '(limiter, ok) := RateLimiter.check now limiter peer in
  (limiter, if ok then Ok tt else Err RateLimited).

(** * Lemmas *)

(** ** Leading zero bits *)

Definition all_zero (bs : list Z) : bool := forallb (λ b, b =? 0)%Z bs.

Lemma validate_unfold hash difficulty : length hash = 32 → (0 ≤ difficulty ≤ 256)%Z →
  let n := Z.to_nat difficulty in
  validate hash difficulty = Some
    (all_zero (take (n / 8) hash) &&
     ((n mod 8 =? 0) ||
      (Z.land (nth (n / 8) hash 0%Z) (u8 (Z.shiftl 255 (Z.of_nat (8 - n mod 8)))) =? 0)%Z)).
Proof.
  intros Hlen Hd n. unfold validate. cbv zeta. fold n.
  assert (n / 8 ≤ 32) as Hn.
  { change 32 with (256 / 8). apply Nat.Div0.div_le_mono. unfold n. lia. }
  assert (∀ m i, i + m = n / 8 → ∀ rest : option bool,
    (fix go (ids : list nat) : option bool :=
       match ids with
       | [] => rest
       | i :: ids => b ← hash !! i; if (b =? 0)%Z then go ids else Some false
       end) (seq i m) =
    if all_zero (slice i m hash) then rest else Some false) as Hgo.
  { induction m as [|m IH]; intros i Hi rest; cbn [seq]; [by unfold slice; rewrite take_0|].
    destruct (lookup_lt_is_Some_2 hash i ltac:(lia)) as [b Hb]. rewrite Hb. cbn [mbind option_bind].
    unfold slice. rewrite (drop_S hash b i Hb). cbn [take all_zero forallb].
    destruct (b =? 0)%Z; cbn [andb]; [apply IH; lia|done]. }
  rewrite (Hgo (n / 8) 0) by done. unfold slice. rewrite drop_0.
  destruct (all_zero _); cbn [andb]; [|done].
  destruct (Nat.eqb_spec (n mod 8) 0) as [->|Hr]; cbn [orb]; [done|].
  rewrite (proj2 (Nat.ltb_lt _ _)) by lia.
  assert (n / 8 < length hash) as Hlt.
  { pose proof (Nat.div_mod n 8 ltac:(lia)). unfold n in *. lia. }
  apply lookup_lt_is_Some_2 in Hlt as [b Hb]. rewrite Hb. cbn.
  by rewrite (nth_lookup_Some _ _ _ _ Hb).
Qed.

(** The high [r] bits of a byte are zero when it is below [2 ^ (8 - r)]. *)
Lemma high_bits_zero b r : byte_ok b → 0 < r < 8 →
  (Z.land b (u8 (Z.shiftl 255 (Z.of_nat (8 - r)))) =? 0)%Z = (b <? 2 ^ Z.of_nat (8 - r))%Z.
Proof.
  intros Hb Hr. unfold byte_ok in Hb.
  assert (∀ k, (1 ≤ k < 8)%nat → ∀ c, (c < 256)%nat →
    (Z.land (Z.of_nat c) (u8 (Z.shiftl 255 (Z.of_nat k))) =? 0)%Z
    = (Z.of_nat c <? 2 ^ Z.of_nat k)%Z) as Hall.
  { assert (forallb (λ k, forallb (λ c, eqb
      (Z.land (Z.of_nat c) (u8 (Z.shiftl 255 (Z.of_nat k))) =? 0)%Z
      (Z.of_nat c <? 2 ^ Z.of_nat k)%Z) (seq 0 256)) (seq 1 7) = true) as E
      by (vm_compute; reflexivity).
    intros k Hk c Hc. rewrite forallb_forall in E. specialize (E k).
    rewrite in_seq in E. specialize (E ltac:(lia)). rewrite forallb_forall in E.
    apply eqb_prop, E, in_seq. lia. }
  replace b with (Z.of_nat (Z.to_nat b)) by lia. apply Hall; lia.
Qed.

Lemma of_be_app a b : of_be (a ++ b) = (of_be a * 256 ^ Z.of_nat (length b) + of_be b)%Z.
Proof.
  unfold of_be. rewrite reverse_app, <-(length_reverse b).
  generalize (reverse a) (reverse b). clear. intros a b. induction b as [|x b IH]; cbn [app of_le].
  - cbn. lia.
  - rewrite IH. cbn [length]. rewrite pow256_S. lia.
Qed.

Lemma of_be_zero a : bytes_ok a → (of_be a = 0)%Z ↔ all_zero a = true.
Proof.
  induction a as [|x a IH]; intros Ha; [done|]. apply Forall_cons in Ha as [Hx Ha].
  change (x :: a) with ([x] ++ a). rewrite of_be_app. cbn [app all_zero forallb].
  fold (all_zero a). specialize (IH Ha). pose proof (of_be_range a Ha) as Hr.
  unfold byte_ok in Hx. change (of_be [x]) with (x + 256 * 0)%Z.
  assert (0 < 256 ^ Z.of_nat (length a))%Z by (apply Z.pow_pos_nonneg; lia).
  rewrite andb_true_iff, <-IH, Z.eqb_eq. nia.
Qed.

Lemma pow_256 m : m ≤ 32 → (256 ^ Z.of_nat (32 - m) = 2 ^ (256 - 8 * Z.of_nat m))%Z.
Proof.
  intros. change 256%Z with (2 ^ 8)%Z at 1. rewrite <-Z.pow_mul_r by lia. f_equal. lia.
Qed.

(** A hash passes exactly when, read as a big-endian number, it is below
    [2 ^ (256 - difficulty)]. *)
Lemma validate_number hash difficulty :
  length hash = 32 → bytes_ok hash → (0 ≤ difficulty ≤ 256)%Z →
  validate hash difficulty = Some (of_be hash <? 2 ^ (256 - difficulty))%Z.
Proof.
  intros Hlen Hb Hd. rewrite validate_unfold by done. cbv zeta. f_equal.
  set (n := Z.to_nat difficulty). pose proof (Nat.div_mod n 8 ltac:(lia)) as Hdm.
  pose proof (Nat.mod_upper_bound n 8 ltac:(lia)) as Hmod.
  set (q := n / 8) in *. set (r := n mod 8) in *.
  assert (length (take q hash) = q) as Hq by (rewrite length_take; unfold n in *; lia).
  assert (bytes_ok (take q hash)) as Hbt by by apply Forall_take.
  assert (bytes_ok (drop q hash)) as Hbd by by apply Forall_drop.
  assert (of_be hash = of_be (take q hash) * 256 ^ Z.of_nat (32 - q) + of_be (drop q hash))%Z
    as Ehash.
  { rewrite <-(take_drop q hash) at 1. by rewrite of_be_app, length_drop, Hlen. }
  pose proof (of_be_range _ Hbt) as Hrt. pose proof (of_be_range _ Hbd) as Hrd.
  rewrite length_drop, Hlen in Hrd.
  assert (256 ^ Z.of_nat (32 - q) = 2 ^ (256 - 8 * Z.of_nat q))%Z as Epow
    by (apply pow_256; unfold n in *; lia).
  assert (0 < 2 ^ (256 - difficulty))%Z by (apply Z.pow_pos_nonneg; lia).
  destruct (all_zero (take q hash)) eqn:Ez; cbn [andb]; cycle 1.
  { symmetry. apply Z.ltb_ge. transitivity (256 ^ Z.of_nat (32 - q))%Z.
    - rewrite Epow. apply Z.pow_le_mono_r; unfold n in *; lia.
    - assert (of_be (take q hash) ≠ 0)%Z by (rewrite of_be_zero by done; congruence). nia. }
  apply of_be_zero in Ez; [|done]. rewrite Ehash, Ez, Z.mul_0_l, Z.add_0_l.
  destruct (Nat.eqb_spec r 0) as [Hr|Hr]; cbn [orb].
  { symmetry. apply Z.ltb_lt. rewrite Epow in Hrd.
    replace (256 - difficulty)%Z with (256 - 8 * Z.of_nat q)%Z by (unfold n in *; lia). lia. }
  assert (q < length hash) as [x Hx]%lookup_lt_is_Some_2 by (unfold n in *; lia).
  rewrite (nth_lookup_Some _ _ _ _ Hx), (drop_S hash x q Hx) in *.
  apply Forall_cons in Hbd as [Hxb Hbr]. rewrite high_bits_zero by (done || lia).
  change (x :: drop (S q) hash) with ([x] ++ drop (S q) hash).
  rewrite of_be_app, length_drop, Hlen. change (of_be [x]) with (x + 256 * 0)%Z.
  pose proof (of_be_range _ Hbr) as Hrr. rewrite length_drop, Hlen in Hrr.
  assert (2 ^ (256 - difficulty) = 2 ^ Z.of_nat (8 - r) * 256 ^ Z.of_nat (32 - S q))%Z as ->.
  { rewrite pow_256 by (unfold n in *; lia). rewrite <-Z.pow_add_r by (unfold n in *; lia).
    f_equal. unfold n in *. lia. }
  set (P := (256 ^ Z.of_nat (32 - S q))%Z) in *.
  set (M := (2 ^ Z.of_nat (8 - r))%Z) in *.
  destruct (Z.ltb_spec x M); symmetry; [apply Z.ltb_lt|apply Z.ltb_ge]; nia.
Qed.

(** ** The rate limiter, one key at a time *)

Section limiter.
Implicit Types (l : RateLimiter) (k : Key) (e : option (Z * Z)).

(** What [retain] leaves of an entry. *)
Definition live (w now : Z) e : option (Z * Z) :=
  match e with
  | Some (count, start) => if decide (u64 (now - start) ≤ w)%Z then Some (count, start) else None
  | None => None
  end.

Lemma retain_lookup (m : gmap Key (Z * Z)) w now k :
  filter (λ '(_, (_, start)), (u64 (now - start) ≤ w)%Z) m !! k = live w now (m !! k).
Proof.
  rewrite map_lookup_filter. destruct (m !! k) as [[c s]|]; cbn; [|done].
  by repeat (case_guard || case_decide).
Qed.

(** A check of another key only drops an expired entry. *)
Lemma check_other now l k k' : k' ≠ k →
  requests (RateLimiter.check now l k').1 !! k = live (window_seconds l) now (requests l !! k).
Proof.
  intros Hk. unfold RateLimiter.check. cbv zeta.
  destruct (default _ _) as [c s]. repeat case_match; cbn;
    by rewrite lookup_insert_ne, retain_lookup.
Qed.

(** A check counts a request while there is room. *)
Lemma check_same now l k c s :
  (0 ≤ max_per_window l < 2 ^ 32)%Z → (0 ≤ window_seconds l)%Z →
  default (0, now)%Z (live (window_seconds l) now (requests l !! k)) = (c, s) →
  (0 ≤ c)%Z →
  let r := RateLimiter.check now l k in
  r.2 = (c <? max_per_window l)%Z ∧
  requests r.1 !! k = Some (if (c <? max_per_window l)%Z then c + 1 else c, s)%Z.
Proof.
  intros Hm Hw Hd Hc. unfold RateLimiter.check. cbv zeta. rewrite retain_lookup, Hd.
  assert (u64 (now - s) ≤ window_seconds l)%Z as Hlive.
  { destruct (requests l !! k) as [[c0 s0]|]; cbn in Hd.
    - case_decide; cbn in Hd; injection Hd as <- <-; [done|].
      rewrite Z.sub_diag. change (u64 0) with 0%Z. done.
    - injection Hd as <- <-. rewrite Z.sub_diag. change (u64 0) with 0%Z. done. }
  rewrite (proj2 (Z.ltb_ge _ _)) by done.
  destruct (Z.leb_spec (max_per_window l) c), (Z.ltb_spec c (max_per_window l)); try lia; cbn;
    rewrite lookup_insert_eq; (split; [done|]); [done|].
  by rewrite wrap_small by lia.
Qed.

Lemma check_params now l k :
  max_per_window (RateLimiter.check now l k).1 = max_per_window l ∧
  window_seconds (RateLimiter.check now l k).1 = window_seconds l.
Proof.
  unfold RateLimiter.check. cbv zeta. destruct (default _ _). by repeat case_match.
Qed.

(** The number of requests of [k] accepted in a sequence of checks. *)
Fixpoint accepted (k : Key) l (evs : list (Z * Key)) : Z :=
  match evs with
  | [] => 0
  | (now, k') :: evs =>
    let '(l', ok) := RateLimiter.check now l k' in
    ((if ok && bool_decide (k' = k) then 1 else 0) + accepted k l' evs)%Z
  end.

Definition asked (k : Key) (evs : list (Z * Key)) : Z :=
  Z.of_nat (length (List.filter (λ '(_, k'), bool_decide (k' = k)) evs)).

(** How many more requests an entry lets through before [a + window]. *)
Definition budget (m a : Z) e : Z :=
  match e with
  | None => m
  | Some (c, s) => if decide (a ≤ s)%Z then m - c else m - c + m
  end.

Definition entry_ok (m t : Z) e : Prop :=
  match e with None => True | Some (c, s) => (0 ≤ c ≤ m ∧ 0 ≤ s ≤ t)%Z end.

(** Times from [a] to [a + w], in order, none before [t]. *)
Fixpoint timed (a w t : Z) (evs : list (Z * Key)) : Prop :=
  match evs with
  | [] => True
  | (now, _) :: evs => (t ≤ now ∧ a ≤ now ≤ a + w ∧ now < 2 ^ 64)%Z ∧ timed a w now evs
  end.

Lemma live_ok m a w t now e : (0 ≤ a)%Z → (0 ≤ m)%Z →
  (t ≤ now ∧ a ≤ now ≤ a + w ∧ now < 2 ^ 64)%Z → entry_ok m t e →
  entry_ok m now (live w now e) ∧ (budget m a (live w now e) ≤ budget m a e)%Z ∧
  (match e with Some (_, s) => (a ≤ s)%Z | None => True end → live w now e = e).
Proof.
  intros Ha Hm Hn He. destruct e as [[c s]|]; cbn in *; [|naive_solver lia].
  rewrite wrap_small by lia. case_decide; cbn; split_and!; try lia; try done; repeat case_decide; lia.
Qed.

Lemma accepted_bound k l evs a t :
  (0 ≤ a)%Z → (0 ≤ max_per_window l < 2 ^ 32)%Z → (0 ≤ window_seconds l)%Z →
  entry_ok (max_per_window l) t (requests l !! k) → timed a (window_seconds l) t evs →
  (accepted k l evs ≤ budget (max_per_window l) a (requests l !! k))%Z ∧
  (match requests l !! k with Some (_, s) => (a ≤ s)%Z | None => True end →
   accepted k l evs = Z.min (asked k evs) (budget (max_per_window l) a (requests l !! k))).
Proof.
  revert l t. induction evs as [|[now k'] evs IH]; intros l t Ha Hm Hw He Htm.
  { cbn. split; [destruct (requests l !! k) as [[]|]; cbn in *; repeat case_decide; lia|].
    intros _. unfold asked. cbn [List.filter length]. destruct (requests l !! k) as [[]|]; cbn in *; repeat case_decide; lia. }
  destruct Htm as [Hn Htm]. cbn [accepted].
  destruct (check_params now l k') as [Em Ew].
  destruct (live_ok _ a _ t now _ Ha (proj1 Hm) Hn He) as (Hlok & Hlb & Hlsame).
  specialize (IH (RateLimiter.check now l k').1 now Ha). rewrite Em, Ew in IH.
  destruct (decide (k' = k)) as [->|Hk].
  - destruct (default (0, now)%Z (live (window_seconds l) now (requests l !! k))) as [c s] eqn:Hd.
    assert (0 ≤ c ≤ max_per_window l ∧ 0 ≤ s ≤ now ∧
      budget (max_per_window l) a (Some (c, s)) ≤ budget (max_per_window l) a (requests l !! k) ∧
      (match requests l !! k with Some (_, s) => (a ≤ s) | None => True end →
       a ≤ s ∧ budget (max_per_window l) a (Some (c, s))
               = budget (max_per_window l) a (requests l !! k)))%Z as (Hc & Hs & Hbud & Hex).
    { destruct (live _ _ _) as [[c0 s0]|] eqn:El; cbn in Hd; injection Hd as <- <-.
      - cbn in Hlok. split_and!; try lia. intros Hx. specialize (Hlsame Hx).
        rewrite <-Hlsame in Hx |- *. done.
      - split_and!; try lia.
        + etransitivity; [|exact Hlb]. cbn. case_decide; lia.
        + intros Hx. specialize (Hlsame Hx). rewrite <-Hlsame. cbn. case_decide; lia. }
    destruct (check_same now l k c s Hm Hw Hd (proj1 Hc)) as [E2 E1].
    destruct (RateLimiter.check now l k) as [l' ok]. cbn [fst snd] in *. subst ok.
    rewrite E1 in IH. destruct IH as [IH1 IH2]; [done|done| |done|].
    { cbn. destruct (Z.ltb_spec c (max_per_window l)); lia. }
    rewrite bool_decide_eq_true_2, andb_true_r by done.
    unfold asked in *. cbn [List.filter]. rewrite bool_decide_eq_true_2 by done.
    cbn [length]. clear Em Ew Hlb Hlsame Hlok E1. split.
    + clear IH2 Hex. revert IH1 Hbud. cbn [budget].
      destruct (Z.ltb_spec c (max_per_window l)); case_decide; lia.
    + intros Hx. destruct (Hex Hx) as [Has Eb]. rewrite IH2 by done. rewrite <-Eb. cbn [budget].
      destruct (decide (a ≤ s)%Z); [|done].
      destruct (Z.ltb_spec c (max_per_window l)); lia.
  - pose proof (check_other now l k k' Hk) as E1.
    destruct (RateLimiter.check now l k') as [l' ok]. cbn [fst snd] in *.
    rewrite E1 in IH. destruct IH as [IH1 IH2]; [done|done|done|done|].
    rewrite bool_decide_eq_false_2, andb_false_r by done.
    unfold asked in *. cbn [List.filter]. rewrite bool_decide_eq_false_2 by done.
    split; [lia|]. intros Hx. rewrite Hlsame in IH2 by done. rewrite IH2 by done. lia.
Qed.
End limiter.

(** ** Proofs of work *)

Section pow_lemmas.
Context `{CryptoLaws} (signer : Signer) `{!SignerLaws signer}.

Definition good (challenge difficulty nonce : Z) : bool :=
  (of_be (calculate (signer_pub_key signer) challenge nonce) <? 2 ^ (256 - difficulty))%Z.

Lemma validate_calculate challenge difficulty nonce : (0 ≤ difficulty ≤ 256)%Z →
  validate (calculate (signer_pub_key signer) challenge nonce) difficulty
  = Some (good challenge difficulty nonce).
Proof. intros. by apply validate_number; [apply sha256_length|apply sha256_bytes|]. Qed.

Lemma prove_loop_S k challenge difficulty nonce : (0 ≤ difficulty ≤ 256)%Z →
  let hash := calculate (signer_pub_key signer) challenge nonce in
  prove_loop (S k) signer (signer_pub_key signer) challenge difficulty nonce =
    if good challenge difficulty nonce then
      Some (let? signature := map_err PowSignFailed (signer_sign signer hash) in
            Ok (mkPoW hash challenge nonce (Some signature) None difficulty))
    else prove_loop k signer (signer_pub_key signer) challenge difficulty (u32 (nonce + 1)).
Proof. intros Hd hash. cbn [prove_loop]. by rewrite validate_calculate. Qed.

(** A nonce that solves the puzzle gives a proof that verifies. *)
Lemma solved_verifies challenge difficulty nonce sig : (0 ≤ difficulty ≤ 256)%Z →
  let hash := calculate (signer_pub_key signer) challenge nonce in
  good challenge difficulty nonce = true → signer_sign signer hash = Ok sig →
  pow_verify (mkPoW hash challenge nonce (Some sig) None difficulty) (signer_pub_key signer)
  = Some true.
Proof.
  intros Hd hash Hg Hs. unfold pow_verify.
  cbn [pow_signature pow_challange pow_nonce pow_value pow_difficulty].
  rewrite bool_decide_eq_true_2 by done. cbn [negb].
  rewrite validate_calculate, Hg by done. cbn. f_equal. by apply sign_verifies.
Qed.

Lemma prove_loop_spec k challenge difficulty nonce :
  (0 ≤ difficulty ≤ 256)%Z → (0 ≤ nonce)%Z → (nonce + Z.of_nat k < 2 ^ 32)%Z →
  good challenge difficulty (nonce + Z.of_nat k) = true →
  (∀ d, ∃ sig, signer_sign signer d = Ok sig) →
  ∃ p, prove_loop (S k) signer (signer_pub_key signer) challenge difficulty nonce = Some (Ok p) ∧
    (nonce ≤ pow_nonce p ≤ nonce + Z.of_nat k)%Z ∧ pow_challange p = challenge ∧
    pow_difficulty p = difficulty ∧ pow_verify p (signer_pub_key signer) = Some true.
Proof.
  intros Hd Hn Hk Hgood Hsign. revert nonce Hn Hk Hgood.
  induction k as [|k IH]; intros nonce Hn Hk Hgood; rewrite prove_loop_S by done; cbv zeta;
    destruct (good challenge difficulty nonce) eqn:Eg.
  2: { rewrite Z.add_0_r in Hgood. congruence. }
  3: { rewrite wrap_small by lia.
       destruct (IH (nonce + 1)%Z) as (p & E & Hp & Hrest); [lia|lia|rewrite <-Hgood; f_equal; lia|].
       exists p. split; [exact E|]. split; [lia|done]. }
  all: destruct (Hsign (calculate (signer_pub_key signer) challenge nonce)) as [sig Hsig];
    rewrite Hsig; cbn [map_err rbind]; eexists; (split; [done|]);
    cbn [pow_nonce pow_challange pow_difficulty]; (split; [lia|]);
    (split_and!; [done|done|by apply solved_verifies]).
Qed.
End pow_lemmas.

(** * Properties *)

(** A proof of work is accepted exactly when its hash, read as a 256-bit
    big-endian number, is below 2^(256 - difficulty), that is, when it has that
    many leading zero bits; the check never indexes outside the hash. *)
Theorem pow_leading_zeros (hash : list Z) (difficulty : Z)
    (Hlen : length hash = 32) (Hbytes : bytes_ok hash) (Hdiff : (0 ≤ difficulty ≤ 256)%Z) :
  validate hash difficulty = Some (of_be hash <? 2 ^ (256 - difficulty))%Z.
Proof. by apply validate_number. Qed.

(** When some 32-bit nonce solves the puzzle, the prover's loop finds one
    no later than it, and its proof passes the verifier's check under the
    prover's public key, for the challenge and the difficulty that were set. *)
Theorem prove_then_verify `{CryptoLaws} (signer : Signer) `{!SignerLaws signer}
    (challenge difficulty : Z) (k : nat)
    (Hdiff : (0 ≤ difficulty ≤ 256)%Z) (Hk : (Z.of_nat k < 2 ^ 32)%Z)
    (Hsolves : (of_be (calculate (signer_pub_key signer) challenge (Z.of_nat k))
                < 2 ^ (256 - difficulty))%Z)
    (Hsign : ∀ d, ∃ sig, signer_sign signer d = Ok sig) :
  ∃ p, prove (S k) signer (signer_pub_key signer) challenge difficulty = Some (Ok p) ∧
    (0 ≤ pow_nonce p ≤ Z.of_nat k)%Z ∧ pow_challange p = challenge ∧
    pow_difficulty p = difficulty ∧ pow_verify p (signer_pub_key signer) = Some true.
Proof.
  apply (prove_loop_spec signer k challenge difficulty 0); try done; try lia.
  unfold good. by apply Z.ltb_lt.
Qed.

(** A token that is issued is bound to the sender's key and to a proof of
    work that verifies for it, and verifies for that key from then until thirty
    minutes have passed and not after; it is marked attested exactly when its
    report passes the attestation check.  A wrong proof of work is refused
    before anything else is looked at.  The trust level does not enter the
    token's verification: a sender whose report fails gets a token that
    verifies all the same. *)
Theorem issue_token_sound `{CryptoLaws} `{AuthCrypto} (now : Z)
    (manifest : string → Result unit (list Z)) (self : AuthManager)
    `{!SignerLaws (inner_cert self)} (sender : Node) (secret : PoW) (version : string)
    (Hnow : (0 ≤ now ∧ now + TOKEN_EXP_SECONDS < 2 ^ 64)%Z) :
  let pub := key_pub (node_id sender) in
  (pow_verify secret pub = Some false →
   issue_token now manifest self sender secret version = Some (Err RoguePeer)) ∧
  ∀ tok, issue_token now manifest self sender secret version = Some (Ok tok) →
    pow_verify secret pub = Some true ∧ tk_pow tok = pow_value secret ∧
    (∀ later, Token.verify_for later tok pub = bool_decide (later ≤ now + TOKEN_EXP_SECONDS)%Z) ∧
    (trust_level tok = Attested ↔
     ∃ report h, pow_attestation secret = Some report ∧ manifest version = Ok h ∧
                 attest_verify report (pow_value secret) h = Some true).
Proof.
  cbv zeta. unfold issue_token. split; [by intros ->|]. intros tok.
  destruct (pow_verify _ _) as [[|]|]; cbn [mbind option_bind negb]; [|done|done].
  match goal with |- context [x ← ?m; _] => destruct m as [[lvl|]|] eqn:Elvl end;
    cbn [mbind option_bind rbind]; try done.
  assert (lvl = Attested ↔ ∃ report h, pow_attestation secret = Some report ∧
    manifest version = Ok h ∧ attest_verify report (pow_value secret) h = Some true) as Htrust.
  { revert Elvl. destruct (pow_attestation secret) as [rep|]; [|intros [= <-]; naive_solver].
    destruct (manifest version) as [h|]; [|done].
    destruct (attest_verify rep (pow_value secret) h) as [[|]|] eqn:Ea; cbn; [| |done];
      intros [= <-]; naive_solver. }
  intros Htok. injection Htok as Htok.
  match type of Htok with rbind ?m _ = _ => destruct m as [t0|] eqn:Et0 end; [|done].
  assert (trust_level t0 = lvl ∧ tk_pow t0 = pow_value secret ∧ tk_peer t0 = key_pub (node_id sender))
    as (<- & Epow & Epeer).
  { revert Et0. destruct (pgp_details self) as [[sw [sig|]]|]; [|done|]; by intros [= <-]. }
  cbn [rbind] in Htok. unfold Token.token_sign in Htok. unfold TOKEN_EXP_SECONDS in *.
  rewrite wrap_small in Htok by lia.
  destruct (signer_sign _ _) as [sig|] eqn:Es; [|done]. cbn in Htok. injection Htok as <-.
  cbn [tk_pow trust_level]. split_and!; [done|done| |done]. intros later.
  unfold Token.verify_for, Token.token_verify, Token.is_expired. cbn. rewrite Epeer.
  rewrite bool_decide_eq_true_2 by done. cbn. rewrite (proj2 (Z.eqb_neq _ _)) by lia.
  destruct (Z.ltb_spec (now + 30 * 60) later); [by rewrite bool_decide_eq_false_2 by lia|].
  rewrite bool_decide_eq_true_2 by lia. rewrite Epeer in Es. exact (sign_verifies _ _ Es).
Qed.

(** An attestation report is accepted exactly when the device key is the
    trusted one, both signatures verify, the enclave's measurement is the
    expected one, and the enclave's data agrees with the nonce on their common
    prefix, which must not be empty; a [data_len] above the size of the data
    makes the check panic once the first signature has passed. *)
Theorem attest_verify_iff `{AuthCrypto} (r : AttestReport) (nonce expected : list Z)
    (trusted : list Z) :
  let e := enclave r in
  let n := Z.to_nat (en_data_len e) in
  let sm_good := trusted = dev_public_key r ∧
    keccak_verify trusted (sm_hash (sm r) ++ sm_public_key (sm r)) (sm_signature (sm r)) = true in
  (report_verify r nonce expected trusted = Some true ↔
   sm_good ∧ n ≤ length (en_data e) ∧
   keccak_verify (sm_public_key (sm r))
     (en_hash e ++ le_bytes 8 (en_data_len e) ++ take n (en_data e)) (en_signature e) = true ∧
   en_hash e = expected ∧ 0 < min (length nonce) n ∧
   take (min (length nonce) n) (en_data e) = take (min (length nonce) n) nonce) ∧
  (report_verify r nonce expected trusted = None ↔ sm_good ∧ length (en_data e) < n).
Proof.
  cbv zeta. unfold report_verify. cbv zeta.
  case_bool_decide as H1; cbn [negb]; [|split; (split; [done|naive_solver])].
  destruct (keccak_verify trusted _ _) eqn:H2; cbn [negb]; [|split; (split; [done|naive_solver])].
  destruct (Nat.leb_spec (Z.to_nat (en_data_len (enclave r))) (length (en_data (enclave r))));
    cbn [negb]; [|split; (split; [done|]); [lia|done]].
  destruct (keccak_verify (sm_public_key (sm r)) _ _) eqn:H3; cbn [negb];
    [|split; (split; [done|]); [naive_solver|lia]].
  case_bool_decide as H4; cbn [negb]; [|split; (split; [done|]); [naive_solver|lia]].
  split; [|split; [done|lia]]. split.
  - intros [= [Hp%Nat.ltb_lt Hq%bool_decide_eq_true]%andb_true_iff]. done.
  - intros (_ & _ & _ & _ & Hp & Hq). f_equal. apply andb_true_iff.
    by rewrite Nat.ltb_lt, bool_decide_eq_true.
Qed.

(** The rate limiter lets through, of any key, exactly the first 100
    requests of its window and no more, whatever the other keys do: from an
    entry-free start, over a stretch of time no longer than the window, the
    number accepted is the smaller of the number asked and the limit. *)
Theorem rate_limit_exact (l : RateLimiter) (k : Key) (evs : list (Z * Key)) (start : Z)
    (Hstart : (0 ≤ start)%Z) (Hmax : (0 ≤ max_per_window l < 2 ^ 32)%Z)
    (Hwindow : (0 ≤ window_seconds l)%Z) (Hfresh : requests l !! k = None)
    (Htimes : timed start (window_seconds l) start evs) :
  accepted k l evs = Z.min (asked k evs) (max_per_window l).
Proof.
  destruct (accepted_bound k l evs start start) as [_ He]; try done.
  - by rewrite Hfresh.
  - rewrite Hfresh in He. by rewrite He.
Qed.

(** In any state the limiter can be in, and over any stretch of time no
    longer than the window, at most twice the limit is accepted of a key: the
    fixed windows allow a burst at the end of one and the start of the next,
    but no more. *)
Theorem rate_limit_interval (l : RateLimiter) (k : Key) (evs : list (Z * Key)) (start : Z)
    (Hstart : (0 ≤ start)%Z) (Hmax : (0 ≤ max_per_window l < 2 ^ 32)%Z)
    (Hwindow : (0 ≤ window_seconds l)%Z)
    (Hentry : entry_ok (max_per_window l) start (requests l !! k))
    (Htimes : timed start (window_seconds l) start evs) :
  (accepted k l evs ≤ 2 * max_per_window l)%Z.
Proof.
  destruct (accepted_bound k l evs start start) as [Hb _]; try done.
  destruct (requests l !! k) as [[c s]|]; cbn in *; [case_decide; lia|lia].
Qed.

(** * Instances of the properties *)

Module AuthExamples.
#[local] Existing Instances Toy.ToyCrypto Toy.ToyCryptoLaws.
#[local] Instance toy_auth : AuthCrypto := {|
  keccak_verify pk d sig := bool_decide (sig = [Toy.checksum (pk ++ d)]);
  PgpKey := unit;
  pgp_verify _ _ _ := true;
|}.

Lemma pow_leading_zeros_witness :
  validate (0 :: 31 :: replicate 30 255)%Z 11 = Some true ∧
  validate (0 :: 32 :: replicate 30 255)%Z 11 = Some false.
Proof.
  split; rewrite pow_leading_zeros;
    (vm_compute; reflexivity) || (by apply (bool_decide_unpack _); vm_compute) || done.
Defined.

Definition me : Signer := Toy.signer [7%Z].

Lemma me_signs : ∀ d, ∃ sig, signer_sign me d = Ok sig.
Proof. intros d. eexists. reflexivity. Qed.

(** The toy hash of [7; 0; 0; 0; 0] and nonce 249 is zero. *)
Lemma prove_then_verify_witness :
  ∃ p, prove 250 me [7%Z] 0 8 = Some (Ok p) ∧ pow_verify p [7%Z] = Some true.
Proof.
  destruct (@prove_then_verify Toy.ToyCrypto Toy.ToyCryptoLaws me (Toy.toy_signer_laws [7%Z])
    0 8 249) as (p & E & _ & _ & _ & Hv);
    [lia|vm_compute; reflexivity|vm_compute; reflexivity|exact me_signs|].
  exists p. split; [exact E|exact Hv].
Defined.

Definition manager : AuthManager := mkAuth [1%Z] (Some ([2%Z], Some [3%Z])) me [4%Z] None.
Definition proof_of_work : PoW :=
  match prove 250 me [7%Z] 0 8 with
  | Some (Ok p) => p
  | _ => mkPoW [] 0 0 None None 0
  end.
Definition peer : Node := mkNode (Key_new [7%Z]) (SocketV4 1 1).
Definition demo_token : Token :=
  match issue_token 1000 (λ _, Err tt) manager peer proof_of_work "1.0" with
  | Some (Ok t) => t
  | _ => Token.token_new [] [] Rejected
  end.

Lemma issue_token_sound_witness :
  trust_level demo_token = Unattested ∧
  Token.verify_for 2800 demo_token [7%Z] = true ∧ Token.verify_for 2801 demo_token [7%Z] = false.
Proof.
  split; [vm_compute; reflexivity|].
  destruct (@issue_token_sound Toy.ToyCrypto Toy.ToyCryptoLaws toy_auth 1000 (λ _, Err tt)
    manager (Toy.toy_signer_laws [7%Z]) peer proof_of_work "1.0") as [_ Hi];
    [by split; vm_compute|].
  destruct (Hi demo_token) as (_ & _ & Hv & _); [vm_compute; reflexivity|].
  split; [exact (Hv 2800%Z)|exact (Hv 2801%Z)].
Defined.

Definition busy : list (Z * Key) :=
  concat (map (λ i, [(100 + Z.of_nat i, node_id peer); (100 + Z.of_nat i, mkKey [] [])]%Z)
              (seq 0 5)).

Lemma rate_limit_exact_witness :
  accepted (node_id peer) (RateLimiter.limiter_new 3 60) busy = 3%Z.
Proof.
  rewrite (rate_limit_exact (RateLimiter.limiter_new 3 60) (node_id peer) busy 100);
    [vm_compute; reflexivity|lia|by split; vm_compute|vm_compute; done|reflexivity|].
  vm_compute. repeat split; intros; discriminate.
Defined.

Definition old_entry : RateLimiter := mkLimiter {[ node_id peer := (0, 45)%Z ]} 3 60.

Lemma rate_limit_interval_witness :
  (accepted (node_id peer) old_entry busy ≤ 6)%Z ∧
  accepted (node_id peer) old_entry busy = 3%Z.
Proof.
  split; [|vm_compute; reflexivity].
  apply (rate_limit_interval old_entry (node_id peer) busy 100);
    [lia|by split; vm_compute|vm_compute; done|vm_compute; repeat split; intros; discriminate|].
  vm_compute. repeat split; intros; discriminate.
Defined.
End AuthExamples.
