(* ===== verification/Manifest.v ===== *)
(** The manifest of the released enclaves: [dht/manifest.rs], with the tokens that
    [Auth.issue_token] grants by it.

    The web server, the JSON parser and the hexadecimal decoder are arguments; the
    signature is checked by the scheme of [Crypto]. *)

From S2P Require Import Prelude Net Crypto Routing Auth.

(** src/src/bit_torrent/dht/manifest.rs:5-8 [MAIN_CA_PUBLIC_KEY] *)
Definition MAIN_CA_PUBLIC_KEY : list Z :=
  [56; 111; 66; 84; 153; 195; 16; 204; 214; 143; 168; 34; 151; 8; 239; 9;
   29; 22; 101; 77; 19; 129; 48; 234; 214; 34; 185; 109; 20; 41; 124; 105]%Z.

(** src/src/bit_torrent/dht/manifest.rs:10-10 [MANIFEST_URL] *)
Definition MANIFEST_URL : string := "https://onlycavas.github.io/bqti/manifest.json".
(** src/src/bit_torrent/dht/manifest.rs:11-11 [MANIFEST_SIG_URL] *)
Definition MANIFEST_SIG_URL : string := "https://onlycavas.github.io/bqti/manifest.sig".

(** src/src/bit_torrent/dht/manifest.rs:13-26 [ManifestError] *)
Inductive ManifestError :=
| Http
| InvalidSignature
| VersionMismatch (expected got : string)
| InvalidHash.

(** src/src/bit_torrent/dht/manifest.rs:30-34 [Manifest] *)
Record Manifest := mkManifest { mf_version : string; mf_enclave_hash : string }.

Section manifest.
(** A page of the web ([None] when it cannot be fetched) and the parsed manifest. *)
Context `{Crypto} `{Hex} (reqwest_get : string → option (list Z)).
Context (from_slice : list Z → option Manifest).

(** src/src/bit_torrent/dht/manifest.rs:37-52 [Manifest::get] *)
Definition manifest_get : Result ManifestError Manifest :=
  match reqwest_get MANIFEST_URL, reqwest_get MANIFEST_SIG_URL with
  | Some manifest, Some signature =>
    if negb (ed25519_verify MAIN_CA_PUBLIC_KEY manifest signature) then Err InvalidSignature
    else match from_slice manifest with Some m => Ok m | None => Err InvalidHash end
  | _, _ => Err Http
  end.

(** [hex::decode_to_slice]: as many bytes as the slice has. *)
Definition decode_to_slice (n : nat) (s : string) : option (list Z) :=
  bs ← hex_decode s; if length bs =? n then Some bs else None.

(** src/src/bit_torrent/dht/manifest.rs:54-69 [Manifest::get_enclave_hash] *)
Definition get_enclave_hash (version : string) : Result ManifestError (list Z) :=
  let? manifest := manifest_get in
  if negb (bool_decide (mf_version manifest = version)) then
    Err (VersionMismatch version (mf_version manifest))
  else match decode_to_slice 64 (mf_enclave_hash manifest) with
       | Some enclave_hash => Ok enclave_hash
       | None => Err InvalidHash
       end.

(** What the main authority has published: a text with its signature, a manifest in it,
    for this version, and the measurement it names. *)
Definition published (version : string) (h : list Z) : Prop :=
  ∃ text sig m, reqwest_get MANIFEST_URL = Some text ∧ reqwest_get MANIFEST_SIG_URL = Some sig ∧
    ed25519_verify MAIN_CA_PUBLIC_KEY text sig = true ∧ from_slice text = Some m ∧
    mf_version m = version ∧ hex_decode (mf_enclave_hash m) = Some h ∧ length h = 64.

Lemma get_enclave_hash_iff version h : get_enclave_hash version = Ok h ↔ published version h.
Proof.
  unfold get_enclave_hash, manifest_get, published, decode_to_slice.
  destruct (reqwest_get MANIFEST_URL) as [text|]; cbn [rbind]; [|by split; [|intros (? & ? & ? & ? & _)]].
  destruct (reqwest_get MANIFEST_SIG_URL) as [sig|]; cbn [rbind];
    [|by split; [|intros (? & ? & ? & _ & ? & _)]].
  split.
  - destruct (ed25519_verify _ _ _) eqn:Ev; [|done]. cbn [negb rbind].
    destruct (from_slice text) as [m|] eqn:Em; [|done]. cbn [rbind].
    case_bool_decide as Hb; [|done]. cbn [negb].
    destruct (hex_decode (mf_enclave_hash m)) as [bs|] eqn:Eh; [|done]. cbn [mbind option_bind].
    destruct (Nat.eqb_spec (length bs) 64); [|done]. intros [= ->]. by exists text, sig, m.
  - intros (? & ? & m & [= <-] & [= <-] & -> & -> & <- & Hh & Hl). cbn [negb rbind].
    rewrite bool_decide_eq_true_2 by done. cbn [negb]. rewrite Hh. cbn. by rewrite Hl.
Qed.

(** The answer a token is issued by: the kind of the error is not looked at. *)
Definition manifest (version : string) : Result unit (list Z) :=
  map_err (λ _, tt) (get_enclave_hash version).

Lemma manifest_ok version h : manifest version = Ok h ↔ published version h.
Proof.
  rewrite <-get_enclave_hash_iff. unfold manifest.
  destruct (get_enclave_hash version); cbn; naive_solver.
Qed.
End manifest.

(** The report of an enclave whose measurement is [h], for the proof of work [value]: the
    device key is the known one, it signed the security monitor, whose key signed the
    enclave, which agrees with the proof of work on their common prefix. *)
Record vouched `{AuthCrypto} (report : AttestReport) (value h : list Z) : Prop := {
  vo_device : dev_public_key report = SANCTUM_DEV_PUBLIC_KEY;
  vo_monitor : keccak_verify SANCTUM_DEV_PUBLIC_KEY
    (sm_hash (sm report) ++ sm_public_key (sm report)) (sm_signature (sm report)) = true;
  vo_enclave : let e := enclave report in
    let n := Z.to_nat (en_data_len e) in
    keccak_verify (sm_public_key (sm report))
      (en_hash e ++ le_bytes 8 (en_data_len e) ++ take n (en_data e)) (en_signature e) = true ∧
    n ≤ length (en_data e) ∧ 0 < min (length value) n ∧
    take (min (length value) n) (en_data e) = take (min (length value) n) value;
  vo_measurement : en_hash (enclave report) = h;
}.

Lemma attest_verify_vouched `{AuthCrypto} report value h :
  attest_verify report value h = Some true ↔ vouched report value h.
Proof.
  unfold attest_verify.
  destruct (attest_verify_iff report value h SANCTUM_DEV_PUBLIC_KEY) as [Hi _]. rewrite Hi. split.
  - intros ((Hd & Hk) & Hn & He & Hh & Hp & Ht). by split.
  - intros [Hd Hk (He & Hn & Hp & Ht) Hh]. by split_and!.
Qed.

(** * Properties *)

(** C37: A token is granted for work and attestation as published.  A wrong proof of work is
    refused before anything else is looked at; with an enclave's report the token is
    refused as long as the main authority has published nothing for the version the
    peer names.  A token that is issued is bound to the sender's key and its proof of work
    and verifies for that key until thirty minutes have passed and not after; it is
    marked attested exactly when the report was signed along the chain from the device key
    and its measurement is the one that the authority's key signed for that version.
    The trust level does not enter the verification: a sender whose report fails
    gets a token that verifies all the same. *)
Theorem issued_token_attested `{CryptoLaws} `{AuthCrypto} `{Hex} (now : Z)
    (reqwest_get : string → option (list Z)) (from_slice : list Z → option Manifest)
    (self : AuthManager) `{!SignerLaws (inner_cert self)} (sender : Node) (secret : PoW)
    (version : string) (Hnow : (0 ≤ now ∧ now + TOKEN_EXP_SECONDS < 2 ^ 64)%Z) :
  let pub := key_pub (node_id sender) in
  let issue := issue_token now (manifest reqwest_get from_slice) self sender secret version in
  (pow_verify secret pub = Some false → issue = Some (Err RoguePeer)) ∧
  (pow_verify secret pub = Some true → is_Some (pow_attestation secret) →
   (∀ h, ¬ published reqwest_get from_slice version h) → issue = Some (Err Auth.ManifestError)) ∧
  ∀ tok, issue = Some (Ok tok) →
    pow_verify secret pub = Some true ∧ tk_pow tok = pow_value secret ∧
    (∀ later, Token.verify_for later tok pub = bool_decide (later ≤ now + TOKEN_EXP_SECONDS)%Z) ∧
    (trust_level tok = Attested ↔
     ∃ report h, pow_attestation secret = Some report ∧ published reqwest_get from_slice version h ∧
       vouched report (pow_value secret) h).
Proof.
  intros pub issue.
  destruct (issue_token_sound now (manifest reqwest_get from_slice) self sender secret version Hnow)
    as [Hw Hi]. split; [done|]. split.
  - intros Hp [report Hr] Hno. unfold issue, issue_token. fold pub. rewrite Hp, Hr. cbn.
    destruct (manifest reqwest_get from_slice version) as [h|] eqn:E; [|done].
    apply manifest_ok in E. by destruct (Hno h).
  - intros tok Ht. destruct (Hi tok Ht) as (Hp & Hv & Hl & Ha). split_and!; try done.
    rewrite Ha. setoid_rewrite manifest_ok. by setoid_rewrite attest_verify_vouched.
Qed.

Module ManifestExamples.
Import AuthExamples.
#[local] Existing Instances Toy.ToyCrypto Toy.ToyCryptoLaws toy_auth ToyHex.hex.

(** The authority has published the measurement of 64 sevens for version 1.0. *)
Definition text : list Z := [1; 2]%Z.
Definition release : Manifest := mkManifest "1.0" (hex_encode (replicate 64 7%Z)).
Definition web (url : string) : option (list Z) :=
  if bool_decide (url = MANIFEST_URL) then Some text
  else Some (replicate 64 (Toy.checksum (MAIN_CA_PUBLIC_KEY ++ text))).
Definition parse (bs : list Z) : option Manifest :=
  if bool_decide (bs = text) then Some release else None.

(** A report of an enclave with that measurement, over the proof of work. *)
Definition report_of (h : list Z) : AttestReport :=
  let data := pow_value proof_of_work in
  mkReport
    (mkEnclave h (Z.of_nat (length data)) data
       [Toy.checksum ([5%Z] ++ h ++ le_bytes 8 (Z.of_nat (length data)) ++ data)])
    (mkSm [6%Z] [5%Z] [Toy.checksum (SANCTUM_DEV_PUBLIC_KEY ++ [6; 5]%Z)])
    SANCTUM_DEV_PUBLIC_KEY.
Definition attested_work (h : list Z) : PoW :=
  mkPoW (pow_value proof_of_work) (pow_challange proof_of_work) (pow_nonce proof_of_work)
    (pow_signature proof_of_work) (Some (report_of h)) (pow_difficulty proof_of_work).
Definition issued (h : list Z) (version : string) : option (Result AuthError Token) :=
  issue_token 1000 (manifest web parse) manager peer (attested_work h) version.
Definition trust_of (r : option (Result AuthError Token)) : option TrustLevel :=
  match r with Some (Ok t) => Some (trust_level t) | _ => None end.

(** The published enclave is attested, another is rejected, and a version that is not
    published is refused. *)
Example trust_levels :
  trust_of (issued (replicate 64 7%Z) "1.0") = Some Attested ∧
  trust_of (issued (replicate 64 8%Z) "1.0") = Some Rejected ∧
  issued (replicate 64 7%Z) "1.1" = Some (Err Auth.ManifestError).
Proof. by vm_compute. Qed.

Definition granted : Token :=
  match issued (replicate 64 7%Z) "1.0" with
  | Some (Ok t) => t | _ => Token.token_new [] [] Rejected end.

Lemma issued_token_attested_witness :
  Token.verify_for 2800 granted [7%Z] = true ∧ Token.verify_for 2801 granted [7%Z] = false ∧
  ∃ report h, published web parse "1.0" h ∧ vouched report (pow_value proof_of_work) h.
Proof.
  destruct (@issued_token_attested Toy.ToyCrypto Toy.ToyCryptoLaws toy_auth ToyHex.hex 1000 web parse
    manager (Toy.toy_signer_laws [7%Z]) peer (attested_work (replicate 64 7%Z)) "1.0")
    as (_ & _ & Hi); [by split; vm_compute|].
  destruct (Hi granted) as (_ & _ & Hv & Ha); [vm_compute; reflexivity|].
  split; [exact (Hv 2800%Z)|]. split; [exact (Hv 2801%Z)|].
  destruct (proj1 Ha) as (report & h & _ & Hp & Hr); [by vm_compute|]. by exists report, h.
Defined.
End ManifestExamples.
