(* ===== verification/Fs.v ===== *)
(** The part of the file system interface ([std::fs], [std::path]) that the
    program's own directories are made with: path resolution with symbolic
    links, owner permission bits, hard links, directory creation and removal.

    A [Path] is the list of its components, ["/"] first when it is absolute,
    which is how [std::path] compares, joins and cuts paths.  The tree maps the
    resolved location of a node (the names from the root) to the node; a regular
    file is an inode, so that two names can share it.  All nodes belong to the
    user the process runs as; [root] is whether that user bypasses the
    permission bits. *)

From S2P Require Import Prelude.

(** * Paths *)

Definition Path := list string.

(** [Path::join]. *)
Definition join (p q : Path) : Path :=
  match q with
  | "/" :: _ => q
  | "." :: q' => match p with [] => q | _ => p ++ q' end
  | _ => p ++ q
  end.

Fixpoint removelast {A} (l : list A) : list A :=
  match l with [] | [_] => [] | x :: l => x :: removelast l end.

(** [Path::parent]: without the last component. *)
Definition parent (p : Path) : option Path :=
  match p with [] | ["/"] => None | _ => Some (removelast p) end.

(** [Path::file_name]: the last component when it is a name. *)
Definition path_file_name (p : Path) : option string :=
  match last p with
  | Some c => if bool_decide (c = "/" ∨ c = ".." ∨ c = ".") then None else Some c
  | None => None
  end.

(** * The tree *)

Definition Location := list string.

Inductive Node :=
| NDir (mode : Z)
| NFile (ino : nat)
| NLink (target : Path).

Record Inode := mkInode { i_mode : Z; i_data : list Z }.

Record Fs := mkFs { tree : gmap Location Node; inodes : gmap nat Inode }.

Inductive FsError :=
  ENOENT | EEXIST | ENOTDIR | EISDIR | EACCES | EPERM | ELOOP | ENOTEMPTY.

#[export] Instance Node_eq_dec : EqDecision Node.
Proof. solve_decision. Defined.
#[export] Instance Inode_eq_dec : EqDecision Inode.
Proof. solve_decision. Defined.
#[export] Instance FsError_eq_dec : EqDecision FsError.
Proof. solve_decision. Defined.
#[export] Instance Result_eq_dec {E A} `{EqDecision E, EqDecision A} : EqDecision (Result E A).
Proof. solve_decision. Defined.

Definition node (fs : Fs) (r : Location) : option Node :=
  match r with [] => Some (NDir 493) | _ => tree fs !! r end.

Definition set_node (r : Location) (n : Node) (fs : Fs) : Fs :=
  mkFs (<[r := n]> (tree fs)) (inodes fs).
Definition del_node (r : Location) (fs : Fs) : Fs := mkFs (delete r (tree fs)) (inodes fs).
Definition set_inode (i : nat) (x : Inode) (fs : Fs) : Fs :=
  mkFs (tree fs) (<[i := x]> (inodes fs)).

(** A call: the state it leaves, also when it fails, and its result. *)
Definition Io (A : Type) : Type := Fs → Fs * Result FsError A.

#[export] Instance Io_ret : MRet Io := λ A x fs, (fs, Ok x).
#[export] Instance Io_bind : MBind Io := λ A B k m fs,
  match m fs with (fs, Ok x) => k x fs | (fs, Err e) => (fs, Err e) end.

Definition fail {A} (e : FsError) : Io A := λ fs, (fs, Err e).
Definition gets {A} (f : Fs → A) : Io A := λ fs, (fs, Ok (f fs)).
Definition liftR {A} (f : Fs → Result FsError A) : Io A := λ fs, (fs, f fs).
Definition modify (f : Fs → Fs) : Io unit := λ fs, (f fs, Ok tt).
(** [a.or_else(|_| b)] *)
Definition or_else {A} (a b : Io A) : Io A := λ fs,
  match a fs with (fs, Ok x) => (fs, Ok x) | (fs, Err _) => b fs end.
Section Fs.
Context (root : bool) (cwd : Location).

(** The owner's read, write and execute bits. *)
Definition can_read (mode : Z) : bool := root || Z.testbit mode 8.
Definition can_write (mode : Z) : bool := root || Z.testbit mode 7.
Definition can_search (mode : Z) : bool := root || Z.testbit mode 6.

(** Path resolution.  [follow] is whether a symbolic link at the last component
    is followed; [links] bounds the symbolic links followed.  The last component
    need not exist. *)
Fixpoint walk (links : nat) (fs : Fs) (follow : bool)
    : Location → Path → Result FsError Location :=
  fix go cur rest :=
    match rest with
    | [] => Ok cur
    | c :: rest =>
      if bool_decide (c = "/") then go [] rest
      else
        match node fs cur with
        | Some (NDir mode) =>
          if can_search mode then
            if bool_decide (c = ".") then go cur rest
            else if bool_decide (c = "..") then go (removelast cur) rest
            else
              match node fs (cur ++ [c]), rest with
              | None, [] => Ok (cur ++ [c])
              | None, _ => Err ENOENT
              | Some (NFile _), [] => Ok (cur ++ [c])
              | Some (NFile _), _ => Err ENOTDIR
              | Some (NDir _), _ => go (cur ++ [c]) rest
              | Some (NLink t), _ =>
                if match rest with [] => negb follow | _ => false end then Ok (cur ++ [c])
                else match links with
                     | O => Err ELOOP
                     | S links => walk links fs follow cur (t ++ rest)
                     end
              end
          else Err EACCES
        | _ => Err ENOTDIR
        end
    end.

(** Linux follows at most 40 symbolic links. *)
Definition resolve (fs : Fs) (follow : bool) (p : Path) : Result FsError Location :=
  match p with [] => Err ENOENT | _ => walk 40 fs follow cwd p end.

(** [stat] and [lstat]. *)
Definition stat (fs : Fs) (p : Path) : Result FsError (Location * Node) :=
  let? r := resolve fs true p in let? n := ok_or ENOENT (node fs r) in Ok (r, n).
Definition lstat (fs : Fs) (p : Path) : Result FsError (Location * Node) :=
  let? r := resolve fs false p in let? n := ok_or ENOENT (node fs r) in Ok (r, n).

(** [Path::exists], [is_dir], [is_file], [is_symlink]. *)
Definition exists_ (fs : Fs) (p : Path) : bool := is_ok (stat fs p).
Definition is_dir (fs : Fs) (p : Path) : bool :=
  match stat fs p with Ok (_, NDir _) => true | _ => false end.
Definition is_file (fs : Fs) (p : Path) : bool :=
  match stat fs p with Ok (_, NFile _) => true | _ => false end.
Definition is_symlink (fs : Fs) (p : Path) : bool :=
  match lstat fs p with Ok (_, NLink _) => true | _ => false end.

(** An entry is added to or removed from a directory that is writable and
    searchable. *)
Definition may_edit (fs : Fs) (r : Location) : bool :=
  match node fs (removelast r) with
  | Some (NDir mode) => can_write mode && can_search mode
  | _ => false
  end.

(** A new entry at a path: where, when nothing is there. *)
Definition new_entry (p : Path) : Io Location :=
  r ← liftR (λ fs, resolve fs false p);
  n ← gets (λ fs, node fs r);
  match n with
  | Some _ => fail EEXIST
  | None => ok ← gets (λ fs, may_edit fs r); if ok : bool then mret r else fail EACCES
  end.

(** [mkdir]; the mode is masked by the [umask] 022. *)
Definition mkdir (mode : Z) (p : Path) : Io unit :=
  r ← new_entry p; modify (set_node r (NDir (Z.land mode 493))).

(** [DirBuilder::create] with [recursive]: the directory, on [ENOENT] its parent
    first. *)
Fixpoint create_dir_all_at (fuel : nat) (mode : Z) (p : Path) : Io unit := λ fs,
  match p with
  | [] => (fs, Ok tt)
  | _ =>
    match mkdir mode p fs with
    | (fs, Ok _) => (fs, Ok tt)
    | (fs, Err ENOENT) =>
      match parent p, fuel with
      | Some q, S fuel =>
        match create_dir_all_at fuel mode q fs with
        | (fs, Err e) => (fs, Err e)
        | (fs, Ok _) =>
          match mkdir mode p fs with
          | (fs, Ok _) => (fs, Ok tt)
          | (fs, Err e) => if is_dir fs p then (fs, Ok tt) else (fs, Err e)
          end
        end
      | _, _ => (fs, Err ENOENT)
      end
    | (fs, Err e) => if is_dir fs p then (fs, Ok tt) else (fs, Err e)
    end
  end.

(** The recursion is on the parents of the path. *)
Definition create_dir_all (mode : Z) (p : Path) : Io unit := create_dir_all_at (length p) mode p.

(** [fs::hard_link]: [linkat] without following a link at the source. *)
Definition hard_link (src dst : Path) : Io unit :=
  s ← liftR (λ fs, lstat fs src);
  r ← new_entry dst;
  match s.2 with
  | NDir _ => fail EPERM
  | n => modify (set_node r n)
  end.

(** [std::os::unix::fs::symlink]. *)
Definition symlink (target dst : Path) : Io unit :=
  r ← new_entry dst; modify (set_node r (NLink target)).

(** [fs::remove_file]. *)
Definition remove_file (p : Path) : Io unit :=
  s ← liftR (λ fs, lstat fs p);
  match s.2 with
  | NDir _ => fail EISDIR
  | _ => ok ← gets (λ fs, may_edit fs s.1);
         if ok : bool then modify (del_node s.1) else fail EACCES
  end.

(** The locations at and below one. *)
Definition below (fs : Fs) (r : Location) : list Location :=
  List.filter (λ q, bool_decide (take (length r) q = r)) (map fst (map_to_list (tree fs))).

(** The entries of a directory. *)
Definition children (fs : Fs) (r : Location) : list string :=
  omap (λ q, if bool_decide (removelast q = r) then last q else None)
    (map fst (map_to_list (tree fs))).

Definition remove_entry (r : Location) : Io unit :=
  ok ← gets (λ fs, may_edit fs r); if ok : bool then modify (del_node r) else fail EACCES.

Fixpoint remove_all (rs : list Location) : Io unit :=
  match rs with [] => mret tt | r :: rs => _ ← remove_entry r; remove_all rs end.

Definition deeper (q r : Location) : Prop := length r ≤ length q.
#[global] Instance deeper_dec q r : Decision (deeper q r).
Proof. unfold deeper. apply _. Defined.

(** [fs::remove_dir_all]: a link is removed, a directory with all below it, the
    contents of a directory before the directory; it stops at the first error.
    The listing of a directory needs its read bit. *)
Definition remove_dir_all (p : Path) : Io unit :=
  s ← liftR (λ fs, lstat fs p);
  match s.2 with
  | NLink _ => remove_entry s.1
  | NFile _ => fail ENOTDIR
  | NDir _ =>
    rs ← gets (λ fs, merge_sort deeper (below fs s.1));
    ok ← gets (λ fs, forallb (λ r, match node fs r with
                                   | Some (NDir mode) => can_read mode
                                   | _ => true end) rs);
    if ok : bool then remove_all rs else fail EACCES
  end.

(** [fs::read_dir]: the names; their order is the file system's. *)
Definition read_dir (p : Path) : Io (list string) :=
  s ← liftR (λ fs, stat fs p);
  match s.2 with
  | NDir mode => if can_read mode then gets (λ fs, children fs s.1) else fail EACCES
  | _ => fail ENOTDIR
  end.

(** [fs::set_permissions], which follows a link. *)
Definition chmod (mode : Z) (p : Path) : Io unit :=
  s ← liftR (λ fs, stat fs p);
  match s.2 with
  | NDir _ => match s.1 with [] => fail EPERM | _ => modify (set_node s.1 (NDir mode)) end
  | NFile i =>
    x ← gets (λ fs, inodes fs !! i);
    match x with
    | Some x => modify (set_inode i (mkInode mode (i_data x)))
    | None => fail ENOENT
    end
  | NLink _ => fail ELOOP
  end.

Definition mode_of (fs : Fs) (i : nat) : Z := default 0%Z (i_mode <$> inodes fs !! i).

(** [open] with [O_CREAT]: the file found, when the access [need] is granted, or
    a new empty one of mode 644. *)
Definition open_create (need : Z → bool) (p : Path) : Io nat :=
  r ← liftR (λ fs, resolve fs true p);
  n ← gets (λ fs, node fs r);
  match n with
  | Some (NFile i) =>
    ok ← gets (λ fs, need (mode_of fs i)); if ok : bool then mret i else fail EACCES
  | Some (NDir _) => fail EISDIR
  | Some (NLink _) => fail ELOOP
  | None =>
    ok ← gets (λ fs, may_edit fs r);
    if ok : bool then
      i ← gets (λ fs, fresh (dom (inodes fs)));
      _ ← modify (λ fs, set_node r (NFile i) (set_inode i (mkInode 420 []) fs)); mret i
    else fail EACCES
  end.

(** [OpenOptions::new().read(true).write(true).create(true).open]. *)
Definition open_rw (p : Path) : Io nat := open_create (λ m, can_read m && can_write m) p.

(** [fs::write]: create or truncate. *)
Definition write (p : Path) (bytes : list Z) : Io unit :=
  i ← open_create can_write p;
  modify (λ fs, set_inode i (mkInode (mode_of fs i) bytes) fs).

(** [fs::rename] of a file: another file at the destination is replaced, and two
    names of one file are left alone. *)
Definition rename (src dst : Path) : Io unit :=
  s ← liftR (λ fs, lstat fs src);
  r ← liftR (λ fs, resolve fs false dst);
  n ← gets (λ fs, node fs r);
  ok ← gets (λ fs, may_edit fs s.1 && may_edit fs r);
  match s.2, n with
  | NDir _, _ => fail ENOTDIR
  | _, Some (NDir _) => fail EISDIR
  | m, _ =>
    if bool_decide (n = Some m) then mret tt
    else if ok : bool then modify (λ fs, set_node r m (del_node s.1 fs)) else fail EACCES
  end.

(** [fs::read]. *)
Definition read (fs : Fs) (p : Path) : Result FsError (list Z) :=
  let? (_, n) := stat fs p in
  match n with
  | NFile i => match inodes fs !! i with
               | Some x => if can_read (i_mode x) then Ok (i_data x) else Err EACCES
               | None => Err ENOENT
               end
  | _ => Err EISDIR
  end.

(** * Resolution only finds more when nodes are added *)

Definition grows (fs fs' : Fs) : Prop := tree fs ⊆ tree fs' ∧ inodes fs' = inodes fs.

#[global] Instance grows_preorder : PreOrder grows.
Proof.
  split; [by intros ?|]. intros ??? [??] [??]. split; [by etrans|congruence].
Qed.

Lemma grows_node fs fs' r n : grows fs fs' → node fs r = Some n → node fs' r = Some n.
Proof. intros [Ht _]. destruct r; [done|]. simpl. intros Hn. by eapply lookup_weaken. Qed.

Lemma walk_grows fs fs' follow links cur p r :
  grows fs fs' → walk links fs follow cur p = Ok r → is_Some (node fs r) →
  walk links fs' follow cur p = Ok r.
Proof.
  intros Hg. revert cur p. induction links as [|links IHl]; intros cur p; revert cur;
    induction p as [|c rest IH]; intros cur Hw Hn; [done| |done|].
  all: cbn in Hw |- *; case_bool_decide; [by apply IH|].
  all: destruct (node fs cur) as [[m| |]|] eqn:E; try done; rewrite (grows_node _ _ _ _ Hg E).
  all: destruct (can_search m); [|done].
  all: case_bool_decide; [by apply IH|]; case_bool_decide; [by apply IH|].
  all: destruct (node fs (cur ++ [c])) as [nd|] eqn:E1;
    [rewrite (grows_node _ _ _ _ Hg E1)
    |destruct rest; simplify_eq; by destruct Hn; congruence].
  all: destruct nd; [by apply IH|done|].
  all: destruct (match rest with [] => negb follow | _ => false end); [done|].
  - done.
  - by apply IHl.
Qed.

Lemma resolve_grows fs fs' follow p r :
  grows fs fs' → resolve fs follow p = Ok r → is_Some (node fs r) → resolve fs' follow p = Ok r.
Proof. intros Hg. unfold resolve. destruct p; [done|]. by apply walk_grows. Qed.

Lemma stat_grows fs fs' p x : grows fs fs' → stat fs p = Ok x → stat fs' p = Ok x.
Proof.
  intros Hg. unfold stat. destruct (resolve fs true p) as [r|] eqn:E; [|done]. simpl.
  destruct (node fs r) as [n|] eqn:En; [|done]. intros [= <-].
  rewrite (resolve_grows _ _ _ _ _ Hg E) by eauto. simpl. by rewrite (grows_node _ _ _ _ Hg En).
Qed.

Lemma lstat_grows fs fs' p x : grows fs fs' → lstat fs p = Ok x → lstat fs' p = Ok x.
Proof.
  intros Hg. unfold lstat. destruct (resolve fs false p) as [r|] eqn:E; [|done]. simpl.
  destruct (node fs r) as [n|] eqn:En; [|done]. intros [= <-].
  rewrite (resolve_grows _ _ _ _ _ Hg E) by eauto. simpl. by rewrite (grows_node _ _ _ _ Hg En).
Qed.

Lemma exists_grows fs fs' p : grows fs fs' → exists_ fs p = true → exists_ fs' p = true.
Proof.
  intros Hg. unfold exists_. destruct (stat fs p) as [x|] eqn:E; [|done].
  by rewrite (stat_grows _ _ _ _ Hg E).
Qed.

Lemma is_dir_grows fs fs' p : grows fs fs' → is_dir fs p = true → is_dir fs' p = true.
Proof.
  intros Hg. unfold is_dir. destruct (stat fs p) as [x|] eqn:E; [|done].
  by rewrite (stat_grows _ _ _ _ Hg E).
Qed.

Lemma set_node_grows fs r n : node fs r = None → grows fs (set_node r n fs).
Proof. intros Hn. split; [|done]. apply insert_subseteq. by destruct r. Qed.

(** * The calls *)

Lemma new_entry_ok p fs fs' r :
  new_entry p fs = (fs', Ok r) →
  fs' = fs ∧ resolve fs false p = Ok r ∧ node fs r = None ∧ may_edit fs r = true.
Proof.
  unfold new_entry, mbind, Io_bind, liftR, gets, fail, mret, Io_ret.
  destruct (resolve fs false p) as [r'|]; [|done].
  destruct (node fs r') eqn:En; [done|]. destruct (may_edit fs r') eqn:Em; [|done].
  intros [= <- <-]. done.
Qed.

Lemma new_entry_state p fs : (new_entry p fs).1 = fs.
Proof.
  unfold new_entry, mbind, Io_bind, liftR, gets, fail, mret, Io_ret.
  destruct (resolve fs false p); [|done]. destruct (node fs _); [done|]. by destruct (may_edit _ _).
Qed.

Lemma mkdir_grows m p fs : grows fs (mkdir m p fs).1.
Proof.
  unfold mkdir, mbind, Io_bind. destruct (new_entry p fs) as [fs1 [r|e]] eqn:E.
  - apply new_entry_ok in E as (-> & _ & Hn & _). by apply set_node_grows.
  - pose proof (new_entry_state p fs) as Hs. rewrite E in Hs. by simpl in *; subst.
Qed.

Lemma create_dir_all_at_grows fuel m p fs : grows fs (create_dir_all_at fuel m p fs).1.
Proof.
  revert p fs. induction fuel as [|fuel IH]; intros p fs;
    cbn [create_dir_all_at]; destruct p as [|c p]; try done.
  all: pose proof (mkdir_grows m (c :: p) fs) as Hg;
    destruct (mkdir m (c :: p) fs) as [fs1 [?|e]]; cbn [fst] in Hg; [done|].
  all: assert (Hd : grows fs (if is_dir fs1 (c :: p) then (fs1, Ok tt) else (fs1, Err e)).1)
      by by destruct (is_dir _ _).
  all: destruct e; try exact Hd; destruct (parent (c :: p)) as [q|]; try done.
  pose proof (IH q fs1) as Hg2.
  destruct (create_dir_all_at fuel m q fs1) as [fs2 [?|e2]]; cbn [fst] in *;
    [|by transitivity fs1].
  pose proof (mkdir_grows m (c :: p) fs2) as Hg3.
  assert (grows fs (mkdir m (c :: p) fs2).1) by by transitivity fs1; [|transitivity fs2].
  destruct (mkdir m (c :: p) fs2) as [fs3 [?|e3]]; cbn [fst] in *; [done|].
  by destruct (is_dir fs3 _).
Qed.

Lemma create_dir_all_grows m p fs : grows fs (create_dir_all m p fs).1.
Proof. apply create_dir_all_at_grows. Qed.

Lemma hard_link_grows src dst fs : grows fs (hard_link src dst fs).1.
Proof.
  unfold hard_link, mbind, Io_bind, liftR. destruct (lstat fs src) as [[s n]|]; [|done].
  destruct (new_entry dst fs) as [fs1 [r|e]] eqn:E.
  - apply new_entry_ok in E as (-> & _ & Hn & _). destruct n; [done|..]; by apply set_node_grows.
  - pose proof (new_entry_state dst fs) as Hs. rewrite E in Hs. by simpl in *; subst.
Qed.

(** * Paths without symbolic links *)

Definition name_ok (c : string) : Prop := c ≠ "/" ∧ c ≠ "." ∧ c ≠ "..".

(** A location whose names are plain and on whose way there is no link. *)
Definition straight (fs : Fs) (r : Location) : Prop :=
  Forall name_ok r ∧ ∀ q t, q `prefix_of` r → node fs q ≠ Some (NLink t).

#[global] Instance name_ok_dec c : Decision (name_ok c).
Proof. unfold name_ok. apply _. Defined.

Definition is_link (n : option Node) : bool :=
  match n with Some (NLink _) => true | _ => false end.

Definition straightb (fs : Fs) (r : Location) : bool :=
  bool_decide (Forall name_ok r) &&
  forallb (λ k, negb (is_link (node fs (take k r)))) (seq 0 (S (length r))).

Lemma straightb_ok fs r : straightb fs r = true → straight fs r.
Proof.
  unfold straightb. intros [Hn Hl]%andb_true_iff. b2p. split; [done|].
  intros q t [k ->] Hq. rewrite forallb_forall in Hl. specialize (Hl (length q)).
  rewrite take_app_length, Hq in Hl. discriminate Hl. apply in_seq. rewrite length_app. lia.
Qed.

Lemma straight_prefix fs r q : straight fs r → q `prefix_of` r → straight fs q.
Proof.
  intros [Hn Hl] Hq. split; [|intros q' t Hq'; apply Hl; by etrans].
  destruct Hq as [k ->]. by apply Forall_app in Hn as [? _].
Qed.

Lemma removelast_app_one {A} (l : list A) x : removelast (l ++ [x]) = l.
Proof. induction l as [|y l IH]; [done|]. simpl. rewrite IH. by destruct l. Qed.

Lemma snoc_ne {A} (l : list A) x : l ++ [x] ≠ l.
Proof. intros E%(f_equal length). rewrite length_app in E. simpl in E. lia. Qed.

Lemma removelast_prefix {A} (l : list A) : removelast l `prefix_of` l.
Proof.
  destruct l as [|x l] using rev_ind; [done|]. rewrite removelast_app_one. by exists [x].
Qed.

Lemma straight_parent fs r : straight fs r → straight fs (removelast r).
Proof. intros Hs. eapply straight_prefix; [done|apply removelast_prefix]. Qed.

Lemma parent_abs (r : Location) : r ≠ [] → parent ("/" :: r) = Some ("/" :: removelast r).
Proof. by destruct r. Qed.

Lemma walk_cons links fs follow cur c rest :
  name_ok c →
  walk links fs follow cur (c :: rest) =
  match node fs cur with
  | Some (NDir mode) =>
    if can_search mode then
      match node fs (cur ++ [c]), rest with
      | None, [] => Ok (cur ++ [c])
      | None, _ => Err ENOENT
      | Some (NFile _), [] => Ok (cur ++ [c])
      | Some (NFile _), _ => Err ENOTDIR
      | Some (NDir _), _ => walk links fs follow (cur ++ [c]) rest
      | Some (NLink t), _ =>
        if match rest with [] => negb follow | _ => false end then Ok (cur ++ [c])
        else match links with
             | O => Err ELOOP
             | S links => walk links fs follow cur (t ++ rest)
             end
      end
    else Err EACCES
  | _ => Err ENOTDIR
  end.
Proof. intros (? & ? & ?). destruct links; simpl; by rewrite !bool_decide_false by done. Qed.

Lemma walk_straight links fs follow cur p r :
  Forall name_ok p → (∀ q t, q `prefix_of` cur ++ p → node fs q ≠ Some (NLink t)) →
  walk links fs follow cur p = Ok r → r = cur ++ p.
Proof.
  intros Hp. revert cur. induction Hp as [|c p Hc Hp IH]; intros cur Hl.
  { destruct links; simpl; rewrite app_nil_r; by intros [= <-]. }
  rewrite (walk_cons _ _ _ _ _ _ Hc). destruct (node fs cur) as [[m| |]|]; try done.
  destruct (can_search m); [|done].
  assert (Hc1 : cur ++ c :: p = (cur ++ [c]) ++ p) by by rewrite <-(assoc_L (++)).
  destruct (node fs (cur ++ [c])) as [[?|?|t]|] eqn:E1.
  - rewrite Hc1 in *. by apply IH.
  - destruct p; [|done]. by intros [= <-].
  - exfalso. eapply Hl; [|done]. rewrite Hc1. by eexists.
  - destruct p; [|done]. by intros [= <-].
Qed.

(** The directory of a resolved location is there. *)
Lemma walk_parent links fs follow cur p c r :
  Forall name_ok (p ++ [c]) → (∀ q t, q `prefix_of` cur ++ p ++ [c] → node fs q ≠ Some (NLink t)) →
  walk links fs follow cur (p ++ [c]) = Ok r → ∃ m, node fs (cur ++ p) = Some (NDir m).
Proof.
  revert cur. induction p as [|x p IH]; intros cur Hp Hl; simpl in Hp |- *.
  - apply Forall_cons in Hp as [Hc _]. rewrite (walk_cons _ _ _ _ _ _ Hc), app_nil_r.
    destruct (node fs cur) as [[m| |]|]; try done. by eexists.
  - apply Forall_cons in Hp as [Hx Hp]. rewrite (walk_cons _ _ _ _ _ _ Hx).
    destruct (node fs cur) as [[m| |]|]; try done. destruct (can_search m); [|done].
    assert (Hc1 : cur ++ (x :: p) ++ [c] = (cur ++ [x]) ++ p ++ [c])
      by by rewrite <-(assoc_L (++)).
    destruct (node fs (cur ++ [x])) as [[?|?|t]|] eqn:E1.
    + intros Hw. replace (cur ++ x :: p) with ((cur ++ [x]) ++ p) by by rewrite <-(assoc_L (++)).
      apply IH; [done| |done]. intros q t Hq. apply Hl. by rewrite Hc1.
    + by destruct p.
    + exfalso. eapply Hl; [|done]. rewrite Hc1. by eexists.
    + by destruct p.
Qed.

Lemma resolve_root fs follow r : resolve fs follow ("/" :: r) = walk 40 fs follow [] r.
Proof. done. Qed.

Lemma resolve_straight fs follow r q :
  straight fs r → resolve fs follow ("/" :: r) = Ok q → q = r.
Proof. intros [Hn Hl]. rewrite resolve_root. by apply walk_straight. Qed.

Lemma stat_straight fs r q n : straight fs r → stat fs ("/" :: r) = Ok (q, n) →
  q = r ∧ node fs r = Some n.
Proof.
  intros Hs. unfold stat. destruct (resolve fs true ("/" :: r)) as [q'|] eqn:E; [|done]. simpl.
  apply resolve_straight in E as ->; [|done]. destruct (node fs r); [|done]. by intros [= <- <-].
Qed.

Lemma lstat_straight fs r q n : straight fs r → lstat fs ("/" :: r) = Ok (q, n) →
  q = r ∧ node fs r = Some n.
Proof.
  intros Hs. unfold lstat. destruct (resolve fs false ("/" :: r)) as [q'|] eqn:E; [|done]. simpl.
  apply resolve_straight in E as ->; [|done]. destruct (node fs r); [|done]. by intros [= <- <-].
Qed.

Lemma exists_straight fs r : straight fs r → node fs r = None → exists_ fs ("/" :: r) = false.
Proof.
  intros Hs Hn. unfold exists_. destruct (stat fs ("/" :: r)) as [[q n]|] eqn:E; [|done].
  apply stat_straight in E as [-> ?]; congruence.
Qed.

Lemma new_entry_straight r fs fs' q :
  straight fs r → new_entry ("/" :: r) fs = (fs', Ok q) → fs' = fs ∧ q = r ∧ node fs r = None.
Proof.
  intros Hs (-> & Hr & Hn & _)%new_entry_ok. apply resolve_straight in Hr as ->; done.
Qed.

(** Directories are added on the way to a location, and nothing else. *)
Definition adds_dirs (r : Location) (fs fs' : Fs) : Prop :=
  grows fs fs' ∧ ∀ q, node fs q = None → node fs' q = None ∨
    (q `prefix_of` r ∧ ∃ m, node fs' q = Some (NDir m)).

Lemma adds_dirs_refl r fs : adds_dirs r fs fs.
Proof. split; [done|by left]. Qed.

Lemma adds_dirs_trans r r1 r2 fs fs1 fs2 :
  r1 `prefix_of` r → r2 `prefix_of` r →
  adds_dirs r1 fs fs1 → adds_dirs r2 fs1 fs2 → adds_dirs r fs fs2.
Proof.
  intros H1 H2 [Hg Ha] [Hg' Ha']. split; [by transitivity fs1|]. intros q Hq.
  destruct (Ha q Hq) as [Hn|(Hp & m & Hm)].
  - destruct (Ha' q Hn) as [?|(? & ?)]; [by left|right; split; [by etrans|done]].
  - right. split; [by etrans|]. exists m. by eapply grows_node.
Qed.

Lemma adds_dirs_straight r fs fs' q : adds_dirs r fs fs' → straight fs q → straight fs' q.
Proof.
  intros [Hg Ha] [Hn Hl]. split; [done|]. intros q' t Hq'.
  destruct (node fs q') as [n|] eqn:E.
  - rewrite (grows_node _ _ _ _ Hg E). intros [= ->]. by eapply Hl.
  - destruct (Ha q' E) as [->|(_ & m & ->)]; done.
Qed.

Lemma mkdir_straight m r fs : straight fs r → adds_dirs r fs (mkdir m ("/" :: r) fs).1.
Proof.
  intros Hs. split; [apply mkdir_grows|]. unfold mkdir, mbind, Io_bind.
  destruct (new_entry ("/" :: r) fs) as [fs1 [q|e]] eqn:E.
  - apply new_entry_straight in E as (-> & -> & Hn); [|done]. simpl. intros q Hq.
    destruct (decide (q = r)) as [->|Hne].
    + right. split; [done|]. exists (Z.land m 493). destruct r; [done|]. simpl.
      by rewrite lookup_insert_eq.
    + left. destruct q; [done|]. simpl in *. by rewrite lookup_insert_ne.
  - pose proof (new_entry_state ("/" :: r) fs) as Hst. rewrite E in Hst. simpl in *. subst.
    by left.
Qed.

Lemma create_dir_all_at_straight fuel m r fs :
  straight fs r → adds_dirs r fs (create_dir_all_at fuel m ("/" :: r) fs).1.
Proof.
  revert r fs. induction fuel as [|fuel IH]; intros r fs Hs; cbn [create_dir_all_at].
  all: pose proof (mkdir_straight m r fs Hs) as Hm;
    destruct (mkdir m ("/" :: r) fs) as [fs1 [?|e]]; cbn [fst] in Hm; [done|].
  all: assert (Hd : adds_dirs r fs
           (if is_dir fs1 ("/" :: r) then (fs1, Ok tt) else (fs1, Err e)).1)
      by by destruct (is_dir _ _).
  all: destruct e; try exact Hd; destruct (decide (r = [])) as [->|Hr];
    try exact Hm; try (rewrite (parent_abs _ Hr); exact Hm).
  rewrite (parent_abs _ Hr). rename r into q.
  assert (Hs1 : straight fs1 q) by by eapply adds_dirs_straight.
  pose proof (IH (removelast q) fs1 (straight_parent _ _ Hs1)) as Hp.
  destruct (create_dir_all_at fuel m ("/" :: removelast q) fs1) as [fs2 [?|e2]]; cbn [fst] in *;
    assert (Ha : adds_dirs q fs fs2)
      by (eapply (adds_dirs_trans q q (removelast q) fs fs1);
          [done|apply removelast_prefix|exact Hm|exact Hp]); [|exact Ha].
  assert (Hs2 : straight fs2 q) by by eapply adds_dirs_straight.
  pose proof (mkdir_straight m q fs2 Hs2) as Hm2.
  assert (Ha2 : adds_dirs q fs (mkdir m ("/" :: q) fs2).1) by (by eapply (adds_dirs_trans q q q)).
  destruct (mkdir m ("/" :: q) fs2) as [fs3 [?|e3]]; cbn [fst] in *; [exact Ha2|].
  destruct (is_dir fs3 _); exact Ha2.
Qed.

Lemma create_dir_all_straight m r fs :
  straight fs r → adds_dirs r fs (create_dir_all m ("/" :: r) fs).1.
Proof. apply create_dir_all_at_straight. Qed.

(** * Removal *)

(** Only locations at or below [r] are removed, and no inode changes. *)
Definition cuts (r : Location) (fs fs' : Fs) : Prop :=
  inodes fs' = inodes fs ∧ ∀ q, ¬ r `prefix_of` q → node fs' q = node fs q.

#[global] Instance cuts_preorder r : PreOrder (cuts r).
Proof.
  split; [by intros ?|]. intros x y z [H1 H2] [H3 H4]. split; [congruence|].
  intros q Hq. by rewrite H4, H2.
Qed.

Lemma remove_entry_cuts r q fs : r `prefix_of` q → cuts r fs (remove_entry q fs).1.
Proof.
  intros Hp. unfold remove_entry, mbind, Io_bind, gets. destruct (may_edit fs q); [|done].
  split; [done|]. intros x Hx. destruct x; [done|]. simpl. rewrite lookup_delete_ne; [done|].
  by intros ->.
Qed.

Lemma remove_all_cuts r rs fs : Forall (prefix r) rs → cuts r fs (remove_all rs fs).1.
Proof.
  intros Hr. revert fs. induction Hr as [|q rs Hq _ IH]; intros fs; [done|].
  cbn [remove_all]. unfold mbind, Io_bind. pose proof (remove_entry_cuts r q fs Hq) as Hc.
  destruct (remove_entry q fs) as [fs1 [?|?]]; cbn [fst] in Hc; [|done].
  etrans; [exact Hc|apply IH].
Qed.

Lemma below_prefix fs r : Forall (prefix r) (below fs r).
Proof.
  apply Forall_forall. intros q [_ Hq]%list_elem_of_In%filter_In. b2p.
  rewrite <-Hq. exists (drop (length r) q). by rewrite take_drop.
Qed.

Lemma remove_dir_all_cuts p fs r n :
  lstat fs p = Ok (r, n) → cuts r fs (remove_dir_all p fs).1.
Proof.
  intros E. unfold remove_dir_all, mbind, Io_bind, liftR, gets. rewrite E. cbn [fst snd].
  destruct n; [|done|by apply remove_entry_cuts].
  destruct (forallb _ _); [|done]. apply remove_all_cuts.
  rewrite merge_sort_Permutation. apply below_prefix.
Qed.

Lemma remove_dir_all_absent p fs e : lstat fs p = Err e → (remove_dir_all p fs).1 = fs.
Proof. intros E. unfold remove_dir_all, mbind, Io_bind, liftR. by rewrite E. Qed.

Lemma remove_file_cuts p fs r n : lstat fs p = Ok (r, n) → cuts r fs (remove_file p fs).1.
Proof.
  intros E. unfold remove_file, mbind, Io_bind, liftR. rewrite E. cbn [fst snd].
  destruct n; [done|..]; by apply (remove_entry_cuts r r).
Qed.

Lemma remove_file_absent p fs e : lstat fs p = Err e → (remove_file p fs).1 = fs.
Proof. intros E. unfold remove_file, mbind, Io_bind, liftR. by rewrite E. Qed.

(** ** An entry of a directory without links on its way

    The entry itself may be a link. *)

Lemma walk_last links fs cur p c r :
  Forall name_ok (p ++ [c]) → (∀ q t, q `prefix_of` cur ++ p → node fs q ≠ Some (NLink t)) →
  walk links fs false cur (p ++ [c]) = Ok r → r = cur ++ p ++ [c].
Proof.
  revert cur. induction p as [|x p IH]; intros cur Hp Hl; simpl in Hp |- *;
    apply Forall_cons in Hp as [Hx Hp]; rewrite (walk_cons _ _ _ _ _ _ Hx);
    destruct (node fs cur) as [[m'| |]|]; try done; (destruct (can_search m'); [|done]).
  - destruct (node fs (cur ++ [c])) as [[?|?|t]|]; try by intros [= <-].
    destruct links; simpl; by intros [= <-].
  - assert (Hc1 : cur ++ (x :: p) = (cur ++ [x]) ++ p) by by rewrite <-(assoc_L (++)).
    destruct (node fs (cur ++ [x])) as [[?|?|t]|] eqn:E1.
    + intros Hw. apply IH in Hw; [|done|intros q t Hq; apply Hl; by rewrite Hc1].
      rewrite Hw. by rewrite <-(assoc_L (++)).
    + by destruct p.
    + exfalso. eapply Hl; [|done]. rewrite Hc1. by eexists.
    + by destruct p.
Qed.

Lemma name_ok_snoc u c : Forall name_ok u → name_ok c → Forall name_ok (u ++ [c]).
Proof. intros Hu Hc. apply Forall_app. split; [done|]. by constructor. Qed.

Lemma lstat_last fs u c q n : straight fs u → name_ok c →
  lstat fs ("/" :: u ++ [c]) = Ok (q, n) → q = u ++ [c] ∧ node fs (u ++ [c]) = Some n.
Proof.
  intros [Hu Hl] Hc. unfold lstat. rewrite resolve_root.
  destruct (walk 40 fs false [] (u ++ [c])) as [q'|] eqn:E; [|done]. simpl.
  apply walk_last in E as ->; [|by apply name_ok_snoc|done].
  simpl. destruct (node fs (u ++ [c])); [|done]. by intros [= <- <-].
Qed.

Lemma new_entry_last fs fs' u c q : straight fs u → name_ok c →
  new_entry ("/" :: u ++ [c]) fs = (fs', Ok q) →
  fs' = fs ∧ q = u ++ [c] ∧ node fs (u ++ [c]) = None.
Proof.
  intros [Hu Hl] Hc (-> & Hr & Hn & _)%new_entry_ok. rewrite resolve_root in Hr.
  apply walk_last in Hr as ->; [|by apply name_ok_snoc|done]. done.
Qed.

Lemma remove_last u c fs : straight fs u → name_ok c →
  cuts (u ++ [c]) fs (remove_file ("/" :: u ++ [c]) fs).1 ∧
  cuts (u ++ [c]) fs (remove_dir_all ("/" :: u ++ [c]) fs).1.
Proof.
  intros Hs Hc. destruct (lstat fs ("/" :: u ++ [c])) as [[q n]|e] eqn:E.
  - pose proof E as E'. apply lstat_last in E as [-> _]; [|done..].
    split; [by eapply remove_file_cuts|by eapply remove_dir_all_cuts].
  - by rewrite (remove_file_absent _ _ _ E), (remove_dir_all_absent _ _ _ E).
Qed.

Lemma cuts_straight u c fs fs' : straight fs u → cuts (u ++ [c]) fs fs' → straight fs' u.
Proof.
  intros [Hn Hl] [_ Hc]. split; [done|]. intros q t Hq. rewrite Hc; [by apply Hl|].
  intros Hp. assert (Hp' : u ++ [c] `prefix_of` u) by by etrans.
  apply prefix_length in Hp'. rewrite length_app in Hp'. simpl in Hp'. lia.
Qed.

(** * Modes *)

(** The nodes decide resolution; the inodes do not. *)
Lemma walk_ext fs fs' links follow cur p :
  (∀ r, node fs r = node fs' r) → walk links fs follow cur p = walk links fs' follow cur p.
Proof.
  intros Hn. revert cur p. induction links as [|links IHl]; intros cur p; revert cur;
    induction p as [|c rest IH]; intros cur; try done.
  all: cbn; case_bool_decide; [apply IH|]; rewrite <-Hn; destruct (node fs cur) as [[m| |]|];
    try done; destruct (can_search m); [|done].
  all: case_bool_decide; [apply IH|]; case_bool_decide; [apply IH|]; rewrite <-Hn;
    destruct (node fs (cur ++ [c])) as [[?|?|t]|]; try done; try apply IH.
  by rewrite IHl.
Qed.

Lemma stat_ext fs fs' p : (∀ r, node fs r = node fs' r) → stat fs p = stat fs' p.
Proof.
  intros Hn. unfold stat, resolve. destruct p; [done|]. rewrite (walk_ext fs fs' 40) by done.
  destruct (walk _ fs' _ _ _); [|done]. simpl. by rewrite Hn.
Qed.

(** Resolution goes on finding a location when the directories on its way stay
    searchable directories and the rest of the way is as it was. *)
Definition same_way (fs fs' : Fs) (r : Location) : Prop :=
  ∀ q, q `prefix_of` r → node fs' q = node fs q ∨
    ∃ m m', node fs q = Some (NDir m) ∧ node fs' q = Some (NDir m') ∧ can_search m' = true.

Lemma walk_same_way links fs fs' follow cur p r :
  Forall name_ok p → (∀ q t, q `prefix_of` cur ++ p → node fs q ≠ Some (NLink t)) →
  same_way fs fs' (cur ++ p) →
  walk links fs follow cur p = Ok r → walk links fs' follow cur p = Ok r.
Proof.
  intros Hp. revert cur. induction Hp as [|c p Hc Hp IH]; intros cur Hl Hw;
    [by destruct links|].
  rewrite !(walk_cons _ _ _ _ _ _ Hc).
  assert (Hc1 : cur ++ c :: p = (cur ++ [c]) ++ p) by by rewrite <-(assoc_L (++)).
  assert (Hpre : cur ++ [c] `prefix_of` cur ++ c :: p) by (rewrite Hc1; by eexists).
  rewrite Hc1 in Hl, Hw. specialize (IH (cur ++ [c]) Hl Hw). rewrite <-Hc1 in Hl, Hw.
  destruct (node fs cur) as [[m| |]|] eqn:E0; try done. destruct (can_search m) eqn:Em; [|done].
  assert (∃ m', node fs' cur = Some (NDir m') ∧ can_search m' = true) as (m' & -> & ->).
  { destruct (Hw cur) as [Hq|(x & m' & ? & ? & ?)]; [by eexists| |by eauto].
    exists m. by rewrite Hq. }
  destruct (Hw _ Hpre) as [->|(m1 & m2 & E1 & -> & _)].
  - destruct (node fs (cur ++ [c])) as [[?|?|t]|] eqn:E1; try done.
    exfalso. by eapply Hl.
  - rewrite E1. by apply IH.
Qed.

Lemma stat_same_way fs fs' r n :
  straight fs r → same_way fs fs' r → stat fs ("/" :: r) = Ok (r, n) → is_Some (node fs' r) →
  ∃ n', stat fs' ("/" :: r) = Ok (r, n') ∧ node fs' r = Some n'.
Proof.
  intros [Hn Hl] Hw Est [n' Hn']. unfold stat in *. rewrite resolve_root in *.
  destruct (walk 40 fs true [] r) as [q|] eqn:E; [|done]. pose proof E as Eq.
  apply walk_straight in Eq as ->; [|done..]. cbn [app] in E.
  rewrite (walk_same_way 40 fs fs' true [] r r) by done. simpl. rewrite Hn'. by exists n'.
Qed.

(** An entry of a directory that resolves and is searchable. *)
Lemma walk_snoc links fs follow cur p r c m :
  Forall name_ok (p ++ [c]) → (∀ q t, q `prefix_of` cur ++ p → node fs q ≠ Some (NLink t)) →
  walk links fs true cur p = Ok r → node fs r = Some (NDir m) → can_search m = true →
  follow = false ∨ is_link (node fs (r ++ [c])) = false →
  walk links fs follow cur (p ++ [c]) = Ok (r ++ [c]).
Proof.
  revert cur. induction p as [|x p IH]; intros cur Hp Hl Hw Hd Hm Hc; simpl in Hp |- *.
  - assert (r = cur) as -> by (destruct links; simpl in Hw; congruence).
    apply Forall_cons in Hp as [Hn _]. rewrite (walk_cons _ _ _ _ _ _ Hn), Hd, Hm.
    destruct (node fs (cur ++ [c])) as [[?|?|t]|]; [by destruct links|done| |done].
    by destruct Hc as [->|].
  - apply Forall_cons in Hp as [Hx Hp]. rewrite (walk_cons _ _ _ _ _ _ Hx) in Hw.
    rewrite (walk_cons _ _ _ _ _ _ Hx).
    destruct (node fs cur) as [[m'| |]|]; try done. destruct (can_search m'); [|done].
    assert (Hc1 : cur ++ (x :: p) = (cur ++ [x]) ++ p) by by rewrite <-(assoc_L (++)).
    destruct (node fs (cur ++ [x])) as [[?|?|t]|] eqn:E1.
    + apply IH; try done. intros q t Hq. apply Hl. by rewrite Hc1.
    + destruct p; simplify_eq; congruence.
    + exfalso. eapply Hl; [|done]. rewrite Hc1. by eexists.
    + destruct p; simplify_eq; congruence.
Qed.

(** * Files *)

Lemma resolve_ext fs fs' follow p :
  (∀ r, node fs r = node fs' r) → resolve fs follow p = resolve fs' follow p.
Proof. intros Hn. unfold resolve. destruct p; [done|]. by apply walk_ext. Qed.

Lemma resolve_more fs fs' follow p r :
  tree fs ⊆ tree fs' → resolve fs follow p = Ok r → is_Some (node fs r) →
  resolve fs' follow p = Ok r.
Proof.
  intros Ht Hr Hn. rewrite (resolve_ext fs' (mkFs (tree fs') (inodes fs))) by (by intros []).
  apply (resolve_grows fs); [by split|done|done].
Qed.

(** The paths of a location: absolute, or relative to the working directory. *)
Definition leads (p : Path) (r : Location) : Prop :=
  ∃ base rel, r = base ++ rel ∧ rel ≠ [] ∧
    (p = "/" :: rel ∧ base = [] ∨ (p = rel ∨ p = "." :: rel) ∧ base = cwd).

Lemma leads_abs r : r ≠ [] → leads ("/" :: r) r.
Proof. intros Hr. exists [], r. auto. Qed.

Lemma leads_walk p r : leads p r → Forall name_ok r →
  ∃ base rel, r = base ++ rel ∧ rel ≠ [] ∧ Forall name_ok rel ∧
    ∀ fs follow, resolve fs follow p = walk 40 fs follow base rel.
Proof.
  intros (base & rel & -> & Hne & Hp) [_ Hn]%Forall_app. exists base, rel. split_and!; try done.
  intros fs follow. destruct Hp as [[-> ->]|[[->| ->] ->]]; [done|by destruct rel|].
  destruct rel as [|c rel]; [done|]. apply Forall_cons in Hn as [Hc _].
  change (resolve fs follow ("." :: c :: rel)) with
    (match node fs cwd with
     | Some (NDir mode) => if can_search mode then walk 40 fs follow cwd (c :: rel) else Err EACCES
     | _ => Err ENOTDIR
     end).
  rewrite (walk_cons _ _ _ _ _ _ Hc). destruct (node fs cwd) as [[m| |]|]; try done.
  by destruct (can_search m).
Qed.

Lemma resolve_leads fs follow p r q :
  leads p r → straight fs r → resolve fs follow p = Ok q → q = r.
Proof.
  intros Hp [Hn Hl]. destruct (leads_walk _ _ Hp Hn) as (base & rel & -> & _ & Hrel & ->).
  by apply walk_straight.
Qed.

Lemma open_create_spec need p r fs fs' i :
  leads p r → straight fs r → open_create need p fs = (fs', Ok i) →
  resolve fs true p = Ok r ∧
  ((node fs r = Some (NFile i) ∧ fs' = fs) ∨
   (node fs r = None ∧ inodes fs !! i = None ∧
    fs' = set_node r (NFile i) (set_inode i (mkInode 420 []) fs))).
Proof.
  intros Hp Hs. unfold open_create, mbind, Io_bind, liftR, gets.
  destruct (resolve fs true p) as [q|] eqn:Er; [|done].
  pose proof (resolve_leads _ _ _ _ _ Hp Hs Er) as ->. intros Ho. split; [done|]. revert Ho.
  destruct (node fs r) as [[?|k|?]|] eqn:En; try done.
  - destruct (need _); [|done]. intros [= <- <-]. by left.
  - destruct (may_edit fs r); [|done]. intros [= <- <-]. right. split_and!; [done| |done].
    apply not_elem_of_dom, is_fresh.
Qed.

Lemma node_set_ne fs r q n : q ≠ r → node (set_node r n fs) q = node fs q.
Proof. intros Hq. destruct q; [done|]. cbn. by rewrite lookup_insert_ne. Qed.

Lemma node_set_eq fs r n : r ≠ [] → node (set_node r n fs) r = Some n.
Proof. intros Hr. destruct r; [done|]. cbn. by rewrite lookup_insert_eq. Qed.

(** A new file is found where it was put. *)
Lemma walk_new links fs follow cur p i :
  Forall name_ok p → p ≠ [] → (∀ q t, q `prefix_of` cur ++ p → node fs q ≠ Some (NLink t)) →
  walk links fs follow cur p = Ok (cur ++ p) →
  walk links (set_node (cur ++ p) (NFile i) fs) follow cur p = Ok (cur ++ p).
Proof.
  intros Hp. revert cur. induction Hp as [|c p Hc Hp IH]; intros cur Hne Hl; [done|].
  assert (Hcur : cur ≠ cur ++ c :: p).
  { intros E%(f_equal length). rewrite length_app in E. simpl in E. lia. }
  rewrite !(walk_cons _ _ _ _ _ _ Hc), (node_set_ne _ _ _ _ Hcur).
  destruct (node fs cur) as [[m| |]|]; try done. destruct (can_search m); [|done].
  destruct p as [|d p]; [by rewrite node_set_eq by by destruct cur|].
  assert (Hc1 : cur ++ c :: d :: p = (cur ++ [c]) ++ d :: p) by by rewrite <-(assoc_L (++)).
  rewrite node_set_ne.
  2: { intros E%(f_equal length). rewrite !length_app in E. simpl in E. lia. }
  destruct (node fs (cur ++ [c])) as [[?|?|t]|] eqn:E1; try done.
  - rewrite Hc1 in *. by apply IH.
  - exfalso. eapply Hl; [|done]. rewrite Hc1. by eexists.
Qed.

(** The file a write leaves: its inode, which no other write touched, with the
    mode it had, or 644 for a new one. *)
Lemma write_spec_at p r b fs fs' :
  leads p r → straight fs r → write p b fs = (fs', Ok tt) →
  ∃ i m, node fs' r = Some (NFile i) ∧ inodes fs' !! i = Some (mkInode m b) ∧
    ((node fs r = Some (NFile i) ∧ m = mode_of fs i) ∨
     (node fs r = None ∧ inodes fs !! i = None ∧ m = 420%Z)) ∧
    (∀ q, q ≠ r → node fs' q = node fs q) ∧ (∀ j, j ≠ i → inodes fs' !! j = inodes fs !! j) ∧
    tree fs ⊆ tree fs' ∧ resolve fs' true p = Ok r.
Proof.
  intros Hp Hs. assert (r ≠ []) as Hne.
  { destruct Hp as (base & rel & -> & Hrel & _). by destruct base. }
  unfold write, mbind, Io_bind, modify.
  destruct (open_create can_write p fs) as [fs1 [i|]] eqn:Eo; [|done].
  eapply open_create_spec in Eo as [Hr [[Hn ->]|(Hn & Hi & ->)]]; [| |done..]; intros [= <-];
    exists i; eexists; cbn [inodes tree set_inode set_node].
  - split_and!; [by destruct r|by rewrite lookup_insert_eq|by left|by intros []| |done|].
    + intros j Hj. by rewrite lookup_insert_ne.
    + rewrite <-Hr. apply resolve_ext. by intros [].
  - split_and!; [|by rewrite lookup_insert_eq|right; split_and!; try done| | | |].
    + rewrite <-(node_set_eq fs r (NFile i) Hne). by destruct r.
    + unfold mode_of. cbn. by rewrite lookup_insert_eq.
    + intros q Hq. rewrite <-(node_set_ne fs r q (NFile i) Hq). by destruct q.
    + intros j Hj. by rewrite !lookup_insert_ne.
    + apply insert_subseteq. by destruct r.
    + rewrite (resolve_ext _ (set_node r (NFile i) fs)) by (by intros []).
      destruct Hs as [Hok Hl]. destruct (leads_walk _ _ Hp Hok) as (base & rel & -> & ? & ? & Hw).
      rewrite Hw in *. by apply (walk_new 40 fs true base rel i).
Qed.

Lemma write_spec r b fs fs' :
  straight fs r → r ≠ [] → write ("/" :: r) b fs = (fs', Ok tt) →
  ∃ i m, node fs' r = Some (NFile i) ∧ inodes fs' !! i = Some (mkInode m b) ∧
    ((node fs r = Some (NFile i) ∧ m = mode_of fs i) ∨
     (node fs r = None ∧ inodes fs !! i = None ∧ m = 420%Z)) ∧
    (∀ q, q ≠ r → node fs' q = node fs q) ∧ (∀ j, j ≠ i → inodes fs' !! j = inodes fs !! j) ∧
    tree fs ⊆ tree fs' ∧ resolve fs' true ("/" :: r) = Ok r.
Proof. intros Hs Hne. by apply write_spec_at, Hs; apply leads_abs. Qed.
End Fs.
#[export] Existing Instances grows_preorder cuts_preorder.
