(* ===== verification/Tee.v ===== *)
(** The Keystone enclave: the application that runs in it
    ([bqti-enclave/src/eapp/bqti.c]), the host library that starts it
    ([bqti-enclave/src/host/enclave_ffi.cpp]) and its Rust interface
    ([bqti-tee/src/keystone/mod.rs]) with the prover and the identity built on it
    ([dht/auth/pow.rs], [certs/tee.rs]).

    Parameters: the sealing key, the key generation and the signatures of the C
    libraries, the security monitor's attestation, and which runs of the enclave
    come to their end.  A response is kept as the bytes of the C union, since
    the host reads it as the member of the operation it asked for, whatever the
    enclave last wrote there. *)

From S2P Require Import Prelude Net Crypto Routing Auth.

(** [int] of a [uint32_t]. *)
Definition i32 (z : Z) : Z := ((z + 2 ^ 31) mod 2 ^ 32 - 2 ^ 31)%Z.

(** [memcpy] of [data] at [off]. *)
Definition splice (off : nat) (data buf : list Z) : list Z :=
  take off buf ++ data ++ drop (off + length data) buf.
Definition slice (off len : nat) (buf : list Z) : list Z := take len (drop off buf).

(** * The protocol *)

(** src/bqti-enclave/src/shared/protocol.h:15-19 [OP_HASH, OP_SIGN, OP_POW, OP_FETCH_PUBKEY, OP_ATTEST]

    With the request of each. *)
Inductive Request :=
| OpHash (data : list Z)
| OpSign (data : list Z)
| OpPow (challange difficulty : Z)
| OpFetchPubkey
| OpAttest (nonce : list Z).

(** src/bqti-enclave/src/shared/protocol.h:22-30 [ENCLAVE_OK and the errors] *)
Definition ENCLAVE_OK : Z := 0.
Definition ENCLAVE_ERR_GENERIC : Z := -1.
Definition ENCLAVE_ERR_OVERFLOW : Z := -8.

(** src/bqti-enclave/src/shared/protocol.h:35-35 [DATA_MAX_LENGTH] *)
Definition DATA_MAX_LENGTH : nat := 1024.

(** src/bqti-enclave/src/shared/protocol.h:95-106 [enclave_res_t]

    The members of the union start at its first byte; the largest is the
    attestation report. *)
Record Response := mkResponse { rs_status : Z; rs_body : list Z }.

(** src/bqti-enclave/src/shared/protocol.h:79-84 [pow_res_t] *)
Definition pow_res (nonce : Z) (pow pub_key signature : list Z) : list Z :=
  le_bytes 4 nonce ++ pow ++ pub_key ++ signature.

(** ** Attestation reports as bytes *)

(** src/bqti-tee/src/keystone/ffi.rs:37-57 [EnclaveReport, SmReport, AttestReport]

    Packed structures, in the order of their fields. *)
Definition report_bytes (r : AttestReport) : list Z :=
  en_hash (enclave r) ++ le_bytes 8 (en_data_len (enclave r)) ++ en_data (enclave r)
  ++ en_signature (enclave r) ++ sm_hash (sm r) ++ sm_public_key (sm r) ++ sm_signature (sm r)
  ++ dev_public_key r.

(** src/bqti-tee/src/keystone/mod.rs:206-208 [parse_attest_report]

    With the copy of its fields in [attest] (lines 187-200). *)
Definition parse_attest_report (bytes : list Z) : AttestReport :=
  mkReport
    (mkEnclave (slice 0 64 bytes) (of_le (slice 64 8 bytes)) (slice 72 1024 bytes)
       (slice 1096 64 bytes))
    (mkSm (slice 1160 64 bytes) (slice 1224 32 bytes) (slice 1256 64 bytes))
    (slice 1320 32 bytes).

(** src/bqti-tee/src/keystone/ffi.rs:12-28 [the size assertions] *)
Definition report_sized (r : AttestReport) : Prop :=
  length (en_hash (enclave r)) = 64 ∧ length (en_data (enclave r)) = 1024 ∧
  length (en_signature (enclave r)) = 64 ∧ length (sm_hash (sm r)) = 64 ∧
  length (sm_public_key (sm r)) = 32 ∧ length (sm_signature (sm r)) = 64 ∧
  length (dev_public_key r) = 32 ∧ (0 ≤ en_data_len (enclave r) < 2 ^ 64)%Z.

(** * The enclave application *)

(** The C libraries in the enclave: [get_sealing_key] ([None] when it fails and
    leaves the zeroed key), [crypto_sign_keypair] on 32 random bytes,
    [crypto_sign], and the security monitor's [attest_enclave]. *)
Class EnclaveLibs := {
  sealing_key : option (list Z);
  sign_keypair : list Z → list Z * list Z;
  crypto_sign : list Z → list Z → list Z;
  attest_enclave : list Z → option (list Z);
}.

Section eapp.
Context `{Crypto} `{EnclaveLibs}.

(** src/bqti-enclave/src/eapp/bqti.c:44-53 [randombytes] *)
Definition randombytes (xlen : nat) : list Z :=
  let key := default (replicate 128 0%Z) sealing_key in
  map (λ i, nth (i mod 128) key 0%Z) (seq 0 xlen).

(** src/bqti-enclave/src/eapp/bqti.c:55-60 [enclave_init]

    The key pair of a run: [g_enclave_pk] and [g_enclave_sk]. *)
Definition enclave_keys : list Z * list Z := sign_keypair (randombytes 32).

(** src/bqti-enclave/src/eapp/bqti.c:68-76 [enclave_sign] *)
Definition eapp_sign (sk msg : list Z) : list Z := take 64 (crypto_sign msg sk).

(** src/bqti-enclave/src/eapp/bqti.c:95-109 [meets_difficulty]

    [None] is a read past the 32 bytes. *)
Definition meets_difficulty (hash : list Z) (difficulty : Z) : option bool :=
  let full_bytes := Z.to_nat (difficulty / 8) in
  let remaining_bits := (difficulty mod 8)%Z in
  zeros ← foldr (λ i rest, b ← hash !! i; if (b =? 0)%Z then rest else Some false) (Some true)
            (seq 0 full_bytes);
  if negb zeros then Some false
  else if (0 <? remaining_bits)%Z then
    b ← hash !! full_bytes;
    Some (Z.land b (u8 (Z.shiftl 255 (8 - remaining_bits))) =? 0)%Z
  else Some true.

(** [__builtin_bswap32]. *)
Definition bswap32 (x : Z) : Z := of_be (le_bytes 4 x).

(** src/bqti-enclave/src/eapp/bqti.c:111-138 [pow_calculate]

    The nonce and the hash; the machine is little-endian.  [None] is a loop that
    has not ended after [fuel] nonces, or a read out of range. *)
Fixpoint pow_loop (fuel : nat) (challenge difficulty : Z) (pub_key : list Z) (nonce : Z)
    : option (Z * list Z) :=
  match fuel with
  | O => None
  | S fuel =>
    let hash := sha256 (pub_key ++ le_bytes 4 (bswap32 challenge) ++ le_bytes 4 (bswap32 nonce)) in
    done ← meets_difficulty hash difficulty;
    if (done : bool) then Some (nonce, hash)
    else pow_loop fuel challenge difficulty pub_key (u32 (nonce + 1))
  end.

(** src/bqti-enclave/src/eapp/bqti.c:146-222 [main]

    What a run sends back for a request. *)
Definition eapp_main (fuel : nat) (r : Request) : option Response :=
  let '(pk, sk) := enclave_keys in
  let reply body := Some (mkResponse ENCLAVE_OK (splice 0 body (replicate 1352 0%Z))) in
  match r with
  | OpHash data => reply (sha256 data)
  | OpSign data => reply (eapp_sign sk data ++ pk)
  | OpPow challange difficulty =>
    '(nonce, hash) ← pow_loop fuel challange difficulty pk 0;
    reply (pow_res nonce hash pk (eapp_sign sk hash))
  | OpFetchPubkey => reply pk
  | OpAttest nonce =>
    match attest_enclave nonce with
    | Some report => reply report
    | None => Some (mkResponse (u32 ENCLAVE_ERR_GENERIC) (replicate 1352 0%Z))
    end
  end.
End eapp.

(** * The host library *)

(** src/bqti-enclave/src/host/enclave_ffi.cpp:13-16 [g_enclave, g_enclave_request, g_enclave_response, g_initialized]

    [runs] counts the runs of the enclave. *)
Record Host := mkHost {
  g_initialized : bool;
  g_enclave_response : Response;
  runs : nat;
}.

Section host.
Context `{Crypto} `{EnclaveLibs} (fuel : nat).
(** Whether the run of a number comes to the call that sends the result; the
    errors of [Enclave::init] and [Enclave::run] are not looked at. *)
Context (run_ends : nat → bool).

(** src/bqti-enclave/src/host/enclave_ffi.cpp:48-65 [enclave_init] *)
Definition ffi_init (h : Host) : Host * Z := (mkHost true (g_enclave_response h) (runs h), 0%Z).

(** src/bqti-enclave/src/host/enclave_ffi.cpp:131-134 [enclave_destroy] *)
Definition ffi_destroy (h : Host) : Host := mkHost false (g_enclave_response h) (runs h).

(** src/bqti-enclave/src/host/enclave_ffi.cpp:18-46 [handle_get_request, handle_send_result]

    One run: the enclave fetches the request and sends its response, which the
    host copies over the last one.  [None] is a run that does not end. *)
Definition run (r : Request) (h : Host) : option Host :=
  if run_ends (runs h) then
    resp ← eapp_main fuel r; Some (mkHost (g_initialized h) resp (S (runs h)))
  else Some (mkHost (g_initialized h) (g_enclave_response h) (S (runs h))).

(** src/bqti-enclave/src/host/enclave_ffi.cpp:67-84 [enclave_run_pow]

    The status and the four outputs: hash, signature, public key, nonce. *)
Definition ffi_run_pow (challenge difficulty : Z) (h : Host)
    : option (Host * Z * (list Z * list Z * list Z * Z)) :=
  if negb (g_initialized h) then
    Some (h, (-1)%Z, (replicate 32 0%Z, replicate 64 0%Z, replicate 32 0%Z, 0%Z))
  else
    h ← run (OpPow challenge difficulty) h;
    let body := rs_body (g_enclave_response h) in
    Some (h, i32 (rs_status (g_enclave_response h)),
          (slice 4 32 body, slice 68 64 body, slice 36 32 body, of_le (slice 0 4 body))).

(** src/bqti-enclave/src/host/enclave_ffi.cpp:86-96 [enclave_get_pubkey] *)
Definition ffi_get_pubkey (h : Host) : option (Host * Z * list Z) :=
  if negb (g_initialized h) then Some (h, (-1)%Z, replicate 32 0%Z)
  else
    h ← run OpFetchPubkey h;
    Some (h, i32 (rs_status (g_enclave_response h)), slice 0 32 (rs_body (g_enclave_response h))).

(** src/bqti-enclave/src/host/enclave_ffi.cpp:98-114 [enclave_sign] *)
Definition ffi_sign (data : list Z) (h : Host) : option (Host * Z * list Z) :=
  if negb (g_initialized h) then Some (h, (-1)%Z, replicate 64 0%Z)
  else if DATA_MAX_LENGTH <? length data then Some (h, ENCLAVE_ERR_OVERFLOW, replicate 64 0%Z)
  else
    h ← run (OpSign data) h;
    Some (h, i32 (rs_status (g_enclave_response h)), slice 0 64 (rs_body (g_enclave_response h))).

(** src/bqti-enclave/src/host/enclave_ffi.cpp:116-129 [enclave_attest]

    The nonce is copied into 64 bytes without a check of its length; [None] is
    the write past them. *)
Definition ffi_attest (nonce : list Z) (h : Host) : option (Host * Z * list Z) :=
  if negb (g_initialized h) then Some (h, (-1)%Z, replicate 1352 0%Z)
  else if 64 <? length nonce then None
  else
    h ← run (OpAttest nonce) h;
    Some (h, i32 (rs_status (g_enclave_response h)), slice 0 1352 (rs_body (g_enclave_response h))).

(** * The Rust interface *)

(** src/bqti-tee/src/keystone/mod.rs:21-37 [TeeError] *)
Inductive TeeError :=
| InitFailed (code : Z)
| PowFailed (code : Z)
| SignatureFailed (code : Z)
| PublicKeyFailed (code : Z)
| AttestFailed (code : Z).

(** src/bqti-tee/src/keystone/mod.rs:39-44 [PowResult] *)
Record PowResult := mkPowResult {
  pr_hash : list Z; pr_nonce : Z; pr_sig : list Z; pr_pub_key : list Z }.

(** src/bqti-tee/src/keystone/mod.rs:86-95 [Tee::enclave_init] *)
Definition enclave_init (h : Host) : Host * Result TeeError unit :=
  match ffi_init h with
  | (h, 0%Z) => (h, Ok tt)
  | (h, inite_result) => (h, Err (InitFailed inite_result))
  end.

(** src/bqti-tee/src/keystone/mod.rs:97-99 [Tee::enclave_drop] *)
Definition enclave_drop (h : Host) : Host := ffi_destroy h.

(** src/bqti-tee/src/keystone/mod.rs:103-127 [Tee::pow]

    The lock of the enclave is held during a call, so calls do not overlap. *)
Definition tee_pow (challange difficulty : Z) (h : Host)
    : option (Host * Result TeeError PowResult) :=
  match enclave_init h with
  | (h, Err e) => Some (h, Err e)
  | (h, Ok _) =>
    '(h, pow_result, (pow, sig, pub_key, nonce)) ← ffi_run_pow challange difficulty h;
    let h := enclave_drop h in
    Some (h, if negb (pow_result =? 0)%Z then Err (PowFailed pow_result)
             else Ok (mkPowResult pow nonce sig pub_key))
  end.

(** src/bqti-tee/src/keystone/mod.rs:129-146 [Tee::sign] *)
Definition tee_sign (data : list Z) (h : Host) : option (Host * Result TeeError (list Z)) :=
  match enclave_init h with
  | (h, Err e) => Some (h, Err e)
  | (h, Ok _) =>
    '(h, result, signature) ← ffi_sign data h;
    let h := enclave_drop h in
    Some (h, if negb (result =? 0)%Z then Err (SignatureFailed result) else Ok signature)
  end.

(** src/bqti-tee/src/keystone/mod.rs:148-163 [Tee::get_pubkey] *)
Definition tee_get_pubkey (h : Host) : option (Host * Result TeeError (list Z)) :=
  match enclave_init h with
  | (h, Err e) => Some (h, Err e)
  | (h, Ok _) =>
    '(h, result, pub_key) ← ffi_get_pubkey h;
    let h := enclave_drop h in
    Some (h, if negb (result =? 0)%Z then Err (PublicKeyFailed result) else Ok pub_key)
  end.

(** src/bqti-tee/src/keystone/mod.rs:165-203 [Tee::attest] *)
Definition tee_attest (nonce : list Z) (h : Host)
    : option (Host * Result TeeError AttestReport) :=
  match enclave_init h with
  | (h, Err e) => Some (h, Err e)
  | (h, Ok _) =>
    '(h, result, bytes) ← ffi_attest nonce h;
    let h := enclave_drop h in
    Some (h, if negb (result =? 0)%Z then Err (AttestFailed result)
             else Ok (parse_attest_report bytes))
  end.

(** * The prover *)

(** src/src/bit_torrent/dht/auth/pow.rs:103-117 [TeeProver::prove]

    Errors of the enclave are [AuthError]s through [From]. *)
Definition tee_prove (challenge difficulty : Z) (h : Host)
    : option (Host * Result TeeError PoW) :=
  '(h, r) ← tee_pow challenge difficulty h;
  match r with
  | Err e => Some (h, Err e)
  | Ok tee_pow =>
    '(h, r) ← tee_attest (pr_hash tee_pow) h;
    match r with
    | Err e => Some (h, Err e)
    | Ok report =>
      Some (h, Ok (PoW_new (pr_hash tee_pow) challenge (pr_nonce tee_pow) difficulty
                     (pr_sig tee_pow) (Some report)))
    end
  end.

(** src/src/bit_torrent/dht/auth/pow.rs:119-122 [TeeProver::sign] *)
Definition tee_prover_sign (data : list Z) (h : Host) : option (Host * Result TeeError (list Z)) :=
  tee_sign data h.
End host.

(** * Lemmas *)

(** ** Bytes *)

Lemma slice_app a b c : slice (length a) (length b) (a ++ b ++ c) = b.
Proof. unfold slice. by rewrite drop_app_length, take_app_length. Qed.

Lemma slice_at off len a b c :
  off = length a → len = length b → slice off len (a ++ b ++ c) = b.
Proof. intros -> ->. apply slice_app. Qed.

Lemma slice_end off len a b : off = length a → len = length b → slice off len (a ++ b) = b.
Proof. intros. rewrite <-(app_nil_r b) at 1. by apply slice_at. Qed.

Lemma splice_zero body n : length body ≤ n →
  splice 0 body (replicate n 0%Z) = body ++ replicate (n - length body) 0%Z.
Proof. intros. unfold splice. simpl. by rewrite drop_replicate. Qed.

(** A member of a response is what the enclave wrote there. *)
Lemma read_reply off len a b c body :
  body = a ++ b ++ c → off = length a → len = length b → length body ≤ 1352 →
  slice off len (splice 0 body (replicate 1352 0%Z)) = b.
Proof.
  intros -> Ha Hb Hl. rewrite splice_zero by done. rewrite <-!(assoc_L (++)). by apply slice_at.
Qed.

Lemma bswap32_bytes x : le_bytes 4 (bswap32 x) = be_bytes 4 x.
Proof.
  unfold bswap32, of_be. change 4 with (length (reverse (le_bytes 4 x))) at 1.
  rewrite le_bytes_of; [done|]. apply Forall_reverse, le_bytes_ok.
Qed.

(** ** The puzzle: the two implementations agree *)

Lemma meets_difficulty_validate hash difficulty : (0 ≤ difficulty)%Z →
  meets_difficulty hash difficulty = validate hash difficulty.
Proof.
  intros Hd. unfold meets_difficulty, validate.
  assert (Z.to_nat (difficulty / 8) = Z.to_nat difficulty / 8) as ->.
  { rewrite Z2Nat.inj_div by lia. done. }
  assert (difficulty mod 8 = Z.of_nat (Z.to_nat difficulty mod 8))%Z as Em.
  { rewrite Nat2Z.inj_mod, Z2Nat.id by lia. done. }
  set (n := Z.to_nat difficulty) in *. set (ids := seq 0 (n / 8)).
  assert (0 <? difficulty mod 8 = (0 <? n mod 8)%nat)%Z as ->.
  { rewrite Em. destruct (Nat.ltb_spec 0 (n mod 8)); [apply Z.ltb_lt|apply Z.ltb_ge]; lia. }
  assert (8 - difficulty mod 8 = Z.of_nat (8 - n mod 8))%Z as ->.
  { rewrite Em. pose proof (Nat.mod_upper_bound n 8). lia. }
  clearbody ids. induction ids as [|i ids IH]; [done|]. cbn [foldr].
  destruct (hash !! i) as [b|]; [|done]. cbn. destruct (b =? 0)%Z; [|done]. exact IH.
Qed.

Section enclave.
Context `{CryptoLaws} `{EnclaveLibs}.

Definition enclave_pk : list Z := enclave_keys.1.
(** The key pair of the enclave as a signer. *)
Definition enclave_signer : Signer :=
  mkSigner enclave_pk (λ d, Ok (eapp_sign enclave_keys.2 d)).

Lemma pow_loop_prove fuel challenge difficulty nonce : (0 ≤ difficulty)%Z →
  prove_loop fuel enclave_signer enclave_pk challenge difficulty nonce =
  '(n, hash) ← pow_loop fuel challenge difficulty enclave_pk nonce;
  Some (Ok (mkPoW hash challenge n (Some (eapp_sign enclave_keys.2 hash)) None difficulty)).
Proof.
  intros Hd. revert nonce. induction fuel as [|fuel IH]; intros nonce; [done|].
  cbn [prove_loop pow_loop]. rewrite !bswap32_bytes, meets_difficulty_validate by done.
  change (sha256 (enclave_pk ++ be_bytes 4 challenge ++ be_bytes 4 nonce))
    with (calculate enclave_pk challenge nonce).
  destruct (validate _ _) as [[]|]; [done| |done]. cbn. apply IH.
Qed.

(** What the program relies on of the enclave's libraries: keys and signatures
    have their lengths, a signature verifies, reports have their size. *)
Class EnclaveLaws : Prop := {
  pk_length : length enclave_pk = 32;
  eapp_sign_length d : length (eapp_sign enclave_keys.2 d) = 64;
  eapp_sign_verifies d : ed25519_verify enclave_pk d (eapp_sign enclave_keys.2 d) = true;
  attest_length nonce bytes : attest_enclave nonce = Some bytes → length bytes = 1352;
}.
Context `{!EnclaveLaws}.

#[global] Instance enclave_signer_laws : SignerLaws enclave_signer.
Proof.
  split; simpl; intros d sig [= <-]; [apply eapp_sign_verifies|apply eapp_sign_length].
Qed.

(** ** Calls *)

Context (fuel : nat) (run_ends : nat → bool).

Lemma tee_sign_runs data h :
  run_ends (runs h) = true → length data ≤ DATA_MAX_LENGTH →
  ∃ resp, tee_sign fuel run_ends data h =
    Some (mkHost false resp (S (runs h)), Ok (eapp_sign enclave_keys.2 data)).
Proof.
  intros Hr Hl. unfold tee_sign, enclave_init, ffi_init, ffi_sign. cbn [negb g_initialized].
  destruct (DATA_MAX_LENGTH <? length data) eqn:E; b2p; [lia|]. unfold run. cbn [runs].
  rewrite Hr. unfold eapp_main.
  pose proof pk_length as Hp. pose proof (eapp_sign_length data) as Hs. unfold enclave_pk in Hp.
  destruct enclave_keys as [pk sk]. cbn [fst snd] in *. eexists.
  cbn -[splice replicate slice]. do 2 f_equal. f_equal.
  apply (read_reply 0 64 [] _ pk); [done|done|done|]. rewrite length_app. lia.
Qed.

Lemma tee_get_pubkey_runs h :
  run_ends (runs h) = true →
  ∃ resp, tee_get_pubkey fuel run_ends h = Some (mkHost false resp (S (runs h)), Ok enclave_pk).
Proof.
  intros Hr. unfold tee_get_pubkey, enclave_init, ffi_init, ffi_get_pubkey, run.
  cbn [negb g_initialized runs]. rewrite Hr. unfold eapp_main.
  pose proof pk_length as Hp. unfold enclave_pk in *.
  destruct enclave_keys as [pk sk]. cbn [fst snd] in *. eexists.
  cbn -[splice replicate slice]. do 2 f_equal. f_equal.
  apply (read_reply 0 32 [] _ []); [by rewrite app_nil_r|done|done|]. lia.
Qed.

Lemma tee_attest_runs nonce bytes h :
  run_ends (runs h) = true → length nonce ≤ 64 → attest_enclave nonce = Some bytes →
  ∃ resp, tee_attest fuel run_ends nonce h =
    Some (mkHost false resp (S (runs h)), Ok (parse_attest_report bytes)).
Proof.
  intros Hr Hl Ha. unfold tee_attest, enclave_init, ffi_init, ffi_attest, run.
  cbn [negb g_initialized runs]. rewrite Hr. unfold eapp_main. rewrite Ha.
  pose proof (attest_length _ _ Ha) as Hb.
  destruct (64 <? length nonce) eqn:E; b2p; [lia|].
  destruct enclave_keys as [pk sk]. eexists.
  cbn -[splice replicate slice parse_attest_report]. do 2 f_equal. f_equal. f_equal.
  apply (read_reply 0 1352 [] _ []); [by rewrite app_nil_r|done|done|]. lia.
Qed.

Lemma tee_pow_runs challenge difficulty h n hash :
  run_ends (runs h) = true → pow_loop fuel challenge difficulty enclave_pk 0 = Some (n, hash) →
  length hash = 32 → (0 ≤ n < 2 ^ 32)%Z →
  ∃ resp, tee_pow fuel run_ends challenge difficulty h =
    Some (mkHost false resp (S (runs h)),
          Ok (mkPowResult hash n (eapp_sign enclave_keys.2 hash) enclave_pk)).
Proof.
  intros Hr Hp Hh Hn. unfold tee_pow, enclave_init, ffi_init, ffi_run_pow, run.
  cbn [negb g_initialized runs]. rewrite Hr. unfold eapp_main.
  pose proof pk_length as Hk. pose proof (eapp_sign_length hash) as Hs. unfold enclave_pk in *.
  destruct enclave_keys as [pk sk]. cbn [fst snd] in *. rewrite Hp. eexists.
  cbn -[splice replicate slice pow_res of_le]. do 2 f_equal.
  set (sig := eapp_sign sk hash) in *. unfold pow_res.
  assert (Hlen : length (le_bytes 4 n ++ hash ++ pk ++ sig) ≤ 1352)
    by (rewrite !length_app, length_le_bytes; lia).
  assert (Hl4 : length (le_bytes 4 n) = 4) by apply length_le_bytes.
  set (body := splice 0 _ _). f_equal. f_equal.
  - by apply (read_reply 4 32 (le_bytes 4 n) hash (pk ++ sig)).
  - unfold body. rewrite (read_reply 0 4 [] (le_bytes 4 n) (hash ++ pk ++ sig)) by done.
    rewrite of_le_bytes. by apply Z.mod_small.
  - apply (read_reply 68 64 (le_bytes 4 n ++ hash ++ pk) sig []); [|rewrite !length_app; lia|lia|done].
    by rewrite app_nil_r, <-!(assoc_L (++)).
  - apply (read_reply 36 32 (le_bytes 4 n ++ hash) pk sig); [|rewrite !length_app; lia|lia|done].
    by rewrite <-!(assoc_L (++)).
Qed.

Lemma pow_loop_hash f challenge difficulty pk nonce n hash :
  pow_loop f challenge difficulty pk nonce = Some (n, hash) → hash = calculate pk challenge n.
Proof.
  revert nonce. induction f as [|f IH]; intros nonce; [done|]. cbn [pow_loop].
  rewrite !bswap32_bytes. destruct (meets_difficulty _ _) as [[]|]; [|apply IH|done].
  by intros [= <- <-].
Qed.
End enclave.

(** * Claims *)

(** C38: A proof of work made in the enclave is accepted by the nodes that check
    it.  When some 32-bit nonce solves the puzzle, the enclave's two runs come to
    their end and the monitor grants the attestation of the hash, the prover answers, its proof passes the program's own check
    under the enclave's public key for the challenge and the difficulty asked,
    it carries the report for its hash, and the enclave is destroyed again. *)
Theorem enclave_proof_verifies `{CryptoLaws} `{EnclaveLibs} `{!EnclaveLaws}
    (run_ends : nat → bool) (challenge difficulty : Z) (k : nat) (h : Host)
    (Hdiff : (0 ≤ difficulty ≤ 256)%Z) (Hk : (Z.of_nat k < 2 ^ 32)%Z)
    (Hsolves : (of_be (calculate enclave_pk challenge (Z.of_nat k)) < 2 ^ (256 - difficulty))%Z)
    (Hpow : run_ends (runs h) = true) (Hattest : run_ends (S (runs h)) = true)
    (Hreport : ∀ nonce, length nonce = 32 → is_Some (attest_enclave nonce)) :
  ∃ h' p, tee_prove (S k) run_ends challenge difficulty h = Some (h', Ok p) ∧
    pow_verify p enclave_pk = Some true ∧
    pow_challange p = challenge ∧ pow_difficulty p = difficulty ∧
    (pow_attestation p = parse_attest_report <$> attest_enclave (pow_value p)) ∧
    g_initialized h' = false.
Proof.
  destruct (prove_loop_spec enclave_signer k challenge difficulty 0) as (p & Ep & Hn & _ & _ & Hv);
    [done|lia|done| |by eexists|].
  { unfold good. apply Z.ltb_lt. exact Hsolves. }
  change (signer_pub_key enclave_signer) with enclave_pk in *.
  rewrite pow_loop_prove in Ep by lia.
  destruct (pow_loop (S k) challenge difficulty enclave_pk 0) as [[n hash]|] eqn:El; [|done].
  injection Ep as <-. cbn [pow_nonce] in Hn. pose proof (pow_loop_hash _ _ _ _ _ _ _ El) as Hh.
  assert (length hash = 32) as Hl by (rewrite Hh; apply sha256_length).
  destruct (Hreport hash Hl) as [bytes Ha]. unfold tee_prove.
  destruct (tee_pow_runs (S k) run_ends challenge difficulty h n hash) as [r1 ->]; [done..|lia|].
  cbn [mbind option_bind pr_hash].
  destruct (tee_attest_runs (S k) run_ends hash bytes (mkHost false r1 (S (runs h)))) as [r2 ->];
    [done|lia|done|].
  eexists _, _. split; [done|]. cbn. rewrite Ha. done.
Qed.

(** When a run of the enclave fails, its caller is given the last response
    there was as its own: a request for a signature is answered, without an
    error, by the first bytes of whatever the enclave last sent. *)
Theorem failed_run_answers_last `{Crypto} `{EnclaveLibs} (fuel : nat) (run_ends : nat → bool)
    (data : list Z) (h : Host)
    (Hfail : run_ends (runs h) = false) (Hlen : length data ≤ DATA_MAX_LENGTH) :
  tee_sign fuel run_ends data h =
    Some (mkHost false (g_enclave_response h) (S (runs h)),
          let status := i32 (rs_status (g_enclave_response h)) in
          if (status =? 0)%Z then Ok (slice 0 64 (rs_body (g_enclave_response h)))
          else Err (SignatureFailed status)).
Proof.
  unfold tee_sign, enclave_init, ffi_init, ffi_sign. cbn [negb g_initialized].
  destruct (DATA_MAX_LENGTH <? length data) eqn:E; b2p; [lia|]. unfold run. cbn [runs].
  rewrite Hfail. cbn. by destruct (i32 _ =? 0)%Z.
Qed.

(** The bytes the security monitor writes are read back as the report they are. *)
Theorem report_roundtrip (r : AttestReport) (Hs : report_sized r) :
  parse_attest_report (report_bytes r) = r.
Proof.
  destruct r as [[eh el ed es] [sh sp ss] dk].
  destruct Hs as (H1 & H2 & H3 & H4 & H5 & H6 & H7 & H8).
  cbn [enclave sm dev_public_key en_hash en_data_len en_data en_signature sm_hash sm_public_key
    sm_signature] in *.
  unfold parse_attest_report, report_bytes. cbn [enclave sm dev_public_key en_hash en_data_len
    en_data en_signature sm_hash sm_public_key sm_signature].
  assert (Hle : length (le_bytes 8 el) = 8) by apply length_le_bytes.
  assert (Hof : of_le (le_bytes 8 el) = el) by (rewrite of_le_bytes; by apply Z.mod_small).
  set (lb := le_bytes 8 el) in *.
  f_equal; [f_equal|f_equal|].
  - by apply (slice_at 0 64 []).
  - by rewrite (slice_at 64 8 eh lb).
  - rewrite (assoc_L (++) eh). apply slice_at; rewrite ?length_app; lia.
  - rewrite (assoc_L (++) eh), (assoc_L (++) _ ed). apply slice_at; rewrite ?length_app; lia.
  - rewrite (assoc_L (++) eh), (assoc_L (++) _ ed), (assoc_L (++) _ es).
    apply slice_at; rewrite ?length_app; lia.
  - rewrite (assoc_L (++) eh), (assoc_L (++) _ ed), (assoc_L (++) _ es), (assoc_L (++) _ sh).
    apply slice_at; rewrite ?length_app; lia.
  - rewrite (assoc_L (++) eh), (assoc_L (++) _ ed), (assoc_L (++) _ es), (assoc_L (++) _ sh),
      (assoc_L (++) _ sp). apply slice_at; rewrite ?length_app; lia.
  - rewrite (assoc_L (++) eh), (assoc_L (++) _ ed), (assoc_L (++) _ es), (assoc_L (++) _ sh),
      (assoc_L (++) _ sp), (assoc_L (++) _ ss). apply slice_end; rewrite ?length_app; lia.
Qed.

(** Every call leaves the enclave destroyed, and none reports that it could not
    be started. *)
Lemma calls_leave_destroyed `{Crypto} `{EnclaveLibs} fuel run_ends h h' :
  (∀ c d r, tee_pow fuel run_ends c d h = Some (h', r) →
     g_initialized h' = false ∧ ∀ e, r ≠ Err (InitFailed e)) ∧
  (∀ d r, tee_sign fuel run_ends d h = Some (h', r) →
     g_initialized h' = false ∧ ∀ e, r ≠ Err (InitFailed e)) ∧
  (∀ n r, tee_attest fuel run_ends n h = Some (h', r) →
     g_initialized h' = false ∧ ∀ e, r ≠ Err (InitFailed e)) ∧
  (∀ r, tee_get_pubkey fuel run_ends h = Some (h', r) →
     g_initialized h' = false ∧ ∀ e, r ≠ Err (InitFailed e)).
Proof.
  unfold tee_pow, tee_sign, tee_attest, tee_get_pubkey, enclave_init, ffi_init.
  unfold ffi_run_pow, ffi_sign, ffi_attest, ffi_get_pubkey. cbn [negb g_initialized].
  split_and!; intros; repeat case_match; simplify_option_eq; repeat case_match; simplify_eq/=;
    done.
Qed.

Module TeeExamples.
#[local] Existing Instance Toy.ToyCrypto.
#[local] Existing Instance Toy.ToyCryptoLaws.

Definition toy_report (nonce : list Z) : list Z := take 1352 (nonce ++ replicate 1352 0%Z).

Lemma toy_report_length nonce : length (toy_report nonce) = 1352.
Proof. unfold toy_report. rewrite length_take, length_app, length_replicate. lia. Qed.

(** Libraries that satisfy the laws. *)
#[local] Instance libs : EnclaveLibs := {
  sealing_key := Some (replicate 128 7%Z);
  sign_keypair seed := (seed, seed);
  crypto_sign msg sk := replicate 64 (Toy.checksum (sk ++ msg)) ++ msg;
  attest_enclave nonce := Some (toy_report nonce);
}.

#[local] Instance libs_laws : EnclaveLaws.
Proof.
  assert (Hs : ∀ d, eapp_sign enclave_keys.2 d = replicate 64 (Toy.checksum (enclave_keys.2 ++ d)))
    by done.
  split.
  - reflexivity.
  - intros d. by rewrite Hs.
  - intros d. rewrite Hs. by apply bool_decide_eq_true.
  - intros nonce bytes E. apply (f_equal (from_option length 0)) in E.
    etrans; [symmetry; exact E|]. apply toy_report_length.
Qed.

Definition fresh_host : Host := mkHost false (mkResponse 0 (replicate 1352 0%Z)) 0.

Lemma enclave_proof_verifies_witness :
  ∃ h' p, tee_prove 28 (λ _, true) 5 3 fresh_host = Some (h', Ok p) ∧
    pow_verify p enclave_pk = Some true ∧ pow_challange p = 5%Z ∧ pow_difficulty p = 3%Z ∧
    (pow_attestation p = parse_attest_report <$> attest_enclave (pow_value p)) ∧
    g_initialized h' = false.
Proof.
  apply (enclave_proof_verifies (λ _, true) 5 3 27 fresh_host);
    [lia|lia|vm_compute; reflexivity|reflexivity|reflexivity|]. intros. by eexists.
Defined.

(** The public key, then a signature whose run fails: the key comes back as one. *)
Definition after_pubkey : Host :=
  match tee_get_pubkey 1 (λ k, k =? 0) fresh_host with Some (h, _) => h | None => fresh_host end.

Lemma failed_run_answers_last_witness :
  tee_sign 1 (λ k, k =? 0) [1; 2; 3]%Z after_pubkey =
    Some (mkHost false (g_enclave_response after_pubkey) 2,
          Ok (replicate 32 7%Z ++ replicate 32 0%Z)).
Proof.
  rewrite (failed_run_answers_last 1 (λ k, k =? 0) [1; 2; 3]%Z after_pubkey);
    [vm_compute; reflexivity|vm_compute; reflexivity|vm_compute; lia].
Defined.
End TeeExamples.
