(* ===== verification/Conn.v ===== *)
(** The connection table: [src/bit_torrent/network/manager.rs], with the
    connection objects of [connection.rs] and [peer.rs].

    A [Connection] is shared: the table, the task that reads it and callers that
    looked it up hold the same object, so connections live in a heap and are
    named by their [id].  What the QUIC library answers (whether a handshake
    succeeds, a stream opens, a write goes through) is an argument of each
    operation.  The operations that await locks are cut at the locks: [Task] is
    what a suspended operation still has to do, and [exec] runs one stretch. *)

From S2P Require Import Prelude Net Crypto Wire Routing Auth.

(** src/src/bit_torrent/network/peer.rs:11-15 [Peer] *)
Record Peer := mkPeer { peer_id : string; peer_address : SocketAddr }.

(** src/src/bit_torrent/network/peer.rs:18-23 [Peer::new] *)
Definition Peer_new `{AddrText} (server_name addr : string) : option Peer :=
  a ← parse_socket addr; Some (mkPeer server_name a).

(** src/src/bit_torrent/network/peer.rs:25-31 [Peer::from_socket] *)
Definition Peer_from_socket (socket : SocketAddr) : Peer := mkPeer "locahost" socket.

(** src/src/bit_torrent/network/connection.rs:57-64 [Connection]

    [conn_peer] is the address its reading task was started with, and
    [cancelled] the state of its cancellation token. *)
Record Connection := mkConn {
  conn_quic : nat;
  conn_peer : SocketAddr;
  control_stream : bool;
  cancelled : bool;
  inbound_auth : option Key;
  outbound_auth : bool;
}.

(** src/src/bit_torrent/network/manager.rs:22-41 [ConnectionManagerError] *)
Inductive ConnectionManagerError :=
| ConnectError
| QuicConnectionError
| StreamError (e : ConnectionError)
| EstablishError (addr : SocketAddr)
| SelfConnectionError
| LocalIpError.

(** src/src/bit_torrent/network/manager.rs:70-79 [ConnectionManager]

    [cm_local] is what the endpoint says its address is and [cm_probe] the
    address a probing socket gets; [notified] is what was sent to
    [disconnect_tx] and [sent] what was written to connections. *)
Record ConnectionManager := mkCM {
  cm_local : option SocketAddr;
  cm_probe : option IpAddr;
  heap : gmap Z Connection;
  connections : gmap SocketAddr Z;
  connecting : gset SocketAddr;
  cm_next_id : Z;
  max_connections : nat;
  notified : list SocketAddr;
  sent : list (Z * list Z);
}.

Definition set_heap f m := mkCM (cm_local m) (cm_probe m) (f (heap m)) (connections m)
  (connecting m) (cm_next_id m) (max_connections m) (notified m) (sent m).
Definition set_connections f m := mkCM (cm_local m) (cm_probe m) (heap m) (f (connections m))
  (connecting m) (cm_next_id m) (max_connections m) (notified m) (sent m).
Definition set_connecting f m := mkCM (cm_local m) (cm_probe m) (heap m) (connections m)
  (f (connecting m)) (cm_next_id m) (max_connections m) (notified m) (sent m).
Definition set_notified f m := mkCM (cm_local m) (cm_probe m) (heap m) (connections m)
  (connecting m) (cm_next_id m) (max_connections m) (f (notified m)) (sent m).
Definition set_sent f m := mkCM (cm_local m) (cm_probe m) (heap m) (connections m)
  (connecting m) (cm_next_id m) (max_connections m) (notified m) (f (sent m)).

(** * Connection objects *)

Module Connection.
(** src/src/bit_torrent/network/connection.rs:91-98 [Connection::new, the object] *)
Definition conn_new (peer : SocketAddr) (quic : nat) : Connection :=
  mkConn quic peer true false None false.

(** src/src/bit_torrent/network/connection.rs:126-128 [Connection::set_inbound_peer] *)
Definition set_inbound_peer (key : Key) (c : Connection) : Connection :=
  mkConn (conn_quic c) (conn_peer c) (control_stream c) (cancelled c) (Some key)
    (outbound_auth c).

(** src/src/bit_torrent/network/connection.rs:122-124 [Connection::set_inbound_auth] *)
Definition set_inbound_auth `{Crypto} (token : Token) (c : Connection) : Connection :=
  set_inbound_peer (Token.sender token) c.

(** src/src/bit_torrent/network/connection.rs:130-132 [Connection::inbound_sender] *)
Definition inbound_sender (c : Connection) : option Key := inbound_auth c.

(** src/src/bit_torrent/network/connection.rs:134-136 [Connection::is_inbound_authenticated] *)
Definition is_inbound_authenticated (c : Connection) : bool :=
  match inbound_auth c with Some _ => true | None => false end.

(** src/src/bit_torrent/network/connection.rs:138-140 [Connection::set_outbound_authenticated] *)
Definition set_outbound_authenticated (c : Connection) : Connection :=
  mkConn (conn_quic c) (conn_peer c) (control_stream c) (cancelled c) (inbound_auth c) true.

(** src/src/bit_torrent/network/connection.rs:142-144 [Connection::is_outbound_authenticated] *)
Definition is_outbound_authenticated (c : Connection) : bool := outbound_auth c.

(** src/src/bit_torrent/network/connection.rs:301-304 [Connection::close] *)
Definition close (c : Connection) : Connection :=
  mkConn (conn_quic c) (conn_peer c) (control_stream c) true (inbound_auth c) (outbound_auth c).

Definition set_control (b : bool) (c : Connection) : Connection :=
  mkConn (conn_quic c) (conn_peer c) b (cancelled c) (inbound_auth c) (outbound_auth c).

(** src/src/bit_torrent/network/connection.rs:309-331 [ControlStream::send_control]

    [opens] and [writes] say whether a stream can be opened and written. *)
Definition send_control (opens writes : bool) (message : Message) (c : Connection)
    : Result ConnectionError (list Z) * Connection :=
  if negb (control_stream c) && negb opens then (Err Protocol, c)
  else if writes then (Ok (Message.to_bytes message), set_control true c)
  else (Err Protocol, set_control false c).
End Connection.

(** * The manager *)

Module ConnectionManager.
Implicit Types (m : ConnectionManager).

(** src/src/bit_torrent/network/manager.rs:82-100 [ConnectionManager::new] *)
Definition cm_new (local : option SocketAddr) (probe : option IpAddr) (max_connections : nat)
    : ConnectionManager :=
  mkCM local probe ∅ ∅ ∅ 0 max_connections [] [].

Definition with_ip (ip : IpAddr) (port : Z) : SocketAddr :=
  match ip with IpV4 b => SocketV4 b port | IpV6 b => SocketV6 b port 0 0 end.

(** src/src/bit_torrent/network/manager.rs:120-145 [ConnectionManager::get_local_ip] *)
Definition get_local_ip m : Result ConnectionManagerError SocketAddr :=
  let? addr := ok_or LocalIpError (cm_local m) in
  if negb (is_unspecified (addr_ip addr)) then Ok addr
  else let? ip := ok_or LocalIpError (cm_probe m) in Ok (with_ip ip (addr_port addr)).

(** src/src/bit_torrent/network/manager.rs:147-150 [ConnectionManager::get_connection] *)
Definition get_connection m (socket_addr : SocketAddr) : option Z := connections m !! socket_addr.

(** src/src/bit_torrent/network/manager.rs:112-114 [ConnectionManager::next_id] *)
Definition next_id m : Z * ConnectionManager :=
  (cm_next_id m, mkCM (cm_local m) (cm_probe m) (heap m) (connections m) (connecting m)
     (u64 (cm_next_id m + 1)) (max_connections m) (notified m) (sent m)).

Definition close_id (id : Z) m : ConnectionManager := set_heap (alter Connection.close id) m.

(** src/src/bit_torrent/network/manager.rs:102-110 [ConnectionManager::disconnect] *)
Definition disconnect m (addr : SocketAddr) : ConnectionManager :=
  match connections m !! addr with
  | None => m
  | Some conn => close_id conn (set_connections (delete addr) m)
  end.

(** src/src/bit_torrent/network/manager.rs:164-176 [on_disconnect_handler, the task it spawns] *)
Definition on_disconnect_handler m (connection_id : Z) (addr : SocketAddr) : ConnectionManager :=
  if bool_decide (connections m !! addr = Some connection_id) then
    set_notified (λ l, l ++ [addr]) (set_connections (delete addr) m)
  else m.

(** src/src/bit_torrent/network/manager.rs:180-204 [ConnectionManager::append_connection] *)
Definition append_connection m (connection : Z) (peer_addr : SocketAddr)
    : Result ConnectionManagerError unit * ConnectionManager :=
  match get_local_ip m with
  | Err e => (Err e, m)
  | Ok local_addr =>
    match connections m !! peer_addr with
    | None => (Ok tt, set_connections (insert peer_addr connection) m)
    | Some old =>
      if addr_ltb local_addr peer_addr then (Ok tt, close_id connection m)
      else (Ok tt, close_id old (set_connections (insert peer_addr connection) m))
    end
  end.

(** src/src/bit_torrent/network/manager.rs:273-282 [ConnectionManager::is_self_connection] *)
Definition is_self_connection (peer_addr local_addr : SocketAddr) : bool :=
  if negb (addr_port peer_addr =? addr_port local_addr)%Z then false
  else is_loopback (addr_ip peer_addr) || is_unspecified (addr_ip peer_addr) ||
       bool_decide (addr_ip peer_addr = addr_ip local_addr).

(** src/src/bit_torrent/network/manager.rs:339-366 [ConnectionManager::send] *)
Definition cm_send (opens writes : bool) m (peer : Peer) (msg : Message)
    : Result ConnectionManagerError unit * ConnectionManager :=
  match get_local_ip m with
  | Err e => (Err e, m)
  | Ok local_addr =>
    if is_self_connection (peer_address peer) local_addr then (Err SelfConnectionError, m)
    else match connections m !! peer_address peer with
    | None => (Err (EstablishError (peer_address peer)), m)
    | Some id =>
      match heap m !! id with
      | None => (Err (EstablishError (peer_address peer)), m)
      | Some c =>
        match Connection.send_control opens writes msg c with
        | (Ok bytes, c) => (Ok tt, set_sent (λ l, l ++ [(id, bytes)]) (set_heap (insert id c) m))
        | (Err e, c) => (Err (StreamError e), set_heap (insert id c) m)
        end
      end
    end
  end.

(** src/src/bit_torrent/network/manager.rs:368-395 [ConnectionManager::request]

    [exchange] is what [Connection::request] returns for the bytes sent on that
    connection. *)
Definition cm_request (exchange : Z → list Z → Result ConnectionError (list Z)) m (peer : Peer)
    (msg : Message) : Result ConnectionManagerError (list Z) :=
  let? local_addr := get_local_ip m in
  if is_self_connection (peer_address peer) local_addr then Err SelfConnectionError
  else match connections m !! peer_address peer with
  | None => Err (EstablishError (peer_address peer))
  | Some id => map_err StreamError (exchange id (Message.to_bytes msg))
  end.

(** src/src/bit_torrent/network/manager.rs:397-406 [ConnectionManager::shutdown] *)
Definition shutdown m : ConnectionManager :=
  foldr close_id (set_connections (λ _, ∅) m) ((map_to_list (connections m)).*2).
End ConnectionManager.
Import ConnectionManager.

(** * Tasks *)

(** What a suspended operation still has to do. *)
Inductive Task :=
| DialLock (addr : SocketAddr)                       (* [connect], at the write lock *)
| Dialing (addr : SocketAddr) (id : Z)               (* [connect], in the handshake *)
| Append (id : Z) (addr : SocketAddr) (dial : bool)  (* before [append_connection] *)
| DialDone (addr : SocketAddr)                       (* [connect], after the handshake *)
| Reading (id : Z)                                   (* [handle_connection] *)
| Callback (id : Z) (addr : SocketAddr).             (* [on_disconnect_handler] *)

Record State := mkState { cm : ConnectionManager; tasks : list Task }.

(** What happens next: a call, an accepted connection, or the next stretch of
    the [i]-th task; [quic] is the handshake's result.  [SetAuth] and [CallClose] are what
    the DHT does with the connection object a packet came with: it marks it as
    authenticated, or closes it when a handshake is refused
    ([KademliaServer::handle_packet]), which leaves it in the table. *)
Inductive Event :=
| CallConnect (peer : Peer)
| Accept (peer_addr : SocketAddr) (open : nat) (quic : option nat)
| Run (i : nat) (quic : option nat)
| CallDisconnect (addr : SocketAddr)
| CallSend (opens writes : bool) (peer : Peer) (msg : Message)
| SetAuth (id : Z) (key : option Key)
| CallClose (id : Z)
| CallShutdown.

Section tasks.
Implicit Types (m : ConnectionManager).

(** src/src/bit_torrent/network/manager.rs:285-299 [ConnectionManager::connect, until the check]

    [Ok true] goes on to dial. *)
Definition connect_check m (peer : Peer) : Result ConnectionManagerError bool :=
  let? local_addr := get_local_ip m in
  if is_self_connection (peer_address peer) local_addr then Err SelfConnectionError
  else if bool_decide (is_Some (connections m !! peer_address peer)) ||
          bool_decide (peer_address peer ∈ connecting m) then Ok false
  else Ok true.

(** src/src/bit_torrent/network/manager.rs:301-311 [ConnectionManager::connect, marking the dial] *)
Definition connect_mark m (peer_addr : SocketAddr) : option Z * ConnectionManager :=
  if bool_decide (peer_addr ∈ connecting m) then (None, m)
  else let '(id, m) := next_id (set_connecting (λ d, {[ peer_addr ]} ∪ d) m) in (Some id, m).

(** src/src/bit_torrent/network/manager.rs:332-336 [ConnectionManager::connect, the end] *)
Definition connect_end m (peer_addr : SocketAddr) : ConnectionManager :=
  set_connecting (λ d, d ∖ {[ peer_addr ]}) m.

(** src/src/bit_torrent/network/manager.rs:223-268 [start_listening, one incoming connection]

    [open] is the number of open connections and [quic] the handshake's result;
    [Connection::new] starts the reading task. *)
Definition accept m (peer_addr : SocketAddr) (open : nat) (quic : option nat)
    : ConnectionManager * list Task :=
  if max_connections m <=? open then (m, [])
  else match quic with
  | None => (m, [])
  | Some q =>
    let '(id, m) := next_id m in
    (set_heap (insert id (Connection.conn_new peer_addr q)) m,
     [Reading id; Append id peer_addr false])
  end.

(** src/src/bit_torrent/network/manager.rs:310-336 [ConnectionManager::connect, the handshake]

    The stretches of every task. *)
Definition run_task m (t : Task) (quic : option nat) : ConnectionManager * list Task :=
  match t with
  | DialLock addr =>
    match connect_mark m addr with
    | (None, m) => (m, [])
    | (Some id, m) => (m, [Dialing addr id])
    end
  | Dialing addr id =>
    match quic with
    | None => (m, [DialDone addr])
    | Some q => (set_heap (insert id (Connection.conn_new addr q)) m,
                 [Reading id; Append id addr true])
    end
  | Append id addr dial =>
    ((append_connection m id addr).2, if dial then [DialDone addr] else [])
  | DialDone addr => (connect_end m addr, [])
  | Reading id =>
    match heap m !! id with
    | None => (m, [])
    | Some c => (m, [Callback id (conn_peer c)])
    end
  | Callback id addr => (on_disconnect_handler m id addr, [])
  end.

Definition set_auth m (id : Z) (key : option Key) : ConnectionManager :=
  set_heap (alter match key with
                  | Some k => Connection.set_inbound_peer k
                  | None => Connection.set_outbound_authenticated
                  end id) m.

Definition exec (s : State) (e : Event) : State :=
  let m := cm s in
  match e with
  | CallConnect peer =>
    match connect_check m peer with
    | Ok true => mkState m (DialLock (peer_address peer) :: tasks s)
    | _ => s
    end
  | Accept a open quic => let '(m, new) := accept m a open quic in mkState m (new ++ tasks s)
  | Run i quic =>
    match tasks s !! i with
    | None => s
    | Some t => let '(m, new) := run_task m t quic in mkState m (new ++ remove_at i (tasks s))
    end
  | CallDisconnect addr => mkState (disconnect m addr) (tasks s)
  | CallSend opens writes peer msg => mkState (cm_send opens writes m peer msg).2 (tasks s)
  | SetAuth id key => mkState (set_auth m id key) (tasks s)
  | CallClose id => mkState (close_id id m) (tasks s)
  | CallShutdown => mkState (shutdown m) (tasks s)
  end.

Definition execs (s : State) (es : list Event) : State := foldl exec s es.
End tasks.

Definition start (local : option SocketAddr) (probe : option IpAddr) (max : nat) : State :=
  mkState (cm_new local probe max) [].

(** * The invariant *)

(** The addresses being dialled, and the connections not yet in the table. *)
Definition dial_of (t : Task) : option SocketAddr :=
  match t with
  | Dialing a _ | DialDone a | Append _ a true => Some a
  | _ => None
  end.
Definition dials (l : list Task) : list SocketAddr := omap dial_of l.

Definition fresh_of (t : Task) : option Z :=
  match t with Dialing _ id | Append id _ _ => Some id | _ => None end.
Definition fresh (l : list Task) : list Z := omap fresh_of l.

(** [D] has the connections closed by others than the manager. *)
Section inv.
Context (D : Z → Prop).

Record conn_inv (m : ConnectionManager) (l : list Task) : Prop := {
  ci_table a id : connections m !! a = Some id →
    id ∉ fresh l ∧ ∃ c, heap m !! id = Some c ∧ conn_peer c = a ∧ (cancelled c = true → D id);
  ci_fresh : NoDup (fresh l);
  ci_append id a d : Append id a d ∈ l →
    ∃ c, heap m !! id = Some c ∧ conn_peer c = a ∧ (cancelled c = true → D id);
  ci_dialing a id : Dialing a id ∈ l → heap m !! id = None;
  ci_heap id : is_Some (heap m !! id) → (id < cm_next_id m)%Z;
  ci_ids id : id ∈ fresh l → (id < cm_next_id m)%Z;
  ci_dials : NoDup (dials l);
  ci_connecting a : a ∈ connecting m ↔ a ∈ dials l;
}.

Lemma conn_inv_perm m l l' : l ≡ₚ l' → conn_inv m l → conn_inv m l'.
Proof.
  intros Hl [H1 H2 H3 H4 H5 H6 H7 H8].
  assert (fresh l ≡ₚ fresh l') as Hf by (unfold fresh; by rewrite Hl).
  assert (dials l ≡ₚ dials l') as Hd by (unfold dials; by rewrite Hl).
  split; try setoid_rewrite <-Hf; try setoid_rewrite <-Hd; auto.
  - intros id a d. rewrite <-Hl. apply H3.
  - intros a id. rewrite <-Hl. apply H4.
Qed.

#[export] Instance conn_inv_proper : Proper ((=) ==> (≡ₚ) ==> iff) conn_inv.
Proof. intros m ? <- l l' Hl. by split; apply conn_inv_perm. Qed.

Section inv_lemmas.
Implicit Types (m : ConnectionManager) (l : list Task).

Lemma inv_new local probe max : conn_inv (cm_new local probe max) [].
Proof.
  split; simpl; try (intros *; rewrite ?lookup_empty; set_solver); constructor.
Qed.

(** The address of an entry is that of its connection. *)
Lemma inv_table_inj m l a b id :
  conn_inv m l → connections m !! a = Some id → connections m !! b = Some id → a = b.
Proof.
  intros Hi (_ & c & Hc & <- & _)%(ci_table _ _ Hi) (_ & d & Hd & <- & _)%(ci_table _ _ Hi).
  by simplify_eq.
Qed.

Lemma fresh_append id a d l : Append id a d ∈ l → id ∈ fresh l.
Proof. intros Hin. apply list_elem_of_omap. eexists. split; [exact Hin|done]. Qed.

Lemma fresh_dialing id a l : Dialing a id ∈ l → id ∈ fresh l.
Proof. intros Hin. apply list_elem_of_omap. eexists. split; [exact Hin|done]. Qed.

Lemma inv_delete m l a : conn_inv m l → conn_inv (set_connections (delete a) m) l.
Proof.
  intros [H1 H2 H3 H4 H5 H6 H7 H8]. split; simpl; auto.
  intros b id. rewrite lookup_delete_Some. intros [_ ?]. auto.
Qed.

(** Changing an object in place. *)
Lemma inv_alter m l id f :
  conn_inv m l → (∀ c, conn_peer (f c) = conn_peer c) →
  (∀ c, cancelled (f c) = cancelled c) ∨ D id ∨
    (id ∉ fresh l ∧ ∀ a, connections m !! a ≠ Some id) →
  conn_inv (set_heap (alter f id) m) l.
Proof.
  intros [H1 H2 H3 H4 H5 H6 H7 H8] Hp Hc.
  assert (∀ j a, (∃ c, heap m !! j = Some c ∧ conn_peer c = a ∧ (cancelled c = true → D j)) →
    (j ≠ id ∨ D id ∨ ∀ c, cancelled (f c) = cancelled c) →
    ∃ c, alter f id (heap m) !! j = Some c ∧ conn_peer c = a ∧ (cancelled c = true → D j)) as Halt.
  { intros j a (c & Hj & Ha & Hcc) Hor. destruct (decide (j = id)) as [->|].
    - exists (f c). rewrite lookup_alter_eq, Hj, Hp. destruct Hor as [|[?|Hor]]; [done|auto|].
      rewrite Hor. auto.
    - exists c. by rewrite lookup_alter_ne by congruence. }
  split; simpl; auto.
  - intros a j Hj. destruct (H1 a j Hj). split; [done|]. apply Halt; [done|].
    destruct Hc as [|[|[_ Hc]]]; [auto|auto|]. left. intros ->. by eapply Hc.
  - intros j a d Hj. apply Halt; [eauto|]. destruct Hc as [|[|[Hc _]]]; [auto|auto|].
    left. intros ->. by eapply Hc, fresh_append.
  - intros a j Hj. destruct (decide (j = id)) as [->|].
    + rewrite lookup_alter_eq. by rewrite (H4 a id Hj).
    + rewrite lookup_alter_ne by congruence. eauto.
  - intros j. destruct (decide (j = id)) as [->|].
    + rewrite lookup_alter_eq, fmap_is_Some. auto.
    + rewrite lookup_alter_ne by congruence. auto.
Qed.

Lemma inv_close m l id :
  conn_inv m l → id ∉ fresh l → (∀ a, connections m !! a ≠ Some id) → conn_inv (close_id id m) l.
Proof. intros. apply inv_alter; auto. Qed.

Lemma inv_closed_outside m l id : conn_inv m l → D id → conn_inv (close_id id m) l.
Proof. intros. apply inv_alter; auto. Qed.

Lemma inv_disconnect m l a : conn_inv m l → conn_inv (disconnect m a) l.
Proof.
  intros Hi. unfold disconnect. destruct (connections m !! a) as [id|] eqn:Ha; [|done].
  apply inv_close; [by apply inv_delete|by eapply ci_table|].
  intros b. simpl. rewrite lookup_delete_Some. intros [Hne Hb].
  apply Hne. by eapply inv_table_inj.
Qed.

Lemma inv_insert m l id a c :
  conn_inv m l → id ∉ fresh l → heap m !! id = Some c → conn_peer c = a → (cancelled c = true → D id) →
  conn_inv (set_connections (insert a id) m) l.
Proof.
  intros [H1 H2 H3 H4 H5 H6 H7 H8] Hf Hc Ha Hcc. split; simpl; auto.
  intros b j. rewrite lookup_insert_Some. intros [[<- <-]|[_ ?]]; eauto.
Qed.

(** A connection handed to the table. *)
Lemma inv_take_append m l id a d :
  conn_inv m (Append id a d :: l) →
  conn_inv m ((if d then [DialDone a] else []) ++ l) ∧ id ∉ fresh l ∧
  (∀ b, connections m !! b ≠ Some id) ∧
  ∃ c, heap m !! id = Some c ∧ conn_peer c = a ∧ (cancelled c = true → D id).
Proof.
  intros [H1 H2 H3 H4 H5 H6 H7 H8]. unfold fresh, dials in *. cbn in H2, H1, H6.
  apply NoDup_cons in H2 as [Hid H2]. split_and!.
  - split; unfold fresh, dials; destruct d; cbn in *; try (intros; set_solver); done.
  - done.
  - intros b Hb. destruct (H1 b id Hb). set_solver.
  - apply (H3 id a d). set_solver.
Qed.

Lemma inv_append m l id a d :
  conn_inv m (Append id a d :: l) →
  conn_inv (append_connection m id a).2 ((if d then [DialDone a] else []) ++ l).
Proof.
  intros (Hi & Hf & Ht & c & Hc & Ha & Hcc)%inv_take_append. unfold append_connection.
  assert (id ∉ fresh ((if d then [DialDone a] else []) ++ l)) as Hf' by by destruct d.
  destruct (get_local_ip m) as [local|]; [|done].
  destruct (connections m !! a) as [old|] eqn:Hold; simpl; [|by eapply inv_insert].
  destruct (addr_ltb local a); simpl; [by apply inv_close|].
  apply inv_close; [by eapply inv_insert|by eapply ci_table|].
  intros b. simpl. rewrite lookup_insert_Some. intros [[<- ->]|[Hne Hb]]; [by eapply Ht|].
  apply Hne. by eapply inv_table_inj.
Qed.

(** Allocating an id. *)
Lemma next_id_eq m :
  (0 ≤ cm_next_id m < 2 ^ 64 - 1)%Z →
  cm_next_id (next_id m).2 = (cm_next_id m + 1)%Z.
Proof. intros. simpl. apply wrap_small. lia. Qed.

Lemma inv_mark m l a id m' :
  conn_inv m l → (0 ≤ cm_next_id m < 2 ^ 64 - 1)%Z → connect_mark m a = (Some id, m') →
  conn_inv m' (Dialing a id :: l).
Proof.
  intros [H1 H2 H3 H4 H5 H6 H7 H8] Hn. unfold connect_mark.
  case_bool_decide as Ha; [done|]. simpl. intros [= <- <-].
  assert (cm_next_id m ∉ fresh l) as Hfresh by (intros Hin%H6; lia).
  assert (∀ i c, heap m !! i = Some c → i < cm_next_id m)%Z as Hheap by eauto.
  split; unfold fresh, dials in *; cbn; rewrite ?wrap_small by lia.
  - intros b j Hj. destruct (H1 b j Hj) as [? (c & Hc & ?)]. split; [|eauto].
    rewrite not_elem_of_cons. split; [|done]. apply Hheap in Hc. lia.
  - by constructor.
  - intros j b d [?|Hin]%elem_of_cons; [done|]. by eapply H3.
  - intros b j [[= -> ->]|Hin]%elem_of_cons; [|by eapply H4].
    destruct (heap m !! cm_next_id m) eqn:E; [|done]. apply Hheap in E. lia.
  - intros j Hj%H5. lia.
  - intros j [->|Hj%H6]%elem_of_cons; lia.
  - constructor; [|done]. by rewrite <-H8.
  - intros b. rewrite elem_of_union, elem_of_singleton, H8, elem_of_cons. done.
Qed.

(** A new object: its id is that of a finished dial, or has just been drawn. *)
Lemma inv_new_conn m l0 l id a q d :
  conn_inv m l0 → (∀ t, t ∈ l → t ∈ l0) → NoDup (id :: fresh l) → heap m !! id = None →
  (id < cm_next_id m)%Z → NoDup (dials (Append id a d :: l)) →
  (∀ b, b ∈ connecting m ↔ b ∈ dials (Append id a d :: l)) →
  conn_inv (set_heap (insert id (Connection.conn_new a q)) m) (Reading id :: Append id a d :: l).
Proof.
  intros [H1 H2 H3 H4 H5 H6 H7 H8] Hl Hf Hh Hid Hd Hcon.
  assert (∀ j b, (∃ c, heap m !! j = Some c ∧ conn_peer c = b ∧ (cancelled c = true → D j)) →
    ∃ c, <[id := Connection.conn_new a q]> (heap m) !! j = Some c ∧ conn_peer c = b ∧
         (cancelled c = true → D j)) as Hins.
  { intros j b (c & Hc & ?). exists c. rewrite lookup_insert_ne; [auto|congruence]. }
  assert (∀ j, j ∈ fresh l → j ∈ fresh l0) as Hsub.
  { intros j (t & Ht & Hj)%list_elem_of_omap. apply list_elem_of_omap. eauto. }
  split; simpl; auto.
  - intros b j Hj. destruct (H1 b j Hj) as [? Hc]. split; [|auto].
    change (j ∉ id :: fresh l). rewrite not_elem_of_cons. split; [|auto].
    intros ->. destruct Hc as (c & Hc & _). congruence.
  - intros j b d' [?|[[= -> -> ->]|Hin]%elem_of_cons]%elem_of_cons; [done| |eauto].
    eexists. by rewrite lookup_insert_eq.
  - intros b j [?|[?|Hin]%elem_of_cons]%elem_of_cons; [done|done|].
    rewrite lookup_insert_ne; [eauto|]. intros ->. apply NoDup_cons in Hf as [Hf _].
    by eapply Hf, fresh_dialing.
  - intros j. rewrite lookup_insert_is_Some. intros [<-|[_ ?]]; auto.
  - intros j [->|]%elem_of_cons; auto.
Qed.

Lemma inv_dial_ok m l a id q :
  conn_inv m (Dialing a id :: l) →
  conn_inv (set_heap (insert id (Connection.conn_new a q)) m) (Reading id :: Append id a true :: l).
Proof.
  intros Hi. eapply inv_new_conn; [exact Hi|..]; destruct Hi as [H1 H2 H3 H4 H5 H6 H7 H8]; auto.
  - set_solver.
  - apply (H4 a). set_solver.
  - apply H6. set_solver.
Qed.

Lemma inv_accept m l a q open :
  conn_inv m l → (0 ≤ cm_next_id m < 2 ^ 64 - 1)%Z →
  conn_inv (accept m a open q).1 ((accept m a open q).2 ++ l).
Proof.
  intros Hi Hn. unfold accept. destruct (_ <=? _); [done|]. destruct q as [q|]; [|done]. simpl.
  assert (conn_inv (next_id m).2 l) as Hi'.
  { destruct Hi as [H1 H2 H3 H4 H5 H6 H7 H8]. split; auto; simpl; rewrite wrap_small by lia.
    - intros id ?%H5. lia.
    - intros id ?%H6. lia. }
  apply (inv_new_conn (next_id m).2 l l (cm_next_id m) a q false); auto; simpl;
    rewrite ?wrap_small by lia; try (by apply Hi).
  - constructor; [|by apply Hi]. intros Hin%(ci_ids _ _ Hi). lia.
  - destruct (heap m !! cm_next_id m) eqn:E; [|done].
    assert (cm_next_id m < cm_next_id m)%Z by (apply (ci_heap _ _ Hi); eauto). lia.
  - lia.
Qed.

Lemma inv_shutdown m l : conn_inv m l → conn_inv (shutdown m) l.
Proof.
  intros Hi. unfold shutdown.
  assert (∀ ids m, (∀ id, id ∈ ids → id ∉ fresh l) → connections m = ∅ → conn_inv m l →
    connections (foldr close_id m ids) = ∅ ∧ conn_inv (foldr close_id m ids) l) as Hids.
  { induction ids as [|id ids IH]; intros m' Hf He Hm; [done|]. simpl.
    destruct (IH m') as [He' Hm']; [set_solver|done..|]. split; [done|].
    apply inv_close; [done|set_solver|]. intros a. by rewrite He'. }
  apply Hids; [|done|].
  - intros id Hid%list_elem_of_fmap. destruct Hid as ([a j] & -> & Hj).
    apply elem_of_map_to_list in Hj. by eapply ci_table.
  - destruct Hi as [H1 H2 H3 H4 H5 H6 H7 H8]. split; auto. simpl.
    intros a id. by rewrite lookup_empty.
Qed.

Lemma inv_drop m l t :
  conn_inv m (t :: l) → fresh_of t = None → dial_of t = None → conn_inv m l.
Proof.
  intros [H1 H2 H3 H4 H5 H6 H7 H8] Hf Hd.
  unfold fresh, dials in *; cbn in *; rewrite Hf, Hd in *; cbn in *.
  split; auto; intros; [eapply H3, elem_of_cons|eapply H4, elem_of_cons]; eauto.
Qed.

Lemma inv_add m l t :
  conn_inv m l → fresh_of t = None → dial_of t = None → (∀ id a d, t ≠ Append id a d) →
  (∀ a id, t ≠ Dialing a id) → conn_inv m (t :: l).
Proof.
  intros [H1 H2 H3 H4 H5 H6 H7 H8] Hf Hd Ha Hdi.
  split; unfold fresh, dials in *; cbn; rewrite ?Hf, ?Hd; auto.
  - intros id a d [?|?]%elem_of_cons; [exfalso; by eapply Ha|eauto].
  - intros a id [?|?]%elem_of_cons; [exfalso; by eapply Hdi|eauto].
Qed.
End inv_lemmas.

Lemma run_task_inv m t l q :
  conn_inv m (t :: l) → (0 ≤ cm_next_id m < 2 ^ 64 - 1)%Z →
  conn_inv (run_task m t q).1 ((run_task m t q).2 ++ l).
Proof.
  intros Hi Hn. destruct t as [a|a id|id a d|a|id|id a]; cbn [run_task].
  - apply inv_drop in Hi; [|done..].
    destruct (connect_mark m a) as [[id|] m'] eqn:Hm; [by eapply inv_mark|].
    unfold connect_mark in Hm. case_bool_decide; by simplify_eq.
  - destruct q as [q|]; [by apply inv_dial_ok|].
    destruct Hi as [H1 H2 H3 H4 H5 H6 H7 H8].
    split; unfold fresh, dials in *; cbn in *; auto.
    + intros b j Hj. destruct (H1 b j Hj). set_solver.
    + by apply NoDup_cons in H2 as [_ H2].
    + intros j b d [?|?]%elem_of_cons; [done|]. eapply H3, elem_of_cons. eauto.
    + intros b j [?|?]%elem_of_cons; [done|]. eapply H4, elem_of_cons. eauto.
    + intros j Hj. apply H6. set_solver.
  - by apply inv_append.
  - destruct Hi as [H1 H2 H3 H4 H5 H6 H7 H8]. cbn in *. apply NoDup_cons in H7 as [Ha H7].
    split; cbn; auto; [intros; eapply H3, elem_of_cons; eauto|intros; eapply H4, elem_of_cons; eauto|].
    intros b. rewrite elem_of_difference, elem_of_singleton, H8, elem_of_cons.
    split; [tauto|]. intros Hb. split; [auto|]. by intros ->.
  - apply inv_drop in Hi; [|done..]. destruct (heap m !! id); [|done]. by apply inv_add.
  - apply inv_drop in Hi; [|done..]. unfold on_disconnect_handler. simpl.
    case_bool_decide; [|done]. apply (inv_delete _ _ a) in Hi. destruct Hi. by split.
Qed.

Lemma run_task_next_id m t q :
  (0 ≤ cm_next_id m < 2 ^ 64 - 1)%Z →
  (cm_next_id m ≤ cm_next_id (run_task m t q).1 ≤ cm_next_id m + 1)%Z.
Proof.
  intros Hn. destruct t; cbn [run_task].
  - unfold connect_mark. case_bool_decide; simpl; rewrite ?wrap_small; lia.
  - destruct q; simpl; lia.
  - unfold append_connection. break; lia.
  - simpl; lia.
  - destruct (heap m !! id); simpl; lia.
  - unfold on_disconnect_handler. break; lia.
Qed.

Lemma exec_inv s e :
  (∀ id, e = CallClose id → D id) → conn_inv (cm s) (tasks s) → (0 ≤ cm_next_id (cm s) < 2 ^ 64 - 1)%Z →
  conn_inv (cm (exec s e)) (tasks (exec s e)) ∧
  (cm_next_id (cm s) ≤ cm_next_id (cm (exec s e)) ≤ cm_next_id (cm s) + 1)%Z.
Proof.
  intros HD Hi Hn. destruct s as [m l]; simpl in *.
  destruct e as [p|a o q|i q|a|o w p msg|id k|id|]; simpl.
  - destruct (connect_check m p) as [[]|]; simpl; (split; [|lia]); try done. by apply inv_add.
  - pose proof (inv_accept m l a q o Hi Hn) as Ha. unfold accept in *.
    destruct (_ <=? _); [simpl; split; [done|lia]|].
    destruct q; simpl in *; (split; [done|]); rewrite ?wrap_small by lia; lia.
  - destruct (l !! i) as [t|] eqn:Ht; [|simpl; split; [done|lia]].
    pose proof (run_task_next_id m t q Hn) as Hid.
    rewrite <-(remove_at_Permutation _ _ _ Ht) in Hi.
    pose proof (run_task_inv m t _ q Hi Hn) as Hr.
    destruct (run_task m t q) as [m' new]; simpl in *. auto.
  - split; [by apply inv_disconnect|]. unfold disconnect. destruct (connections m !! a); simpl; lia.
  - unfold cm_send. destruct (get_local_ip m); simpl; [|split; [done|lia]].
    destruct (is_self_connection _ _); [simpl; split; [done|lia]|].
    destruct (connections m !! _) as [id|]; [|simpl; split; [done|lia]].
    destruct (heap m !! id) as [c|] eqn:Hc; [|simpl; split; [done|lia]].
    assert (∀ b, conn_inv (set_heap (insert id (Connection.set_control b c)) m) l) as Hb.
    { intros b. replace (set_heap (insert id (Connection.set_control b c)) m) with
        (set_heap (alter (Connection.set_control b) id) m); [by apply inv_alter; auto|].
      unfold set_heap. f_equal. apply map_eq. intros j. destruct (decide (j = id)) as [->|].
      - by rewrite lookup_alter_eq, lookup_insert_eq, Hc.
      - by rewrite lookup_alter_ne, lookup_insert_ne. }
    assert (conn_inv (set_heap (insert id c) m) l) as Hid.
    { unfold set_heap. rewrite insert_id by done. by destruct m. }
    unfold Connection.send_control. destruct (_ && _), w; simpl; (split; [|lia]); try done.
    all: try (destruct (Hb true); by split).
  - split; [|simpl; lia]. by apply inv_alter; [|destruct k|destruct k; left].
  - split; [|simpl; lia]. by apply inv_closed_outside; [|apply HD].
  - split; [by apply inv_shutdown|]. unfold shutdown.
    induction ((map_to_list (connections m)).*2); simpl in *; lia.
Qed.

Lemma execs_inv s es :
  (∀ id, CallClose id ∈ es → D id) → conn_inv (cm s) (tasks s) → (0 ≤ cm_next_id (cm s))%Z →
  (cm_next_id (cm s) + Z.of_nat (length es) < 2 ^ 64)%Z →
  conn_inv (cm (execs s es)) (tasks (execs s es)).
Proof.
  revert s. induction es as [|e es IH]; intros s HD Hi Hn Hl; [done|]. simpl in *.
  destruct (exec_inv s e) as [Hi' Hn']; [|done|lia|].
  - intros id ->. apply HD. by apply elem_of_cons; left.
  - apply IH; [|done|lia..]. intros id Hid. apply HD. by apply elem_of_cons; right.
Qed.
End inv.

(** * Properties *)


(** ** Connections whose reader is gone *)

(** No callback runs before its connection was offered to the table. *)
Fixpoint timely (s : State) (es : list Event) : bool :=
  match es with
  | [] => true
  | e :: es =>
    match e with
    | Run i _ =>
      match tasks s !! i with
      | Some (Callback id _) =>
        forallb (λ t, match t with Append j _ _ => negb (j =? id)%Z | _ => true end) (tasks s)
      | _ => true
      end
    | _ => true
    end && timely (exec s e) es
  end.

Definition watched (l : list Task) (id : Z) (a : SocketAddr) : Prop :=
  Reading id ∈ l ∨ Callback id a ∈ l.

Record live_inv (m : ConnectionManager) (l : list Task) : Prop := {
  li_table a id : connections m !! a = Some id → watched l id a;
  li_append id a d : Append id a d ∈ l → watched l id a;
}.

#[export] Instance watched_proper : Proper ((≡ₚ) ==> (=) ==> (=) ==> iff) watched.
Proof. intros l l' Hl id ? <- a ? <-. unfold watched. by rewrite Hl. Qed.

Lemma watched_mono l l' id a : (∀ t, t ∈ l → t ∈ l') → watched l id a → watched l' id a.
Proof. unfold watched. firstorder. Qed.

Lemma live_step m t l m' new :
  live_inv m (t :: l) →
  (∀ a id, connections m' !! a = Some id → watched (t :: l) id a) →
  (∀ id a d, Append id a d ∈ new → watched new id a) →
  (∀ id a, watched (t :: l) id a →
     connections m' !! a = Some id ∨ (∃ d, Append id a d ∈ l) → watched (new ++ l) id a) →
  live_inv m' (new ++ l).
Proof.
  intros [H1 H2] Htbl Hnew Hkeep. split; [eauto|].
  intros id a d [Hin|Hin]%elem_of_app.
  - eapply watched_mono; [|by eapply Hnew]. set_solver.
  - apply Hkeep; [|eauto]. eapply H2, elem_of_cons. eauto.
Qed.

Lemma watched_keep t l new id a :
  watched (t :: l) id a → (∀ j, t ≠ Reading j) → (∀ b j, t ≠ Callback j b) →
  watched (new ++ l) id a.
Proof.
  unfold watched. rewrite !elem_of_cons, !elem_of_app.
  intros [[<-|]|[<-|]] Hr Hc; [by destruct (Hr id)|auto|by destruct (Hc a id)|auto].
Qed.

Lemma append_connection_table m id a b j :
  connections (append_connection m id a).2 !! b = Some j →
  connections m !! b = Some j ∨ (b = a ∧ j = id).
Proof.
  unfold append_connection. destruct (get_local_ip m); [|auto].
  destruct (connections m !! a) eqn:E; simpl.
  - destruct (addr_ltb _ _); simpl; [auto|]. rewrite lookup_insert_Some. naive_solver.
  - rewrite lookup_insert_Some. naive_solver.
Qed.

(** A task that is neither a reader nor a callback. *)
Lemma live_other m t l m' new :
  live_inv m (t :: l) → (∀ j, t ≠ Reading j) → (∀ b j, t ≠ Callback j b) →
  (∀ a id, connections m' !! a = Some id → watched (t :: l) id a) →
  (∀ id a d, Append id a d ∈ new → watched new id a) → live_inv m' (new ++ l).
Proof. intros. eapply live_step; eauto. intros. by eapply watched_keep. Qed.

Lemma live_reading m l id new :
  live_inv m (Reading id :: l) → conn_inv (λ _, True) m (Reading id :: l) →
  new = (match heap m !! id with None => [] | Some c => [Callback id (conn_peer c)] end) →
  live_inv m (new ++ l).
Proof.
  intros Hlive Hi ->. pose proof Hlive as [H1 H2].
  eapply live_step; eauto; [destruct (heap m !! id); set_solver|].
  intros j a [[[= ->]|Hin]%elem_of_cons|[?|Hin]%elem_of_cons] Hor;
    [|left; apply elem_of_app; auto|done|right; apply elem_of_app; auto].
  assert (∃ c, heap m !! id = Some c ∧ conn_peer c = a) as (c & Hc & <-).
  { destruct Hor as [(_ & c & ? & ? & _)%(ci_table _ _ _ Hi)|[d Hor]]; [eauto|].
    destruct (ci_append _ _ _ Hi id a d) as (c & ? & ? & _); [apply elem_of_cons; auto|eauto]. }
  rewrite Hc. right. set_solver.
Qed.

Lemma live_callback m l id a :
  live_inv m (Callback id a :: l) → (∀ b d, Append id b d ∉ l) →
  live_inv (on_disconnect_handler m id a) l.
Proof.
  intros Hlive Ht. pose proof Hlive as [H1 H2]. unfold on_disconnect_handler.
  eapply (live_step _ _ _ _ []); eauto; [|set_solver|].
  - intros b j. case_bool_decide; simpl; [|auto]. rewrite lookup_delete_Some. naive_solver.
  - intros j b [[?|Hin]%elem_of_cons|[[= -> ->]|Hin]%elem_of_cons] Hor; [done|by left| |by right].
    exfalso. destruct Hor as [Hor|[d Hor]]; [|by eapply Ht]. case_bool_decide; [|done].
    simpl in Hor. by rewrite lookup_delete_eq in Hor.
Qed.

Lemma live_run m t l q :
  live_inv m (t :: l) → conn_inv (λ _, True) m (t :: l) →
  (∀ id a, t = Callback id a → ∀ b d, Append id b d ∉ l) →
  live_inv (run_task m t q).1 ((run_task m t q).2 ++ l).
Proof.
  intros Hlive Hi Ht. pose proof Hlive as [H1 H2].
  destruct t as [a|a id|id a d|a|id|id a]; cbn [run_task].
  - unfold connect_mark. case_bool_decide; cbn [fst snd];
      eapply live_other; simpl; eauto; set_solver.
  - destruct q as [q|]; cbn [fst snd]; eapply live_other; simpl; eauto; [|set_solver].
    intros j b d [?|[[= -> -> ->]|]%elem_of_cons]%elem_of_cons; [done| |set_solver].
    left. set_solver.
  - eapply live_other; eauto; [|simpl; destruct d; set_solver].
    intros b j [?|[-> ->]]%append_connection_table; [eauto|]. eapply H2, elem_of_cons. eauto.
  - eapply live_other; eauto. simpl. set_solver.
  - replace (match heap m !! id with Some c => (m, [Callback id (conn_peer c)]) | None => (m, []) end)
      with (m, match heap m !! id with None => [] | Some c => [Callback id (conn_peer c)] end)
      by by destruct (heap m !! id).
    by eapply live_reading.
  - apply live_callback; eauto.
Qed.

Lemma live_shrink m m' l :
  live_inv m l → (∀ a id, connections m' !! a = Some id → connections m !! a = Some id) →
  live_inv m' l.
Proof. intros [H1 H2] Hc. split; eauto. Qed.

Lemma live_more m l new :
  live_inv m l → (∀ id a d, Append id a d ∈ new → watched new id a) → live_inv m (new ++ l).
Proof.
  intros [H1 H2] Hnew. split.
  - intros a id Ha. eapply watched_mono; [|by eapply H1]. set_solver.
  - intros id a d [?|?]%elem_of_app; [eapply watched_mono; [|by eapply Hnew]|
      eapply watched_mono; [|by eapply H2]]; set_solver.
Qed.

Lemma shutdown_table m : connections (shutdown m) = ∅.
Proof. unfold shutdown. by induction ((map_to_list (connections m)).*2). Qed.

Lemma cm_send_table o w m p msg : connections (cm_send o w m p msg).2 = connections m.
Proof.
  unfold cm_send. destruct (get_local_ip m); [|done].
  destruct (is_self_connection _ _); [done|]. destruct (connections m !! _); [|done].
  destruct (heap m !! _); [|done]. by destruct (Connection.send_control o w msg _) as [[]].
Qed.

Lemma live_exec s e es :
  live_inv (cm s) (tasks s) → conn_inv (λ _, True) (cm s) (tasks s) → timely s (e :: es) = true →
  live_inv (cm (exec s e)) (tasks (exec s e)).
Proof.
  intros Hl Hi Ht. destruct s as [m l]; cbn [cm tasks] in *.
  destruct e as [p|a o q|i q|a|o w p msg|id k|id|]; cbn [exec cm tasks].
  - destruct (connect_check m p) as [[]|]; try done. apply (live_more _ _ [_]); [done|set_solver].
  - unfold accept. destruct (_ <=? _); [done|]. destruct q as [q|]; [|done]. cbn [next_id].
    eapply live_shrink; [apply live_more; [exact Hl|]|done].
    intros j b d [?|[[= -> -> ->]|]%elem_of_cons]%elem_of_cons; [done| |set_solver].
    left. set_solver.
  - cbn [timely tasks] in Ht. apply andb_true_iff in Ht as [Ht _].
    destruct (l !! i) as [t|] eqn:Hli; [|done].
    pose proof (remove_at_Permutation _ _ _ Hli) as Hp. rewrite <-Hp in Hi.
    assert (live_inv m (t :: remove_at i l)) as Hl'.
    { destruct Hl as [H1 H2]. split; intros *; rewrite Hp; eauto. }
    pose proof (live_run m t (remove_at i l) q Hl' Hi) as Hr.
    destruct (run_task m t q) as [m' new]; simpl in *. apply Hr. intros id a -> b d Hin.
    rewrite forallb_forall in Ht. specialize (Ht (Append id b d)). simpl in Ht.
    rewrite Z.eqb_refl in Ht. discriminate Ht. apply list_elem_of_In. rewrite <-Hp.
    apply elem_of_cons. auto.
  - eapply live_shrink; [done|]. intros b id. unfold disconnect.
    destruct (connections m !! a); simpl; [|done]. rewrite lookup_delete_Some. tauto.
  - eapply live_shrink; [done|]. by rewrite cm_send_table.
  - by eapply live_shrink.
  - by eapply live_shrink.
  - eapply live_shrink; [done|]. intros b id. by rewrite shutdown_table, lookup_empty.
Qed.

(** When no callback overtakes the registration of its connection, every
    connection in the table is still being read or is about to be removed. *)
Lemma table_live local probe max es a id :
  (Z.of_nat (length es) < 2 ^ 64)%Z → timely (start local probe max) es = true →
  connections (cm (execs (start local probe max) es)) !! a = Some id →
  watched (tasks (execs (start local probe max) es)) id a.
Proof.
  intros Hes Ht. enough (live_inv (cm (execs (start local probe max) es))
    (tasks (execs (start local probe max) es))) as [H1 _] by apply H1.
  assert (conn_inv (λ _, True) (cm (start local probe max)) (tasks (start local probe max))) as Hi
    by apply inv_new.
  assert (0 ≤ cm_next_id (cm (start local probe max)))%Z as Hn by done.
  assert (cm_next_id (cm (start local probe max)) + Z.of_nat (length es) < 2 ^ 64)%Z as Hb
    by (simpl; lia).
  assert (live_inv (cm (start local probe max)) (tasks (start local probe max))) as Hl
    by (split; simpl; set_solver).
  revert Hi Hn Hb Hl Ht. generalize (start local probe max). clear Hes.
  induction es as [|e es IH]; intros s Hi Hn Hb Hl Ht; [done|].
  destruct (exec_inv (λ _, True) s e) as [Hi' Hn']; [done|done|simpl in Hb; lia|].
  apply IH; [done|lia|simpl in Hb; lia|by eapply live_exec|].
  cbn [timely] in Ht. by apply andb_true_iff in Ht as [_ ?].
Qed.

(** A connection that fails at once can be registered after its callback ran:
    it stays in the table, nothing reads it, and [connect] does not dial again. *)
Example dead_connection_stays :
  let peer := SocketV4 2 6881 in
  let s := execs (start (Some (SocketV4 1 6881)) None 50)
    [CallConnect (Peer_from_socket peer); Run 0 None; Run 0 (Some 7); Run 0 None; Run 0 None;
     Run 0 None; Run 0 None] in
  tasks s = [] ∧ connections (cm s) = {[ peer := 0%Z ]} ∧
  connect_check (cm s) (Peer_from_socket peer) = Ok false.
Proof. vm_compute. auto. Qed.

(** ** Two peers that dial each other *)

Definition append_all (m : ConnectionManager) (peer : SocketAddr) (ids : list Z)
    : ConnectionManager :=
  foldl (λ m id, (append_connection m id peer).2) m ids.

(** The QUIC connection the table holds for a peer, if this side left it open. *)
Definition held (m : ConnectionManager) (peer : SocketAddr) : option nat :=
  id ← connections m !! peer; c ← heap m !! id;
  if cancelled c then None else Some (conn_quic c).

(** The objects of two new connections to one peer. *)
Definition has_conns (m : ConnectionManager) (peer : SocketAddr) (id : nat → Z) (q1 q2 : nat) :=
  id q1 ≠ id q2 ∧
  heap m !! id q1 = Some (Connection.conn_new peer q1) ∧
  heap m !! id q2 = Some (Connection.conn_new peer q2) ∧ connections m !! peer = None.

Lemma addr_ltb_total a b : a ≠ b → addr_ltb b a = negb (addr_ltb a b).
Proof.
  intros Hab. unfold addr_ltb. rewrite (lex_compare_antisym (addr_key a) (addr_key b)).
  destruct (lex_compare (addr_key a) (addr_key b)) eqn:E; try done.
  apply lex_compare_Eq, (f_equal addr_of_key) in E. rewrite !addr_of_key_key in E. congruence.
Qed.

Lemma append_all_two m local peer x y :
  get_local_ip m = Ok local → connections m !! peer = None →
  append_all m peer [x; y] =
    let m1 := set_connections (insert peer x) m in
    if addr_ltb local peer then close_id y m1
    else close_id x (set_connections (insert peer y) m1).
Proof.
  intros Hl Hnone. unfold append_all. cbn [foldl].
  assert ((append_connection m x peer).2 = set_connections (insert peer x) m) as ->
    by (unfold append_connection; by rewrite Hl, Hnone).
  unfold append_connection.
  change (get_local_ip (set_connections (insert peer x) m)) with (get_local_ip m).
  rewrite Hl. cbn [connections set_connections]. rewrite lookup_insert_eq.
  by destruct (addr_ltb local peer).
Qed.

(** The older connection stays when this side's address is the smaller one,
    the newer one otherwise; the other one is closed. *)
Lemma append_two m local peer id q1 q2 :
  get_local_ip m = Ok local → has_conns m peer id q1 q2 →
  let m' := append_all m peer [id q1; id q2] in
  let '(kept, dropped) := if addr_ltb local peer then (q1, q2) else (q2, q1) in
  held m' peer = Some kept ∧ (cancelled <$> heap m' !! id dropped) = Some true.
Proof.
  intros Hl (Hne & H1 & H2 & Hnone). cbv zeta. rewrite (append_all_two m local) by done.
  unfold held. destruct (addr_ltb local peer); simpl;
    rewrite lookup_insert_eq; simpl; rewrite lookup_alter_eq, lookup_alter_ne by congruence;
    rewrite H1, H2; done.
Qed.

(** when two peers dial each other at the same time, each side gets the two
    connections in some order.  They keep the same connection exactly when they
    saw them in opposite orders; when they saw them in the same order, each
    closes the connection the other keeps and none is left. *)
Theorem tie_break_iff (mA mB : ConnectionManager) (a b : SocketAddr) (idA idB : nat → Z)
    (q1 q2 : nat) (same : bool) :
  a ≠ b → get_local_ip mA = Ok a → get_local_ip mB = Ok b → q1 ≠ q2 →
  has_conns mA b idA q1 q2 → has_conns mB a idB q1 q2 →
  let mA' := append_all mA b [idA q1; idA q2] in
  let mB' := append_all mB a (if same then [idB q1; idB q2] else [idB q2; idB q1]) in
  ((∃ q, held mA' b = Some q ∧ held mB' a = Some q) ↔ same = false) ∧
  (same = true → ∀ q, q = q1 ∨ q = q2 →
     (cancelled <$> heap mA' !! idA q) = Some true ∨ (cancelled <$> heap mB' !! idB q) = Some true).
Proof.
  intros Hab HA HB Hq Ha Hb. cbv zeta.
  assert (has_conns mB a idB q2 q1) as Hb' by (unfold has_conns in *; naive_solver).
  pose proof (append_two mA a b idA q1 q2 HA Ha) as HA'.
  pose proof (append_two mB b a idB q1 q2 HB Hb) as HB1.
  pose proof (append_two mB b a idB q2 q1 HB Hb') as HB2. cbv zeta in *.
  rewrite (addr_ltb_total a b) in HB1, HB2 by done.
  destruct same, (addr_ltb a b); cbn [negb] in *;
    destruct HA' as [HA1 HA2], HB1 as [HB1 HB1'], HB2 as [HB2 HB2'];
    rewrite HA1, ?HB1, ?HB2; naive_solver.
Qed.


(** Both sides have accepted the other's connection and made their own. *)
Definition two_conns (local peer : SocketAddr) : ConnectionManager :=
  set_heap (λ _, {[ 0%Z := Connection.conn_new peer 0; 1%Z := Connection.conn_new peer 1 ]})
    (cm_new (Some local) None 50).

Lemma tie_break_iff_witness :
  let a := SocketV4 1 6881 in
  let b := SocketV4 2 6881 in
  let mA' := append_all (two_conns a b) b [0; 1]%Z in
  let mB' := append_all (two_conns b a) a [0; 1]%Z in
  ((∃ q, held mA' b = Some q ∧ held mB' a = Some q) ↔ true = false) ∧
  (true = true → ∀ q, q = 0 ∨ q = 1 →
     (cancelled <$> heap mA' !! Z.of_nat q) = Some true ∨
     (cancelled <$> heap mB' !! Z.of_nat q) = Some true).
Proof.
  apply (tie_break_iff (two_conns (SocketV4 1 6881) (SocketV4 2 6881))
    (two_conns (SocketV4 2 6881) (SocketV4 1 6881)) _ _ Z.of_nat Z.of_nat 0 1 true);
    try (vm_compute; done); repeat split; done.
Defined.
