(* ===== verification/Streams.v ===== *)
(** The reading side of a connection, as it runs: [Connection::new],
    [Connection::handle_connection] and the tasks it spawns for the streams the
    peer opens, all of [network/connection.rs].

    [Wire] has the two stream handlers as functions of the bytes of a whole
    stream; here bytes arrive bit by bit, streams are accepted while others are
    being read, all tasks share the bounded channel to the dispatcher, and the
    connection can be closed or lost at any point.  A [Reader] is the state of
    one connection; an event is one stretch of a task, or something the peer,
    the dispatcher or the owner of the connection does.  Events that are not
    possible in a state change nothing. *)

From S2P Require Import Prelude Net Wire.

(** src/src/bit_torrent/network/manager.rs:50-50 [CHANNEL_BUFFER_SIZE] *)
Definition CHANNEL_BUFFER_SIZE : nat := 1024.

(** Where the task of a stream is: reading a message, waiting for room in the
    channel, waiting for the reply, writing it, or returned. *)
Inductive StreamTask :=
| Reading
| Sending (message : Message)
| Waiting
| Writing (reply : list Z)
| Returned (r : Result ConnectionError unit).

(** The reply channel of a bidirectional stream. *)
Inductive Oneshot := Unsent | Sent (reply : list Z) | SenderGone.

(** [st_buf] is what has arrived and is not read yet, [st_fin] whether the peer has
    finished the stream, [st_lost] whether reading it fails (a reset, or the
    connection is gone); [st_out] is what was written back.  [st_arrived] is
    everything that has arrived. *)
Record Stream := mkStream {
  st_bidi : bool;
  st_task : StreamTask;
  st_buf : list Z;
  st_fin : bool;
  st_lost : bool;
  st_reply : Oneshot;
  st_out : list Z;
  st_arrived : list Z;
}.

(** [r_log] is every packet sent to the channel, with its stream's number, of which the
    dispatcher has taken the first [r_taken]; [r_disconnects] is what
    [on_disconnect] was called with. *)
Record Reader := mkReader {
  r_peer : SocketAddr;
  r_remote : SocketAddr;
  r_loop : bool;
  r_cancelled : bool;
  r_dispatcher : bool;
  r_streams : list Stream;
  r_log : list (nat * Packet SocketAddr);
  r_taken : nat;
  r_disconnects : list SocketAddr;
}.

Inductive ReaderEvent :=
| EAcceptUni | EAcceptBi | EAcceptErr | ELoopCancelled
| EArrive (k : nat) (bytes : list Z) | EFinish (k : nat) | ELose (k : nat)
| ERun (k : nat) (cancel writes finishes : bool)
| ETake | EReply (k : nat) (reply : list Z) | EDropReply (k : nat)
| EClose | EDispatcherGone.

(** * The operations *)

Definition set_task (t : StreamTask) (s : Stream) : Stream :=
  mkStream (st_bidi s) t (st_buf s) (st_fin s) (st_lost s) (st_reply s) (st_out s) (st_arrived s).
Definition read_to (t : StreamTask) (buf : list Z) (s : Stream) : Stream :=
  mkStream (st_bidi s) t buf (st_fin s) (st_lost s) (st_reply s) (st_out s) (st_arrived s).
Definition set_reply (o : Oneshot) (s : Stream) : Stream :=
  mkStream (st_bidi s) (st_task s) (st_buf s) (st_fin s) (st_lost s) o (st_out s) (st_arrived s).

(** Whether the reads of [parse_incoming] can all complete. *)
Definition enough (buf : list Z) : bool :=
  (4 <=? length buf) &&
  (let len := of_be (take 4 buf) in
   (len =? 0)%Z || (BUFFER_SIZE <? len)%Z || (4 + Z.to_nat len <=? length buf)).

(** src/src/bit_torrent/network/connection.rs:220-251 [Connection::parse_incoming]

    On a stream that is still arriving: [None] while it waits. *)
Definition poll_message (s : Stream) : option (Result ConnectionError (Message * list Z)) :=
  if st_lost s then Some (Err Protocol)
  else if enough (st_buf s) then Some (parse_incoming (st_buf s))
  else if st_fin s then Some (Err Protocol)
  else None.

(** A stretch of a task: the stream, and the packet sent. *)
Definition poll_read (s : Stream) : Stream * option (Packet SocketAddr) :=
  match poll_message s with
  | None => (s, None)
  | Some (Ok (message, rest)) => (read_to (Sending message) rest s, None)
  | Some (Err e) => (set_task (Returned (Err e)) s, None)
  end.

(** src/src/bit_torrent/network/connection.rs:253-266 [Connection::handle_uni_stream, step by step] *)
Definition run_uni (open room : bool) (remote : SocketAddr) (s : Stream)
    : Stream * option (Packet SocketAddr) :=
  match st_task s with
  | Reading => poll_read s
  | Sending message =>
    if negb open then (set_task (Returned (Err DispatcherClosed)) s, None)
    else if room then (set_task Reading s, Some (Packet_new message remote))
    else (s, None)
  | _ => (s, None)
  end.

(** src/src/bit_torrent/network/connection.rs:268-299 [Connection::handle_bidi_stream, step by step]

    [cancel] is whether a cancellation is seen before a reply, when both are
    there; [writes] and [finishes] are what the transport does with the reply.
    [st_out] is a reply written in full: the part that a failed write may have sent
    before it failed is not kept. *)
Definition run_bidi (open room cancelled cancel writes finishes : bool) (k : nat)
    (remote : SocketAddr) (s : Stream) : Stream * option (Packet SocketAddr) :=
  match st_task s with
  | Reading => poll_read s
  | Sending message =>
    if negb open then (set_task (Returned (Err DispatcherClosed)) s, None)
    else if room then (set_task Waiting s, Some (with_reply message remote k))
    else (s, None)
  | Waiting =>
    if cancelled && cancel then (set_task (Returned (Ok tt)) s, None)
    else match st_reply s with
         | Sent reply => (set_task (Writing reply) s, None)
         | SenderGone => (set_task (Returned (Ok tt)) s, None)
         | Unsent => (s, None)
         end
  | Writing reply =>
    if writes then
      (mkStream (st_bidi s) (Returned (if finishes then Ok tt else Err Protocol)) (st_buf s) (st_fin s)
         (st_lost s) (st_reply s) reply (st_arrived s), None)
    else (set_task (Returned (Err Protocol)) s, None)
  | Returned _ => (s, None)
  end.

Definition is_returned (t : StreamTask) : bool := match t with Returned _ => true | _ => false end.

Definition queued (r : Reader) : nat := length (r_log r) - r_taken r.

Definition set_streams (f : list Stream → list Stream) (r : Reader) : Reader :=
  mkReader (r_peer r) (r_remote r) (r_loop r) (r_cancelled r) (r_dispatcher r) (f (r_streams r))
    (r_log r) (r_taken r) (r_disconnects r).
Definition on_stream (k : nat) (f : Stream → Stream) (r : Reader) : Reader :=
  set_streams (alter f k) r.

Definition new_stream (bidi : bool) : Stream := mkStream bidi Reading [] false false Unsent [] [].

(** src/src/bit_torrent/network/connection.rs:215-217 [Connection::handle_connection, after the loop] *)
Definition loop_ends (r : Reader) : Reader :=
  mkReader (r_peer r) (r_remote r) false (r_cancelled r) (r_dispatcher r) (r_streams r)
    (r_log r) (r_taken r) (r_disconnects r ++ [r_peer r]).

(** The next stretch of the task of stream [k]. *)
Definition run_stream (k : nat) (cancel writes finishes : bool) (r : Reader) : Reader :=
  match r_streams r !! k with
  | None => r
  | Some s =>
    let room := queued r <? CHANNEL_BUFFER_SIZE in
    let '(s, packet) :=
      if st_bidi s then run_bidi (r_dispatcher r) room (r_cancelled r) cancel writes finishes k
                          (r_remote r) s
      else run_uni (r_dispatcher r) room (r_remote r) s in
    mkReader (r_peer r) (r_remote r) (r_loop r) (r_cancelled r) (r_dispatcher r)
      (<[k := s]> (r_streams r))
      (match packet with Some p => r_log r ++ [(k, p)] | None => r_log r end)
      (r_taken r) (r_disconnects r)
  end.

(** The dispatcher has the packet of stream [k], and with it the reply sender. *)
Definition has_packet (r : Reader) (k : nat) : bool :=
  existsb (λ '(j, _), j =? k) (take (r_taken r) (r_log r)).

(** Bytes that arrive on a stream that is being read. *)
Definition arrive (bytes : list Z) (s : Stream) : Stream :=
  if is_returned (st_task s) || st_fin s || st_lost s then s
  else mkStream (st_bidi s) (st_task s) (st_buf s ++ bytes) (st_fin s) (st_lost s) (st_reply s)
         (st_out s) (st_arrived s ++ bytes).

(** src/src/bit_torrent/network/connection.rs:146-218 [Connection::handle_connection]

    The loop's four arms, with the tasks they spawn. *)
Definition reader_step (r : Reader) (e : ReaderEvent) : Reader :=
  match e with
  | EAcceptUni => if r_loop r then set_streams (λ l, l ++ [new_stream false]) r else r
  | EAcceptBi => if r_loop r then set_streams (λ l, l ++ [new_stream true]) r else r
  | EAcceptErr => if r_loop r then loop_ends r else r
  | ELoopCancelled => if r_loop r && r_cancelled r then loop_ends r else r
  | EArrive k bytes => on_stream k (arrive bytes) r
  | EFinish k => on_stream k (λ s, mkStream (st_bidi s) (st_task s) (st_buf s) true (st_lost s)
                                     (st_reply s) (st_out s) (st_arrived s)) r
  | ELose k => on_stream k (λ s, mkStream (st_bidi s) (st_task s) (st_buf s) (st_fin s) true
                                   (st_reply s) (st_out s) (st_arrived s)) r
  | ERun k cancel writes finishes => run_stream k cancel writes finishes r
  | ETake =>
    if r_dispatcher r && (r_taken r <? length (r_log r)) then
      mkReader (r_peer r) (r_remote r) (r_loop r) (r_cancelled r) (r_dispatcher r) (r_streams r)
        (r_log r) (S (r_taken r)) (r_disconnects r)
    else r
  | EReply k reply =>
    on_stream k (λ s, match st_reply s with
                      | Unsent => if has_packet r k then set_reply (Sent reply) s else s
                      | _ => s
                      end) r
  | EDropReply k =>
    on_stream k (λ s, match st_reply s with
                      | Unsent => if has_packet r k then set_reply SenderGone s else s
                      | _ => s
                      end) r
  | EClose => mkReader (r_peer r) (r_remote r) (r_loop r) true (r_dispatcher r) (r_streams r)
                (r_log r) (r_taken r) (r_disconnects r)
  | EDispatcherGone => mkReader (r_peer r) (r_remote r) (r_loop r) (r_cancelled r) false
                         (r_streams r) (r_log r) (r_taken r) (r_disconnects r)
  end.

(** src/src/bit_torrent/network/connection.rs:78-120 [Connection::new]

    [opened] is whether the control stream could be opened. *)
Definition connection_new (opened : bool) (peer remote : SocketAddr) : Result ConnectionError Reader :=
  if opened then Ok (mkReader peer remote true false true [] [] 0 [])
  else Err QuicConnectionError.

Definition reader_run (r : Reader) (es : list ReaderEvent) : Reader := foldl reader_step r es.

(** * The invariant *)

Definition enc (ms : list Message) : list Z := concat (map Message.to_bytes ms).

Definition packets_of {A} (k : nat) (log : list (nat * A)) : list A :=
  omap (λ '(j, p), if j =? k then Some p else None) log.

Lemma packets_of_app {A} k (l1 l2 : list (nat * A)) :
  packets_of k (l1 ++ l2) = packets_of k l1 ++ packets_of k l2.
Proof. apply omap_app. Qed.

Lemma packets_of_snoc {A} k j (l : list (nat * A)) p :
  packets_of k (l ++ [(j, p)]) = packets_of k l ++ if j =? k then [p] else [].
Proof. rewrite packets_of_app. cbn. by destruct (j =? k). Qed.

Lemma packets_of_none {A} k (l : list (nat * A)) :
  (∀ j p, (j, p) ∈ l → j < k) → packets_of k l = [].
Proof.
  induction l as [|[j p] l IH]; intros Hl; [done|]. cbn.
  rewrite (proj2 (Nat.eqb_neq j k)).
  - apply IH. intros j' p' Hp. apply (Hl j' p'). by right.
  - specialize (Hl j p ltac:(by left)). lia.
Qed.

Lemma enc_snoc ms m : enc (ms ++ [m]) = enc ms ++ Message.to_bytes m.
Proof. unfold enc. rewrite map_app, concat_app. cbn. by rewrite app_nil_r. Qed.

(** A stream that is too short for its message. *)
Lemma parse_short buf : enough buf = false → parse_incoming buf = Err Protocol.
Proof.
  unfold enough, parse_incoming, read_exact. destruct (Nat.leb_spec 4 (length buf)) as [Hl|]; [|done].
  cbn [andb rbind]. intros Hs. apply orb_false_iff in Hs as [Hs Hlen]. apply orb_false_iff in Hs as [Hz Hb].
  rewrite Hz, Hb. b2p.
  destruct (Nat.leb_spec 1 (length (drop 4 buf))); [|done]. cbn [rbind].
  destruct (Nat.leb_spec (Z.to_nat (of_be (take 4 buf) - 1)) (length (drop 1 (drop 4 buf)))); [|done].
  rewrite !length_drop in *. lia.
Qed.

(** The packet that a message of the stream makes. *)
Definition packet_for (remote : SocketAddr) (k : nat) (bidi : bool) (m : Message) : Packet SocketAddr :=
  if bidi then with_reply m remote k else Packet_new m remote.

Definition task_ok (open : bool) (s : Stream) (ms : list Message) : Prop :=
  match st_task s with
  | Reading => st_arrived s = enc ms ++ st_buf s ∧ (st_bidi s = true → ms = [])
  | Sending m => st_arrived s = enc ms ++ Message.to_bytes m ++ st_buf s ∧ fits m ∧
                 (st_bidi s = true → ms = [])
  | Waiting => st_bidi s = true ∧ st_arrived s = enc ms ++ st_buf s ∧ length ms = 1
  | Writing reply => st_bidi s = true ∧ st_arrived s = enc ms ++ st_buf s ∧ length ms = 1 ∧
                     st_reply s = Sent reply
  | Returned res =>
    enc ms `prefix_of` st_arrived s ∧ (st_bidi s = true → length ms ≤ 1) ∧
    (st_bidi s = false → st_lost s = false → open = true →
     ∃ e, res = Err e ∧ st_arrived s = enc ms ++ st_buf s ∧ parse_incoming (st_buf s) = Err e)
  end.

(** The state of one stream, given the packets sent so far. *)
Definition stream_inv (remote : SocketAddr) (log : list (nat * Packet SocketAddr)) (taken : nat)
    (open : bool) (k : nat) (s : Stream) : Prop :=
  bytes_ok (st_arrived s) ∧ (st_out s = [] ∨ st_reply s = Sent (st_out s)) ∧
  (st_reply s ≠ Unsent → packets_of k (take taken log) ≠ []) ∧
  ∃ ms, packets_of k log = map (packet_for remote k (st_bidi s)) ms ∧ Forall fits ms ∧
        task_ok open s ms.

Record reader_inv (peer remote : SocketAddr) (r : Reader) : Prop := {
  ri_peer : r_peer r = peer;
  ri_remote : r_remote r = remote;
  ri_taken : r_taken r ≤ length (r_log r);
  ri_room : queued r ≤ CHANNEL_BUFFER_SIZE;
  ri_disconnects : r_disconnects r = if r_loop r then [] else [peer];
  ri_tags : ∀ j p, (j, p) ∈ r_log r → j < length (r_streams r);
  ri_streams : ∀ k s, r_streams r !! k = Some s →
    stream_inv remote (r_log r) (r_taken r) (r_dispatcher r) k s;
}.

(** Bytes are bytes. *)
Definition event_ok (e : ReaderEvent) : Prop :=
  match e with EArrive _ bytes => bytes_ok bytes | _ => True end.

Section steps.
Context (peer remote : SocketAddr).

Lemma inv_on_stream r k f :
  reader_inv peer remote r →
  (∀ s, r_streams r !! k = Some s →
     stream_inv remote (r_log r) (r_taken r) (r_dispatcher r) k s →
     stream_inv remote (r_log r) (r_taken r) (r_dispatcher r) k (f s)) →
  reader_inv peer remote (on_stream k f r).
Proof.
  intros [] Hf. split; try done; cbn.
  - intros j p Hp. rewrite length_alter. eauto.
  - intros j s Hj. destruct (decide (j = k)) as [->|Hne].
    + rewrite list_lookup_alter_eq in Hj. destruct (r_streams r !! k) as [s0|] eqn:E; [|done].
      injection Hj as <-. eauto.
    + rewrite list_lookup_alter_ne in Hj by done. eauto.
Qed.

Lemma reader_inv_accept r b :
  reader_inv peer remote r → reader_inv peer remote (set_streams (λ l, l ++ [new_stream b]) r).
Proof.
  intros []. split; try done; cbn.
  - intros j p Hp. rewrite length_app. apply ri_tags0 in Hp. lia.
  - intros k s [Hk|[Hk Hs]]%lookup_app_Some; [eauto|].
    destruct (k - length (r_streams r)) as [|] eqn:E; [|done]. injection Hs as <-.
    split; [constructor|]. split; [by left|]. split; [done|]. exists []. cbn. split; [|done].
    apply packets_of_none. intros j p Hp. apply ri_tags0 in Hp. lia.
Qed.

Lemma arrive_ok log taken open k bytes s :
  bytes_ok bytes → stream_inv remote log taken open k s →
  stream_inv remote log taken open k (arrive bytes s).
Proof.
  intros Hb Hs. unfold arrive.
  destruct (is_returned (st_task s) || st_fin s || st_lost s) eqn:E; [exact Hs|].
  destruct Hs as (Ha & Ho & Hr & ms & Hp & Hf & Ht).
  split; [by apply Forall_app|]. split; [done|]. split; [done|]. exists ms. split; [done|]. split; [done|].
  revert Ht. unfold task_ok. cbn. destruct (st_task s) eqn:Et; cbn in E; try done.
  - intros [-> ?]. by rewrite <-app_assoc.
  - intros (-> & ? & ?). by rewrite <-!app_assoc.
  - intros (? & -> & ?). by rewrite <-app_assoc.
  - intros (? & -> & ? & ?). by rewrite <-app_assoc.
Qed.

(** Reading a message, or failing to. *)
Lemma poll_read_ok log taken open k s :
  st_task s = Reading → stream_inv remote log taken open k s →
  stream_inv remote log taken open k (poll_read s).1 ∧ (poll_read s).2 = None.
Proof.
  intros Ht (Ha & Ho & Hr & ms & Hp & Hf & Hk). unfold poll_read, poll_message.
  unfold task_ok in Hk. rewrite Ht in Hk. destruct Hk as [Harr Hms].
  assert (∀ e, parse_incoming (st_buf s) = Err e ∨ st_lost s = true →
    stream_inv remote log taken open k (set_task (Returned (Err e)) s)) as Herr.
  { intros e He. split; [done|]. split; [done|]. split; [done|]. exists ms. split; [done|].
    split; [done|]. cbn. split; [by eexists|]. split; [intros Hb; by rewrite (Hms Hb); cbn; lia|].
    intros _ Hlost _. destruct He as [He|]; [|congruence]. eauto. }
  destruct (st_lost s) eqn:Hl; [split; [by apply Herr; right|done]|].
  destruct (enough (st_buf s)) eqn:He; cycle 1.
  { destruct (st_fin s); (split; [|done]); [apply Herr; left; by apply parse_short|].
    split; [done|]. split; [done|]. split; [done|]. exists ms. cbn [fst]. unfold task_ok. by rewrite Ht. }
  destruct (parse_incoming (st_buf s)) as [[m rest]|e] eqn:E; [|split; [by apply Herr; left|done]].
  split; [|done]. apply parse_sound in E as [Eb Hfit].
  2: { rewrite Harr in Ha. by apply Forall_app in Ha as [_ ?]. }
  split; [done|]. split; [done|]. split; [done|]. exists ms. split; [done|]. split; [done|].
  cbn. by rewrite <-Eb.
Qed.

(** A stretch of the task of stream [k], with the packet it sends. *)
Definition extend (k : nat) (log : list (nat * Packet SocketAddr)) (p : option (Packet SocketAddr)) :=
  match p with Some p => log ++ [(k, p)] | None => log end.

Lemma sent_ok log taken open k s m t :
  taken ≤ length log → st_task s = Sending m →
  (t = if st_bidi s then Waiting else Reading) →
  stream_inv remote log taken open k s →
  stream_inv remote (log ++ [(k, packet_for remote k (st_bidi s) m)]) taken open k (set_task t s).
Proof.
  intros Htk Ht -> (Ha & Ho & Hr & ms & Hp & Hf & Hk). unfold task_ok in Hk. rewrite Ht in Hk.
  destruct Hk as (Harr & Hfit & Hms). split; [done|]. split; [done|].
  split; [by rewrite take_app_le|]. exists (ms ++ [m]).
  split; [rewrite packets_of_snoc, Nat.eqb_refl, map_app; cbn; by rewrite Hp|].
  split; [apply Forall_app; by repeat constructor|]. unfold task_ok. cbn.
  destruct (st_bidi s); rewrite enc_snoc, <-app_assoc; [|done].
  split; [done|]. split; [done|]. by rewrite (Hms eq_refl).
Qed.

Lemma closed_ok log taken k s m :
  st_task s = Sending m → stream_inv remote log taken false k s →
  stream_inv remote log taken false k (set_task (Returned (Err DispatcherClosed)) s).
Proof.
  intros Ht (Ha & Ho & Hr & ms & Hp & Hf & Hk). unfold task_ok in Hk. rewrite Ht in Hk.
  destruct Hk as (Harr & Hfit & Hms). split; [done|]. split; [done|]. split; [done|]. exists ms.
  split; [done|]. split; [done|]. cbn. split; [by eexists|].
  split; [intros Hb; by rewrite (Hms Hb); cbn; lia|done].
Qed.

Lemma run_uni_ok log taken open room k s :
  taken ≤ length log → st_bidi s = false → stream_inv remote log taken open k s →
  let '(s', p) := run_uni open room remote s in
  stream_inv remote (extend k log p) taken open k s' ∧ (p ≠ None → room = true).
Proof.
  intros Htk Hb Hs. unfold run_uni. destruct (st_task s) eqn:Et; try by split.
  - destruct (poll_read_ok _ _ _ _ _ Et Hs) as [H1 H2]. destruct (poll_read s) as [s' p].
    cbn in H2. subst p. by split.
  - destruct open; cbn [negb]; [|split; [by eapply closed_ok|done]].
    destruct room; [|by split]. split; [|done]. cbn.
    pose proof (sent_ok log taken true k s message Reading Htk Et) as Hsent. rewrite Hb in Hsent.
    by apply Hsent.
Qed.

Lemma run_bidi_ok log taken open room cancelled cancel writes finishes k s :
  taken ≤ length log → st_bidi s = true → stream_inv remote log taken open k s →
  let '(s', p) := run_bidi open room cancelled cancel writes finishes k remote s in
  stream_inv remote (extend k log p) taken open k s' ∧ (p ≠ None → room = true).
Proof.
  intros Htk Hb Hs. unfold run_bidi. destruct (st_task s) eqn:Et; try by split.
  - destruct (poll_read_ok _ _ _ _ _ Et Hs) as [H1 H2]. destruct (poll_read s) as [s' p].
    cbn in H2. subst p. by split.
  - destruct open; cbn [negb]; [|split; [by eapply closed_ok|done]].
    destruct room; [|by split]. split; [|done]. cbn.
    pose proof (sent_ok log taken true k s message Waiting Htk Et) as Hsent. rewrite Hb in Hsent.
    by apply Hsent.
  - pose proof Hs as (Ha & Ho & Hr & ms & Hp & Hf & Hk). unfold task_ok in Hk. rewrite Et in Hk.
    destruct Hk as (_ & Harr & Hlen).
    assert (stream_inv remote log taken open k (set_task (Returned (Ok tt)) s)) as Hret.
    { split; [done|]. split; [done|]. split; [done|]. exists ms. split; [done|]. split; [done|].
      cbn. split; [by eexists|]. rewrite Hb. split; [lia|done]. }
    assert (∀ reply, st_reply s = Sent reply →
      stream_inv remote log taken open k (set_task (Writing reply) s)) as Hwr.
    { intros reply Er. split; [done|]. split; [done|]. split; [done|]. exists ms. by split. }
    destruct (cancelled && cancel); [by split|]. clear Ho Hr.
    destruct (st_reply s) eqn:Er; (split; [|done]); [done|by apply Hwr|done].
  - pose proof Hs as (Ha & Ho & Hr & ms & Hp & Hf & Hk). unfold task_ok in Hk. rewrite Et in Hk.
    destruct Hk as (_ & Harr & Hlen & Hrep).
    destruct writes; (split; [|done]); (split; [done|]).
    + split; [by right|]. split; [done|]. exists ms. split; [done|]. split; [done|].
      cbn. split; [by eexists|]. rewrite Hb. split; [lia|done].
    + split; [done|]. split; [done|]. exists ms. split; [done|]. split; [done|].
      cbn. split; [by eexists|]. rewrite Hb. split; [lia|done].
Qed.

Lemma inv_run_stream r k cancel writes finishes :
  reader_inv peer remote r → reader_inv peer remote (run_stream k cancel writes finishes r).
Proof.
  intros Hi. unfold run_stream. destruct (r_streams r !! k) as [s|] eqn:Ek; [|done].
  destruct Hi as [Hp Hrem Htk Hroom Hd Htags Hs]. pose proof (Hs k s Ek) as Hsk.
  set (room := queued r <? CHANNEL_BUFFER_SIZE).
  match goal with |- context [let '(_, _) := ?x in _] => destruct x as [s' p] eqn:Ex end.
  assert (stream_inv remote (extend k (r_log r) p) (r_taken r) (r_dispatcher r) k s' ∧
          (p ≠ None → room = true)) as [Hs' Hp'].
  { rewrite Hrem in Ex. destruct (st_bidi s) eqn:Hb.
    - pose proof (run_bidi_ok (r_log r) (r_taken r) (r_dispatcher r) room (r_cancelled r) cancel writes
        finishes k s Htk Hb Hsk) as H. by rewrite Ex in H.
    - pose proof (run_uni_ok (r_log r) (r_taken r) (r_dispatcher r) room k s Htk Hb Hsk) as H.
      by rewrite Ex in H. }
  assert (length (extend k (r_log r) p) = length (r_log r) + if p then 1 else 0) as Hlen.
  { destruct p; cbn; [by rewrite length_app|lia]. }
  assert (∀ j, j ≠ k → packets_of j (extend k (r_log r) p) = packets_of j (r_log r)) as Hother.
  { intros j Hj. destruct p as [q|]; [|done]. cbn [extend]. rewrite packets_of_snoc.
    by rewrite (proj2 (Nat.eqb_neq k j)), app_nil_r by done. }
  fold (extend k (r_log r) p). split; cbn [r_peer r_remote r_taken r_log r_disconnects r_loop r_streams
    r_dispatcher]; try done.
  - lia.
  - unfold queued in *. cbn. fold (extend k (r_log r) p). rewrite Hlen. destruct p; [|lia].
    specialize (Hp' ltac:(done)). unfold room in Hp'. apply Nat.ltb_lt in Hp'. lia.
  - rewrite length_insert. intros j q Hq. destruct p as [q'|]; [|by eauto].
    apply elem_of_app in Hq as [Hq|Hq]; [by eauto|]. apply list_elem_of_singleton in Hq as [= -> ->].
    by apply lookup_lt_Some in Ek.
  - intros j s1 Hj. destruct (decide (j = k)) as [->|Hne].
    + rewrite list_lookup_insert_eq in Hj by by apply lookup_lt_Some in Ek. by injection Hj as <-.
    + rewrite list_lookup_insert_ne in Hj by done. destruct (Hs j s1 Hj) as (Ha & Ho & Hr & ms & Hm & Hf & Ht).
      split; [done|]. split; [done|]. split; [|exists ms; by rewrite Hother].
      intros Hu. destruct p as [q|]; [|by auto]. cbn [extend]. rewrite take_app_le by lia. auto.
Qed.

Lemma has_packet_packets r k :
  has_packet r k = true → packets_of k (take (r_taken r) (r_log r)) ≠ [].
Proof.
  unfold has_packet. generalize (take (r_taken r) (r_log r)). intros l.
  rewrite existsb_exists. intros ([j p] & Hin & Hj). apply Nat.eqb_eq in Hj as ->.
  intros Hn. assert (p ∈ packets_of k l) as Hp; [|rewrite Hn in Hp; by inversion Hp].
  apply list_elem_of_omap. exists (k, p). split; [by apply list_elem_of_In|]. by rewrite Nat.eqb_refl.
Qed.

Lemma set_reply_ok r k o s :
  o ≠ Unsent → st_reply s = Unsent → has_packet r k = true →
  stream_inv remote (r_log r) (r_taken r) (r_dispatcher r) k s →
  stream_inv remote (r_log r) (r_taken r) (r_dispatcher r) k (set_reply o s).
Proof.
  intros Ho Hu Hp (Ha & Hout & Hr & ms & Hm & Hf & Ht). split; [done|].
  split; [left; destruct Hout as [|Hout]; [done|by rewrite Hu in Hout]|].
  split; [intros _; by apply has_packet_packets|]. exists ms. split; [done|]. split; [done|].
  revert Ht. unfold task_ok. cbn. destruct (st_task s); try done. by rewrite Hu; intros (_ & _ & _ & [=]).
Qed.

Lemma reader_inv_step r e :
  event_ok e → reader_inv peer remote r → reader_inv peer remote (reader_step r e).
Proof.
  intros He Hi. destruct e; cbn [reader_step].
  - destruct (r_loop r); [by apply reader_inv_accept|done].
  - destruct (r_loop r); [by apply reader_inv_accept|done].
  - destruct (r_loop r) eqn:El; [|done]. destruct Hi. split; try done. cbn. rewrite ri_disconnects0, El.
    by rewrite ri_peer0.
  - destruct (r_loop r) eqn:El; [|done]. destruct (r_cancelled r); [|done]. destruct Hi. split; try done.
    cbn. rewrite ri_disconnects0, El. by rewrite ri_peer0.
  - apply inv_on_stream; [done|]. intros s _. by apply arrive_ok.
  - apply inv_on_stream; [done|]. intros s _ (Ha & Ho & Hr & ms & Hm & Hf & Ht).
    split; [done|]. split; [done|]. split; [done|]. exists ms. split; [done|]. split; [done|exact Ht].
  - apply inv_on_stream; [done|]. intros s _ (Ha & Ho & Hr & ms & Hm & Hf & Ht).
    split; [done|]. split; [done|]. split; [done|]. exists ms. split; [done|]. split; [done|].
    revert Ht. unfold task_ok. cbn. destruct (st_task s); try done. naive_solver.
  - by apply inv_run_stream.
  - destruct (r_dispatcher r && (r_taken r <? length (r_log r))) eqn:E; [|done].
    apply andb_true_iff in E as [_ E%Nat.ltb_lt]. destruct Hi. split; try done; cbn.
    + unfold queued in *. cbn. lia.
    + intros k s Hk. destruct (ri_streams0 k s Hk) as (Ha & Ho & Hr & ms & Hm & Hf & Ht).
      split; [done|]. split; [done|]. split; [|exists ms; by split].
      intros Hu Hn. apply (Hr Hu). destruct (lookup_lt_is_Some_2 (r_log r) (r_taken r)) as [x Hx]; [done|].
      rewrite (take_S_r _ _ _ Hx), packets_of_app in Hn. by apply app_nil in Hn as [? _].
  - apply inv_on_stream; [done|]. intros s _ Hs. destruct (st_reply s) eqn:Er; [|done|done].
    destruct (has_packet r k) eqn:Hp; [|done]. by apply set_reply_ok.
  - apply inv_on_stream; [done|]. intros s _ Hs. destruct (st_reply s) eqn:Er; [|done|done].
    destruct (has_packet r k) eqn:Hp; [|done]. by apply set_reply_ok.
  - destruct Hi. by split.
  - destruct Hi. split; try done. cbn. intros k s Hk.
    destruct (ri_streams0 k s Hk) as (Ha & Ho & Hr & ms & Hm & Hf & Ht).
    split; [done|]. split; [done|]. split; [done|]. exists ms. split; [done|]. split; [done|].
    revert Ht. unfold task_ok. destruct (st_task s); try done. naive_solver.
Qed.

Lemma inv_run r0 es : connection_new true peer remote = Ok r0 → Forall event_ok es →
  reader_inv peer remote (reader_run r0 es).
Proof.
  intros [= <-] Hes. unfold reader_run. set (r := mkReader _ _ _ _ _ _ _ _ _).
  assert (reader_inv peer remote r) as Hi.
  { split; try done; cbn; try lia. intros j p Hj. by inversion Hj. }
  revert Hi. generalize r. clear r. induction Hes as [|e es He _ IH]; intros r Hi; [done|].
  cbn. by apply IH, reader_inv_step.
Qed.
End steps.

(** * Properties *)

Lemma uni_stream_log {addr} (ms : list Message) (rest : list Z) (a : addr) (e : ConnectionError) :
  Forall fits ms → parse_incoming rest = Err e →
  handle_uni_stream (enc ms ++ rest) a (λ _, true) = Some (map (λ m, Packet_new m a) ms, e).
Proof.
  intros Hf He. unfold handle_uni_stream. generalize 0 as k.
  assert (length (enc ms ++ rest) < S (length (enc ms ++ rest))) as Hlt by lia. revert Hlt.
  generalize (S (length (enc ms ++ rest))) as fuel.
  induction Hf as [|m ms Hm _ IH]; intros [|fuel] Hlt k; try lia.
  - cbn. by rewrite He.
  - unfold enc in *. cbn [map concat] in *. rewrite <-app_assoc in *. cbn [handle_uni_stream_loop].
    rewrite parse_to_bytes by done. pose proof (to_bytes_nonempty m).
    rewrite IH by (rewrite !length_app in *; lia). done.
Qed.

(** C29: However the streams of a connection are interleaved, cut up and closed, the
    packets of a unidirectional stream reach the dispatcher complete and in
    the order they were written: at any point they are the messages at the head
    of what has arrived, none lost, doubled or made up.  When the task of a
    stream has returned, and neither the transport nor the dispatcher went
    away under it, the packets and the error are those of the sequential reader of the
    whole stream. *)
Theorem stream_delivery (peer remote : SocketAddr) (r0 : Reader) (es : list ReaderEvent)
    (k : nat) (s : Stream) :
  connection_new true peer remote = Ok r0 → Forall event_ok es →
  let r := reader_run r0 es in
  r_streams r !! k = Some s → st_bidi s = false →
  (∃ ms, packets_of k (r_log r) = map (λ m, Packet_new m remote) ms ∧
         enc ms `prefix_of` st_arrived s) ∧
  ∀ res, st_task s = Returned res → st_lost s = false → r_dispatcher r = true →
    ∃ e, res = Err e ∧
      handle_uni_stream (st_arrived s) remote (λ _, true) = Some (packets_of k (r_log r), e).
Proof.
  intros H0 Hes r Hk Hb. destruct (inv_run peer remote r0 es H0 Hes) as [_ _ _ _ _ _ Hs].
  destruct (Hs k s Hk) as (_ & _ & _ & ms & Hm & Hf & Ht). fold r in Hm, Ht. rewrite Hb in Hm.
  split.
  - exists ms. split; [done|]. unfold task_ok in Ht. destruct (st_task s).
    + destruct Ht as [-> _]. by eexists.
    + destruct Ht as [-> _]. by eexists.
    + by destruct Ht as [? _]; congruence.
    + by destruct Ht as [? _]; congruence.
    + by destruct Ht as [? _].
  - intros res Hres Hl Hd. unfold task_ok in Ht. rewrite Hres in Ht. destruct Ht as (_ & _ & Ht).
    destruct (Ht Hb Hl Hd) as (e & -> & -> & He). exists e. split; [done|].
    rewrite Hm. by apply uni_stream_log.
Qed.

(** C30: What goes back on a bidirectional stream is the answer to its own
    request: of each such stream at most one packet is dispatched, the first message that
    arrived on it, and if anything was written back, it is what was
    sent on the reply channel of that packet after the dispatcher had taken
    it.  At any time at most 1024 packets wait, and the owner has been told of the
    disconnection once if the accept loop has ended, and not otherwise. *)
Theorem replies_routed (peer remote : SocketAddr) (r0 : Reader) (es : list ReaderEvent) :
  connection_new true peer remote = Ok r0 → Forall event_ok es →
  let r := reader_run r0 es in
  queued r ≤ CHANNEL_BUFFER_SIZE ∧
  r_disconnects r = (if r_loop r then [] else [peer]) ∧
  ∀ k s, r_streams r !! k = Some s → st_bidi s = true →
    (packets_of k (r_log r) = [] ∨
     ∃ m rest, parse_incoming (st_arrived s) = Ok (m, rest) ∧
       packets_of k (r_log r) = [with_reply m remote k]) ∧
    (st_out s ≠ [] →
       st_reply s = Sent (st_out s) ∧ packets_of k (take (r_taken r) (r_log r)) ≠ []).
Proof.
  intros H0 Hes r. destruct (inv_run peer remote r0 es H0 Hes) as [_ _ _ Hq Hd _ Hs]. fold r in Hq, Hd, Hs.
  split; [done|]. split; [done|]. intros k s Hk Hb.
  destruct (Hs k s Hk) as (_ & Ho & Hr & ms & Hm & Hf & Ht). rewrite Hb in Hm. split.
  - assert (enc ms `prefix_of` st_arrived s ∧ length ms ≤ 1) as [[rest Harr] Hl].
    { unfold task_ok in Ht. destruct (st_task s).
      - destruct Ht as [-> Hn]. rewrite (Hn Hb). split; [by eexists|cbn; lia].
      - destruct Ht as (-> & _ & Hn). rewrite (Hn Hb). split; [by eexists|cbn; lia].
      - destruct Ht as (_ & -> & Hn). split; [by eexists|lia].
      - destruct Ht as (_ & -> & Hn & _). split; [by eexists|lia].
      - destruct Ht as (Hp & Hn & _). by split; [|apply Hn]. }
    destruct ms as [|m [|]]; [by left| |cbn in Hl; lia]. right. exists m, rest.
    split; [|done]. rewrite Harr. unfold enc. cbn. rewrite app_nil_r.
    apply parse_to_bytes. by apply Forall_inv in Hf.
  - intros Hn. destruct Ho as [|Ho]; [done|]. split; [done|]. apply Hr. by rewrite Ho.
Qed.

Module StreamsExamples.

Definition peer : SocketAddr := SocketV4 1 1.
Definition start : Reader := mkReader peer peer true false true [] [] 0 [].

(** Two streams, read in turns: a keep-alive and a peer exchange in three parts on the
    first, a request on the second, which is answered. *)
Definition turn (k : nat) : ReaderEvent := ERun k false true true.
Definition busy : list ReaderEvent :=
  [EAcceptUni; EAcceptBi; EArrive 0 [0; 0]; turn 0; EArrive 1 [0; 0; 0; 2; 100; 7]; turn 1;
   EArrive 0 [0; 0; 0; 0; 0; 3; 20]; turn 0; turn 0; turn 1; turn 0; ETake; EArrive 0 [8; 9]; EFinish 0;
   turn 0; turn 0; turn 0; ETake; EReply 1 [42]; EClose; turn 1; turn 1; ELoopCancelled]%Z.

Lemma busy_ok : Forall event_ok busy.
Proof. repeat constructor; cbn; unfold byte_ok; lia. Qed.

Definition first : Stream := default (new_stream false) (r_streams (reader_run start busy) !! 0).

Lemma stream_delivery_witness :
  handle_uni_stream [0; 0; 0; 0; 0; 0; 0; 3; 20; 8; 9]%Z peer (λ _, true) =
    Some (packets_of 0 (r_log (reader_run start busy)), Protocol).
Proof.
  destruct (stream_delivery peer peer start busy 0 first) as [_ Hr].
  - reflexivity.
  - exact busy_ok.
  - vm_compute. reflexivity.
  - vm_compute. reflexivity.
  - destruct (Hr (Err Protocol)) as (e & [= <-] & He); [vm_compute; reflexivity..|].
    exact He.
Defined.

Lemma replies_routed_witness :
  r_disconnects (reader_run start busy) = [peer] ∧
  packets_of 1 (r_log (reader_run start busy)) = [with_reply (DHT [7%Z]) peer 1] ∧
  st_out <$> r_streams (reader_run start busy) !! 1 = Some [42%Z].
Proof.
  destruct (replies_routed peer peer start busy) as (_ & Hd & Hk);
    [reflexivity|exact busy_ok|]. split; [|split].
  - rewrite Hd. vm_compute. reflexivity.
  - destruct (r_streams (reader_run start busy) !! 1) as [s|] eqn:Es; [|vm_compute in Es; discriminate].
    destruct (Hk 1 s Es) as [[Hn|(m & rest & Hm & ->)] _];
      [vm_compute in Es; injection Es as <-; reflexivity|vm_compute in Hn; discriminate|].
    vm_compute in Es. injection Es as <-. vm_compute in Hm. by injection Hm as <- _.
  - vm_compute. reflexivity.
Defined.

(** The tasks of unidirectional streams outlive the connection: a packet can be
    dispatched after the owner was told of the disconnection. *)
Example packets_after_disconnect :
  let r := reader_run start [EAcceptUni; EArrive 0 [0; 0; 0; 0]%Z; EClose; ELoopCancelled] in
  r_disconnects r = [peer] ∧ r_log r = [] ∧
  r_log (reader_run r [turn 0; turn 0]) = [(0, Packet_new KeepAlive peer)].
Proof. by vm_compute. Qed.
End StreamsExamples.
