(* ===== verification/Rpc.v ===== *)
(** Requests and replies of the DHT: the types of [dht/message.rs] and the table
    of pending replies of [dht/rpc.rs].

    A request is a task that is cut at its awaits: it registers itself, connects,
    sends, and waits for its channel or the timeout.  [exec] runs one stretch of
    one request, or dispatches one packet; what the connection manager answers is
    part of the event. *)

From S2P Require Import Prelude Net Crypto Wire Routing Store Auth Conn.

(** * Messages *)

(** src/src/bit_torrent/dht/message.rs:16-29 [DhtMessageError] *)
Inductive DhtMessageError := DhtParseFailed | BenEncodeError | InvalidPayload | StoreFail.

(** src/src/bit_torrent/dht/message.rs:31-35 [RpcEnvelope] *)
Record RpcEnvelope (A : Type) := mkEnv { env_id : Z; payload : A }.
Arguments mkEnv {A} env_id payload.
Arguments env_id {A} r.
Arguments payload {A} r.

(** src/src/bit_torrent/dht/message.rs:76-82 [AuthDhtRequest] *)
Inductive AuthDhtRequest :=
| ReqPing
| FindNode (lookup_id : Key)
| FindValue (key : Key)
| ReqStore (key : Key) (data : KademliaData).

(** src/src/bit_torrent/dht/message.rs:84-104 [DhtRequest] *)
Inductive DhtRequest :=
| RequestHandshake (sender_id : Key)
| SubmitHandshake (token : Token) (signature : list Z)
| RequestChallange (sender_id : Key)
| SubmitChallange (sender_id : Key) (challange : list Z) (nonce : Z) (signature : list Z)
    (attest_report : option AttestReport) (app_version : string).

(** src/src/bit_torrent/dht/message.rs:156-160 [PeerResponse] *)
Record PeerResponse := mkPeerResponse { pr_id : Key; pr_addr : SocketAddr }.

(** src/src/bit_torrent/dht/message.rs:162-166 [From<&PeerResponse> for Node] *)
Definition node_of_peer (value : PeerResponse) : Node := from_socket (pr_id value) (pr_addr value).

(** src/src/bit_torrent/dht/node.rs:54-61 [From<&Node> for PeerResponse] *)
Definition peer_of_node (value : Node) : PeerResponse :=
  mkPeerResponse (node_id value) (node_addr value).

(** src/src/bit_torrent/dht/node.rs:63-70 [From<&Node> for Peer] *)
Definition peer_of `{Hex} (value : Node) : Peer :=
  mkPeer (hex_encode (key_id (node_id value))) (node_addr value).

(** src/src/bit_torrent/dht/message.rs:106-129 [DhtResponse] *)
Inductive DhtResponse :=
| HandshakeChallange (nonce : Z)
| Pong (receiver_id : Key)
| RespValue (receiver_id : Key) (value : KademliaData)
| RespPeers (receiver_id : Key) (peers : list PeerResponse)
| Challange (challange difficulty : Z)
| Welcome (token : Token).

(** src/src/bit_torrent/dht/message.rs:131-136 [DhtPacket] *)
Inductive DhtPacket :=
| Request (envelop : RpcEnvelope AuthDhtRequest)
| HandShake (rpc : RpcEnvelope DhtRequest)
| Response (rpc : RpcEnvelope DhtResponse).

Definition packet_id (p : DhtPacket) : Z :=
  match p with Request e => env_id e | HandShake e => env_id e | Response e => env_id e end.

(** [bencode::encode] and [bencode::decode] of packets: the serialisation
    library's. *)
Class PacketCodec := {
  encode_packet : DhtPacket → option (list Z);
  decode_packet : list Z → option DhtPacket;
}.

(** src/src/bit_torrent/dht/message.rs:138-154 [DhtPacket::to_bytes, TryFrom<DhtPacket>] *)
Definition message_of_packet `{PacketCodec} (value : DhtPacket) : Result DhtMessageError Message :=
  rmap DHT (ok_or BenEncodeError (encode_packet value)).

(** src/src/bit_torrent/dht/message.rs:143-145 [DhtPacket::from_bytes] *)
Definition packet_from_bytes `{PacketCodec} (data : list Z) : Result DhtMessageError DhtPacket :=
  ok_or BenEncodeError (decode_packet data).

(** src/src/bit_torrent/dht/rpc.rs:28-44 [RpcError] *)
Inductive RpcError :=
| Timeout
| ChannelClosed
| UnexpectedResponse
| Transport (e : ConnectionManagerError)
| RpcMessage (e : DhtMessageError).

(** * The table of pending replies *)

(** A request in progress.  [Registered] is in the table and is connecting;
    [Waiting] has been sent and has what its channel received; [Done] has
    returned. *)
Inductive Call :=
| Registered (id : Z) (packet : DhtPacket)
| Waiting (id : Z) (packet : DhtPacket) (inbox : option DhtResponse)
| Done (id : Z) (packet : DhtPacket) (result : Result RpcError DhtResponse).

Definition call_id (c : Call) : Z :=
  match c with Registered id _ | Waiting id _ _ | Done id _ _ => id end.

(** src/src/bit_torrent/dht/rpc.rs:46-50 [RpcHandler]

    A channel is named by the position of its request in [calls]; [early] are the
    replies that reached a channel before its request waited on it. *)
Record RpcHandler := mkRpc {
  pending : gmap Z nat;
  rpc_next_id : Z;
  calls : list Call;
  early : gmap nat DhtResponse;
}.

(** What a request is told by the connection manager: the results of [connect],
    of encoding the packet, and of [send]. *)
Inductive SendOutcome :=
| ConnectFails (e : ConnectionManagerError)
| EncodeFails (e : DhtMessageError)
| SendFails (e : ConnectionManagerError)
| SendOk.

Module RpcHandler.
Implicit Types (self : RpcHandler).

(** src/src/bit_torrent/dht/rpc.rs:53-59 [RpcHandler::new] *)
Definition rpc_new : RpcHandler := mkRpc ∅ 0 [] ∅.

(** src/src/bit_torrent/dht/rpc.rs:61-63 [RpcHandler::alloc_id] *)
Definition alloc_id self : Z * RpcHandler :=
  (rpc_next_id self, mkRpc (pending self) (u64 (rpc_next_id self + 1)) (calls self) (early self)).

Definition set_pending (f : gmap Z nat → gmap Z nat) self : RpcHandler :=
  mkRpc (f (pending self)) (rpc_next_id self) (calls self) (early self).
Definition set_call (k : nat) (c : Call) self : RpcHandler :=
  mkRpc (pending self) (rpc_next_id self) (<[k := c]> (calls self)) (early self).

(** src/src/bit_torrent/dht/rpc.rs:69-90 [RpcHandler::dispatch]

    A reply whose request is gone is dropped with its channel. *)
Definition dispatch self (packet : DhtPacket) : RpcHandler * option DhtPacket :=
  match packet with
  | Response response =>
    match pending self !! env_id response with
    | None => (self, None)
    | Some k =>
      let self := set_pending (delete (env_id response)) self in
      match calls self !! k with
      | Some (Waiting id p None) =>
        (set_call k (Waiting id p (Some (payload response))) self, None)
      | Some (Registered _ _) =>
        (mkRpc (pending self) (rpc_next_id self) (calls self)
           (<[k := payload response]> (early self)), None)
      | _ => (self, None)
      end
    end
  | packet => (self, Some packet)
  end.

(** src/src/bit_torrent/dht/rpc.rs:141-151 [RpcHandler::handle_request, registering] *)
Definition register self (make_packet : Z → DhtPacket) : RpcHandler :=
  let '(id, self) := alloc_id self in
  let k := length (calls self) in
  mkRpc (<[id := k]> (pending self)) (rpc_next_id self)
    (calls self ++ [Registered id (make_packet id)]) (early self).

(** src/src/bit_torrent/dht/rpc.rs:153-168 [RpcHandler::handle_request, connecting and sending] *)
Definition connect_and_send self (k : nat) (o : SendOutcome) : RpcHandler :=
  match calls self !! k with
  | Some (Registered id p) =>
    match o with
    | ConnectFails e => set_call k (Done id p (Err (Transport e))) self
    | EncodeFails e => set_call k (Done id p (Err (RpcMessage e))) self
    | SendFails e => set_pending (delete id) (set_call k (Done id p (Err (Transport e))) self)
    | SendOk => set_call k (Waiting id p (early self !! k)) self
    end
  | _ => self
  end.

(** src/src/bit_torrent/dht/rpc.rs:170-181 [RpcHandler::handle_request, waiting]

    [timed_out] is whether the timer fired; [timeout] looks at the channel
    first. *)
Definition wake self (k : nat) (timed_out : bool) : RpcHandler :=
  match calls self !! k with
  | Some (Waiting id p (Some response)) => set_call k (Done id p (Ok response)) self
  | Some (Waiting id p None) =>
    if timed_out then set_pending (delete id) (set_call k (Done id p (Err Timeout)) self) else self
  | _ => self
  end.

(** src/src/bit_torrent/dht/rpc.rs:111-121 [RpcHandler::handshake] *)
Definition handshake_packet (request : DhtRequest) (id : Z) : DhtPacket := HandShake (mkEnv id request).

(** src/src/bit_torrent/dht/rpc.rs:123-133 [RpcHandler::request] *)
Definition request_packet (request : AuthDhtRequest) (id : Z) : DhtPacket := Request (mkEnv id request).

(** src/src/bit_torrent/dht/rpc.rs:92-109 [RpcHandler::reply]

    The packet that is sent, when connecting, encoding and sending succeed. *)
Definition reply (outcome : SendOutcome) (id : Z) (response : DhtResponse)
    : Result RpcError DhtPacket :=
  match outcome with
  | ConnectFails e => Err (Transport e)
  | EncodeFails e => Err (RpcMessage e)
  | SendFails e => Err (Transport e)
  | SendOk => Ok (Response (mkEnv id response))
  end.
End RpcHandler.
Import RpcHandler.

Inductive RpcEvent :=
| EvCall (make_packet : Z → DhtPacket)
| EvSend (k : nat) (o : SendOutcome)
| EvPacket (p : DhtPacket)
| EvWake (k : nat) (timed_out : bool).

Definition rpc_exec (self : RpcHandler) (e : RpcEvent) : RpcHandler :=
  match e with
  | EvCall mk => register self mk
  | EvSend k o => connect_and_send self k o
  | EvPacket p => (dispatch self p).1
  | EvWake k t => wake self k t
  end.

Definition rpc_run (es : list RpcEvent) : RpcHandler := foldl rpc_exec rpc_new es.

(** * Properties *)

(** ** The specification: the reply of a request

    The first response packet with the request's id that arrives after it was
    made; requests are numbered in the order they are made. *)
Fixpoint answer (made k : nat) (es : list RpcEvent) : option DhtResponse :=
  match es with
  | [] => None
  | EvCall _ :: es => answer (S made) k es
  | EvPacket (Response e) :: es =>
    if bool_decide (k < made) && (env_id e =? Z.of_nat k)%Z then Some (payload e)
    else answer made k es
  | _ :: es => answer made k es
  end.

Definition is_call (e : RpcEvent) : bool := match e with EvCall _ => true | _ => false end.
Definition made (es : list RpcEvent) : nat := length (List.filter is_call es).

Lemma answer_app n k es e :
  answer n k (es ++ [e]) =
    match answer n k es with
    | Some r => Some r
    | None =>
      match e with
      | EvPacket (Response e) =>
        if bool_decide (k < n + made es) && (env_id e =? Z.of_nat k)%Z then Some (payload e) else None
      | _ => None
      end
    end.
Proof.
  revert n. induction es as [|x es IH]; intros n.
  { simpl. rewrite Nat.add_0_r. destruct e as [| |[]|]; done. }
  unfold made. destruct x as [mk|j o|p|j t]; cbn [app answer List.filter is_call].
  - rewrite IH. cbn [length]. by rewrite <-Nat.add_succ_comm.
  - apply IH.
  - destruct p as [|?|e']; [apply IH..|]. destruct (_ && _); [done|apply IH].
  - apply IH.
Qed.

(** What the state of a request says about its reply. *)
Definition call_ok (h : RpcHandler) (es : list RpcEvent) (k : nat) (c : Call) : Prop :=
  call_id c = Z.of_nat k ∧
  match c with
  | Registered _ _ => early h !! k = answer 0 k es ∧
                      (answer 0 k es = None ↔ pending h !! Z.of_nat k = Some k)
  | Waiting _ _ inbox => inbox = answer 0 k es ∧
                         (answer 0 k es = None ↔ pending h !! Z.of_nat k = Some k)
  | Done _ _ (Ok r) => answer 0 k es = Some r ∧ pending h !! Z.of_nat k = None
  | Done _ _ (Err _) => True
  end.

Record rpc_inv (h : RpcHandler) (es : list RpcEvent) : Prop := {
  ri_made : length (calls h) = made es;
  ri_next : rpc_next_id h = Z.of_nat (made es);
  ri_calls k c : calls h !! k = Some c → call_ok h es k c;
  ri_pending id k : pending h !! id = Some k → id = Z.of_nat k ∧ k < made es;
  ri_early k : is_Some (early h !! k) → k < made es;
}.

Lemma made_app es e : made (es ++ [e]) = made es + if is_call e then 1 else 0.
Proof. unfold made. rewrite List.filter_app, length_app. simpl. by destruct (is_call e). Qed.

(** Events that leave the replies alone. *)
Lemma answer_same k es e :
  (∀ r, e ≠ EvPacket (Response r)) → answer 0 k (es ++ [e]) = answer 0 k es.
Proof.
  intros He. rewrite answer_app. destruct (answer 0 k es); [done|].
  destruct e as [| |[]|]; try done. by destruct (He rpc).
Qed.

Lemma answer_fresh es : answer 0 (made es) es = None.
Proof.
  induction es as [|e es IH] using rev_ind; [done|]. rewrite answer_app, made_app.
  assert (∀ k, made es ≤ k → answer 0 k es = None) as Hk.
  { clear IH. induction es as [|x es IH] using rev_ind; [done|]. intros k. rewrite made_app, answer_app.
    intros Hle. rewrite IH by lia. destruct x as [| |[]|]; try done.
    rewrite bool_decide_false by lia. done. }
  rewrite Hk by lia. destruct e as [| |[]|]; try done.
  simpl. rewrite bool_decide_false by lia. done.
Qed.

Lemma rpc_inv_new : rpc_inv rpc_new [].
Proof.
  split; simpl; try (intros *; rewrite lookup_empty); first [done|by intros []].
Qed.

Lemma rpc_inv_register h es mk :
  rpc_inv h es → (Z.of_nat (made es) + 1 < 2 ^ 64)%Z →
  rpc_inv (register h mk) (es ++ [EvCall mk]).
Proof.
  intros [H1 H2 H3 H4 H5] Hb. unfold register, alloc_id. cbn [calls pending early rpc_next_id].
  rewrite H1, H2.
  assert (∀ k, answer 0 k (es ++ [EvCall mk]) = answer 0 k es) as Ha
    by (intros; by apply answer_same).
  split; cbn [calls pending early rpc_next_id]; rewrite ?made_app; cbn [is_call].
  - rewrite length_app, H1. done.
  - rewrite wrap_small; lia.
  - intros k c. rewrite lookup_snoc_Some. intros [[Hk Hc]|[-> <-]].
    + apply H3 in Hc as [Hid Hc]. split; [done|].
      destruct c as [| |? ? []]; cbn [calls pending early]; rewrite ?Ha, ?lookup_insert_ne; done || lia.
    + rewrite H1. split; [done|]. cbn [early pending]. rewrite Ha, answer_fresh, lookup_insert_eq.
      split; [|done]. destruct (early h !! made es) eqn:E; [|done].
      assert (made es < made es) by (apply H5; eauto). lia.
  - intros id k. rewrite lookup_insert_Some. intros [[<- <-]|[_ Hk%H4]]; lia.
  - intros k Hk%H5. lia.
Qed.

(** Changing the state of one request, and taking its entry out of the table. *)
Lemma rpc_inv_update h es e k c rm h' :
  rpc_inv h es → (∀ r, e ≠ EvPacket (Response r)) → is_call e = false →
  k < length (calls h) →
  h' = (if rm : bool then set_pending (delete (Z.of_nat k)) (set_call k c h) else set_call k c h) →
  call_ok h' (es ++ [e]) k c → rpc_inv h' (es ++ [e]).
Proof.
  intros [H1 H2 H3 H4 H5] He Hc Hk -> Hok.
  split; rewrite ?made_app, ?Hc, ?Nat.add_0_r; try (by destruct rm; simpl; rewrite ?length_insert).
  - intros j d Hj. destruct (decide (j = k)) as [->|Hne].
    { replace d with c; [done|]. destruct rm; simpl in Hj;
        rewrite list_lookup_insert_eq in Hj by done; congruence. }
    assert (calls h !! j = Some d) as Hd by
      (destruct rm; simpl in Hj; by rewrite list_lookup_insert_ne in Hj by congruence).
    apply H3 in Hd as [Hid Hd]. split; [done|]. rewrite answer_same by done.
    destruct rm, d as [| |? ? []]; simpl; rewrite ?lookup_delete_ne by lia; done.
  - intros id j. destruct rm; simpl; [rewrite lookup_delete_Some; intros [_ ?]|]; auto.
Qed.

(** An event that changes nothing, but for the replies of failed requests. *)
Definition failed (c : Call) : bool := match c with Done _ _ (Err _) => true | _ => false end.

Lemma rpc_inv_same h es e :
  rpc_inv h es → is_call e = false →
  (∀ k c, calls h !! k = Some c → failed c = false → answer 0 k (es ++ [e]) = answer 0 k es) →
  rpc_inv h (es ++ [e]).
Proof.
  intros [H1 H2 H3 H4 H5] Hc He. split; rewrite ?made_app, ?Hc, ?Nat.add_0_r; auto.
  intros k c Hk. destruct (H3 k c Hk) as [Hid Hok]. split; [done|].
  specialize (He k c Hk). by destruct c as [| |? ? []]; rewrite ?He.
Qed.

Lemma rpc_inv_idle h es e :
  rpc_inv h es → is_call e = false → (∀ r, e ≠ EvPacket (Response r)) → rpc_inv h (es ++ [e]).
Proof. intros. apply rpc_inv_same; auto using answer_same. Qed.

Lemma rpc_inv_send h es k o :
  rpc_inv h es → rpc_inv (connect_and_send h k o) (es ++ [EvSend k o]).
Proof.
  intros Hi. unfold connect_and_send.
  destruct (calls h !! k) as [[id p| |]|] eqn:Hk; try (by apply rpc_inv_idle).
  destruct (ri_calls _ _ Hi k _ Hk) as [Hid [He Hp]]. simpl in Hid. subst id.
  pose proof (lookup_lt_Some _ _ _ Hk) as Hlt.
  destruct o; [eapply (rpc_inv_update _ _ _ k _ false)|eapply (rpc_inv_update _ _ _ k _ false)
    |eapply (rpc_inv_update _ _ _ k _ true)|eapply (rpc_inv_update _ _ _ k _ false)];
    try done; split; simpl; rewrite ?answer_same by done; done.
Qed.

Lemma rpc_inv_wake h es k t :
  rpc_inv h es → rpc_inv (wake h k t) (es ++ [EvWake k t]).
Proof.
  intros Hi. unfold wake.
  destruct (calls h !! k) as [[|id p [r|]|]|] eqn:Hk; try (by apply rpc_inv_idle).
  all: destruct (ri_calls _ _ Hi k _ Hk) as [Hid [He Hp]]; simpl in Hid; subst id.
  all: pose proof (lookup_lt_Some _ _ _ Hk) as Hlt.
  - eapply (rpc_inv_update _ _ _ k _ false); [done..|].
    split; [done|]. cbn [pending set_call]. rewrite answer_same, <-He by done. split; [done|].
    destruct (pending h !! Z.of_nat k) as [j|] eqn:E; [|done].
    destruct (ri_pending _ _ Hi _ _ E) as [->%Nat2Z.inj _].
    pose proof (proj2 Hp eq_refl). congruence.
  - destruct t; [|by apply rpc_inv_idle]. by eapply (rpc_inv_update _ _ _ k _ true).
Qed.

Section dispatch.
Context (h : RpcHandler) (es : list RpcEvent) (e : RpcEnvelope DhtResponse) (Hi : rpc_inv h es).
Notation es' := (es ++ [EvPacket (Response e)]).

Lemma answer_other k : env_id e ≠ Z.of_nat k → answer 0 k es' = answer 0 k es.
Proof.
  intros Hne. rewrite answer_app. destruct (answer 0 k es); [done|].
  rewrite (proj2 (Z.eqb_neq _ _)) by done. by rewrite andb_false_r.
Qed.

(** A packet nobody waits for. *)
Lemma dispatch_stale : pending h !! env_id e = None → rpc_inv h es'.
Proof.
  intros Hp. apply rpc_inv_same; [done|done|]. intros k c Hk Hf.
  destruct (decide (env_id e = Z.of_nat k)) as [Hid|]; [|by apply answer_other].
  rewrite answer_app. destruct (answer 0 k es) eqn:Ha; [done|]. exfalso.
  rewrite Hid in Hp. destruct (ri_calls _ _ Hi k c Hk) as [_ Hc].
  destruct c as [| |? ? []]; [destruct Hc as [_ Hc]; apply Hc in Ha; congruence..| |done].
  destruct Hc as [Hc _]. congruence.
Qed.

Lemma dispatch_found k h' :
  pending h !! env_id e = Some k →
  pending h' = delete (env_id e) (pending h) → rpc_next_id h' = rpc_next_id h →
  (∀ j, j ≠ k → calls h' !! j = calls h !! j ∧ early h' !! j = early h !! j) →
  length (calls h') = length (calls h) →
  (∀ c, calls h' !! k = Some c →
     match c with
     | Registered id _ => id = Z.of_nat k ∧ early h' !! k = Some (payload e) ∧ answer 0 k es = None
     | Waiting id _ b => id = Z.of_nat k ∧ b = Some (payload e) ∧ answer 0 k es = None
     | Done id _ (Ok _) => False
     | Done id _ (Err _) => id = Z.of_nat k
     end) →
  rpc_inv h' es'.
Proof.
  destruct Hi as [H1 H2 H3 H4 H5]. intros Hp Hp' Hn Hj Hl Hc.
  destruct (H4 _ _ Hp) as [Hid Hk].
  assert (answer 0 k es = None → answer 0 k es' = Some (payload e)) as Hans.
  { intros Ha. rewrite answer_app, Ha, bool_decide_true by lia.
    by rewrite (proj2 (Z.eqb_eq _ _)). }
  split; rewrite ?made_app, ?Hn, ?Hl; cbn [is_call]; rewrite ?Nat.add_0_r; auto.
  - intros j c Hjc. destruct (decide (j = k)) as [->|Hne].
    + specialize (Hc c Hjc). split; [destruct c as [| |? ? []]; tauto|].
      rewrite Hp', Hid, lookup_delete_eq.
      destruct c as [| |? ? []]; [destruct Hc as (_ & -> & Ha)..| |]; rewrite ?(Hans Ha); done.
    + destruct (Hj j Hne) as [Hcj Hej]. rewrite Hcj in Hjc. destruct (H3 j c Hjc) as [Hidj Hok].
      split; [done|]. rewrite Hp', Hej, answer_other, lookup_delete_ne by (rewrite Hid; lia).
      by destruct c as [| |? ? []].
  - intros id j. rewrite Hp', lookup_delete_Some. intros [_ ?]. auto.
  - intros j. destruct (decide (j = k)) as [->|Hne]; [lia|]. destruct (Hj j Hne) as [_ ->]. auto.
Qed.

Lemma rpc_inv_dispatch : rpc_inv (dispatch h (Response e)).1 es'.
Proof.
  cbn [dispatch]. destruct (pending h !! env_id e) as [k|] eqn:Hp; [|by apply dispatch_stale].
  destruct (ri_pending _ _ Hi _ _ Hp) as [Hid Hk]. rewrite Hid in Hp.
  destruct (lookup_lt_is_Some_2 (calls h) k) as [c Hc]; [by rewrite (ri_made _ _ Hi)|].
  destruct (ri_calls _ _ Hi k c Hc) as [Hcid Hok].
  cbn [calls set_pending]. rewrite Hc.
  destruct c as [id p|id p [r|]|id p [r|]]; cbn [fst]; simpl in Hcid;
    (eapply (dispatch_found k); [by rewrite Hid|done|done| | |]);
    cbn [calls early set_call set_pending]; rewrite ?length_insert; try done.
  all: try (intros j Hj; rewrite ?list_lookup_insert_ne, ?lookup_insert_ne by congruence; done).
  all: rewrite ?list_lookup_insert_eq by by rewrite (ri_made _ _ Hi).
  all: intros c' Hc'; simplify_eq; rewrite ?lookup_insert_eq.
  - destruct Hok as [_ Hok]. split_and!; [done..|]. by apply Hok.
  - destruct Hok as [Hr Hok]. apply Hok in Hp. congruence.
  - destruct Hok as [_ Hok]. split_and!; [done..|]. by apply Hok.
  - destruct Hok as [_ Hok]. congruence.
  - done.
Qed.
End dispatch.

Lemma rpc_inv_run es :
  (Z.of_nat (length es) < 2 ^ 64)%Z → rpc_inv (rpc_run es) es.
Proof.
  induction es as [|e es IH] using rev_ind; intros Hl; [apply rpc_inv_new|].
  unfold rpc_run. rewrite foldl_app. cbn [foldl]. fold (rpc_run es).
  assert (rpc_inv (rpc_run es) es) as Hi by (apply IH; lens).
  destruct e as [mk|k o|p|k t]; cbn [rpc_exec].
  - apply rpc_inv_register; [done|]. unfold made.
    pose proof (filter_length_split is_call es). lens.
  - by apply rpc_inv_send.
  - destruct p; [by apply rpc_inv_idle..|by apply rpc_inv_dispatch].
  - by apply rpc_inv_wake.
Qed.

(** C23: However requests, packets and timeouts interleave, the request with
    number [k] returns a reply exactly if it is the first response packet
    with its own id that arrived after the request was made: a request that returned a
    reply returned that one, one that still waits holds it if it came, and it is in
    the table of pending replies exactly while it has none.  An entry of the
    table belongs to the request of that number, so no reply reaches another. *)
Theorem rpc_matching (es : list RpcEvent) (k : nat) (c : Call) :
  (Z.of_nat (length es) < 2 ^ 64)%Z → calls (rpc_run es) !! k = Some c →
  call_id c = Z.of_nat k ∧
  match c with
  | Done _ _ (Ok r) => answer 0 k es = Some r
  | Waiting _ _ inbox =>
    inbox = answer 0 k es ∧ (answer 0 k es = None ↔ pending (rpc_run es) !! Z.of_nat k = Some k)
  | _ => True
  end ∧
  (∀ id j, pending (rpc_run es) !! id = Some j → id = Z.of_nat j).
Proof.
  intros Hl Hc. pose proof (rpc_inv_run es Hl) as Hi.
  destruct (ri_calls _ _ Hi k c Hc) as [Hid Hok]. split_and!; [done| |].
  - destruct c as [| |? ? []]; naive_solver.
  - intros id j Hj. by destruct (ri_pending _ _ Hi _ _ Hj).
Qed.

Definition demo_rpc : list RpcEvent :=
  [EvCall (request_packet ReqPing); EvCall (request_packet ReqPing); EvSend 1 SendOk;
   EvSend 0 SendOk; EvPacket (Response (mkEnv 1 (Challange 5 6)));
   EvPacket (Response (mkEnv 0 (HandshakeChallange 7))); EvWake 1 false].

Lemma rpc_matching_witness :
  call_id (Done 1 (request_packet ReqPing 1) (Ok (Challange 5 6))) = Z.of_nat 1 ∧
  answer 0 1 demo_rpc = Some (Challange 5 6) ∧
  (∀ id j, pending (rpc_run demo_rpc) !! id = Some j → id = Z.of_nat j).
Proof.
  apply (rpc_matching demo_rpc 1 (Done 1 (request_packet ReqPing 1) (Ok (Challange 5 6))));
    reflexivity.
Defined.

(** A request whose connection fails returns without giving up its entry: three
    failures leave three entries behind. *)
Example connect_failures_leak :
  let fails k := EvSend k (ConnectFails ConnectError) in
  let call := EvCall (request_packet ReqPing) in
  size (pending (rpc_run [call; fails 0; call; fails 1; call; fails 2])) = 3.
Proof. reflexivity. Qed.

(** The table does not know whom a request was sent to: any response with the
    next number is taken for its reply. *)
Example any_response_matches (r : DhtResponse) :
  calls (rpc_run [EvCall (request_packet ReqPing); EvSend 0 SendOk;
                  EvPacket (Response (mkEnv 0 r)); EvWake 0 false]) =
    [Done 0 (request_packet ReqPing 0) (Ok r)].
Proof. reflexivity. Qed.
