(* ===== verification/Kademlia.v ===== *)
(** The DHT node: [dht/kademlia] (its state and [authenticate], the client's
    lookups and the server's handlers) and the torrent operations of
    [dht/mod.rs].

    An operation is a computation on the node's state that returns a
    [Result] ([K]).  Requests to other nodes go through [rpc], a parameter: what
    the node is answered at each exchange, together with what happened to
    the connection table in the meantime.  Requests a lookup has in flight are
    answered in the order of [pick]; each is run when it is answered.  [None] is
    a panic, or a loop that outlives its fuel. *)

From S2P Require Import Prelude Net Crypto Wire Metainfo Routing Store Auth Conn Rpc.
Import ConnectionManager.

Set Default Proof Using "Type*".

(** src/src/bit_torrent/dht/kademlia/mod.rs:41-69 [KademliaError] *)
Inductive KademliaError :=
| KNodeError
| KAuthError (e : AuthError)
| KBootstrapFailed
| KNoNodesFound
| KConnectionError (e : ConnectionManagerError)
| KCertErr (e : CertError)
| KDhtMessageError (e : DhtMessageError)
| KNoValue
| KRpcError (e : RpcError).

Section kademlia.
Context `{Crypto} `{AuthCrypto}.

(** src/src/bit_torrent/dht/kademlia/mod.rs:71-76 [Kademlia]

    [pgp_keys] and [limiter] are fields of its [AuthManager] and [conns] the
    connection manager of its [RpcHandler]; [clock] counts the exchanges and
    [out] the replies sent. *)
Record Kademlia := mkKad {
  k_auth : AuthManager;
  k_pgp_keys : gmap (list Z) PgpKey;
  k_limiter : RateLimiter;
  k_conns : ConnectionManager;
  k_store : DHTStore;
  k_table : RouteTable;
  k_clock : nat;
  k_out : list (Node * DhtPacket);
}.

Definition set_auth_manager f (k : Kademlia) := mkKad (f (k_auth k)) (k_pgp_keys k) (k_limiter k)
  (k_conns k) (k_store k) (k_table k) (k_clock k) (k_out k).
Definition set_limiter f (k : Kademlia) := mkKad (k_auth k) (k_pgp_keys k) (f (k_limiter k))
  (k_conns k) (k_store k) (k_table k) (k_clock k) (k_out k).
Definition set_conns f (k : Kademlia) := mkKad (k_auth k) (k_pgp_keys k) (k_limiter k)
  (f (k_conns k)) (k_store k) (k_table k) (k_clock k) (k_out k).
Definition set_store f (k : Kademlia) := mkKad (k_auth k) (k_pgp_keys k) (k_limiter k)
  (k_conns k) (f (k_store k)) (k_table k) (k_clock k) (k_out k).
Definition set_table f (k : Kademlia) := mkKad (k_auth k) (k_pgp_keys k) (k_limiter k)
  (k_conns k) (k_store k) (f (k_table k)) (k_clock k) (k_out k).
Definition tick (k : Kademlia) := mkKad (k_auth k) (k_pgp_keys k) (k_limiter k)
  (k_conns k) (k_store k) (k_table k) (S (k_clock k)) (k_out k).
Definition add_out p (k : Kademlia) := mkKad (k_auth k) (k_pgp_keys k) (k_limiter k)
  (k_conns k) (k_store k) (k_table k) (k_clock k) (k_out k ++ [p]).

(** * Computations *)

Definition K (A : Type) : Type := Kademlia → option (Result KademliaError A * Kademlia).

Definition kret {A} (a : A) : K A := λ s, Some (Ok a, s).
Definition kfail {A} (e : KademliaError) : K A := λ s, Some (Err e, s).
Definition kbind {A B} (m : K A) (f : A → K B) : K B := λ s,
  match m s with
  | None => None
  | Some (Err e, s) => Some (Err e, s)
  | Some (Ok a, s) => f a s
  end.
(** A computation whose result is looked at instead of returned with [?]. *)
Definition ktry {A} (m : K A) : K (Result KademliaError A) := λ s,
  match m s with None => None | Some (r, s) => Some (Ok r, s) end.
Definition kget : K Kademlia := λ s, Some (Ok s, s).
Definition kmod (f : Kademlia → Kademlia) : K unit := λ s, Some (Ok tt, f s).
Definition klift {A} (r : Result KademliaError A) : K A := λ s, Some (r, s).
Definition kopt {A} (o : option A) : K A := λ s, match o with Some a => Some (Ok a, s) | None => None end.

Local Notation "'do' x <- m ; k" := (kbind m (fun x => k))
  (at level 200, x pattern, right associativity).
Local Notation "'do_' m ; k" := (kbind m (fun _ => k)) (at level 200, right associativity).

(** What the rest of the system decides. *)
Context (now : Z) (manifest : string → Result unit (list Z)).
Context (rpc : nat → ConnectionManager → Node → DhtRequest + AuthDhtRequest →
               Result RpcError DhtResponse * ConnectionManager).
Context (outcome : nat → SendOutcome).

(** [RpcHandler::handshake] and [RpcHandler::request]. *)
Definition exchange (target : Node) (body : DhtRequest + AuthDhtRequest)
    : K (Result RpcError DhtResponse) := λ s,
  let '(r, conns) := rpc (k_clock s) (k_conns s) target body in
  Some (Ok r, tick (set_conns (λ _, conns) s)).
Definition rpc_call (target : Node) (body : DhtRequest + AuthDhtRequest) : K DhtResponse :=
  do r <- exchange target body; klift (map_err KRpcError r).

(** [RpcHandler::reply]. *)
Definition send_reply (peer : Node) (id : Z) (response : DhtResponse) : K unit :=
  do s <- kget;
  do p <- klift (map_err KRpcError (RpcHandler.reply (outcome (k_clock s)) id response));
  kmod (λ s, tick (add_out (peer, p) s)).

Definition host_id : K Key := do s <- kget; kret (node_id (host (k_table s))).

(** A change to the connection the table has for an address. *)
Definition on_connection (addr : SocketAddr) (f : Connection → Connection) : K unit :=
  kmod (set_conns (λ m,
    match get_connection m addr with
    | Some id => set_heap (alter f id) m
    | None => m
    end)).

(** A change to a connection object. *)
Definition on_conn (id : Z) (f : Connection → Connection) : K unit :=
  kmod (set_conns (set_heap (alter f id))).

(** * Authentication *)

(** The bytes whose signature proves that a token is the sender's. *)
Definition ownership (token : Token) (nonce : Z) : list Z := Token.hash token ++ be_bytes 4 nonce.

(** src/src/bit_torrent/dht/kademlia/mod.rs:168-229 [Kademlia::authenticate] *)
Definition authenticate (target : Node) : K unit :=
  do host <- host_id;
  do s <- kget;
  do token <- klift (ok_or (KAuthError UnAuthorized) (best_token now (k_auth s)));
  do r <- rpc_call target (inl (RequestHandshake host));
  match r with
  | HandshakeChallange nonce =>
    do signature <- klift (map_err (λ _, KAuthError InvalidToken)
                            (signer_sign (inner_cert (k_auth s)) (ownership token nonce)));
    do r <- rpc_call target (inl (SubmitHandshake token signature));
    match r with
    | Pong receiver_id =>
      if negb (bool_decide (receiver_id = node_id target)) then kfail (KAuthError RoguePeer)
      else on_connection (node_addr target) Connection.set_outbound_authenticated
    | _ => kfail (KAuthError UnAuthorized)
    end
  | _ => kfail (KAuthError UnAuthorized)
  end.

(** src/src/bit_torrent/dht/kademlia/mod.rs:231-254 [Kademlia::auth_request] *)
Definition auth_request (target : Node) (request : AuthDhtRequest) : K DhtResponse :=
  do s <- kget;
  let needs_auth :=
    match get_connection (k_conns s) (node_addr target) with
    | Some id => match heap (k_conns s) !! id with
                 | Some c => negb (Connection.is_outbound_authenticated c)
                 | None => true
                 end
    | None => true
    end in
  do authorized <- (if needs_auth then do r <- ktry (authenticate target); kret (is_ok r)
                    else kret true);
  if (authorized : bool) then rpc_call target (inr request)
  else kfail (KAuthError UnAuthorized).

(** src/src/bit_torrent/dht/kademlia/client.rs:117-139 [KademliaClient::ping] *)
Definition ping (target : Node) : K unit :=
  do result <- auth_request target ReqPing;
  match result with
  | Pong target_id =>
    if bool_decide (node_id target = target_id) then kret tt
    else kfail (KRpcError UnexpectedResponse)
  | _ => kfail (KRpcError UnexpectedResponse)
  end.

(** src/src/bit_torrent/dht/kademlia/mod.rs:256-276 [Kademlia::acknowledge]

    With [ping] as an operation of the node; [Routing.acknowledge] is the loop
    with the pings answered by a function. *)
Fixpoint acknowledge_loop (fuel : nat) (node : Node) : K unit :=
  match fuel with
  | O => kopt None
  | S fuel =>
    do s <- kget;
    let '(t, insert_result) := RouteTable.try_insert (k_table s) node in
    do_ kmod (set_table (λ _, t));
    match insert_result with
    | RNone | Inserted => kret tt
    | Split => acknowledge_loop fuel node
    | Ping old new =>
      do r <- ktry (ping old);
      match r with
      | Ok _ => kret tt
      | Err _ => do_ kmod (set_table (λ t, RouteTable.replace t new)); acknowledge_loop fuel node
      end
    end
  end.
Definition acknowledge (node : Node) : K unit := acknowledge_loop 3 node.

(** * The client *)

(** The version of the build. *)
Context (BQTI_VERSION : string).

(** src/src/bit_torrent/dht/kademlia/client.rs:143-193 [Kademlia::request_challange]

    [fuel] bounds the nonces the prover tries. *)
Definition request_challange (fuel : nat) (bootstrap : Node) : K PoW :=
  do host <- host_id;
  do result <- rpc_call bootstrap (inl (RequestChallange host));
  match result with
  | Challange challange difficulty =>
    do s <- kget;
    let signer := inner_cert (k_auth s) in
    do secret <- kopt (prove fuel signer (signer_pub_key signer) challange difficulty);
    klift (map_err KAuthError secret)
  | _ => kfail (KRpcError UnexpectedResponse)
  end.

(** src/src/bit_torrent/dht/kademlia/client.rs:195-249 [Kademlia::submit_challange] *)
Definition submit_challange (bootstrap : Node) (secret : PoW) : K Node :=
  do host <- host_id;
  do signature <- klift (ok_or (KAuthError UnAuthorized) (pow_signature secret));
  do result <- rpc_call bootstrap
    (inl (SubmitChallange host (pow_value secret) (pow_nonce secret) signature
            (pow_attestation secret) BQTI_VERSION));
  match result with
  | Welcome token =>
    do s <- kget;
    if negb (Token.verify_for now token (key_pub host)) ||
       negb (Token.verify_pgp token (k_pgp_keys s)) then kfail (KAuthError RoguePeer)
    else
      do_ on_connection (node_addr bootstrap)
            (λ c, Connection.set_inbound_peer (Key_new (issuer token))
                    (Connection.set_outbound_authenticated c));
      do_ kmod (set_auth_manager (λ a, store_token a token));
      kret (from_socket (Key_new (issuer token)) (node_addr bootstrap))
  | _ => kfail (KRpcError UnexpectedResponse)
  end.

(** src/src/bit_torrent/dht/kademlia/client.rs:57-84 [Kademlia::join_with_retry]

    The attempts that are left, of two. *)
Fixpoint join_attempts (fuel attempts : nat) (bootstrap : Node) : K Node :=
  match attempts with
  | O => kfail KBootstrapFailed
  | S attempts =>
    do signed_secret <- request_challange fuel bootstrap;
    do r <- ktry (submit_challange bootstrap signed_secret);
    match r with
    | Ok node => kret node
    | Err (KAuthError RoguePeer) =>
      if 0 <? attempts then join_attempts fuel attempts bootstrap
      else kfail (KAuthError RoguePeer)
    | Err e => kfail e
    end
  end.
Definition join_with_retry (fuel : nat) (bootstrap : Node) : K Node :=
  join_attempts fuel 2 bootstrap.

(** ** Lookups *)

(** src/src/bit_torrent/dht/kademlia/client.rs:355-381 [Kademlia::find_node] *)
Definition find_node (target : Node) (lookup_key : Key) : K (list Node) :=
  do result <- auth_request target (FindNode lookup_key);
  match result with
  | RespPeers sender_id peers =>
    if negb (bool_decide (node_id target = sender_id)) then kfail (KRpcError UnexpectedResponse)
    else kret (map node_of_peer peers)
  | _ => kfail (KRpcError UnexpectedResponse)
  end.

(** src/src/bit_torrent/dht/kademlia/client.rs:268-269 [ALPHA] *)
Definition ALPHA : nat := 3.

(** The local variables of a lookup. *)
Record Lookup := mkLookup {
  lk_candidates : list Node;
  lk_visited : gset Key;
  lk_flight : list Node;
}.

Definition closer (key : Key) (a b : Node) : bool :=
  key_leb (distance key (node_id a)) (distance key (node_id b)).

(** [dedup_by(|a, b| a.id == b.id)]: of consecutive nodes with one id the first
    stays. *)
Fixpoint dedup_from (last : Node) (l : list Node) : list Node :=
  match l with
  | [] => []
  | n :: l => if bool_decide (node_id n = node_id last) then dedup_from last l
              else n :: dedup_from n l
  end.
Definition dedup_by_id (l : list Node) : list Node :=
  match l with [] => [] | n :: l => n :: dedup_from n l end.

(** src/src/bit_torrent/dht/kademlia/client.rs:284-302 [node_lookup, filling up the requests in flight] *)
Definition refill (key : Key) (lk : Lookup) : Lookup :=
  let candidates := dedup_by_id (sort_by (closer key) (lk_candidates lk)) in
  let take_n := ALPHA - length (lk_flight lk) in
  let request_batch :=
    take take_n (List.filter (λ n, negb (bool_decide (node_id n ∈ lk_visited lk))) candidates) in
  mkLookup candidates (list_to_set (map node_id request_batch) ∪ lk_visited lk)
    (lk_flight lk ++ request_batch).

(** src/src/bit_torrent/dht/kademlia/client.rs:326-333 [node_lookup, the nodes of an answer] *)
Definition add_answer (host : Key) (lk : Lookup) (nodes : list Node) : list Node :=
  foldl (λ candidates node,
    if negb (bool_decide (node_id node = host)) &&
       negb (bool_decide (node_id node ∈ lk_visited lk)) &&
       negb (existsb (λ c, bool_decide (node_id c = node_id node)) candidates)
    then candidates ++ [node] else candidates) (lk_candidates lk) nodes.

(** src/src/bit_torrent/dht/kademlia/client.rs:340-347 [finished] *)
Definition finished (lk : Lookup) : bool :=
  forallb (λ n, bool_decide (node_id n ∈ lk_visited lk)) (take KBUCKET_MAX (lk_candidates lk)) &&
  match lk_flight lk with [] => true | _ => false end.

(** Which request in flight is answered next. *)
Context (pick : nat → nat).
Definition next_answer (clock : nat) (flight : list Node) : option (Node * list Node) :=
  let i := pick clock mod length flight in
  target ← flight !! i; Some (target, remove_at i flight).

(** src/src/bit_torrent/dht/kademlia/client.rs:283-348 [node_lookup, the loop]

    One unit of fuel for each answer. *)
Fixpoint lookup_loop (fuel : nat) (host key : Key) (lk : Lookup) : K (list Node) :=
  let lk := refill key lk in
  match lk_flight lk with
  | [] => kret (lk_candidates lk)
  | _ =>
    match fuel with
    | O => kopt None
    | S fuel =>
      do s <- kget;
      do (target, flight) <- kopt (next_answer (k_clock s) (lk_flight lk));
      do result <- ktry (find_node target key);
      do candidates <-
        match result with
        | Err _ =>
          do_ kmod (set_table (λ t, RouteTable.table_remove t target));
          kret (List.filter (λ n, negb (bool_decide (node_id n = node_id target)))
                  (lk_candidates lk))
        | Ok nodes => do_ acknowledge target; kret (add_answer host lk nodes)
        end;
      let lk := mkLookup (sort_by (closer key) candidates) (lk_visited lk) flight in
      if finished lk then kret (lk_candidates lk) else lookup_loop fuel host key lk
    end
  end.

(** src/src/bit_torrent/dht/kademlia/client.rs:267-353 [Kademlia::node_lookup] *)
Definition node_lookup (fuel : nat) (lookup_key : Key) : K (list Node) :=
  do s <- kget;
  let candidates := RouteTable.get_closest_nodes (k_table s) lookup_key KBUCKET_MAX in
  do host <- host_id;
  do candidates <- lookup_loop fuel host lookup_key (mkLookup candidates ∅ []);
  kret (take KBUCKET_MAX candidates).

(** src/src/bit_torrent/dht/kademlia/client.rs:89-115 [KademliaClient::join_network] *)
Definition join_network (prove_fuel fuel : nat) (bootstrap : Node) : K unit :=
  do bootstrap <- join_with_retry prove_fuel bootstrap;
  do_ acknowledge bootstrap;
  do host <- host_id;
  do_ node_lookup fuel host;
  kret tt.

(** src/src/bit_torrent/dht/kademlia/client.rs:252-265 [Kademlia::refresh_buckets]

    [rng] is the randomness of each refreshed key. *)
Fixpoint refresh_loop (fuel : nat) (rng : nat → nat → bool) (host : Key) (indices : list nat)
    : K unit :=
  match indices with
  | [] => kret tt
  | index :: indices =>
    do refresh_key <- kopt (randomize (rng index) host index);
    do _ <- ktry (node_lookup fuel refresh_key);
    refresh_loop fuel rng host indices
  end.
Definition refresh_buckets (fuel : nat) (rng : nat → nat → bool) : K unit :=
  do host <- host_id; refresh_loop fuel rng host (seq 0 40).

(** src/src/bit_torrent/dht/kademlia/client.rs:405-421 [Kademlia::store, the answers]

    In the order they arrive. *)
Fixpoint store_answers (key : Key) (value : KademliaData) (targets : list Node) : K unit :=
  match targets with
  | [] => kret tt
  | target :: targets =>
    do result <- ktry (auth_request target (ReqStore key value));
    do_ match result with
        | Ok (Pong sender_id) =>
          if bool_decide (node_id target = sender_id) then kret tt
          else kmod (set_table (λ t, RouteTable.table_remove t target))
        | _ => kmod (set_table (λ t, RouteTable.table_remove t target))
        end;
    store_answers key value targets
  end.

(** src/src/bit_torrent/dht/kademlia/client.rs:383-429 [Kademlia::store]

    [order] permutes the nodes into the order of their answers. *)
Definition kad_store (order : list Node → list Node) (fuel : nat) (key : Key) (value : KademliaData)
    : K unit :=
  do closest_nodes <- node_lookup fuel key;
  do_ store_answers key value (order closest_nodes);
  kmod (set_store (λ st, DHTStore.store_insert now st key value)).

(** src/src/bit_torrent/dht/kademlia/client.rs:485-491 [find_value, the nodes of an answer] *)
Definition add_peers (host : Key) (lk : Lookup) (peers : list PeerResponse) : list Node :=
  lk_candidates lk ++
  List.filter (λ n, negb (bool_decide (node_id n = host)) &&
                    negb (bool_decide (node_id n ∈ lk_visited lk))) (map node_of_peer peers).

(** src/src/bit_torrent/dht/kademlia/client.rs:447-515 [find_value, the loop] *)
Fixpoint find_value_loop (fuel : nat) (host key : Key) (lk : Lookup) : K (option KademliaData) :=
  let lk := refill key lk in
  match lk_flight lk with
  | [] => kret None
  | _ =>
    match fuel with
    | O => kopt None
    | S fuel =>
      do s <- kget;
      do (target, flight) <- kopt (next_answer (k_clock s) (lk_flight lk));
      do result <- ktry (auth_request target (FindValue key));
      let go candidates :=
        let lk := mkLookup (sort_by (closer key) candidates) (lk_visited lk) flight in
        if finished lk then kret None else find_value_loop fuel host key lk in
      let failed :=
        do_ kmod (set_table (λ t, RouteTable.table_remove t target));
        go (List.filter (λ n, negb (bool_decide (node_id n = node_id target))) (lk_candidates lk)) in
      match result with
      | Ok (RespValue receiver_id value) =>
        if bool_decide (node_id target = receiver_id) then kret (Some value) else failed
      | Ok (RespPeers receiver_id peers) =>
        if bool_decide (node_id target = receiver_id) then go (add_peers host lk peers) else failed
      | _ => failed
      end
    end
  end.

(** src/src/bit_torrent/dht/kademlia/client.rs:431-518 [Kademlia::find_value] *)
Definition find_value (fuel : nat) (key : Key) : K (option KademliaData) :=
  do s <- kget;
  let candidates := RouteTable.get_closest_nodes (k_table s) key KBUCKET_MAX in
  do host <- host_id;
  find_value_loop fuel host key (mkLookup candidates ∅ []).

(** ** Torrents *)

(** src/src/bit_torrent/dht/mod.rs:84-88 [From<&InfoHash> for Key] *)
Definition key_of_info_hash (value : InfoHash) : Key := Key_new (InfoHash.as_ref value).

(** src/src/bit_torrent/dht/mod.rs:43-58 [TorrentDht::announce]

    [i2p] is the destination of the socket of an I2P endpoint. *)
Definition announce (order : list Node → list Node) (fuel : nat) (i2p : option string)
    (info_hash : Key) : K unit :=
  do s <- kget;
  let host_addr := node_addr (host (k_table s)) in
  let peers_data := match i2p with Some d => I2Peers {[ d ]} | None => Peers {[ host_addr ]} end in
  kad_store order fuel info_hash peers_data.

(** src/src/bit_torrent/dht/mod.rs:60-63 [TorrentDht::announce_peer] *)
Definition announce_peer (order : list Node → list Node) (fuel : nat) (info_hash : Key)
    (addr : SocketAddr) : K unit :=
  kad_store order fuel info_hash (Peers {[ addr ]}).

(** src/src/bit_torrent/dht/mod.rs:65-81 [TorrentDht::get_peers]

    [resolve] is the address resolver. *)
Definition get_peers (resolve : string → option SocketAddr) (fuel : nat) (info_hash : Key)
    : K (list SocketAddr) :=
  do found_data <- find_value fuel info_hash;
  match found_data with
  | Some (Value _) => kfail KNoValue
  | Some (I2Peers peers) => kret (omap resolve (elements peers))
  | Some (Peers peers) => kret (elements peers)
  | None => kfail KNoValue
  end.

(** * The server *)

Definition closest_peers (s : Kademlia) (key : Key) : list PeerResponse :=
  map peer_of_node (RouteTable.get_closest_nodes (k_table s) key KBUCKET_MAX).

(** src/src/bit_torrent/dht/kademlia/server.rs:162-181 [Kademlia::handle_ping] *)
Definition handle_ping (request_id : Z) (sender : Node) : K unit :=
  do_ acknowledge sender;
  do host <- host_id;
  send_reply sender request_id (Pong host).

(** src/src/bit_torrent/dht/kademlia/server.rs:183-215 [Kademlia::handle_find_node] *)
Definition handle_find_node (request_id : Z) (sender : Node) (lookup : Key) : K unit :=
  do s <- kget;
  let closest_nodes := closest_peers s lookup in
  do host <- host_id;
  do_ acknowledge sender;
  send_reply sender request_id (RespPeers host closest_nodes).

(** src/src/bit_torrent/dht/kademlia/server.rs:217-247 [Kademlia::handle_store] *)
Definition handle_store (request_id : Z) (sender : Node) (key : Key) (data : KademliaData) : K unit :=
  do host <- host_id;
  do_ acknowledge sender;
  do_ kmod (set_store (λ st, DHTStore.store_insert now st key data));
  send_reply sender request_id (Pong host).

(** src/src/bit_torrent/dht/kademlia/server.rs:249-288 [Kademlia::handle_find_value] *)
Definition handle_find_value (request_id : Z) (sender : Node) (key : Key) : K unit :=
  do host <- host_id;
  do s <- kget;
  let response :=
    match DHTStore.store_get now (k_store s) key with
    | Some value => RespValue host value
    | None => RespPeers host (closest_peers s key)
    end in
  send_reply sender request_id response.

(** src/src/bit_torrent/dht/kademlia/server.rs:290-314 [Kademlia::handle_request_challange] *)
Definition handle_request_challange (request_id : Z) (sender : Node) : K unit :=
  do s <- kget;
  let c := challange (k_auth s) (key_pub (node_id sender)) (addr_ip (node_addr sender)) in
  send_reply sender request_id (Challange c DIFFICULTY).

(** src/src/bit_torrent/dht/kademlia/server.rs:316-348 [Kademlia::handle_submit_challange] *)
Definition handle_submit_challange (request_id : Z) (sender : Node) (pow : list Z) (nonce : Z)
    (pow_sign : list Z) (attest_report : option AttestReport) (app_version : string)
    (connection : Z) : K unit :=
  do s <- kget;
  let c := challange (k_auth s) (key_pub (node_id sender)) (addr_ip (node_addr sender)) in
  let secret := PoW_new pow c nonce DIFFICULTY pow_sign attest_report in
  do token <- kopt (issue_token now manifest (k_auth s) sender secret app_version);
  do token <- klift (map_err KAuthError token);
  do_ send_reply sender request_id (Welcome token);
  on_conn connection (Connection.set_inbound_auth token).

(** src/src/bit_torrent/dht/kademlia/server.rs:92-121 [handle_handshake, SubmitHandshake before the reply] *)
Definition check_handshake (token : Token) (signature : list Z) (src : SocketAddr) (connection : Z)
    : K Node :=
  let sender_id := Token.sender token in
  do s <- kget;
  let c := challange (k_auth s) (key_pub sender_id) (addr_ip src) in
  if negb (Token.token_verify now token) || negb (Token.verify_pgp token (k_pgp_keys s)) then
    do_ on_conn connection Connection.close; kfail (KAuthError InvalidToken)
  else if negb (Verifier_verify (key_pub sender_id) (ownership token c) signature) then
    do_ on_conn connection Connection.close; kfail (KAuthError RoguePeer)
  else kret (from_socket sender_id src).

(** src/src/bit_torrent/dht/kademlia/server.rs:43-138 [Kademlia::handle_handshake] *)
Definition handle_handshake (request : RpcEnvelope DhtRequest) (src : SocketAddr) (connection : Z)
    : K unit :=
  match payload request with
  | RequestChallange sender_id =>
    handle_request_challange (env_id request) (from_socket sender_id src)
  | SubmitChallange sender_id c nonce signature attest_report app_version =>
    handle_submit_challange (env_id request) (from_socket sender_id src) c nonce signature
      attest_report app_version connection
  | RequestHandshake sender_id =>
    let sender := from_socket sender_id src in
    do s <- kget;
    let c := challange (k_auth s) (key_pub (node_id sender)) (addr_ip (node_addr sender)) in
    send_reply sender (env_id request) (HandshakeChallange c)
  | SubmitHandshake token signature =>
    do host <- host_id;
    do sender <- check_handshake token signature src connection;
    do_ send_reply sender (env_id request) (Pong host);
    on_conn connection (Connection.set_inbound_auth token)
  end.

(** src/src/bit_torrent/dht/kademlia/server.rs:140-160 [Kademlia::handle_request] *)
Definition handle_request (sender_id : Key) (request : RpcEnvelope AuthDhtRequest)
    (src : SocketAddr) : K unit :=
  let sender := from_socket sender_id src in
  match payload request with
  | ReqPing => handle_ping (env_id request) sender
  | FindNode lookup_id => handle_find_node (env_id request) sender lookup_id
  | FindValue key => handle_find_value (env_id request) sender key
  | ReqStore key data => handle_store (env_id request) sender key data
  end.

(** src/src/bit_torrent/dht/kademlia/server.rs:20-39 [KademliaServer::handle_packet] *)
Definition handle_packet (packet : DhtPacket) (src : SocketAddr) (connection : Z) : K unit :=
  match packet with
  | Request envelop =>
    do s <- kget;
    do sender <- klift (ok_or (KAuthError InvalidToken)
      (c ← heap (k_conns s) !! connection; Connection.inbound_sender c));
    let '(l, r) := check_rate now (k_limiter s) sender in
    do_ kmod (set_limiter (λ _, l));
    do_ klift (map_err KAuthError r);
    handle_request sender envelop src
  | HandShake rpc => handle_handshake rpc src connection
  | Response _ => kopt None
  end.

(** * Reasoning about computations *)

Lemma kbind_inv {A B} (m : K A) (f : A → K B) s r s' :
  kbind m f s = Some (r, s') →
  (∃ e, m s = Some (Err e, s') ∧ r = Err e) ∨ ∃ a s1, m s = Some (Ok a, s1) ∧ f a s1 = Some (r, s').
Proof.
  unfold kbind. destruct (m s) as [[[a|e] s1]|]; [|intros [= <- <-]|done].
  - right. eauto.
  - left. eauto.
Qed.

Lemma kbind_Ok {A B} (m : K A) (f : A → K B) s a s1 :
  m s = Some (Ok a, s1) → kbind m f s = f a s1.
Proof. unfold kbind. by intros ->. Qed.

Lemma kbind_Err {A B} (m : K A) (f : A → K B) s e s1 :
  m s = Some (Err e, s1) → kbind m f s = Some (Err e, s1).
Proof. unfold kbind. by intros ->. Qed.

(** What a computation does to the state, for a preorder on states. *)
Section kpres.
Context (R : relation Kademlia) `{!PreOrder R}.

Definition kpres {A} (m : K A) : Prop := ∀ s r s', m s = Some (r, s') → R s s'.

Lemma kpres_pure {A} (m : K A) : (∀ s r s', m s = Some (r, s') → s' = s) → kpres m.
Proof. intros Hm s r s' ->%Hm. reflexivity. Qed.

Lemma kpres_ret {A} (a : A) : kpres (kret a).
Proof. apply kpres_pure. by intros ??? [= <- <-]. Qed.
Lemma kpres_fail {A} e : kpres (kfail (A := A) e).
Proof. apply kpres_pure. by intros ??? [= <- <-]. Qed.
Lemma kpres_get : kpres kget.
Proof. apply kpres_pure. by intros ??? [= <- <-]. Qed.
Lemma kpres_lift {A} (x : Result KademliaError A) : kpres (klift x).
Proof. apply kpres_pure. by intros ??? [= <- <-]. Qed.
Lemma kpres_opt {A} (o : option A) : kpres (kopt o).
Proof. apply kpres_pure. unfold kopt. destruct o; [by intros ??? [= <- <-]|done]. Qed.
Lemma kpres_mod f : (∀ s, R s (f s)) → kpres (kmod f).
Proof. intros Hf s r s' [= <- <-]. apply Hf. Qed.
Lemma kpres_bind {A B} (m : K A) (f : A → K B) :
  kpres m → (∀ a, kpres (f a)) → kpres (kbind m f).
Proof.
  intros Hm Hf s r s' [(e & He & _)|(a & s1 & H1 & H2)]%kbind_inv; [by eapply Hm|].
  transitivity s1; [by eapply Hm|by eapply Hf].
Qed.
Lemma kpres_try {A} (m : K A) : kpres m → kpres (ktry m).
Proof.
  intros Hm s r s'. unfold ktry. destruct (m s) as [[x s1]|] eqn:E; [|done].
  intros [= <- <-]. by eapply Hm.
Qed.
Lemma kpres_exchange t b :
  (∀ s c, R s (tick (set_conns (λ _, c) s))) → kpres (exchange t b).
Proof.
  intros HR s r s'. unfold exchange. destruct (rpc _ _ _ _) as [x c]. intros [= <- <-]. apply HR.
Qed.
End kpres.

Ltac kpres :=
  repeat first
    [ progress cbv zeta
    | assumption
    | match goal with Hk : ∀ _, kpres _ _ |- _ => apply Hk end
    | apply kpres_bind; [apply _| |intros ?]
    | apply kpres_try; [apply _|]
    | solve [apply kpres_ret, _ | apply kpres_fail, _ | apply kpres_get, _
            |apply kpres_lift, _ | apply kpres_opt, _]
    | apply kpres_exchange; [apply _|intros]
    | apply kpres_mod; [apply _|intros]
    | case_match ].

(** The parts of the state that requests to other nodes leave alone. *)
Record frame (s s' : Kademlia) : Prop := {
  fr_auth : k_auth s' = k_auth s;
  fr_keys : k_pgp_keys s' = k_pgp_keys s;
  fr_limiter : k_limiter s' = k_limiter s;
  fr_store : k_store s' = k_store s;
  fr_out : k_out s' = k_out s;
  fr_host : host (k_table s') = host (k_table s);
}.
#[local] Instance frame_preorder : PreOrder frame.
Proof.
  split; [by split|]. intros x y z [] []. split; congruence.
Qed.

Lemma kpres_rpc_call R `{!PreOrder R} t b :
  (∀ s c, R s (tick (set_conns (λ _, c) s))) → kpres R (rpc_call t b).
Proof. intros. unfold rpc_call. kpres; auto. Qed.

Lemma kpres_auth_request R `{!PreOrder R} t q :
  (∀ s c, R s (tick (set_conns (λ _, c) s))) → (∀ s f, R s (set_conns f s)) →
  kpres R (auth_request t q).
Proof.
  intros Hx Hc. assert (kpres R (authenticate t)) as Ha.
  { unfold authenticate, host_id, on_connection. kpres; auto using kpres_rpc_call. }
  unfold auth_request. kpres; auto using kpres_rpc_call.
Qed.

Lemma kpres_ping R `{!PreOrder R} t :
  (∀ s c, R s (tick (set_conns (λ _, c) s))) → (∀ s f, R s (set_conns f s)) → kpres R (ping t).
Proof. intros. unfold ping. kpres; auto using kpres_auth_request. Qed.

Lemma try_insert_host t n : host (RouteTable.try_insert t n).1 = host t.
Proof. unfold RouteTable.try_insert. by repeat case_match. Qed.
Lemma replace_host t n : host (RouteTable.replace t n) = host t.
Proof. unfold RouteTable.replace. by repeat case_match. Qed.

Lemma frame_acknowledge n : kpres frame (acknowledge n).
Proof.
  unfold acknowledge. generalize 3 as fuel. induction fuel as [|fuel IH]; cbn [acknowledge_loop].
  { apply kpres_opt, _. }
  intros s r s'. rewrite (kbind_Ok _ _ s s s) by done.
  pose proof (try_insert_host (k_table s) n) as Hh.
  destruct (RouteTable.try_insert (k_table s) n) as [t i]. simpl in Hh.
  rewrite (kbind_Ok _ _ s tt (set_table (λ _, t) s)) by done.
  intros Hrun. transitivity (set_table (λ _, t) s); [by split|]. revert Hrun.
  match goal with |- ?m _ = _ → _ => enough (kpres frame m) as Hm by apply Hm end.
  assert (∀ old, kpres frame (ping old)) as Hping by (intros; apply kpres_ping; [apply _|by split..]).
  destruct i; kpres. split; try done. simpl. apply replace_host.
Qed.

(** * Replies *)

(** The answer a request asks for, from the node with key [host]. *)
Definition reply_fits (host : Key) (p : DhtPacket) (r : DhtResponse) : bool :=
  match p with
  | Request e =>
    match payload e, r with
    | ReqPing, Pong k | ReqStore _ _, Pong k => bool_decide (k = host)
    | FindNode _, RespPeers k _ | FindValue _, RespPeers k _ | FindValue _, RespValue k _ =>
      bool_decide (k = host)
    | _, _ => false
    end
  | HandShake e =>
    match payload e, r with
    | RequestHandshake _, HandshakeChallange _ => true
    | SubmitHandshake _ _, Pong k => bool_decide (k = host)
    | RequestChallange _, Challange _ _ => true
    | SubmitChallange sender_id _ _ _ _ _, Welcome t => bool_decide (tk_peer t = key_pub sender_id)
    | _, _ => false
    end
  | Response _ => false
  end.

Lemma send_reply_inv peer id resp s r s' :
  send_reply peer id resp s = Some (r, s') →
  (s' = s ∧ is_ok r = false) ∨
  (r = Ok tt ∧ s' = tick (add_out (peer, Response (mkEnv id resp)) s)).
Proof.
  unfold send_reply. rewrite (kbind_Ok _ _ s s s) by done.
  destruct (outcome (k_clock s)); cbn; unfold kbind, klift, kmod; cbn;
    intros [= <- <-]; auto.
Qed.

Lemma issue_token_peer auth sender secret version t :
  issue_token now manifest auth sender secret version = Some (Ok t) →
  tk_peer t = key_pub (node_id sender) ∧ pow_verify secret (key_pub (node_id sender)) = Some true.
Proof.
  unfold issue_token. destruct (pow_verify secret _) as [[]|]; cbn [mbind option_bind negb]; try done.
  match goal with |- context [x ← ?m; _] => destruct m as [[lvl|]|] end;
    cbn [mbind option_bind rbind]; try done.
  destruct (pgp_details auth) as [[sw [sig|]]|]; cbn; unfold Token.token_sign; try done;
    destruct (signer_sign _ _); cbn; try done; by intros [= <-].
Qed.

(** The reply is the only thing sent, and the node keeps its own key. *)
Definition replied (p : DhtPacket) (src : SocketAddr) (s : Kademlia)
    (r : Result KademliaError unit) (s' : Kademlia) : Prop :=
  host (k_table s') = host (k_table s) ∧
  match r with
  | Err _ => k_out s' = k_out s
  | Ok _ => ∃ sender resp, k_out s' = k_out s ++ [(sender, Response (mkEnv (packet_id p) resp))] ∧
              node_addr sender = src ∧ reply_fits (node_id (host (k_table s))) p resp = true
  end.

(** A handler that ends in a reply, after steps that send nothing. *)
Lemma replied_send p src s s1 peer resp r s' :
  send_reply peer (packet_id p) resp s1 = Some (r, s') → k_out s1 = k_out s →
  host (k_table s1) = host (k_table s) → node_addr peer = src →
  reply_fits (node_id (host (k_table s))) p resp = true → replied p src s r s'.
Proof.
  intros [[-> Hr]|[-> ->]]%send_reply_inv Ho Hh Ha Hf; split; auto.
  - by destruct r.
  - exists peer, resp. cbn. by rewrite Ho.
Qed.

Lemma replied_ack p src s peer (f : K unit) r s' :
  kbind (acknowledge peer) (λ _, f) s = Some (r, s') →
  (∀ s1, frame s s1 → f s1 = Some (r, s') → replied p src s r s') → replied p src s r s'.
Proof.
  intros [(e & He & ->)|(a & s1 & H1 & H2)]%kbind_inv Hf.
  - apply frame_acknowledge in He as []. by split.
  - apply frame_acknowledge in H1. eauto.
Qed.

Lemma handle_request_replied key e src s r s' :
  handle_request key e src s = Some (r, s') → replied (Request e) src s r s'.
Proof.
  unfold handle_request. destruct e as [id [| |k|k d]]; cbn [payload env_id].
  - unfold handle_ping. intros Hr. eapply replied_ack; [exact Hr|]. clear Hr. intros s1 Hf Hr.
    unfold host_id in Hr. cbn in Hr. destruct Hf.
    eapply replied_send; [exact Hr|done|done|done|]. cbn. apply bool_decide_eq_true. congruence.
  - unfold handle_find_node. cbn. intros Hr. eapply replied_ack; [exact Hr|]. clear Hr.
    intros s1 Hf Hr. destruct Hf. eapply replied_send; [exact Hr|done|done|done|].
    by apply bool_decide_eq_true.
  - unfold handle_find_value. cbn. intros Hr. eapply replied_send; [exact Hr|done|done|done|].
    destruct (DHTStore.store_get now (k_store s) k); by apply bool_decide_eq_true.
  - unfold handle_store. cbn. intros Hr. eapply replied_ack; [exact Hr|]. clear Hr.
    intros s1 Hf Hr. destruct Hf.
    rewrite (kbind_Ok _ _ s1 tt (set_store (λ st, DHTStore.store_insert now st k d) s1)) in Hr
      by done.
    eapply replied_send; [exact Hr|done|done|done|]. by apply bool_decide_eq_true.
Qed.

(** A reply after which a connection is marked. *)
Lemma replied_mark p src s peer resp id f r s' :
  kbind (send_reply peer (packet_id p) resp) (λ _, on_conn id f) s = Some (r, s') →
  node_addr peer = src → reply_fits (node_id (host (k_table s))) p resp = true →
  replied p src s r s'.
Proof.
  intros [(e & He & ->)|(a & s1 & H1 & H2)]%kbind_inv Ha Hf; [by eapply replied_send|].
  injection H2 as <- <-. eapply replied_send in H1; [|done..]. exact H1.
Qed.

Lemma handle_handshake_replied e src conn s r s' :
  handle_handshake e src conn s = Some (r, s') → replied (HandShake e) src s r s'.
Proof.
  unfold handle_handshake. destruct e as [id [k|t sig|k|k c n sig rep v]]; cbn [payload env_id].
  - cbn. intros Hr. eapply replied_send; [exact Hr|done..].
  - unfold host_id. cbn. intros [(e & He & ->)|(n & s1 & H1 & H2)]%kbind_inv.
    + revert He. unfold check_handshake. cbn. repeat case_match; cbn; [by intros [= <- <-]..|done].
    + assert (s1 = s ∧ node_addr n = src) as [-> Ha].
      { revert H1. unfold check_handshake. cbn. repeat case_match; cbn; try done. by intros [= <- <-]. }
      eapply replied_mark; [exact H2|done|]. by apply bool_decide_eq_true.
  - unfold handle_request_challange. cbn. intros Hr. eapply replied_send; [exact Hr|done..].
  - unfold handle_submit_challange. rewrite (kbind_Ok _ _ s s s) by done. cbv zeta.
    unfold kbind at 1, kopt. destruct (issue_token _ _ _ _ _ _) as [[t|err]|] eqn:Ht;
      [|by intros [= <- <-]|done].
    intros Hr. rewrite (kbind_Ok _ _ s t s) in Hr by done. eapply replied_mark; [exact Hr|done|]. cbn.
    apply issue_token_peer in Ht as [Ht _]. by apply bool_decide_eq_true.
Qed.

Lemma handle_packet_replied p src conn s r s' :
  handle_packet p src conn s = Some (r, s') → replied p src s r s'.
Proof.
  destruct p as [e|e|e]; cbn; [|by apply handle_handshake_replied|done].
  unfold kbind at 1, kget. destruct (c ← heap (k_conns s) !! conn; _) as [key|]; cbn;
    [|by intros [= <- <-]].
  destruct (check_rate now (k_limiter s) key) as [l [[]|]]; cbn; [|by intros [= <- <-]].
  intros Hr%handle_request_replied. exact Hr.
Qed.

(** C18: A packet that is handled without error is answered by exactly one
    message, sent to the node it came from, with its id and of the kind the
    request asks for, in the name of the node's own key; a packet that fails is
    not answered.  The client takes such an answer for what it asked: a ping is
    answered, and a query for nodes returns the nodes. *)
Theorem replies_typed (p : DhtPacket) (src : SocketAddr) (conn : Z) (s : Kademlia)
    (r : Result KademliaError unit) (s' : Kademlia) (target : Node) (resp : DhtResponse)
    (c c' : Kademlia) (id : Z) (key : Key) :
  handle_packet p src conn s = Some (r, s') →
  match r with
  | Err _ => k_out s' = k_out s
  | Ok _ => ∃ sender resp, k_out s' = k_out s ++ [(sender, Response (mkEnv (packet_id p) resp))] ∧
              node_addr sender = src ∧ reply_fits (node_id (host (k_table s))) p resp = true
  end ∧
  (auth_request target ReqPing c = Some (Ok resp, c') →
   reply_fits (node_id target) (Request (mkEnv id ReqPing)) resp = true →
   ping target c = Some (Ok tt, c')) ∧
  (auth_request target (FindNode key) c = Some (Ok resp, c') →
   reply_fits (node_id target) (Request (mkEnv id (FindNode key))) resp = true →
   ∃ k peers, resp = RespPeers k peers ∧
     find_node target key c = Some (Ok (map node_of_peer peers), c')).
Proof.
  intros [_ Hr]%handle_packet_replied. split; [done|]. split; intros Ha Hf.
  - unfold ping. rewrite (kbind_Ok _ _ _ _ _ Ha). destruct resp; try done. cbn in Hf. b2p.
    by rewrite bool_decide_eq_true_2.
  - unfold find_node. rewrite (kbind_Ok _ _ _ _ _ Ha). destruct resp; try done. cbn in Hf. b2p.
    rewrite bool_decide_eq_true_2 by done. eauto.
Qed.

(** * Admission *)

(** What a packet must contain to authenticate its connection as [key]. *)
Definition evidence (s : Kademlia) (src : SocketAddr) (p : DhtPacket) (key : Key) : Prop :=
  match p with
  | HandShake (mkEnv _ (SubmitHandshake t sig)) =>
    key = Key_new (tk_peer t) ∧ Token.token_verify now t = true ∧
    Token.verify_pgp t (k_pgp_keys s) = true ∧
    ed25519_verify (tk_peer t)
      (ownership t (challange (k_auth s) (tk_peer t) (addr_ip src))) sig = true
  | HandShake (mkEnv _ (SubmitChallange sender pow nonce sig report _)) =>
    key = Key_new (key_pub sender) ∧
    pow_verify (PoW_new pow (challange (k_auth s) (key_pub sender) (addr_ip src)) nonce DIFFICULTY
                  sig report) (key_pub sender) = Some true
  | _ => False
  end.

Definition inbound (s : Kademlia) (conn : Z) : option Key :=
  c ← heap (k_conns s) !! conn; inbound_auth c.

Lemma send_reply_inbound peer id resp s r s' conn :
  send_reply peer id resp s = Some (r, s') → inbound s' conn = inbound s conn.
Proof. by intros [[-> _]|[_ ->]]%send_reply_inv. Qed.

Lemma inbound_set_auth s conn t :
  is_Some (heap (k_conns s) !! conn) →
  inbound (set_conns (set_heap (alter (Connection.set_inbound_auth t) conn)) s) conn =
    Some (Token.sender t).
Proof. intros [c Hc]. unfold inbound. cbn. by rewrite lookup_alter_eq, Hc. Qed.

Lemma check_handshake_inv t sig src conn s r s' :
  check_handshake t sig src conn s = Some (r, s') →
  match r with
  | Ok n => s' = s ∧ n = from_socket (Token.sender t) src ∧ Token.token_verify now t = true ∧
            Token.verify_pgp t (k_pgp_keys s) = true ∧
            Verifier_verify (tk_peer t)
              (ownership t (challange (k_auth s) (tk_peer t) (addr_ip src))) sig = true
  | Err _ => inbound s' conn = inbound s conn
  end.
Proof.
  unfold check_handshake. rewrite (kbind_Ok _ _ s s s) by done. cbv zeta.
  assert (inbound (set_conns (set_heap (alter Connection.close conn)) s) conn = inbound s conn) as Hcl.
  { unfold inbound. cbn. rewrite lookup_alter_eq. by destruct (heap (k_conns s) !! conn). }
  destruct (negb (Token.token_verify now t) || _) eqn:Hv; [by intros [= <- <-]|].
  destruct (negb (Verifier_verify _ _ _)) eqn:Hs; [by intros [= <- <-]|].
  intros [= <- <-]. b2p. auto.
Qed.

Lemma handshake_evidence e src conn s r s' key :
  handle_handshake e src conn s = Some (r, s') → inbound s conn = None →
  inbound s' conn = Some key → evidence s src (HandShake e) key.
Proof.
  unfold handle_handshake. destruct e as [id [k|t sig|k|k c n sig rep v]]; cbn [payload env_id].
  - rewrite (kbind_Ok _ _ s s s) by done. intros Hr%(send_reply_inbound _ _ _ _ _ _ conn). congruence.
  - rewrite (kbind_Ok _ _ s (node_id (host (k_table s))) s) by done.
    intros [(e & He & ->)|(n & s2 & H1 & Hr)]%kbind_inv Hn Hk.
    { apply check_handshake_inv in He. congruence. }
    apply check_handshake_inv in H1 as (-> & _ & Hv & Hp & Hs).
    revert Hr Hn Hk.
    intros [(e & He & ->)|(a & s1 & H1 & H2)]%kbind_inv Hn Hk.
    + apply (send_reply_inbound _ _ _ _ _ _ conn) in He. congruence.
    + injection H2 as <- <-. cbn in Hk. unfold inbound in Hk. cbn in Hk.
      rewrite lookup_alter_eq in Hk. destruct (heap (k_conns s1) !! conn); [|done].
      cbn in Hk. injection Hk as <-. cbn. auto.
  - unfold handle_request_challange. rewrite (kbind_Ok _ _ s s s) by done.
    intros Hr%(send_reply_inbound _ _ _ _ _ _ conn). congruence.
  - unfold handle_submit_challange. rewrite (kbind_Ok _ _ s s s) by done. cbv zeta.
    unfold kbind at 1, kopt. destruct (issue_token _ _ _ _ _ _) as [[t|err]|] eqn:Ht;
      [|intros [= <- <-]; congruence|done].
    rewrite (kbind_Ok _ _ s t s) by done.
    intros [(e & He & ->)|(a & s1 & H1 & H2)]%kbind_inv Hn Hk.
    + apply (send_reply_inbound _ _ _ _ _ _ conn) in He. congruence.
    + injection H2 as <- <-. unfold inbound in Hk. cbn in Hk.
      rewrite lookup_alter_eq in Hk. destruct (heap (k_conns s1) !! conn); [|done].
      assert (key = Token.sender t) as -> by (injection Hk as <-; done).
      apply issue_token_peer in Ht as [Ht1 Ht2]. split; [|exact Ht2].
      unfold Token.sender. by rewrite Ht1.
Qed.

(** C17: An unauthenticated connection gets nothing done: its requests are
    refused and change nothing.  A packet authenticates its connection
    only as the holder of a key, on a token that verifies, belongs to a known swarm,
    and whose ownership is signed for this node's own challenge, or on a proof of
    work for that challenge and key. *)
Theorem admission_safe (p : DhtPacket) (src : SocketAddr) (conn : Z) (s : Kademlia) (key : Key)
    (r : Result KademliaError unit) (s' : Kademlia) :
  inbound s conn = None →
  (∀ e, handle_packet (Request e) src conn s = Some (Err (KAuthError InvalidToken), s)) ∧
  (handle_packet p src conn s = Some (r, s') → inbound s' conn = Some key → evidence s src p key).
Proof.
  intros Hn.
  assert (∀ e, handle_packet (Request e) src conn s = Some (Err (KAuthError InvalidToken), s)) as Hreq.
  { intros e. unfold handle_packet. rewrite (kbind_Ok _ _ s s s) by done.
    unfold inbound in Hn. unfold Connection.inbound_sender. by rewrite Hn. }
  split; [done|]. destruct p as [e|e|e].
  - rewrite Hreq. intros [= <- <-]. congruence.
  - intros Hr Hk. by eapply handshake_evidence.
  - done.
Qed.

(** A handshake that passes the checks. *)
Lemma submit_handshake_ok t sig id src conn s :
  Token.token_verify now t = true → Token.verify_pgp t (k_pgp_keys s) = true →
  ed25519_verify (tk_peer t)
    (ownership t (challange (k_auth s) (tk_peer t) (addr_ip src))) sig = true →
  outcome (k_clock s) = SendOk →
  handle_packet (HandShake (mkEnv id (SubmitHandshake t sig))) src conn s =
    Some (Ok tt, set_conns (set_heap (alter (Connection.set_inbound_auth t) conn))
      (tick (add_out (from_socket (Token.sender t) src,
                      Response (mkEnv id (Pong (node_id (host (k_table s)))))) s))).
Proof.
  intros Hv Hp Hs Hout. cbn [handle_packet]. unfold handle_handshake. cbn [payload].
  rewrite (kbind_Ok _ _ s (node_id (host (k_table s))) s) by done.
  rewrite (kbind_Ok _ _ s (from_socket (Token.sender t) src) s).
  2: { unfold check_handshake. rewrite (kbind_Ok _ _ s s s) by done. cbv zeta.
       rewrite Hv, Hp. cbn [negb orb]. cbn [key_pub Token.sender Key_new].
       unfold Verifier_verify. by rewrite Hs. }
  unfold send_reply, kbind, kget, klift, kmod. by rewrite Hout.
Qed.

(** C21: A node admits whoever presents a self-made token: whoever has seen one
    token of the swarm can copy the certificate and its PGP signature from it,
    sign a token for himself with his own key as the issuer and any 32 bytes in
    place of a proof of work, and is authenticated, since nothing ties the issuer's key
    to the certificate. *)
Theorem self_issued_token_admitted (attacker : Signer) `{!SignerLaws attacker} (t0 : Token)
    (id : Z) (src : SocketAddr) (conn : Z) (s : Kademlia) (pow sig sig' : list Z) :
  Token.token_wf t0 → length pow = 32 → bytes_ok pow →
  Token.verify_pgp t0 (k_pgp_keys s) = true → (0 < now < 2 ^ 64)%Z → outcome (k_clock s) = SendOk →
  is_Some (heap (k_conns s) !! conn) →
  let me := signer_pub_key attacker in
  let t := mkToken (swarm_id t0) me pow now now me (issuer_ca_cert t0) (issuer_ca_cert_sig t0)
             Unattested (Some sig) in
  bytes_ok me → bytes_ok sig →
  signer_sign attacker (Token.calculate_hash t me) = Ok sig →
  signer_sign attacker (ownership t (challange (k_auth s) me (addr_ip src))) = Ok sig' →
  Token.token_wf t ∧
  ∃ s', handle_packet (HandShake (mkEnv id (SubmitHandshake t sig'))) src conn s = Some (Ok tt, s') ∧
        inbound s' conn = Some (Key_new me).
Proof.
  intros Hwf Hlen Hpow Hpgp Hnow Hout Hconn me t Hme Hsb Hsig Hsig'.
  split.
  { destruct Hwf as ([? ?] & _ & _ & _ & _ & _ & ? & ? & _).
    unfold Token.token_wf. cbn [t]. cbn. split_and!; solve [done|lia]. }
  assert (Token.token_verify now t = true) as Hv.
  { unfold Token.token_verify, Token.is_expired. cbn [exp_at t].
    rewrite (proj2 (Z.eqb_neq _ _)), (proj2 (Z.ltb_ge _ _)) by lia.
    cbn [tk_signature issuer t]. by apply (sign_verifies _ _ Hsig). }
  assert (Token.verify_pgp t (k_pgp_keys s) = true) as Hp by done.
  eexists. split; [apply submit_handshake_ok; try done; by apply (sign_verifies _ _ Hsig')|].
  by apply inbound_set_auth.
Qed.

(** The reply a handled packet was given. *)
Definition reply_of (o : option (Result KademliaError unit * Kademlia)) : option DhtResponse :=
  match o with
  | Some (Ok _, s) => match last (k_out s) with
                      | Some (_, Response e) => Some (payload e)
                      | _ => None
                      end
  | _ => None
  end.

(** C19: When a node with a valid token asks a node it can reach to authenticate
    it, both agree: the client's call succeeds and marks its connection as
    authenticated, and the server marks the connection as that of the
    client's key.  [src] is the address the server sees and [conn] its connection;
    the two exchanges carry what the server answers. *)
Theorem handshake_authenticates (client server : Kademlia) (target : Node) (src : SocketAddr)
    (conn : Z) (t : Token) (i1 i2 id : Z) (m1 m2 : ConnectionManager) (sig : list Z)
    `{!SignerLaws (inner_cert (k_auth client))} :
  let me := signer_pub_key (inner_cert (k_auth client)) in
  let host_key := node_id (host (k_table client)) in
  let run1 := handle_packet (HandShake (mkEnv i1 (RequestHandshake host_key))) src conn server in
  best_token now (k_auth client) = Some t → tk_peer t = me → key_pub host_key = me →
  Token.token_verify now t = true → Token.verify_pgp t (k_pgp_keys server) = true →
  signer_sign (inner_cert (k_auth client))
    (ownership t (challange (k_auth server) me (addr_ip src))) = Ok sig →
  (∀ n, outcome n = SendOk) → node_id (host (k_table server)) = node_id target →
  is_Some (heap (k_conns server) !! conn) → connections m2 !! node_addr target = Some id →
  (∀ r server1, run1 = Some (Ok tt, server1) → reply_of run1 = Some r →
     rpc (k_clock client) (k_conns client) target (inl (RequestHandshake host_key)) = (Ok r, m1)) →
  (∀ r server1, run1 = Some (Ok tt, server1) →
     reply_of (handle_packet (HandShake (mkEnv i2 (SubmitHandshake t sig))) src conn server1)
       = Some r →
     rpc (S (k_clock client)) m1 target (inl (SubmitHandshake t sig)) = (Ok r, m2)) →
  ∃ client' server1 server2,
    authenticate target client = Some (Ok tt, client') ∧
    heap (k_conns client') = alter Connection.set_outbound_authenticated id (heap m2) ∧
    run1 = Some (Ok tt, server1) ∧
    handle_packet (HandShake (mkEnv i2 (SubmitHandshake t sig))) src conn server1 =
      Some (Ok tt, server2) ∧
    inbound server2 conn = Some (Key_new me).
Proof.
  intros me host_key run1 Hbest Hpeer Hkey Hv Hp Hsign Hout Hhost Hconn Hid Hx1 Hx2.
  set (server1 := tick (add_out (from_socket host_key src, Response (mkEnv i1
    (HandshakeChallange (challange (k_auth server) me (addr_ip src))))) server)).
  assert (run1 = Some (Ok tt, server1)) as Hrun1.
  { unfold run1. cbn [handle_packet]. unfold handle_handshake. cbn [payload env_id].
    rewrite (kbind_Ok _ _ server server server) by done.
    unfold send_reply, kbind, kget, klift, kmod. rewrite Hout. cbn [from_socket node_id].
    by rewrite Hkey. }
  assert (handle_packet (HandShake (mkEnv i2 (SubmitHandshake t sig))) src conn server1 =
    Some (Ok tt, set_conns (set_heap (alter (Connection.set_inbound_auth t) conn))
      (tick (add_out (from_socket (Token.sender t) src,
         Response (mkEnv i2 (Pong (node_id (host (k_table server1)))))) server1)))) as Hrun2.
  { apply submit_handshake_ok; try done. rewrite Hpeer. by apply (sign_verifies _ _ Hsign). }
  specialize (Hx1 (HandshakeChallange (challange (k_auth server) me (addr_ip src))) server1 Hrun1).
  specialize (Hx2 (Pong (node_id target)) server1 Hrun1). rewrite Hrun1 in Hx1. rewrite Hrun2 in Hx2.
  unfold reply_of in Hx1, Hx2. cbn [k_out server1 tick add_out set_conns] in Hx1, Hx2.
  rewrite last_snoc in Hx1, Hx2. cbn [payload] in Hx1, Hx2.
  eexists _, server1, _. split; [|split; [|split; [done|split; [exact Hrun2|]]]].
  - unfold authenticate. rewrite (kbind_Ok _ _ client host_key client) by done.
    rewrite (kbind_Ok _ _ client client client) by done. rewrite Hbest.
    unfold rpc_call, exchange, kbind, klift, ok_or.
    rewrite Hx1 by done. cbn [map_err]. rewrite Hsign. cbn [map_err k_clock tick set_conns k_conns].
    rewrite Hx2 by (cbn [host k_table server1 tick add_out]; by rewrite Hhost).
    cbn [map_err]. rewrite bool_decide_eq_true_2 by done. cbn [negb].
    unfold on_connection, kmod. reflexivity.
  - cbn. unfold get_connection. by rewrite Hid.
  - rewrite <-Hpeer. by apply inbound_set_auth.
Qed.

(** Packets are handled by tasks of their own: a request that arrives after the
    reply to a handshake, and before the handler has gone on to mark the
    connection, is refused. *)
Lemma request_before_mark_refused peer id resp e src conn s s1 :
  inbound s conn = None → send_reply peer id resp s = Some (Ok tt, s1) →
  handle_packet (Request e) src conn s1 = Some (Err (KAuthError InvalidToken), s1).
Proof.
  intros Hn Hs%(send_reply_inbound _ _ _ _ _ _ conn). rewrite Hn in Hs.
  unfold handle_packet. rewrite (kbind_Ok _ _ s1 s1 s1) by done.
  unfold inbound in Hs. unfold Connection.inbound_sender. by rewrite Hs.
Qed.
End kademlia.

(** * Instances *)

Module KadExamples.
#[local] Existing Instance Toy.ToyCrypto.
#[export] Instance toy_auth : AuthCrypto := {|
  keccak_verify pk d sig := bool_decide (sig = [Toy.checksum (pk ++ d)]);
  PgpKey := unit;
  pgp_verify _ _ _ := true;
|}.

Definition no_manifest : string → Result unit (list Z) := λ _, Err tt.
Definition no_rpc : nat → ConnectionManager → Node → DhtRequest + AuthDhtRequest →
    Result RpcError DhtResponse * ConnectionManager := λ _ m _ _, (Err Timeout, m).
Definition sends : nat → SendOutcome := λ _, SendOk.

Definition me : Signer := Toy.signer [7%Z].
Definition my_addr : SocketAddr := SocketV4 1 1.
Definition server_addr : SocketAddr := SocketV4 2 2.
Definition swarm : list Z := replicate 32 2%Z.
Definition signed_token (sig : list Z) : Token :=
  mkToken swarm [7%Z] (replicate 32 5%Z) 900 2700 [9%Z] [1%Z] [3%Z] Unattested (Some sig).
Definition token : Token :=
  signed_token (replicate 64 (Toy.checksum ([9%Z] ++ Token.hash (signed_token [])))).

(** A connection table with one connection, marked as that of [key]. *)
Definition one_conn (local peer : SocketAddr) (key : option Key) : ConnectionManager :=
  set_connections (λ _, {[ peer := 0%Z ]})
    (set_heap (λ _, {[ 0%Z := mkConn 0 peer true false key false ]}) (cm_new (Some local) None 50)).

Definition server_key : Key := Key_new [9%Z].
Definition server (key : option Key) : Kademlia :=
  mkKad (mkAuth [1%Z] (Some (swarm, Some [3%Z])) (Toy.signer [9%Z]) [4%Z] None) {[ swarm := tt ]}
    (RateLimiter.limiter_new 100 60) (one_conn server_addr my_addr key) DHTStore.store_new
    (RouteTable.table_new (mkNode server_key server_addr)) 0 [].
Definition client : Kademlia :=
  mkKad (mkAuth [5%Z] None me [6%Z] (Some token)) ∅ (RateLimiter.limiter_new 100 60)
    (one_conn my_addr server_addr None) DHTStore.store_new
    (RouteTable.table_new (mkNode (Key_new [7%Z]) my_addr)) 0 [].
Definition target : Node := mkNode server_key server_addr.

(** The network: what [server] answers. *)
Definition server_rpc : nat → ConnectionManager → Node → DhtRequest + AuthDhtRequest →
    Result RpcError DhtResponse * ConnectionManager := λ _ m _ body,
  (ok_or Timeout (reply_of match body with
     | inl q => handle_packet 1000 no_manifest no_rpc sends (HandShake (mkEnv 1 q)) my_addr 0
                  (server None)
     | inr q => handle_packet 1000 no_manifest no_rpc sends (Request (mkEnv 1 q)) my_addr 0
                  (server (Some (Key_new [7%Z])))
     end), m).

Definition state_of (s : Kademlia) {A} (o : option (Result KademliaError A * Kademlia)) : Kademlia :=
  default s (snd <$> o).

Definition my_sig : list Z :=
  replicate 64 (Toy.checksum ([7%Z] ++ ownership token
    (challange (k_auth (server None)) [7%Z] (addr_ip my_addr)))).
Definition hello : DhtPacket := HandShake (mkEnv 1 (RequestHandshake (Key_new [7%Z]))).
Definition submit : DhtPacket := HandShake (mkEnv 2 (SubmitHandshake token my_sig)).
Definition run1 := handle_packet 1000 no_manifest server_rpc sends hello my_addr 0 (server None).
Definition server1 : Kademlia := state_of (server None) run1.

(** A run that succeeds, told from the shape of its result alone. *)
Definition succeeds (o : option (Result KademliaError unit * Kademlia)) : bool :=
  match o with Some (Ok _, _) => true | _ => false end.
Lemma succeeds_state s o : succeeds o = true → o = Some (Ok tt, state_of s o).
Proof. by destruct o as [[[[]|] ?]|]. Qed.

Lemma run1_ok : run1 = Some (Ok tt, server1).
Proof. apply succeeds_state. vm_compute. reflexivity. Qed.

Lemma handshake_authenticates_witness :
  ∃ client' server1 server2,
    authenticate 1000 server_rpc target client = Some (Ok tt, client') ∧
    heap (k_conns client') = alter Connection.set_outbound_authenticated 0%Z (heap (k_conns client)) ∧
    run1 = Some (Ok tt, server1) ∧
    handle_packet 1000 no_manifest server_rpc sends submit my_addr 0 server1 =
      Some (Ok tt, server2) ∧
    inbound server2 0 = Some (Key_new [7%Z]).
Proof.
  refine (@handshake_authenticates Toy.ToyCrypto toy_auth 1000 no_manifest server_rpc sends
    client (server None) target my_addr 0 token 1 2 0 (k_conns client) (k_conns client) my_sig
    (Toy.toy_signer_laws [7%Z]) _ _ _ _ _ _ _ _ _ _ _ _).
  1-6: vm_compute; reflexivity.
  - intros n. reflexivity.
  - reflexivity.
  - eexists. vm_compute. reflexivity.
  - vm_compute. reflexivity.
  - intros r s1 _. change (reply_of run1 = Some r → server_rpc 0 (k_conns client) target
      (inl (RequestHandshake (Key_new [7%Z]))) = (Ok r, k_conns client)).
    rewrite run1_ok. intros Hr. unfold server_rpc. f_equal.
    transitivity (ok_or (A := DhtResponse) Timeout (reply_of (Some (Ok tt, server1))));
      [vm_compute; reflexivity|]. by rewrite Hr.
  - intros r s1 Hs1. change (run1 = Some (Ok tt, s1)) in Hs1. rewrite run1_ok in Hs1.
    injection Hs1 as <-. intros Hr. unfold server_rpc. f_equal.
    transitivity (ok_or (A := DhtResponse) Timeout (reply_of
      (handle_packet 1000 no_manifest server_rpc sends submit my_addr 0 server1)));
      [vm_compute; reflexivity|]. unfold submit. by rewrite Hr.
Defined.

(** An authenticated ping, and the client that sends it. *)
Definition pinged := handle_packet 1000 no_manifest no_rpc sends (Request (mkEnv 5 ReqPing)) my_addr 0
  (server (Some (Key_new [7%Z]))).
Definition after_ping : Kademlia := state_of (server None) pinged.
Definition asked := auth_request 1000 server_rpc target ReqPing client.

Lemma replies_typed_witness :
  (∃ sender resp, k_out after_ping = [(sender, Response (mkEnv 5 resp))] ∧
     node_addr sender = my_addr ∧ reply_fits server_key (Request (mkEnv 5 ReqPing)) resp = true) ∧
  (asked = Some (Ok (Pong server_key), state_of client asked) →
   reply_fits (node_id target) (Request (mkEnv 1 ReqPing)) (Pong server_key) = true →
   ping 1000 server_rpc target client = Some (Ok tt, state_of client asked)).
Proof.
  split.
  - destruct (@replies_typed Toy.ToyCrypto toy_auth 1000 no_manifest no_rpc sends
      (Request (mkEnv 5 ReqPing)) my_addr 0 (server (Some (Key_new [7%Z]))) (Ok tt) after_ping
      target (Pong server_key) client client 1 server_key) as (Hr & _ & _);
      [apply succeeds_state; vm_compute; reflexivity|exact Hr].
  - destruct (@replies_typed Toy.ToyCrypto toy_auth 1000 no_manifest server_rpc sends hello my_addr 0
      (server None) (Ok tt) server1 target (Pong server_key) client (state_of client asked) 1
      server_key) as (_ & Hr & _); [exact run1_ok|exact Hr].
Defined.

Lemma admission_safe_witness :
  handle_packet 1000 no_manifest no_rpc sends (Request (mkEnv 5 ReqPing)) my_addr 0 (server None) =
    Some (Err (KAuthError InvalidToken), server None).
Proof.
  exact (proj1 (@admission_safe Toy.ToyCrypto toy_auth 1000 no_manifest no_rpc sends hello my_addr 0
    (server None) server_key (Ok tt) (server None) eq_refl) (mkEnv 5 ReqPing)).
Defined.

(** The intruder's key is [[8]]; the certificate is taken from [token]. *)
Definition forged (sig : list Z) : Token :=
  mkToken swarm [8%Z] (replicate 32 0%Z) 1000 1000 [8%Z] [1%Z] [3%Z] Unattested (Some sig).
Definition forged_sig : list Z :=
  replicate 64 (Toy.checksum ([8%Z] ++ Token.calculate_hash (forged []) [8%Z])).
Definition forged_proof : list Z :=
  replicate 64 (Toy.checksum ([8%Z] ++ ownership (forged forged_sig)
    (challange (k_auth (server None)) [8%Z] (addr_ip my_addr)))).

Lemma self_issued_token_admitted_witness :
  Token.token_wf (forged forged_sig) ∧
  ∃ s', handle_packet 1000 no_manifest no_rpc sends
          (HandShake (mkEnv 3 (SubmitHandshake (forged forged_sig) forged_proof))) my_addr 0
          (server None) = Some (Ok tt, s') ∧ inbound s' 0 = Some (Key_new [8%Z]).
Proof.
  refine (@self_issued_token_admitted Toy.ToyCrypto toy_auth 1000 no_manifest no_rpc sends
    (Toy.signer [8%Z]) (Toy.toy_signer_laws [8%Z]) token 3 my_addr 0 (server None)
    (replicate 32 0%Z) forged_sig forged_proof _ _ _ _ _ _ _ _ _ _ _).
  - apply (bool_decide_unpack _). vm_compute. exact I.
  - reflexivity.
  - apply (bool_decide_unpack _). vm_compute. exact I.
  - vm_compute. reflexivity.
  - lia.
  - reflexivity.
  - eexists. vm_compute. reflexivity.
  - apply (bool_decide_unpack _). vm_compute. exact I.
  - apply (bool_decide_unpack _). vm_compute. exact I.
  - vm_compute. reflexivity.
  - vm_compute. reflexivity.
Defined.
End KadExamples.
