(* ===== verification/Lookup.v ===== *)
(** Termination and correctness of the lookups of [Kademlia]: [node_lookup] and
    [find_value] of [dht/kademlia/client.rs]. *)

From S2P Require Import Prelude Net Crypto Wire Metainfo Routing Store Auth Conn Rpc Kademlia.

Local Notation "'kdo' x <- m ; k" := (kbind m (fun x => k))
  (at level 200, x pattern, m at level 100, k at level 200, right associativity).
Local Notation "'kdo_' m ; k" := (kbind m (fun _ => k)) (at level 200, right associativity).

(** * Totality of requests *)

Section total.
Context `{Crypto} `{AuthCrypto}.
Implicit Types (s : Kademlia).

(** A computation that always returns and leaves the routing table alone. *)
Definition ktotal {A} (m : K A) : Prop :=
  ∀ s, ∃ r s', m s = Some (r, s') ∧ k_table s' = k_table s.

Lemma ktotal_ret {A} (a : A) : ktotal (kret a).
Proof. intros s. by eexists _, s. Qed.
Lemma ktotal_fail {A} e : ktotal (kfail (A := A) e).
Proof. intros s. by eexists _, s. Qed.
Lemma ktotal_get : ktotal kget.
Proof. intros s. by eexists _, s. Qed.
Lemma ktotal_lift {A} (x : Result KademliaError A) : ktotal (klift x).
Proof. intros s. by eexists _, s. Qed.
Lemma ktotal_mod f : (∀ s, k_table (f s) = k_table s) → ktotal (kmod f).
Proof. intros Hf s. eexists _, (f s). by rewrite Hf. Qed.
Lemma ktotal_bind {A B} (m : K A) (f : A → K B) :
  ktotal m → (∀ a, ktotal (f a)) → ktotal (kbind m f).
Proof.
  intros Hm Hf s. destruct (Hm s) as ([a|e] & s1 & E & Ht).
  - destruct (Hf a s1) as (r & s2 & E2 & Ht2). exists r, s2.
    rewrite (kbind_Ok _ _ _ _ _ E), E2. by rewrite Ht2, Ht.
  - exists (Err e), s1. by rewrite (kbind_Err _ _ _ _ _ E).
Qed.
Lemma ktotal_try {A} (m : K A) : ktotal m → ktotal (ktry m).
Proof.
  intros Hm s. destruct (Hm s) as (r & s1 & E & Ht). exists (Ok r), s1. unfold ktry. by rewrite E.
Qed.

(** The sequencing of computations is associative. *)
Lemma kbind_assoc {A B C} (m : K A) (f : A → K B) (g : B → K C) s :
  kbind (kbind m f) g s = kbind m (λ a, kbind (f a) g) s.
Proof. unfold kbind. by destruct (m s) as [[[a|] ?]|]. Qed.

Lemma kbind_ext {A B} (m : K A) (f g : A → K B) s :
  (∀ a s', f a s' = g a s') → kbind m f s = kbind m g s.
Proof. intros Hfg. unfold kbind. by destruct (m s) as [[[a|] ?]|]. Qed.

Context (now : Z).
Context (rpc : nat → ConnectionManager → Node → DhtRequest + AuthDhtRequest →
               Result RpcError DhtResponse * ConnectionManager).

Lemma ktotal_rpc_call t b : ktotal (rpc_call rpc t b).
Proof.
  unfold rpc_call. apply ktotal_bind; [|intros; apply ktotal_lift].
  intros s. unfold exchange. destruct (rpc _ _ _ _) as [r m]. by eexists _, _.
Qed.

Ltac ktotal :=
  repeat first
    [ progress cbv zeta
    | match goal with |- ∀ _, ktotal _ => intros ? end
    | apply ktotal_rpc_call
    | apply ktotal_bind; [|intros ?]
    | apply ktotal_try
    | solve [apply ktotal_ret|apply ktotal_fail|apply ktotal_get|apply ktotal_lift
            |apply ktotal_mod; done]
    | case_match ].

Lemma ktotal_authenticate t : ktotal (authenticate now rpc t).
Proof. unfold authenticate, host_id, on_connection. ktotal. Qed.

Lemma ktotal_auth_request t q : ktotal (auth_request now rpc t q).
Proof.
  unfold auth_request. apply ktotal_bind; [apply ktotal_get|intros s]. cbv zeta.
  apply ktotal_bind; [|ktotal]. match goal with |- ktotal (if ?b then _ else _) => destruct b end.
  - apply ktotal_bind; [apply ktotal_try, ktotal_authenticate|ktotal].
  - ktotal.
Qed.

Lemma ktotal_ping t : ktotal (ping now rpc t).
Proof. unfold ping. apply ktotal_bind; [apply ktotal_auth_request|ktotal]. Qed.

Lemma ktotal_find_node t key : ktotal (find_node now rpc t key).
Proof. unfold find_node. apply ktotal_bind; [apply ktotal_auth_request|ktotal]. Qed.

(** The node's insertion loop is the one of [Routing], its pings answered by
    some function. *)
Lemma acknowledge_loop_ref fuel n s :
  ∃ answers, match Routing.acknowledge fuel answers (k_table s) n with
    | Some t => ∃ s', acknowledge_loop now rpc fuel n s = Some (Ok tt, s') ∧ k_table s' = t
    | None => acknowledge_loop now rpc fuel n s = None
    end.
Proof.
  revert s. induction fuel as [|fuel IH]; intros s; [by exists (λ _ _, true)|].
  cbn [acknowledge_loop Routing.acknowledge]. rewrite (kbind_Ok _ _ s s s) by done.
  destruct (RouteTable.try_insert (k_table s) n) as [t i].
  rewrite (kbind_Ok _ _ s tt (set_table (λ _, t) s)) by done.
  set (s1 := set_table (λ _, t) s). destruct i as [| | |old new].
  - exists (λ _ _, true). by exists s1.
  - exists (λ _ _, true). by exists s1.
  - destruct (IH s1) as [p Hp]. exists (λ i, p (pred i)). exact Hp.
  - destruct (ktotal_ping old s1) as (r & s2 & Hr & Ht).
    rewrite (kbind_Ok _ _ s1 r s2) by (unfold ktry; by rewrite Hr). destruct r as [u|e].
    + exists (λ _ _, true). by exists s2.
    + rewrite (kbind_Ok _ _ s2 tt (set_table (λ t, RouteTable.replace t new) s2)) by done.
      destruct (IH (set_table (λ t, RouteTable.replace t new) s2)) as [p Hp].
      exists (λ i, match i with O => λ _, false | S i => p i end).
      cbn [k_table set_table] in Hp. rewrite Ht in Hp. exact Hp.
Qed.

Lemma acknowledge_total n s :
  table_ok (k_table s) →
  ∃ s', Kademlia.acknowledge now rpc n s = Some (Ok tt, s') ∧ table_ok (k_table s').
Proof.
  intros Hok. destruct (acknowledge_loop_ref 3 n s) as [p Hp].
  destruct (acknowledge_ends p (k_table s) n Hok) as (t & E & Ht & _). rewrite E in Hp.
  destruct Hp as (s' & Hs & <-). by exists s'.
Qed.
End total.

(** * The nodes a lookup knows *)

Section lookup.
Context `{Crypto} `{AuthCrypto}.
Context (now : Z).
Context (rpc : nat → ConnectionManager → Node → DhtRequest + AuthDhtRequest →
               Result RpcError DhtResponse * ConnectionManager).
Context (pick : nat → nat).
Implicit Types (s : Kademlia) (lk : Lookup) (n m : Node).

Notation ids l := (map node_id l).
Definition near (key : Key) (a b : Node) : Prop := closer key a b = true.

Lemma sort_closer_sorted key l : StronglySorted (near key) (sort_by (closer key) l).
Proof.
  apply sort_by_StronglySorted; intros; [apply lex_leb_total|by eapply lex_leb_trans].
Qed.

Lemma dedup_from_NoDup last l :
  NoDup (ids (last :: l)) → dedup_from last l = l.
Proof.
  revert last. induction l as [|x l IH]; intros last Hnd; [done|]. cbn [dedup_from].
  apply NoDup_cons in Hnd as [Hl Hnd]. rewrite bool_decide_false, IH; [done|done|].
  intros Heq. apply Hl. rewrite <-Heq. constructor.
Qed.

Lemma dedup_by_id_NoDup l : NoDup (ids l) → dedup_by_id l = l.
Proof. destruct l; [done|]. intros. cbn. by rewrite dedup_from_NoDup. Qed.

Lemma NoDup_ids_inj l n m :
  NoDup (ids l) → n ∈ l → m ∈ l → node_id n = node_id m → n = m.
Proof.
  induction l as [|x l IH]; cbn; intros Hnd Hn Hm Heq; [set_solver|].
  apply NoDup_cons in Hnd as [Hx Hnd].
  assert (∀ y, y ∈ l → node_id y ≠ node_id x) as Hne.
  { intros y Hy E. apply Hx. rewrite <-E. by apply list_elem_of_fmap_2. }
  apply elem_of_cons in Hn as [->|Hn], Hm as [->|Hm]; auto; exfalso; by eapply Hne.
Qed.

(** ** The answers *)

Context (key host : Key).

(** The requests a lookup made, in the order they ended, each with what came of it. *)
Definition Log : Type := list (Node * Result KademliaError (list Node)).

(** The loop of [node_lookup] once more, noting each request and its outcome. *)
Fixpoint lookup_logged (fuel : nat) (lk : Lookup) (log : Log) : K (list Node * Log) :=
  let lk := refill key lk in
  match lk_flight lk with
  | [] => kret (lk_candidates lk, log)
  | _ =>
    match fuel with
    | O => kopt None
    | S fuel =>
      kdo s <- kget;
      kdo (target, flight) <- kopt (next_answer pick (k_clock s) (lk_flight lk));
      kdo result <- ktry (find_node now rpc target key);
      let log := log ++ [(target, result)] in
      kdo candidates <-
        match result with
        | Err _ =>
          kdo_ kmod (set_table (λ t, RouteTable.table_remove t target));
          kret (List.filter (λ n, negb (bool_decide (node_id n = node_id target)))
                  (lk_candidates lk))
        | Ok nodes => kdo_ Kademlia.acknowledge now rpc target; kret (add_answer host lk nodes)
        end;
      let lk := mkLookup (sort_by (closer key) candidates) (lk_visited lk) flight in
      if finished lk then kret (lk_candidates lk, log) else lookup_logged fuel lk log
    end
  end.

(** The notes change nothing. *)
Lemma lookup_logged_fst fuel lk log s :
  lookup_loop now rpc pick fuel host key lk s =
    (kdo (candidates, _) <- lookup_logged fuel lk log; kret candidates) s.
Proof.
  revert lk log s. induction fuel as [|fuel IH]; intros lk log s; cbn [lookup_loop lookup_logged];
    cbv zeta; (destruct (lk_flight (refill key lk)); [done|]); [done|].
  rewrite kbind_assoc. apply kbind_ext. intros ? ?.
  rewrite kbind_assoc. apply kbind_ext. intros [target flight] ?.
  do 2 (rewrite kbind_assoc; apply kbind_ext; intros ? ?).
  by destruct (finished _).
Qed.

(** A request to the node failed, in this lookup. *)
Definition refused (log : Log) (id : Key) : Prop :=
  ∃ n e, node_id n = id ∧ (n, Err e) ∈ log.

(** The nodes the lookup has heard of: those it started from, and those of the answers. *)
Definition named (start : list Node) (log : Log) (m : Node) : Prop :=
  m ∈ start ∨ ∃ n nodes, (n, Ok nodes) ∈ log ∧ m ∈ nodes.

(** Every node of [nodes] is the host, known, or known not to answer. *)
Definition covered (log : Log) (cs nodes : list Node) : Prop :=
  ∀ m, m ∈ nodes → node_id m = host ∨ refused log (node_id m) ∨ node_id m ∈ ids cs.

Context (U : gset Key) (start : list Node).

Record lk_inv (log : Log) lk : Prop := {
  li_nodup : NoDup (ids (lk_candidates lk));
  li_cands n : n ∈ lk_candidates lk → node_id n ∈ U;
  li_visited : lk_visited lk ⊆ U;
  li_flight_nodup : NoDup (ids (lk_flight lk));
  li_flight n : n ∈ lk_flight lk → n ∈ lk_candidates lk ∧ node_id n ∈ lk_visited lk;
  li_done n : n ∈ lk_candidates lk → node_id n ∈ lk_visited lk →
    n ∈ lk_flight lk ∨ ∃ nodes, (n, Ok nodes) ∈ log;
  li_seen id : id ∈ lk_visited lk → id ∈ ids (lk_candidates lk) ∨ refused log id;
  li_start : covered log (lk_candidates lk) start;
  li_named n nodes : (n, Ok nodes) ∈ log → covered log (lk_candidates lk) nodes;
  li_once : NoDup (map (node_id ∘ fst) log);
  li_logged id : id ∈ map (node_id ∘ fst) log → id ∈ lk_visited lk ∧ id ∉ ids (lk_flight lk);
}.

Lemma refused_snoc log p id : refused log id → refused (log ++ [p]) id.
Proof. intros (n & e & ? & ?). exists n, e. split; [done|]. apply elem_of_app. auto. Qed.

(** What is known stays known while the log and the candidates grow, failures aside. *)
Lemma covered_mono log p cs cs' nodes :
  (∀ k, k ∈ ids cs → refused (log ++ [p]) k ∨ k ∈ ids cs') →
  covered log cs nodes → covered (log ++ [p]) cs' nodes.
Proof.
  intros Hk Hc m Hm. destruct (Hc m Hm) as [?|[?%(refused_snoc _ p)|?%Hk]]; tauto.
Qed.

Lemma covered_ids log cs cs' nodes :
  (∀ k, k ∈ ids cs → k ∈ ids cs') → covered log cs nodes → covered log cs' nodes.
Proof. intros Hk Hc m Hm. destruct (Hc m Hm) as [?|[?|?%Hk]]; tauto. Qed.

(** What is left to do. *)
Definition measure lk : nat := size (U ∖ lk_visited lk) + length (lk_flight lk).

Definition unvisited lk : list Node :=
  List.filter (λ n, negb (bool_decide (node_id n ∈ lk_visited lk)))
    (sort_by (closer key) (lk_candidates lk)).
Definition batch lk : list Node := take (ALPHA - length (lk_flight lk)) (unvisited lk).

Lemma ids_sort_NoDup log lk : lk_inv log lk → NoDup (ids (sort_by (closer key) (lk_candidates lk))).
Proof. intros Hi. rewrite sort_by_Permutation. apply Hi. Qed.

Lemma refill_eq log lk :
  lk_inv log lk →
  refill key lk = mkLookup (sort_by (closer key) (lk_candidates lk))
    (list_to_set (ids (batch lk)) ∪ lk_visited lk) (lk_flight lk ++ batch lk).
Proof.
  intros Hi. unfold refill. by rewrite dedup_by_id_NoDup by by eapply ids_sort_NoDup.
Qed.

Lemma batch_sublist lk : batch lk `sublist_of` sort_by (closer key) (lk_candidates lk).
Proof.
  etransitivity; [apply sublist_take|]. unfold unvisited.
  induction (sort_by _ _) as [|x l IH]; cbn; [constructor|]. by destruct (negb _); constructor.
Qed.

Lemma elem_of_batch lk n :
  n ∈ batch lk → n ∈ lk_candidates lk ∧ node_id n ∉ lk_visited lk.
Proof.
  intros (i & Hi%list_elem_of_lookup_2 & _)%elem_of_take.
  apply elem_of_filterb in Hi as [Hn Hv]. rewrite sort_by_Permutation in Hn. b2p. done.
Qed.

Lemma batch_NoDup log lk : lk_inv log lk → NoDup (ids (batch lk)).
Proof.
  intros Hi. eapply sublist_NoDup; [by eapply ids_sort_NoDup|].
  apply (fmap_sublist node_id), batch_sublist.
Qed.

Lemma refill_inv log lk : lk_inv log lk → lk_inv log (refill key lk).
Proof.
  intros Hi. pose proof (batch_NoDup log lk Hi) as Hb. rewrite (refill_eq log) by done.
  destruct Hi as [H1 H2 H3 H4 H5 H6 H7 H8 H9 H10 H11].
  assert (∀ n, n ∈ sort_by (closer key) (lk_candidates lk) ↔ n ∈ lk_candidates lk) as Hs
    by (intros; by rewrite sort_by_Permutation).
  assert (∀ k, k ∈ ids (sort_by (closer key) (lk_candidates lk)) ↔ k ∈ ids (lk_candidates lk)) as Hs'
    by (intros; by rewrite sort_by_Permutation).
  split; cbn [lk_candidates lk_visited lk_flight].
  - by rewrite sort_by_Permutation.
  - intros n Hn. apply H2. by apply Hs.
  - apply union_subseteq. split; [|done]. intros k. rewrite elem_of_list_to_set.
    intros (n & -> & [Hn _]%elem_of_batch)%list_elem_of_fmap. auto.
  - rewrite map_app. apply NoDup_app. split_and!; [done| |done].
    intros k (n & -> & [_ Hn]%H5)%list_elem_of_fmap (m & Hm & [_ Hv]%elem_of_batch)%list_elem_of_fmap.
    congruence.
  - intros n [Hn|Hn]%elem_of_app.
    + destruct (H5 n Hn). rewrite Hs. set_solver.
    + destruct (elem_of_batch lk n Hn). rewrite Hs. split; [done|].
      apply elem_of_union_l, elem_of_list_to_set. by apply list_elem_of_fmap_2.
  - intros n Hn. rewrite elem_of_union, elem_of_list_to_set, elem_of_app. apply Hs in Hn as Hc.
    intros [(m & Hm & Hin)%list_elem_of_fmap|Hv].
    + left. right. replace n with m; [done|]. apply (NoDup_ids_inj (lk_candidates lk)); auto.
      by apply elem_of_batch.
    + destruct (H6 n Hc Hv) as [?|?]; auto.
  - intros k. rewrite elem_of_union, elem_of_list_to_set. intros [(n & -> & Hn)%list_elem_of_fmap|Hv].
    + left. apply Hs'. apply list_elem_of_fmap_2. by apply elem_of_batch.
    + destruct (H7 k Hv); [|auto]. left. by apply Hs'.
  - eapply covered_ids; [|done]. intros k. by rewrite Hs'.
  - intros n nodes Hn. eapply covered_ids; [|by eapply H9]. intros k. by rewrite Hs'.
  - done.
  - intros k Hk. destruct (H11 k Hk) as [Hv Hf]. split; [set_solver|].
    rewrite map_app, elem_of_app. intros [?|(n & -> & [_ Hn]%elem_of_batch)%list_elem_of_fmap]; done.
Qed.

Lemma refill_measure log lk : lk_inv log lk → measure (refill key lk) ≤ measure lk.
Proof.
  intros Hi. rewrite (refill_eq log) by done. unfold measure. cbn [lk_visited lk_flight].
  rewrite length_app.
  assert (size (list_to_set (C := gset Key) (ids (batch lk))) = length (batch lk)) as Hsz.
  { rewrite size_list_to_set by by eapply batch_NoDup. by rewrite length_map. }
  assert (list_to_set (C := gset Key) (ids (batch lk)) ⊆ U ∖ lk_visited lk) as Hsub.
  { intros k. rewrite elem_of_list_to_set. intros (n & -> & Hn)%list_elem_of_fmap.
    destruct (elem_of_batch lk n Hn). apply elem_of_difference. split; [by apply Hi|done]. }
  replace (U ∖ (list_to_set (ids (batch lk)) ∪ lk_visited lk)) with
    ((U ∖ lk_visited lk) ∖ list_to_set (ids (batch lk))) by set_solver.
  rewrite size_difference by done. apply subseteq_size in Hsub. lia.
Qed.

(** With nothing left to do, nothing is in flight. *)
Lemma refill_done log lk : lk_inv log lk → lk_flight (refill key lk) = [] → unvisited lk = [].
Proof.
  intros Hi. rewrite (refill_eq log) by done. cbn [lk_flight].
  intros [Hf Hb]%app_eq_nil. unfold batch in Hb. rewrite Hf in Hb. cbn in Hb.
  by destruct (unvisited lk).
Qed.

(** ** One answer *)

Lemma add_answer_spec V cs nodes :
  NoDup (ids cs) →
  let cs' := add_answer host (mkLookup cs V []) nodes in
  NoDup (ids cs') ∧ (∀ n, n ∈ cs → n ∈ cs') ∧
  (∀ n, n ∈ cs' → n ∈ cs ∨ (n ∈ nodes ∧ node_id n ∉ V)) ∧
  (∀ m, m ∈ nodes → node_id m = host ∨ node_id m ∈ V ∨ node_id m ∈ ids cs').
Proof.
  cbv zeta. unfold add_answer. cbn [lk_candidates lk_visited].
  revert cs. induction nodes as [|x nodes IH]; intros cs Hnd; cbn [foldl]; [set_solver|].
  match goal with |- context [if ?b then _ else _] => destruct b eqn:Hb end.
  - b2p. assert (node_id x ∉ ids cs) as Hx.
    { intros (c & Hc & Hin)%list_elem_of_fmap.
      assert (existsb (λ c, bool_decide (node_id c = node_id x)) cs = true); [|congruence].
      apply existsb_exists. exists c. split; [by apply list_elem_of_In|by apply bool_decide_eq_true]. }
    destruct (IH (cs ++ [x])) as (I1 & I2 & I3 & I4).
    { rewrite map_app. apply NoDup_app. split_and!; [done| |apply NoDup_singleton].
      intros k Hk ->%list_elem_of_singleton. done. }
    split_and!; [done|intros; apply I2; set_solver| |].
    + intros n [Hn|[Hn Hv]]%I3; [|set_solver]. set_solver.
    + intros m [->|Hm]%elem_of_cons; [|auto]. right. right.
      apply list_elem_of_fmap_2, I2. set_solver.
  - destruct (IH cs Hnd) as (I1 & I2 & I3 & I4). split_and!; [done|done| |].
    + intros n [?|[? ?]]%I3; set_solver.
    + intros m [->|Hm]%elem_of_cons; [|auto].
      apply andb_false_iff in Hb as [[Hb|Hb]%andb_false_iff|Hb]; b2p; [auto..|].
      apply existsb_exists in Hb as (c & Hc%list_elem_of_In & Hid). b2p. right. right.
      rewrite <-Hid. apply list_elem_of_fmap_2. auto.
Qed.

(** The log with the outcome of a request that was in flight. *)
Lemma logged_snoc log lk target flight r :
  lk_inv log lk → lk_flight lk ≡ₚ target :: flight →
  NoDup (map (node_id ∘ fst) (log ++ [(target, r)])) ∧
  ∀ id, id ∈ map (node_id ∘ fst) (log ++ [(target, r)]) → id ∈ lk_visited lk ∧ id ∉ ids flight.
Proof.
  intros [_ _ _ H4 H5 _ _ _ _ H10 H11] Hp.
  assert (∀ k, k ∈ ids (lk_flight lk) ↔ k = node_id target ∨ k ∈ ids flight) as Hfl.
  { intros k. rewrite Hp. apply elem_of_cons. }
  rewrite Hp in H4. cbn in H4. apply NoDup_cons in H4 as [Ht H4]. rewrite map_app. split.
  - apply NoDup_app. split_and!; [done| |apply NoDup_singleton].
    intros k [_ Hk]%H11 ->%list_elem_of_singleton. apply Hk, Hfl. by left.
  - intros k [[Hv Hk]%H11| ->%list_elem_of_singleton]%elem_of_app.
    + split; [done|]. contradict Hk. apply Hfl. by right.
    + split; [|done]. cbn. apply H5. rewrite Hp. by left.
Qed.

(** A node that failed is dropped. *)
Lemma inv_failed log lk target flight e :
  lk_inv log lk → lk_flight lk ≡ₚ target :: flight →
  lk_inv (log ++ [(target, Err e)])
    (mkLookup (List.filter (λ n, negb (bool_decide (node_id n = node_id target)))
                 (lk_candidates lk)) (lk_visited lk) flight).
Proof.
  intros Hi Hp. destruct (logged_snoc log lk target flight (Err e) Hi Hp) as [Hl1 Hl2].
  destruct Hi as [H1 H2 H3 H4 H5 H6 H7 H8 H9 _ _].
  assert (refused (log ++ [(target, Err e)]) (node_id target)) as Href.
  { exists target, e. split; [done|]. apply elem_of_app. right. by apply list_elem_of_singleton. }
  assert (∀ n, n ∈ List.filter (λ n, negb (bool_decide (node_id n = node_id target)))
    (lk_candidates lk) ↔ n ∈ lk_candidates lk ∧ node_id n ≠ node_id target) as Hf.
  { intros n. rewrite elem_of_filterb, negb_true_iff, bool_decide_eq_false. done. }
  assert (∀ k, k ∈ ids (lk_candidates lk) → refused (log ++ [(target, Err e)]) k ∨ k ∈ ids (List.filter
    (λ n, negb (bool_decide (node_id n = node_id target))) (lk_candidates lk))) as Hids.
  { intros k (c & -> & Hc)%list_elem_of_fmap. destruct (decide (node_id c = node_id target)) as [->|];
      [auto|]. right. apply list_elem_of_fmap_2, Hf. auto. }
  rewrite Hp in H4. cbn in H4. apply NoDup_cons in H4 as [Ht H4].
  assert (∀ n, n ∈ flight → node_id n ≠ node_id target) as Hne.
  { intros n Hn E. apply Ht. rewrite <-E. by apply list_elem_of_fmap_2. }
  split; cbn [lk_candidates lk_visited lk_flight]; auto.
  - eapply sublist_NoDup; [exact H1|apply map_filterb_sublist].
  - intros n [Hn _]%Hf. auto.
  - intros n Hn. rewrite Hf. destruct (H5 n) as [? ?]; [rewrite Hp; set_solver|]. auto.
  - intros n [Hn Hnt]%Hf Hv. destruct (H6 n Hn Hv) as [Hin|(nodes & Ha)].
    + rewrite Hp in Hin. left. set_solver.
    + right. exists nodes. apply elem_of_app. by left.
  - intros k [Hk%Hids|Hk%(refused_snoc _ (target, Err e))]%H7; tauto.
  - by eapply covered_mono.
  - intros n nodes [Hn|Hn%list_elem_of_singleton]%elem_of_app; [|done].
    eapply covered_mono; [done|by eapply H9].
Qed.

Lemma next_answer_Some clock flight :
  flight ≠ [] → ∃ target rest, next_answer pick clock flight = Some (target, rest) ∧
    flight ≡ₚ target :: rest.
Proof.
  intros Hne. unfold next_answer.
  assert (pick clock mod length flight < length flight) as Hlt
    by (apply Nat.mod_upper_bound; by destruct flight).
  destruct (lookup_lt_is_Some_2 _ _ Hlt) as [t Ht]. rewrite Ht. cbn. eexists _, _.
  split; [done|]. symmetry. by apply remove_at_Permutation.
Qed.

(** ** Looking for a value *)

(** Candidates may repeat here; the measure counts a node three times. *)
Record fv_inv lk : Prop := {
  fi_cands n : n ∈ lk_candidates lk → node_id n ∈ U;
  fi_visited : lk_visited lk ⊆ U;
}.
Definition fv_measure lk : nat := 3 * size (U ∖ lk_visited lk) + length (lk_flight lk).

Lemma dedup_from_elem last l n : n ∈ dedup_from last l → n ∈ l.
Proof. revert last. induction l as [|x l IH]; cbn; intros last; [done|]. case_bool_decide; set_solver. Qed.

Lemma dedup_by_id_elem l n : n ∈ dedup_by_id l → n ∈ l.
Proof. destruct l; [done|]. cbn. intros [->|Hn%dedup_from_elem]%elem_of_cons; set_solver. Qed.

Lemma fv_refill lk :
  fv_inv lk → fv_inv (refill key lk) ∧ fv_measure (refill key lk) ≤ fv_measure lk.
Proof.
  intros [H1 H2]. unfold refill, fv_measure.
  set (b := take _ _). cbn [lk_candidates lk_visited lk_flight].
  assert (∀ n, n ∈ dedup_by_id (sort_by (closer key) (lk_candidates lk)) → node_id n ∈ U) as Hc.
  { intros n Hn%dedup_by_id_elem. rewrite sort_by_Permutation in Hn. auto. }
  assert (∀ n, n ∈ b → node_id n ∈ U ∖ lk_visited lk) as Hb.
  { intros n (i & Hn%list_elem_of_lookup_2 & _)%elem_of_take.
    apply elem_of_filterb in Hn as [Hn Hv]. b2p. set_solver. }
  assert (length b ≤ 3) as Hl by (unfold b, ALPHA; rewrite length_take; lia).
  split; [split; [done|]|].
  - cbn [lk_visited]. intros k. rewrite elem_of_union, elem_of_list_to_set.
    intros [(n & -> & Hn%Hb)%list_elem_of_fmap|]; set_solver.
  - rewrite length_app. destruct b as [|n b']; [cbn [ids map list_to_set length];
      rewrite (left_id_L ∅ (∪)); lia|].
    assert (U ∖ (list_to_set (ids (n :: b')) ∪ lk_visited lk) ⊂ U ∖ lk_visited lk) as Hs%subset_size.
    { split; [set_solver|]. intros Hsub. specialize (Hsub (node_id n)).
      assert (node_id n ∈ U ∖ lk_visited lk) as Hn by (apply Hb; constructor).
      apply Hsub in Hn. set_solver. }
    cbn [length] in *. lia.
Qed.

Section value.
Context (value_ids : ∀ n s k peers s', auth_request now rpc n (FindValue key) s =
  Some (Ok (RespPeers k peers), s') → ∀ p, p ∈ peers → pr_id p ∈ U).

Lemma find_value_loop_correct fuel lk s :
  fv_inv lk → fv_measure lk ≤ fuel →
  ∃ r s', find_value_loop now rpc pick fuel host key lk s = Some (Ok r, s') ∧
    (∀ v, r = Some v → ∃ n s1 s2,
       auth_request now rpc n (FindValue key) s1 = Some (Ok (RespValue (node_id n) v), s2)).
Proof.
  revert lk s. induction fuel as [|fuel IH]; intros lk s Hi Hm;
    destruct (fv_refill lk Hi) as [Hr Hm']; cbn [find_value_loop]; cbv zeta;
    set (r := refill key lk) in *; destruct (lk_flight r) as [|f0 fl] eqn:Hf;
    try (by exists None, s).
  { exfalso. unfold fv_measure in *. rewrite Hf in Hm'. cbn [length] in Hm'. lia. }
  rewrite (kbind_Ok _ _ s s s) by done. rewrite <-Hf.
  destruct (next_answer_Some (k_clock s) (lk_flight r)) as (target & flight & Hn & Hp);
    [by rewrite Hf|].
  rewrite (kbind_Ok _ _ s (target, flight) s) by (unfold kopt; by rewrite Hn).
  destruct (ktotal_auth_request now rpc target (FindValue key) s) as (res & s1 & Hreq & _).
  rewrite (kbind_Ok _ _ s res s1) by (unfold ktry; by rewrite Hreq).
  set (P := λ (m : K (option KademliaData)) s, ∃ r s', m s = Some (Ok r, s') ∧
    (∀ v, r = Some v → ∃ n s1 s2, auth_request now rpc n (FindValue key) s1 =
       Some (Ok (RespValue (node_id n) v), s2))).
  set (go := λ cs : list Node, let lk := mkLookup (sort_by (closer key) cs) (lk_visited r) flight in
    if finished lk then kret None else find_value_loop now rpc pick fuel host key lk).
  assert (∀ cs s2, (∀ n, n ∈ cs → node_id n ∈ U) → P (go cs) s2) as Hgo.
  { intros cs s2 Hcs. unfold P, go. cbv zeta. destruct (finished _); [by exists None, s2|].
    apply IH.
    - split; [|by apply Hr]. cbn. intros n. rewrite sort_by_Permutation. auto.
    - unfold fv_measure in *. cbn [lk_visited lk_flight].
      apply Permutation_length in Hp. cbn [length] in Hp. lia. }
  assert (P (kbind (kmod (set_table (λ t, RouteTable.table_remove t target))) (λ _,
    go (List.filter (λ n, negb (bool_decide (node_id n = node_id target))) (lk_candidates r)))) s1)
    as Hfail.
  { unfold P. rewrite (kbind_Ok _ _ s1 tt (set_table (λ t, RouteTable.table_remove t target) s1)) by done.
    apply Hgo. intros n [Hc _]%elem_of_filterb. by apply Hr. }
  destruct res as [[]|]; try exact Hfail.
  - case_bool_decide as Hk; [|exact Hfail]. exists (Some value), s1. split; [done|].
    intros v [= <-]. exists target, s, s1. by rewrite Hk.
  - case_bool_decide as Hk; [|exact Hfail]. apply Hgo. unfold add_peers.
    intros n [Hc|[(p & -> & Hpr)%list_elem_of_fmap _]%elem_of_filterb]%elem_of_app; [by apply Hr|].
    by eapply value_ids.
Qed.
End value.

(** ** Looking for nodes *)

(** What a node may answer. *)
Definition answers n (nodes : list Node) : Prop :=
  ∃ s s', find_node now rpc n key s = Some (Ok nodes, s').
Context (rpc_ids : ∀ n nodes, answers n nodes → ∀ m, m ∈ nodes → node_id m ∈ U).

(** A node that answered is kept, and the nodes it named are known. *)
Lemma inv_answered log lk target flight nodes :
  lk_inv log lk → lk_flight lk ≡ₚ target :: flight → answers target nodes →
  lk_inv (log ++ [(target, Ok nodes)])
    (mkLookup (add_answer host lk nodes) (lk_visited lk) flight).
Proof.
  intros Hi Hp Hans. destruct (logged_snoc log lk target flight (Ok nodes) Hi Hp) as [Hl1 Hl2].
  destruct Hi as [H1 H2 H3 H4 H5 H6 H7 H8 H9 _ _].
  pose proof (add_answer_spec (lk_visited lk) (lk_candidates lk) nodes H1) as (A1 & A2 & A3 & A4).
  change (add_answer host (mkLookup (lk_candidates lk) (lk_visited lk) []) nodes) with
    (add_answer host lk nodes) in *.
  assert (∀ k, k ∈ ids (lk_candidates lk) → k ∈ ids (add_answer host lk nodes)) as Hids.
  { intros k (c & -> & Hc)%list_elem_of_fmap. apply list_elem_of_fmap_2. auto. }
  rewrite Hp in H4. cbn in H4. apply NoDup_cons in H4 as [Ht H4].
  assert (∀ k, k ∈ lk_visited lk →
    k ∈ ids (add_answer host lk nodes) ∨ refused (log ++ [(target, Ok nodes)]) k) as Hseen.
  { intros k [?|?%(refused_snoc _ (target, Ok nodes))]%H7; auto. }
  split; cbn [lk_candidates lk_visited lk_flight]; auto.
  - intros n [Hn|[Hn _]]%A3; [auto|]. by eapply rpc_ids.
  - intros n Hn. destruct (H5 n) as [? ?]; [rewrite Hp; set_solver|]. auto.
  - intros n [Hn|[_ Hn]]%A3 Hv; [|done].
    destruct (H6 n Hn Hv) as [Hin|(ns & Ha)];
      [rewrite Hp in Hin; apply elem_of_cons in Hin as [->|Hin]|].
    + right. exists nodes. apply elem_of_app. right. by apply list_elem_of_singleton.
    + auto.
    + right. exists ns. apply elem_of_app. by left.
  - eapply covered_mono; [|done]. auto.
  - intros n ns [Hn|[= -> ->]%list_elem_of_singleton]%elem_of_app.
    + eapply covered_mono; [|by eapply H9]. auto.
    + intros m [?|[[?|?]%Hseen|?]]%A4; auto.
Qed.

Lemma inv_perm log lk cs :
  lk_inv log lk → cs ≡ₚ lk_candidates lk → lk_inv log (mkLookup cs (lk_visited lk) (lk_flight lk)).
Proof.
  intros [H1 H2 H3 H4 H5 H6 H7 H8 H9 H10 H11] Hp.
  assert (∀ k, k ∈ ids cs ↔ k ∈ ids (lk_candidates lk)) as Hs by (intros; by rewrite Hp).
  split; cbn [lk_candidates lk_visited lk_flight]; auto.
  - by rewrite Hp.
  - intros n. rewrite Hp. auto.
  - intros n. rewrite Hp. auto.
  - intros n. rewrite Hp. auto.
  - intros k. rewrite Hs. auto.
  - eapply covered_ids; [|done]. intros k. by rewrite Hs.
  - intros n nodes Hn. eapply covered_ids; [|by eapply H9]. intros k. by rewrite Hs.
Qed.

(** What the candidates are when the loop ends. *)
Record outcome_ok (log : Log) (cs : list Node) : Prop := {
  oc_sorted : StronglySorted (near key) cs;
  oc_nodup : NoDup (ids cs);
  oc_front n : n ∈ take KBUCKET_MAX cs → ∃ nodes, (n, Ok nodes) ∈ log;
  oc_named m : named start log m → node_id m = host ∨ refused log (node_id m) ∨ node_id m ∈ ids cs;
  oc_once : NoDup (map (node_id ∘ fst) log);
  oc_bound : length log ≤ size U;
}.

(** The part of it that does not need the loop to have ended. *)
Lemma inv_named log lk m :
  lk_inv log lk → named start log m →
  node_id m = host ∨ refused log (node_id m) ∨ node_id m ∈ ids (lk_candidates lk).
Proof.
  intros Hi [Hm|(n & nodes & Hn & Hm)]; [by apply (li_start _ _ Hi)|].
  by apply (li_named _ _ Hi n nodes).
Qed.

Lemma inv_bound log lk : lk_inv log lk → length log ≤ size U.
Proof.
  intros [_ _ H3 _ _ _ _ _ _ H10 H11]. rewrite <-(length_map (node_id ∘ fst) log).
  rewrite <-(size_list_to_set (C := gset Key)) by done. apply subseteq_size.
  intros k [Hk _]%elem_of_list_to_set%H11. auto.
Qed.

Lemma outcome_refilled log lk :
  lk_inv log lk → lk_flight (refill key lk) = [] → outcome_ok log (lk_candidates (refill key lk)).
Proof.
  intros Hi Hf. pose proof (refill_inv log lk Hi) as Hr. pose proof (refill_done log lk Hi Hf) as Hu.
  assert (∀ n, n ∈ lk_candidates (refill key lk) → node_id n ∈ lk_visited (refill key lk)) as Hv.
  { rewrite (refill_eq log) by done. cbn. intros n Hn. apply elem_of_union_r.
    destruct (decide (node_id n ∈ lk_visited lk)); [done|]. exfalso.
    assert (n ∈ unvisited lk); [|rewrite Hu in *; set_solver].
    apply elem_of_filterb. split; [done|]. by rewrite bool_decide_false. }
  split; [|by apply Hr| |intros; by eapply inv_named|by apply Hr|by eapply inv_bound].
  - rewrite (refill_eq log) by done. apply sort_closer_sorted.
  - intros n (i & Hn%list_elem_of_lookup_2 & _)%elem_of_take.
    destruct (li_done _ _ Hr n Hn (Hv n Hn)) as [Hin|?]; [|done].
    rewrite Hf in Hin. set_solver.
Qed.

Lemma outcome_finished log cs V F :
  lk_inv log (mkLookup (sort_by (closer key) cs) V F) →
  finished (mkLookup (sort_by (closer key) cs) V F) = true →
  outcome_ok log (sort_by (closer key) cs).
Proof.
  intros Hi Hf. unfold finished in Hf. apply andb_true_iff in Hf as [Hall Hf]. cbn in Hf.
  destruct F as [|? ?]; [|done].
  split; [apply sort_closer_sorted|by apply Hi| | |by apply Hi|by eapply inv_bound].
  - intros n Hn. rewrite forallb_forall in Hall. specialize (Hall n). cbn [lk_candidates lk_visited] in Hall.
    assert (node_id n ∈ V) as Hv by (apply (bool_decide_eq_true (node_id n ∈ V)), Hall; by apply list_elem_of_In).
    apply elem_of_take in Hn as (i & Hn%list_elem_of_lookup_2 & _).
    destruct (li_done _ _ Hi n Hn Hv) as [Hin|?]; [|done]. cbn in Hin. set_solver.
  - intros m Hm. by apply (inv_named _ _ m Hi).
Qed.

Lemma lookup_logged_correct fuel log lk s :
  lk_inv log lk → measure lk ≤ fuel → table_ok (k_table s) →
  ∃ cs log' s', lookup_logged fuel lk log s = Some (Ok (cs, log'), s') ∧
    table_ok (k_table s') ∧ outcome_ok log' cs.
Proof.
  revert log lk s. induction fuel as [|fuel IH]; intros log lk s Hi Hm Ht;
    pose proof (refill_measure log lk Hi) as Hm'; pose proof (refill_inv log lk Hi) as Hr;
    pose proof (outcome_refilled log lk Hi) as Ho;
    cbn [lookup_logged]; cbv zeta; set (r := refill key lk) in *;
    destruct (lk_flight r) as [|f0 fl] eqn:Hf; try (by eexists _, _, s; split_and!; auto).
  { exfalso. unfold measure in *. rewrite Hf in Hm'. cbn [length] in Hm'. lia. }
  rewrite (kbind_Ok _ _ s s s) by done. rewrite <-Hf.
  destruct (next_answer_Some (k_clock s) (lk_flight r)) as (target & flight & Hn & Hp);
    [by rewrite Hf|].
  rewrite (kbind_Ok _ _ s (target, flight) s) by (unfold kopt; by rewrite Hn).
  destruct (ktotal_find_node now rpc target key s) as (res & s1 & Hfind & Ht1).
  rewrite (kbind_Ok _ _ s res s1) by (unfold ktry; by rewrite Hfind).
  assert (∀ log cs s2, lk_inv log (mkLookup cs (lk_visited r) flight) → table_ok (k_table s2) →
    ∃ cs' log' s', (let lk := mkLookup (sort_by (closer key) cs) (lk_visited r) flight in
       if finished lk then kret (lk_candidates lk, log) else lookup_logged fuel lk log) s2
      = Some (Ok (cs', log'), s') ∧ table_ok (k_table s') ∧ outcome_ok log' cs') as Hnext.
  { intros log' cs s2 Hcs Ht2. cbv zeta.
    pose proof (inv_perm _ _ (sort_by (closer key) cs) Hcs (sort_by_Permutation _ cs)) as Hcs'.
    cbn [lk_visited lk_flight] in Hcs'. destruct (finished _) eqn:Hfin.
    - eexists _, _, s2. split; [done|]. split; [done|]. by eapply outcome_finished.
    - apply IH; [done| |done]. unfold measure in *. cbn [lk_visited lk_flight].
      apply Permutation_length in Hp. cbn [length] in Hp. lia. }
  destruct res as [nodes|e].
  - destruct (acknowledge_total now rpc target s1) as (s2 & Hack & Ht2); [by rewrite Ht1|].
    rewrite (kbind_Ok _ _ s1 (add_answer host r nodes) s2)
      by (rewrite (kbind_Ok _ _ _ _ _ Hack); done).
    apply Hnext; [|done]. eapply inv_answered; [done..|]. by exists s, s1.
  - rewrite (kbind_Ok _ _ s1 (List.filter (λ n, negb (bool_decide (node_id n = node_id target)))
      (lk_candidates r)) (set_table (λ t, RouteTable.table_remove t target) s1)) by done.
    apply Hnext; [|cbn; rewrite Ht1; by apply table_remove_ok]. by apply inv_failed.
Qed.

End lookup.

(** * Properties *)

Section properties.
Context `{Crypto} `{AuthCrypto}.
Context (now : Z).
Context (rpc : nat → ConnectionManager → Node → DhtRequest + AuthDhtRequest →
               Result RpcError DhtResponse * ConnectionManager).
Context (pick : nat → nat).

(** [node_lookup], with the requests it makes. *)
Definition node_lookup_logged (fuel : nat) (key : Key) : K (list Node * Log) :=
  kdo s <- kget;
  kdo host <- host_id;
  kdo (candidates, log) <- lookup_logged now rpc pick key host fuel
    (mkLookup (RouteTable.get_closest_nodes (k_table s) key KBUCKET_MAX) ∅ []) [];
  kret (take KBUCKET_MAX candidates, log).

(** C22: A lookup ends when the nodes that can be named to it are finitely many: it asks each
    of them at most once, whatever the order of the answers and whoever fails to
    answer.  It returns at most twenty nodes in order of distance, with distinct keys, each
    of which answered in this lookup; and every node it heard of, whether from the
    routing table or from an answer, is the host, is one whose request failed in this
    lookup, is itself returned, or is no closer to the key than each of the twenty. *)
Theorem node_lookup_correct (key : Key) (U : gset Key) (fuel : nat) (s : Kademlia) :
  let start := RouteTable.get_closest_nodes (k_table s) key KBUCKET_MAX in
  table_ok (k_table s) → size U ≤ fuel →
  (∀ n, n ∈ start → node_id n ∈ U) →
  (∀ n nodes, answers now rpc key n nodes → ∀ m, m ∈ nodes → node_id m ∈ U) →
  ∃ result log s', node_lookup now rpc pick fuel key s = Some (Ok result, s') ∧
    node_lookup_logged fuel key s = Some (Ok (result, log), s') ∧
    length log ≤ size U ∧ NoDup (map (node_id ∘ fst) log) ∧
    table_ok (k_table s') ∧ length result ≤ KBUCKET_MAX ∧ NoDup (map node_id result) ∧
    StronglySorted (near key) result ∧
    (∀ n, n ∈ result → ∃ nodes, (n, Ok nodes) ∈ log) ∧
    ∀ m, named start log m →
      node_id m = node_id (host (k_table s)) ∨ refused log (node_id m) ∨
      node_id m ∈ map node_id result ∨
      (length result = KBUCKET_MAX ∧ ∀ n', n' ∈ result → near key n' m).
Proof.
  intros start Ht Hfuel Hinit Hids. unfold node_lookup, node_lookup_logged.
  rewrite !(kbind_Ok _ _ s s s) by done.
  rewrite !(kbind_Ok _ _ s (node_id (host (k_table s))) s) by done. cbv zeta. fold start.
  destruct (lookup_logged_correct now rpc pick key (node_id (host (k_table s))) U start Hids fuel []
    (mkLookup start ∅ []) s) as (cs & log & s' & Hrun & Ht' & [Hsort Hnd Hfront Hnamed Honce Hlen]);
    [|unfold measure; cbn; rewrite difference_empty_L; lia|done|].
  { split; cbn [lk_candidates lk_visited lk_flight map]; try set_solver; try by constructor.
    destruct (closest_nodes_split (k_table s) key KBUCKET_MAX) as [rest Hrest]. fold start in Hrest.
    pose proof (all_nodes_NoDup _ Ht) as Hall. rewrite <-Hrest, map_app in Hall.
    by apply NoDup_app in Hall as [? _]. }
  assert (lookup_loop now rpc pick fuel (node_id (host (k_table s))) key (mkLookup start ∅ []) s =
    Some (Ok cs, s')) as Hrun'.
  { rewrite (lookup_logged_fst now rpc pick key _ fuel (mkLookup start ∅ []) [] s).
    by rewrite (kbind_Ok _ _ _ _ _ Hrun). }
  rewrite (kbind_Ok _ _ _ _ _ Hrun), (kbind_Ok _ _ _ _ _ Hrun').
  exists (take KBUCKET_MAX cs), log, s'.
  split_and!; try done; [rewrite length_take; lia|..].
  all: rewrite <-(take_drop KBUCKET_MAX cs) in Hsort, Hnd; rewrite map_app in Hnd;
    apply StronglySorted_app in Hsort as (Hcross & Hsort & _); apply NoDup_app in Hnd as [Hnd _];
    try done.
  intros m Hm. destruct (Hnamed m Hm) as [?|[?|Hk]]; [auto..|]. right. right.
  rewrite <-(take_drop KBUCKET_MAX cs), map_app in Hk. apply elem_of_app in Hk as [?|Hk]; [auto|].
  right. apply list_elem_of_fmap in Hk as (m' & Hid & Hm'). split.
  - rewrite length_take, min_l; [done|]. destruct (decide (KBUCKET_MAX ≤ length cs)); [done|].
    rewrite drop_ge in Hm' by lia. set_solver.
  - intros n' Hn'. unfold near, closer. rewrite Hid. by apply (Hcross n' m').
Qed.

(** An answer is an exchange. *)
Lemma auth_request_rpc t q s r s' :
  auth_request now rpc t q s = Some (Ok r, s') →
  ∃ n m m', rpc n m t (inr q) = (Ok r, m').
Proof.
  unfold auth_request. intros [(e & _ & ?)|(s0 & s1 & _ & Hr)]%kbind_inv; [done|].
  cbv zeta in Hr. apply kbind_inv in Hr as [(e & _ & ?)|(ok & s2 & _ & Hr)]; [done|].
  destruct ok; [|done]. unfold rpc_call in Hr.
  apply kbind_inv in Hr as [(e & _ & ?)|(x & s3 & Hx & Hr)]; [done|].
  unfold exchange in Hx. destruct (rpc _ _ _ _) as [y m'] eqn:E. injection Hx as <- <-.
  destruct y as [y|]; [|done]. injection Hr as <- <-. eauto.
Qed.

Lemma answers_rpc key n nodes :
  answers now rpc key n nodes →
  ∃ c m m' peers, rpc c m n (inr (FindNode key)) = (Ok (RespPeers (node_id n) peers), m') ∧
    nodes = map node_of_peer peers.
Proof.
  intros (s & s' & Hf). unfold find_node in Hf.
  apply kbind_inv in Hf as [(e & _ & ?)|(r & s1 & Hr & Hf)]; [done|].
  apply auth_request_rpc in Hr as (c & m & m' & Hr). destruct r; try done.
  case_bool_decide as Hk; [|done]. cbn in Hf. injection Hf as <- <-. subst. by exists c, m, m', peers.
Qed.

(** [find_value] ends too, and a value it returns was sent by a node for the key. *)
Lemma find_value_correct (key : Key) (U : gset Key) (fuel : nat) (s : Kademlia) :
  3 * size U ≤ fuel →
  (∀ n, n ∈ RouteTable.get_closest_nodes (k_table s) key KBUCKET_MAX → node_id n ∈ U) →
  (∀ n c m k peers m', rpc c m n (inr (FindValue key)) = (Ok (RespPeers k peers), m') →
     ∀ p, p ∈ peers → pr_id p ∈ U) →
  ∃ r s', find_value now rpc pick fuel key s = Some (Ok r, s') ∧
    ∀ v, r = Some v → ∃ n c m m',
      rpc c m n (inr (FindValue key)) = (Ok (RespValue (node_id n) v), m').
Proof.
  intros Hfuel Hinit Hids. unfold find_value. rewrite (kbind_Ok _ _ s s s) by done. cbv zeta.
  rewrite (kbind_Ok _ _ s (node_id (host (k_table s))) s) by done.
  assert (∀ n s0 k peers s1, auth_request now rpc n (FindValue key) s0 =
    Some (Ok (RespPeers k peers), s1) → ∀ p, p ∈ peers → pr_id p ∈ U) as Hvi.
  { intros n s0 k peers s1 (c & m & m' & Hx)%auth_request_rpc. by eapply Hids. }
  destruct (find_value_loop_correct now rpc pick key (node_id (host (k_table s))) U Hvi fuel
    (mkLookup (RouteTable.get_closest_nodes (k_table s) key KBUCKET_MAX) ∅ []) s)
    as (r & s' & Hr & Hv).
  - split; cbn; [done|set_solver].
  - unfold fv_measure. cbn [lk_visited lk_flight length]. rewrite difference_empty_L. lia.
  - exists r, s'. split; [done|]. intros v ->. destruct (Hv v eq_refl) as (n & s1 & s2 & Hx).
    apply auth_request_rpc in Hx as (c & m & m' & Hx). by exists n, c, m, m'.
Qed.

(** Storing a value always succeeds and leaves it in the node's own store. *)
Lemma store_answers_total key value targets s :
  table_ok (k_table s) →
  ∃ s', store_answers now rpc key value targets s = Some (Ok tt, s') ∧ table_ok (k_table s').
Proof.
  revert s. induction targets as [|t targets IH]; intros s Ht; [by exists s|].
  cbn [store_answers].
  destruct (ktotal_auth_request now rpc t (ReqStore key value) s) as (r & s1 & Hr & Ht1).
  rewrite (kbind_Ok _ _ s r s1) by (unfold ktry; by rewrite Hr).
  assert (∀ m : K unit, m = kret tt ∨ m = kmod (set_table (λ tb, RouteTable.table_remove tb t)) →
    ∃ s', kbind m (λ _, store_answers now rpc key value targets) s1 = Some (Ok tt, s') ∧
      table_ok (k_table s')) as Hm.
  { intros m [-> | ->].
    - rewrite (kbind_Ok _ _ s1 tt s1) by done. apply IH. by rewrite Ht1.
    - rewrite (kbind_Ok _ _ s1 tt (set_table (λ tb, RouteTable.table_remove tb t) s1)) by done.
      apply IH. cbn. rewrite Ht1. by apply table_remove_ok. }
  apply Hm. destruct r as [[]|]; auto. case_bool_decide; auto.
Qed.
End properties.

(** * A network of three nodes

    The first knows the second, the second the third, and the third does not
    answer. *)
Module LookupExamples.
#[local] Existing Instance Toy.ToyCrypto.
Import KadExamples.

Definition peer (i : Z) : Node := mkNode (Key_new [i]) (SocketV4 i 1).
Definition known (n : Node) : option (list Node) :=
  if bool_decide (n = peer 10) then Some [peer 20; peer 7]
  else if bool_decide (n = peer 20) then Some [peer 30; peer 10]
  else None.

Definition net : nat → ConnectionManager → Node → DhtRequest + AuthDhtRequest →
    Result RpcError DhtResponse * ConnectionManager := λ _ m t q,
  (match q with
   | inl (RequestHandshake _) => Ok (HandshakeChallange 1)
   | inl (SubmitHandshake _ _) => Ok (Pong (node_id t))
   | inr (FindNode _) =>
     match known t with
     | Some l => Ok (RespPeers (node_id t) (map peer_of_node l))
     | None => Err Timeout
     end
   | _ => Err Timeout
   end, m).

Definition seeker : Kademlia :=
  set_table (λ t, (RouteTable.try_insert t (peer 10)).1) client.
Definition world : gset Key := {[ Key_new [10%Z]; Key_new [20%Z]; Key_new [30%Z]; Key_new [7%Z] ]}.

(** The third did not answer, so what is returned is the other two. *)
Lemma node_lookup_correct_witness :
  ∃ result log s', node_lookup_logged 1000 net (λ _, 0) 4 (Key_new [7%Z]) seeker =
      Some (Ok (result, log), s') ∧
    StronglySorted (near (Key_new [7%Z])) result ∧ map fst log = [peer 10; peer 20; peer 30] ∧
    (∃ e, (peer 30, Err e) ∈ log) ∧ peer 20 ∈ result.
Proof.
  destruct (@node_lookup_correct Toy.ToyCrypto toy_auth 1000 net (λ _, 0) (Key_new [7%Z]) world 4
    seeker) as (result & log & s' & _ & Hr & _ & _ & _ & _ & _ & Hs & _).
  - apply try_insert_ok, table_new_ok.
  - vm_compute. lia.
  - assert (RouteTable.get_closest_nodes (k_table seeker) (Key_new [7%Z]) KBUCKET_MAX = [peer 10]) as ->
      by (vm_compute; reflexivity).
    intros n ->%list_elem_of_singleton. apply (bool_decide_unpack _). vm_compute. exact I.
  - intros n nodes (c & m & m' & peers & Hx & ->)%answers_rpc x Hin. unfold net, known in Hx.
    assert (Forall (λ p, pr_id p ∈ world) peers) as Hall.
    { repeat case_bool_decide; simplify_eq; apply (bool_decide_unpack _); vm_compute; exact I. }
    apply list_elem_of_fmap in Hin as (p & -> & Hp). exact (proj1 (Forall_forall _ _) Hall p Hp).
  - exists result, log, s'. split; [exact Hr|]. split; [exact Hs|].
    assert (Some (Ok (result, log)) = option_map fst
      (node_lookup_logged 1000 net (λ _, 0) 4 (Key_new [7%Z]) seeker)) as E by by rewrite Hr.
    vm_compute in E. injection E as -> ->. split_and!; [vm_compute; reflexivity|..].
    + eexists. do 2 apply list_elem_of_further. apply list_elem_of_here.
    + first [apply list_elem_of_here|apply list_elem_of_further, list_elem_of_here].
Defined.

(** The two nodes that answer are returned. *)
Example lookup_result :
  (option_map fst (node_lookup 1000 net (λ _, 0) 4 (Key_new [7%Z]) seeker)) =
    Some (Ok [peer 10; peer 20]) ∨
  (option_map fst (node_lookup 1000 net (λ _, 0) 4 (Key_new [7%Z]) seeker)) =
    Some (Ok [peer 20; peer 10]).
Proof. vm_compute. auto. Qed.
End LookupExamples.
