(* ===== verification/KadInv.v ===== *)
(** What every operation of the DHT node keeps: the routing table stays well formed and
    belongs to the same host, the store stays bounded and sorted, and the key of the node
    does not change.  The operations are those of [Kademlia]: the handlers of packets and
    the calls of the client. *)

From S2P Require Import Prelude Net Crypto Routing Store Auth Conn Rpc Kademlia Lookup.

Section kad_inv.
Context `{Crypto} `{AuthCrypto}.
Implicit Types (s : Kademlia).

Record kad_ok (now : Z) (h : Node) (cert : Signer) s : Prop := {
  ko_table : table_ok (k_table s);
  ko_host : host (k_table s) = h;
  ko_cert : inner_cert (k_auth s) = cert;
  ko_max : max_entries (k_store s) = MAX_STORE_ENTRIES;
  ko_store : store_ok now (k_store s);
}.

Lemma kad_ok_later now now' h cert s : (now ≤ now')%Z → kad_ok now h cert s → kad_ok now' h cert s.
Proof. intros Hle [????]. split; try done. by eapply store_ok_later. Qed.

Section keeps.
Context (now : Z).

Definition keeps s s' : Prop := ∀ h cert, kad_ok now h cert s → kad_ok now h cert s'.
#[export] Instance keeps_preorder : PreOrder keeps.
Proof. split; [by intros s h c|]. intros x y z Hxy Hyz h c Hx. by apply Hyz, Hxy. Qed.

(** A change of the table alone. *)
Lemma keeps_table f s :
  (table_ok (k_table s) → table_ok (f (k_table s)) ∧ host (f (k_table s)) = host (k_table s)) →
  keeps s (set_table f s).
Proof. intros Hf h c [Ht Hh ???]. destruct (Hf Ht) as [Ht' Hh']. by split; cbn; [|rewrite Hh'|..]. Qed.

Lemma table_remove_host t n : host (RouteTable.table_remove t n) = host t.
Proof. unfold RouteTable.table_remove. by repeat case_match. Qed.

Lemma keeps_remove n s : keeps s (set_table (λ t, RouteTable.table_remove t n) s).
Proof. apply keeps_table. intros Ht. split; [by apply table_remove_ok|apply table_remove_host]. Qed.

Lemma keeps_store_insert k v s : (0 ≤ now ∧ now + DEFAULT_TTL < 2 ^ 64)%Z →
  keeps s (set_store (λ st, DHTStore.store_insert now st k v) s).
Proof.
  intros Hnow h c [Ht Hh Hc Hm Hs]. split; try done.
  - rewrite <-Hm. cbn [k_store set_store]. unfold DHTStore.store_insert. cbv zeta.
    by destruct (im_get _ _).
  - cbn [k_store set_store]. apply store_insert_ok; [done| |done]. rewrite Hm. by apply Nat.ltb_lt.
Qed.

Lemma keeps_prune s : keeps s (set_store (DHTStore.prune now) s).
Proof. intros h c [Ht Hh Hc Hm Hs]. split; try done. by apply filter_ok. Qed.
End keeps.

#[local] Existing Instance keeps_preorder.

Section operations.
Context (now : Z) (manifest : string → Result unit (list Z)).
Context (rpc : nat → ConnectionManager → Node → DhtRequest + AuthDhtRequest →
               Result RpcError DhtResponse * ConnectionManager).
Context (outcome : nat → SendOutcome) (version : string) (pick : nat → nat).
Context (Hnow : (0 ≤ now ∧ now + DEFAULT_TTL < 2 ^ 64)%Z).

Lemma keeps_acknowledge n : kpres (keeps now) (Kademlia.acknowledge now rpc n).
Proof.
  intros s r s' E h c [Ht Hh Hc Hm Hs]. destruct (frame_acknowledge now rpc n s r s' E).
  destruct (acknowledge_total now rpc n s Ht) as (s1 & E1 & Ht'). rewrite E in E1.
  injection E1 as _ <-. split; congruence.
Qed.

Lemma keeps_auth_request t q : kpres (keeps now) (auth_request now rpc t q).
Proof. apply kpres_auth_request; [apply _|by intros s c h k []..]. Qed.

Lemma keeps_rpc_call t q : kpres (keeps now) (rpc_call rpc t q).
Proof. apply kpres_rpc_call; [apply _|by intros s c h k []]. Qed.

(** [tac] disposes of the calls that have a lemma of their own. *)
Ltac keeps_with tac := repeat first
  [ progress cbv zeta
  | progress tac
  | assumption
  | match goal with Hk : ∀ _, kpres _ _ |- _ => apply Hk end
  | apply keeps_acknowledge | apply keeps_auth_request | apply keeps_rpc_call
  | apply kpres_bind; [apply _| |intros ?]
  | apply kpres_try; [apply _|]
  | solve [apply kpres_ret, _ | apply kpres_fail, _ | apply kpres_get, _
          | apply kpres_lift, _ | apply kpres_opt, _]
  | apply kpres_mod; [apply _|intros;
      first [apply keeps_remove | apply keeps_store_insert; done | by intros ?? []]]
  | case_match ].
Ltac keeps := keeps_with idtac.

Lemma keeps_send peer id r : kpres (keeps now) (send_reply outcome peer id r).
Proof. unfold send_reply. keeps. Qed.

Lemma keeps_packet p src id : kpres (keeps now) (handle_packet now manifest rpc outcome p src id).
Proof.
  destruct p as [e|e|e]; cbn [handle_packet].
  all: unfold handle_request, handle_handshake, handle_ping, handle_find_node, handle_find_value,
    handle_store, handle_request_challange, handle_submit_challange, check_handshake, on_conn, host_id.
  all: keeps_with ltac:(apply keeps_send).
Qed.

Lemma keeps_lookup_loop fuel host key lk : kpres (keeps now) (lookup_loop now rpc pick fuel host key lk).
Proof.
  revert lk. induction fuel as [|fuel IH]; intros lk; cbn [lookup_loop]; unfold find_node; keeps.
Qed.

Lemma keeps_node_lookup fuel key : kpres (keeps now) (node_lookup now rpc pick fuel key).
Proof. unfold node_lookup, host_id. keeps_with ltac:(apply keeps_lookup_loop). Qed.

Lemma keeps_find_value fuel key : kpres (keeps now) (find_value now rpc pick fuel key).
Proof.
  unfold find_value, host_id. keeps.
  match goal with |- kpres _ (find_value_loop _ _ _ _ _ _ ?lk) => generalize lk end.
  induction fuel as [|fuel IH]; intros lk; cbn [find_value_loop]; keeps.
Qed.

Lemma keeps_store order fuel key v : kpres (keeps now) (kad_store now rpc pick order fuel key v).
Proof.
  assert (∀ targets, kpres (keeps now) (store_answers now rpc key v targets)) as Hs.
  { induction targets as [|t targets IH]; cbn [store_answers]; keeps. }
  unfold kad_store. keeps_with ltac:(first [apply Hs | apply keeps_node_lookup]).
Qed.

Lemma keeps_get_peers resolve fuel ih : kpres (keeps now) (get_peers now rpc pick resolve fuel ih).
Proof. unfold get_peers. keeps_with ltac:(apply keeps_find_value). Qed.

Lemma keeps_announce order fuel i2p ih :
  kpres (keeps now) (announce now rpc pick order fuel i2p ih).
Proof. unfold announce. keeps_with ltac:(apply keeps_store). Qed.

Lemma keeps_join prove_fuel fuel b :
  kpres (keeps now) (join_network now rpc version pick prove_fuel fuel b).
Proof.
  assert (∀ n, kpres (keeps now) (join_attempts now rpc version prove_fuel n b)) as Hj.
  { induction n as [|n IH]; cbn [join_attempts]; [keeps|].
    unfold request_challange, submit_challange, host_id, on_connection. keeps. }
  unfold join_network, join_with_retry, host_id.
  keeps_with ltac:(first [apply Hj | apply keeps_node_lookup]).
Qed.

Lemma keeps_refresh fuel rng : kpres (keeps now) (refresh_buckets now rpc pick fuel rng).
Proof.
  assert (∀ h l, kpres (keeps now) (refresh_loop now rpc pick fuel rng h l)) as Hl.
  { intros h. induction l as [|i l IH]; cbn [refresh_loop]; keeps_with ltac:(apply keeps_node_lookup). }
  unfold refresh_buckets, host_id. keeps_with ltac:(apply Hl).
Qed.
End operations.
End kad_inv.
