(* ===== verification/Pex.v ===== *)
(** Peer exchange: [src/bit_torrent/pex.rs].

    The router keeps the peers of each swarm and, for each peer, the set of
    addresses it was last sent.  The order in which a [HashSet] is iterated is a
    parameter ([SetIter]); whether a message can be encoded and sent is an
    argument. *)

From S2P Require Import Prelude Net Crypto Routing.

(** The order of a [HashSet]'s elements: some order of them. *)
Class SetIter := set_iter : gset SocketAddr → list SocketAddr.
Class SetIterLaws `{SetIter} : Prop :=
  set_iter_perm : ∀ X, set_iter X ≡ₚ elements X.

(** src/src/bit_torrent/pex.rs:18-18 [MAX_SWARM_SIZE] *)
Definition MAX_SWARM_SIZE : nat := 200.
(** src/src/bit_torrent/pex.rs:19-19 [MAX_PEX_DELTA] *)
Definition MAX_PEX_DELTA : nat := 50.

(** src/src/bit_torrent/pex.rs:24-34 [PexError] *)
Inductive PexError := PexBencodeError | PexConnectionManagerError | HandleFailed.

(** src/src/bit_torrent/pex.rs:36-41 [PexMessage] *)
Record PexMessage := mkPex {
  px_info_hash : Key;
  added : list SocketAddr;
  dropped : list SocketAddr;
}.

(** src/src/bit_torrent/pex.rs:61-69 [PexSession, PexRouter] *)
Record PexRouter := mkRouter {
  swarms : gmap Key (gset SocketAddr);
  sessions : gmap SocketAddr (gset SocketAddr);
}.

(** What becomes of a message: [Message::try_from], then
    [ConnectionManager::send]. *)
Inductive SendResult := EncodeError | SendError | SendSuccess.

Module PexRouter.
Section pex.
Context `{SetIter}.
Implicit Types (self : PexRouter).

(** src/src/bit_torrent/pex.rs:72-78 [PexRouter::create] *)
Definition pex_create : PexRouter := mkRouter ∅ ∅.

(** src/src/bit_torrent/pex.rs:169-178 [PexRouter::announce] *)
Definition announce self (info_hash : Key) (addr : SocketAddr) : PexRouter :=
  let swarm := default ∅ (swarms self !! info_hash) in
  let swarm := if MAX_SWARM_SIZE <=? size swarm then swarm else {[ addr ]} ∪ swarm in
  mkRouter (<[info_hash := swarm]> (swarms self)) (sessions self).

(** src/src/bit_torrent/pex.rs:180-190 [PexRouter::disconnect] *)
Definition disconnect self (info_hash : Key) (addr : SocketAddr) : PexRouter :=
  mkRouter (alter (λ peers, peers ∖ {[ addr ]}) info_hash (swarms self))
    (delete addr (sessions self)).

(** src/src/bit_torrent/pex.rs:192-199 [PexRouter::get_peers] *)
Definition get_peers self (info_hash : Key) : list SocketAddr :=
  default [] (set_iter <$> swarms self !! info_hash).

(** src/src/bit_torrent/pex.rs:201-232 [PexRouter::message] *)
Definition message self (info_hash : Key) (peer : SocketAddr) : option PexMessage * PexRouter :=
  match swarms self !! info_hash with
  | None => (None, self)
  | Some current =>
    if bool_decide (current = ∅) then (None, self)
    else (Some (mkPex info_hash (take MAX_PEX_DELTA (set_iter current)) []),
          mkRouter (swarms self) (<[peer := current]> (sessions self)))
  end.

(** src/src/bit_torrent/pex.rs:234-276 [PexRouter::delta] *)
Definition delta self (info_hash : Key) (peer : SocketAddr) : option PexMessage * PexRouter :=
  let budget := MAX_PEX_DELTA in
  match swarms self !! info_hash with
  | None => (None, self)
  | Some current =>
    let last_sent := default ∅ (sessions self !! peer) in
    let added := take budget (set_iter (current ∖ last_sent)) in
    let dropped := take (budget - length added) (set_iter (last_sent ∖ current)) in
    match added, dropped with
    | [], [] => (None, mkRouter (swarms self) (<[peer := last_sent]> (sessions self)))
    | _, _ => (Some (mkPex info_hash added dropped),
               mkRouter (swarms self) (<[peer := current]> (sessions self)))
    end
  end.

(** src/src/bit_torrent/pex.rs:151-167 [PexRouter::send_message] *)
Definition send_message (o : SendResult) self (peer : SocketAddr) (pex : PexMessage)
    : Result PexError unit * PexRouter :=
  match o with
  | EncodeError => (Err PexBencodeError, self)
  | SendSuccess => (Ok tt, self)
  | SendError => (Ok tt, disconnect self (px_info_hash pex) peer)
  end.

(** src/src/bit_torrent/pex.rs:119-149 [PexRouter::handle_incoming]

    Besides the result: the message sent to the peer, and the addresses for which
    [on_peer_discovered] is started. *)
Definition handle_incoming (o : SendResult) self (incoming : PexMessage) (socket : SocketAddr)
    : Result PexError unit * PexRouter * option PexMessage * list SocketAddr :=
  let ih := px_info_hash incoming in
  let self := announce self ih socket in
  match message self ih socket with
  | (None, self) => (Err HandleFailed, self, None, [])
  | (Some handshake, self) =>
    let out := match o with SendSuccess => Some handshake | _ => None end in
    match send_message o self socket handshake with
    | (Err e, self) => (Err e, self, out, [])
    | (Ok _, self) =>
      let self := foldl (λ r addr, announce r ih addr) self (added incoming) in
      let self := foldl (λ r addr, disconnect r ih addr) self (dropped incoming) in
      (Ok tt, self, out, added incoming)
    end
  end.

(** src/src/bit_torrent/pex.rs:104-112 [PexRouter::new, the gossip of one tick]

    [pairs] are the pairs of a swarm and one of its peers; [o] what becomes of
    each message. *)
Fixpoint gossip (o : Key → SocketAddr → SendResult) self (pairs : list (Key * SocketAddr))
    : list (SocketAddr * PexMessage) * PexRouter :=
  match pairs with
  | [] => ([], self)
  | (info_hash, peer) :: pairs =>
    match delta self info_hash peer with
    | (None, self) => gossip o self pairs
    | (Some d, self) =>
      let '(_, self) := send_message (o info_hash peer) self peer d in
      let '(msgs, self) := gossip o self pairs in
      (match o info_hash peer with SendSuccess => (peer, d) :: msgs | _ => msgs end, self)
    end
  end.

(** src/src/bit_torrent/pex.rs:94-102 [PexRouter::new, the pairs of one tick] *)
Definition pairs self : list (Key * SocketAddr) :=
  concat (map (λ '(info_hash, peers), map (pair info_hash) (set_iter peers))
            (map_to_list (swarms self))).
End pex.
End PexRouter.
Import PexRouter.

(** * Properties *)

Inductive PexEvent :=
| EvAnnounce (info_hash : Key) (addr : SocketAddr)
| EvDisconnect (info_hash : Key) (addr : SocketAddr)
| EvIncoming (o : SendResult) (incoming : PexMessage) (socket : SocketAddr)
| EvTick (o : Key → SocketAddr → SendResult).

Section props.
Context `{SI : SetIter}.
Implicit Types (r : PexRouter) (X : gset SocketAddr).

Definition pex_step r (e : PexEvent) : PexRouter :=
  match e with
  | EvAnnounce ih a => announce r ih a
  | EvDisconnect ih a => disconnect r ih a
  | EvIncoming o m a => (handle_incoming o r m a).1.1.2
  | EvTick o => (gossip o r (pairs r)).2
  end.

Definition bounded r : Prop :=
  ∀ ih swarm, swarms r !! ih = Some swarm → size swarm ≤ MAX_SWARM_SIZE.

Lemma bounded_announce r ih a : bounded r → bounded (announce r ih a).
Proof.
  intros Hb ih' sw. unfold announce. cbv zeta. cbn [swarms]. rewrite lookup_insert_Some.
  intros [[<- <-]|[_ ?]]; [|by eapply Hb].
  destruct (Nat.leb_spec MAX_SWARM_SIZE (size (default ∅ (swarms r !! ih)))) as [Hle|Hlt].
  - destruct (swarms r !! ih) as [sw|] eqn:E; [exact (Hb ih sw E)|].
    change (size (∅ : gset SocketAddr) ≤ MAX_SWARM_SIZE). rewrite size_empty. lia.
  - rewrite size_union_alt, size_singleton.
    assert (size (default ∅ (swarms r !! ih) ∖ {[a]}) ≤ size (default ∅ (swarms r !! ih))) by
      (apply subseteq_size; set_solver).
    lia.
Qed.

Lemma bounded_disconnect r ih a : bounded r → bounded (disconnect r ih a).
Proof.
  intros Hb ih' sw. unfold disconnect. cbn. rewrite lookup_alter_Some.
  intros [(<- & sw' & Hs & ->)|[_ ?]]; [|by eapply Hb]. apply Hb in Hs.
  assert (size (sw' ∖ {[a]}) ≤ size sw') by (apply subseteq_size; set_solver). lia.
Qed.

Lemma bounded_same r r' : swarms r' = swarms r → bounded r → bounded r'.
Proof. unfold bounded. by intros ->. Qed.

Lemma message_swarms r ih a : swarms (message r ih a).2 = swarms r.
Proof. unfold message. by repeat case_match. Qed.

Lemma delta_swarms r ih a : swarms (delta r ih a).2 = swarms r.
Proof. unfold delta. by repeat case_match. Qed.

Lemma bounded_send o r a m : bounded r → bounded (send_message o r a m).2.
Proof. destruct o; cbn; auto using bounded_disconnect. Qed.

Lemma bounded_step r e : bounded r → bounded (pex_step r e).
Proof.
  intros Hb. destruct e as [ih a|ih a|o m a|o]; cbn [pex_step];
    [by apply bounded_announce|by apply bounded_disconnect| |].
  - unfold handle_incoming. cbv zeta. apply (bounded_announce _ (px_info_hash m) a) in Hb.
    pose proof (message_swarms (announce r (px_info_hash m) a) (px_info_hash m) a) as Hs.
    destruct (message _ _ _) as [[hs|] r1]; cbn [snd] in Hs; [|exact (bounded_same _ _ Hs Hb)].
    apply (bounded_same _ r1) in Hb; [|done]. pose proof (bounded_send o r1 a hs Hb) as Hb1.
    destruct (send_message o r1 a hs) as [[u|e] r2]; [|done]. cbn in Hb1 |- *.
    assert (bounded (foldl (λ r addr, announce r (px_info_hash m) addr) r2 (added m))) as Hb2.
    { revert r2 Hb1. clear -SI. induction (added m); cbn; auto using bounded_announce. }
    revert Hb2. generalize (foldl (λ r addr, announce r (px_info_hash m) addr) r2 (added m)).
    clear -SI. induction (dropped m); cbn; auto using bounded_disconnect.
  - generalize (pairs r). intros l. revert r Hb. induction l as [|[ih a] l IH]; intros r Hb; [done|].
    cbn [gossip]. pose proof (delta_swarms r ih a) as Hs.
    destruct (delta r ih a) as [[d|] r1]; cbn [snd] in Hs; apply (bounded_same _ r1) in Hb; auto.
    pose proof (bounded_send (o ih a) r1 a d Hb) as Hb1.
    destruct (send_message (o ih a) r1 a d) as [u r2]. specialize (IH r2 Hb1).
    by destruct (gossip o r2 l).
Qed.

(** C34: No swarm ever holds more than two hundred peers, and a message of
    changes names at most fifty peers, whatever the peers send. *)
Theorem pex_bounded (es : list PexEvent) (ih : Key) (peer : SocketAddr) :
  let r := foldl pex_step pex_create es in
  (∀ swarm, swarms r !! ih = Some swarm → size swarm ≤ 200) ∧
  (∀ d, (delta r ih peer).1 = Some d → length (added d) + length (dropped d) ≤ 50).
Proof.
  cbv zeta. split.
  - assert (bounded (foldl pex_step pex_create es)) as Hb; [|exact (Hb ih)].
    induction es as [|e es IH] using rev_ind; [|].
    { intros ih' sw. cbn [foldl pex_create swarms]. by rewrite lookup_empty. }
    rewrite foldl_app. cbn [foldl]. by apply bounded_step.
  - intros d. unfold delta. destruct (swarms _ !! ih) as [cur|]; [|done]. cbv zeta.
    set (ad := take MAX_PEX_DELTA _). set (dr := take (MAX_PEX_DELTA - length ad) _).
    assert (length ad ≤ 50) by (unfold ad; rewrite length_take; unfold MAX_PEX_DELTA; lia).
    assert (length dr ≤ 50 - length ad) by (unfold dr; rewrite length_take; unfold MAX_PEX_DELTA; lia).
    clearbody ad dr.
    destruct ad as [|x ad], dr as [|y dr]; cbn [fst]; intros Heq; simplify_eq; cbn in *; lia.
Qed.

(** ** What a peer that applies the messages holds *)

Definition apply_message (m : PexMessage) X : gset SocketAddr :=
  (X ∪ list_to_set (added m)) ∖ list_to_set (dropped m).

Context `{!SetIterLaws}.

Lemma take_set_iter n X :
  list_to_set (take n (set_iter X)) = X ↔ size X ≤ n.
Proof.
  assert (NoDup (set_iter X)) as Hnd by (rewrite set_iter_perm; apply NoDup_elements).
  assert (length (set_iter X) = size X) as Hl by (by rewrite set_iter_perm).
  split.
  - intros Heq. rewrite <-Heq.
    rewrite size_list_to_set by (eapply sublist_NoDup; [exact Hnd|apply sublist_take]).
    rewrite length_take. lia.
  - intros Hle. rewrite take_ge by lia. rewrite <-(list_to_set_elements_L X) at 2.
    apply set_eq. intros x. rewrite !elem_of_list_to_set, set_iter_perm. done.
Qed.

Lemma take_set_iter_sub n X x : x ∈ take n (set_iter X) → x ∈ X.
Proof.
  intros (i & Hx%list_elem_of_lookup_2 & _)%elem_of_take. rewrite set_iter_perm in Hx.
  by apply elem_of_elements.
Qed.

(** A peer that holds what it was sent last and applies the next message of
    changes holds the sender's swarm exactly when the changes were at most
    fifty; otherwise the rest is lost, since the sender takes the whole swarm
    for sent.  There is no message exactly when nothing changed. *)
Theorem pex_delta_reconstructs (r : PexRouter) (ih : Key) (peer : SocketAddr)
    (current : gset SocketAddr) :
  swarms r !! ih = Some current →
  let last := default ∅ (sessions r !! peer) in
  let '(d, r') := delta r ih peer in
  (d = None ↔ last = current) ∧
  sessions r' !! peer = Some current ∧
  (∀ m, d = Some m →
     apply_message m last = current ↔ size (current ∖ last) + size (last ∖ current) ≤ 50).
Proof.
  intros Hcur. cbv zeta. unfold delta. rewrite Hcur. cbv zeta.
  set (last := default ∅ (sessions r !! peer)).
  pose proof (take_set_iter MAX_PEX_DELTA (current ∖ last)) as Ha.
  pose proof (take_set_iter_sub MAX_PEX_DELTA (current ∖ last)) as Ha'.
  set (ad := take MAX_PEX_DELTA (set_iter (current ∖ last))) in *.
  pose proof (take_set_iter (MAX_PEX_DELTA - length ad) (last ∖ current)) as Hd.
  pose proof (take_set_iter_sub (MAX_PEX_DELTA - length ad) (last ∖ current)) as Hd'.
  set (dr := take (MAX_PEX_DELTA - length ad) (set_iter (last ∖ current))) in *.
  assert (length ad = min 50 (size (current ∖ last))) as Hl.
  { unfold ad. rewrite length_take, set_iter_perm. done. }
  assert (length dr = min (50 - length ad) (size (last ∖ current))) as Hl'.
  { unfold dr. rewrite length_take, set_iter_perm. done. }
  assert (ad = [] ∧ dr = [] ↔ last = current) as Hnone.
  { split.
    - intros [E1 E2]. rewrite E1, E2 in *. cbn [length] in *.
      assert (current ∖ last = ∅) by (apply leibniz_equiv, size_empty_inv; lia).
      assert (last ∖ current = ∅) by (apply leibniz_equiv, size_empty_inv; lia).
      apply set_eq. intros x. split; intros Hx; apply dec_stable; intros Hn; set_solver.
    - intros <-. rewrite difference_diag_L, size_empty in *.
      split; apply nil_length_inv; lia. }
  assert (∀ m, Some (mkPex ih ad dr) = Some m → apply_message m last = current ↔
    size (current ∖ last) + size (last ∖ current) ≤ 50) as Happ.
  { intros m [= <-]. unfold apply_message. cbn [added dropped]. split.
    - intros Heq. assert (list_to_set ad = current ∖ last) as E1 by set_solver.
      assert (list_to_set dr = last ∖ current) as E2.
      { apply set_eq. intros x. rewrite elem_of_list_to_set. split; [apply Hd'|].
        intros Hx. rewrite elem_of_difference in Hx. destruct Hx as [Hx1 Hx2].
        apply dec_stable. intros Hn. apply Hx2. rewrite <-Heq. set_solver. }
      apply Ha in E1. apply Hd in E2. unfold MAX_PEX_DELTA in *. lia.
    - intros Hle. assert (list_to_set ad = current ∖ last) as E1
        by (apply Ha; unfold MAX_PEX_DELTA; lia).
      assert (list_to_set dr = last ∖ current) as E2 by (apply Hd; unfold MAX_PEX_DELTA; lia).
      rewrite E1, E2. apply set_eq. intros x. destruct (decide (x ∈ current)), (decide (x ∈ last)); set_solver. }
  clearbody ad dr. destruct ad as [|a ad], dr as [|b dr];
    (split_and!; [rewrite <-Hnone; naive_solver| |done]); cbn [sessions]; rewrite lookup_insert_eq; try done.
  f_equal. by apply Hnone.
Qed.
End props.

(** ** Two connected peers *)

(** [n] deliveries of a message that bounces between two routers. *)
Fixpoint bounce `{SetIter} (n : nat) (mine theirs : PexRouter) (me them : SocketAddr)
    (m : PexMessage) : option PexMessage :=
  match n with
  | O => Some m
  | S n =>
    match handle_incoming SendSuccess theirs m me with
    | (_, theirs, Some out, _) => bounce n theirs mine them me out
    | _ => None
    end
  end.

Lemma handle_answers `{SetIter} r m a :
  ∃ out r', handle_incoming SendSuccess r m a = (Ok tt, r', Some out, added m) ∧
    px_info_hash out = px_info_hash m.
Proof.
  unfold handle_incoming. cbv zeta. unfold message at 1. unfold announce at 1. cbv zeta.
  cbn [swarms]. rewrite lookup_insert_eq. rewrite bool_decide_false; [by eexists _, _|].
  set (sw := default ∅ _). destruct (Nat.leb_spec MAX_SWARM_SIZE (size sw)); [|set_solver].
  intros E. rewrite E, size_empty in *. unfold MAX_SWARM_SIZE in *. lia.
Qed.

(** Every message is answered, and every answer is a message: between two
    connected peers they never stop. *)
Lemma pex_never_quiet `{SetIter} n mine theirs me them m :
  is_Some (bounce n mine theirs me them m).
Proof.
  revert mine theirs me them m. induction n as [|n IH]; intros; [done|]. cbn [bounce].
  destruct (handle_answers theirs m me) as (out & r' & -> & _). apply IH.
Qed.

(** * Instances *)

Module PexExamples.
#[export] Instance toy_set_iter : SetIter := elements.
#[export] Instance toy_set_iter_laws : SetIterLaws.
Proof. by intros X. Qed.

Definition addr (i : Z) : SocketAddr := SocketV4 i 1.
Definition swarm (i : Z) : Key := mkKey [i] [i].
Definition crowd (n : nat) : gset SocketAddr := list_to_set (map (λ i, addr (Z.of_nat i)) (seq 0 n)).
Definition big : PexRouter := mkRouter {[ swarm 1 := crowd 60 ]} ∅.

Lemma pex_delta_reconstructs_witness :
  let last := default ∅ (sessions big !! addr 7) in
  let '(d, r') := delta big (swarm 1) (addr 7) in
  (d = None ↔ last = crowd 60) ∧ sessions r' !! addr 7 = Some (crowd 60) ∧
  (∀ m, d = Some m →
     apply_message m last = crowd 60 ↔ size (crowd 60 ∖ last) + size (last ∖ crowd 60) ≤ 50).
Proof. apply (pex_delta_reconstructs big (swarm 1) (addr 7) (crowd 60)). apply lookup_singleton_eq. Defined.

(** What was sent is kept for each peer, not for each of its swarms: the changes
    of one swarm list the peers of the other as dropped. *)
Example sessions_mix_swarms :
  let r := mkRouter {[ swarm 1 := {[ addr 1 ]}; swarm 2 := {[ addr 2 ]} ]} ∅ in
  let '(_, r) := delta r (swarm 1) (addr 7) in
  option_map dropped (delta r (swarm 2) (addr 7)).1 = Some [addr 1].
Proof. vm_compute. reflexivity. Qed.
End PexExamples.
