(* ===== verification/Bep.v ===== *)
(** The peer protocol: the request pipeline of [session/bep/pipeline.rs], the
    peer table of [session/session.rs] and the message handlers of
    [session/bep/router.rs].

    A handler is a computation over the session: it reads and changes the
    session's state, emits effects (messages sent, pieces handed to the writer,
    piece reads asked of the seeder), and ends in a result; an index panic of a
    bit field ends it in [None].  Whether a message can be sent, and what a peer
    answers to a piece request, are arguments.  Handlers run one at a time
    here; [Swarm] interleaves them. *)

From S2P Require Import Prelude Net Crypto BitField Wire Metainfo Routing.

(** src/src/bit_torrent/session/bep/message.rs:17-28 [StandardMessage] *)
Inductive StandardMessage :=
| MHandshake (info_hash peer_id : list Z)
| MBitfield (bits : list Z)
| MInterested
| MNotInterested
| MChoke
| MUnchoke
| MRequest (index : Z)
| MPiece (index : Z) (data : list Z)
| MHave (index : Z).

(** src/src/bit_torrent/session/bep/router.rs:35-54 [BepRouterError] *)
Inductive BepRouterError :=
| HandleFailed
| NonActivePipeline
| ConnectionManagerErr
| StandardMessageErr.

(** * The pipeline of one peer *)

(** src/src/bit_torrent/session/bep/pipeline.rs:13-13 [MAX_PIPELINE] *)
Definition MAX_PIPELINE : nat := 128.

(** src/src/bit_torrent/session/bep/pipeline.rs:21-30 [Pipeline] *)
Record Pipeline := mkPipeline {
  pl_peer : Node;
  pl_bitfield : BitField;
  am_choking : bool;
  am_interested : bool;
  peer_choking : bool;
  peer_interested : bool;
  pending : gset Z;
}.

Module Pipeline.
(** src/src/bit_torrent/session/bep/pipeline.rs:33-43 [Pipeline::new] *)
Definition pipeline_new (peer : Node) (bitfield : BitField) : Pipeline :=
  mkPipeline peer bitfield true false true false ∅.

Definition set_pending (self : Pipeline) (pend : gset Z) : Pipeline :=
  mkPipeline (pl_peer self) (pl_bitfield self) (am_choking self) (am_interested self)
    (peer_choking self) (peer_interested self) pend.

(** src/src/bit_torrent/session/bep/pipeline.rs:45-51 [Pipeline::evaluate_interest] *)
Definition evaluate_interest (self : Pipeline) (our_bitfield : BitField) : Pipeline * bool :=
  let interested := match BitField.difference (pl_bitfield self) our_bitfield with
                    | [] => false | _ => true end in
  (mkPipeline (pl_peer self) (pl_bitfield self) (am_choking self) interested
     (peer_choking self) (peer_interested self) (pending self), interested).

(** src/src/bit_torrent/session/bep/pipeline.rs:53-55 [Pipeline::on_unchoke] *)
Definition on_unchoke (self : Pipeline) : Pipeline :=
  mkPipeline (pl_peer self) (pl_bitfield self) (am_choking self) (am_interested self)
    false (peer_interested self) (pending self).

(** src/src/bit_torrent/session/bep/pipeline.rs:57-61 [Pipeline::on_choke] *)
Definition on_choke (self : Pipeline) : Pipeline :=
  mkPipeline (pl_peer self) (pl_bitfield self) (am_choking self) false
    true (peer_interested self) ∅.

(** src/src/bit_torrent/session/bep/pipeline.rs:63-69 [Pipeline::unchoke, choke] *)
Definition set_choking (v : bool) (self : Pipeline) : Pipeline :=
  mkPipeline (pl_peer self) (pl_bitfield self) v (am_interested self)
    (peer_choking self) (peer_interested self) (pending self).

(** src/src/bit_torrent/session/bep/pipeline.rs:79-85 [Pipeline::on_peer_interested, on_peer_not_interested] *)
Definition set_peer_interested (v : bool) (self : Pipeline) : Pipeline :=
  mkPipeline (pl_peer self) (pl_bitfield self) (am_choking self) (am_interested self)
    (peer_choking self) v (pending self).

(** src/src/bit_torrent/session/bep/pipeline.rs:95-97 [Pipeline::clear_piece] *)
Definition clear_piece (self : Pipeline) (index : Z) : Pipeline :=
  set_pending self (pending self ∖ {[ index ]}).

(** src/src/bit_torrent/session/bep/pipeline.rs:99-102 [Pipeline::set_bitfield] *)
Definition pipeline_set_bitfield (self : Pipeline) (index : nat) : option Pipeline :=
  bf ← BitField.set (pl_bitfield self) index;
  Some (mkPipeline (pl_peer self) bf (am_choking self) (am_interested self)
          (peer_choking self) (peer_interested self) (pending self)).

(** The loop of [fill_requests], with [slots > 0] slots left. *)
Fixpoint fill_loop (candidates : list nat) (pend : gset Z) (slots : nat) (acc : list Z)
    : gset Z * list Z :=
  match candidates with
  | [] => (pend, acc)
  | piece_index :: candidates =>
    let index := u32 (Z.of_nat piece_index) in
    let '(pend, slots, acc) :=
      if decide (index ∈ pend) then (pend, slots, acc)
      else ({[ index ]} ∪ pend, slots - 1, acc ++ [index]) in
    if slots =? 0 then (pend, acc) else fill_loop candidates pend slots acc
  end.

(** src/src/bit_torrent/session/bep/pipeline.rs:104-144 [Pipeline::fill_requests] *)
Definition fill_requests (self : Pipeline) (received : option Z) (session_bitfield : BitField)
    : Pipeline * list Z :=
  if peer_choking self then (self, [])
  else
    let pend := match received with Some index => pending self ∖ {[ index ]}
                                  | None => pending self end in
    let available_slots := MAX_PIPELINE - size pend in
    if available_slots =? 0 then (set_pending self pend, [])
    else
      let '(pend, requests) :=
        fill_loop (BitField.difference (pl_bitfield self) session_bitfield) pend
          available_slots [] in
      (set_pending self pend, requests).
End Pipeline.

(** * The session, as the handlers see it *)

(** src/src/bit_torrent/session/bep/mod.rs:13-18 [PeerState] *)
Inductive PeerState :=
| Connecting
| Pending (peer_id : list Z) (we_initiated : bool)
| Active (pipeline : Pipeline).

(** src/src/bit_torrent/session/state.rs:167-172 [ActiveMode] *)
Inductive ActiveMode := MDownloading | MSeeding | MIdle.

(** src/src/bit_torrent/session/session.rs:44-55 [TorrentSession]

    What the handlers use of it, with the router's own id. *)
Record Session := mkSession {
  s_info_hash : InfoHash;
  s_piece_count : nat;
  s_mode : ActiveMode;
  s_bitfield : BitField;
  s_peers : gmap SocketAddr PeerState;
  s_host_id : list Z;
}.

Definition with_bitfield (s : Session) (bf : BitField) : Session :=
  mkSession (s_info_hash s) (s_piece_count s) (s_mode s) bf (s_peers s) (s_host_id s).
Definition with_peers (s : Session) (ps : gmap SocketAddr PeerState) : Session :=
  mkSession (s_info_hash s) (s_piece_count s) (s_mode s) (s_bitfield s) ps (s_host_id s).

(** What a handler does besides changing the session: messages sent, and what it puts
    in the channels of the writer and of the reader. *)
Inductive Effect :=
| Sent (peer : SocketAddr) (message : StandardMessage)
| ToWriter (index : Z) (data : list Z)
| ToReader (index : Z).

(** ** The handler monad *)

Definition H (A : Type) : Type :=
  Session → option (Session * list Effect * Result BepRouterError A).

Definition hret {A} (a : A) : H A := λ s, Some (s, [], Ok a).
Definition hbind {A B} (m : H A) (k : A → H B) : H B := λ s,
  match m s with
  | None => None
  | Some (s, o, Err e) => Some (s, o, Err e)
  | Some (s, o, Ok a) =>
    match k a s with
    | None => None
    | Some (s, o', r) => Some (s, o ++ o', r)
    end
  end.
Definition herr {A} (e : BepRouterError) : H A := λ s, Some (s, [], Err e).
Definition hget : H Session := λ s, Some (s, [], Ok s).
Definition hput (s : Session) : H unit := λ _, Some (s, [], Ok tt).
Definition hemit (e : Effect) : H unit := λ s, Some (s, [e], Ok tt).
Definition hopt {A} (o : option A) : H A := λ s,
  match o with None => None | Some a => Some (s, [], Ok a) end.

Notation "'do' x <- m ; k" := (hbind m (fun x => k))
  (at level 200, x name, right associativity) : bqti_scope.
Notation "'do_' m ; k" := (hbind m (fun _ => k))
  (at level 200, right associativity) : bqti_scope.

(** ** The peer table *)

(** src/src/bit_torrent/session/session.rs:490-497 [TorrentSession::get_pipeline] *)
Definition get_pipeline (src : SocketAddr) : H (option Pipeline) :=
  do s <- hget;
  hret (match s_peers s !! src with Some (Active p) => Some p | _ => None end).

(** The pipeline is shared: changing it changes the table's entry. *)
Definition put_pipeline (src : SocketAddr) (p : Pipeline) : H unit :=
  do s <- hget; hput (with_peers s (<[src := Active p]> (s_peers s))).

(** src/src/bit_torrent/session/session.rs:505-508 [TorrentSession::get_bitfield] *)
Definition get_bitfield : H BitField := do s <- hget; hret (s_bitfield s).

(** src/src/bit_torrent/session/session.rs:499-503 [TorrentSession::set_bitfield] *)
Definition session_set_bitfield (index : Z) : H BitField :=
  do s <- hget;
  do bf <- hopt (BitField.set (s_bitfield s) (Z.to_nat index));
  do_ hput (with_bitfield s bf);
  hret bf.

(** src/src/bit_torrent/session/session.rs:510-519 [TorrentSession::add_piece] *)
Definition add_piece (index : Z) : H bool :=
  do s <- hget;
  do has <- hopt (BitField.have (s_bitfield s) (Z.to_nat index));
  if (has : bool) then hret false
  else
    do bf <- hopt (BitField.set (s_bitfield s) (Z.to_nat index));
    do_ hput (with_bitfield s bf);
    hret true.

(** src/src/bit_torrent/session/session.rs:521-528 [TorrentSession::get_pending_peer] *)
Definition get_pending_peer (peer : SocketAddr) : H (option (list Z)) :=
  do s <- hget;
  hret (match s_peers s !! peer with Some (Pending peer_id _) => Some peer_id | _ => None end).

(** src/src/bit_torrent/session/session.rs:530-540 [TorrentSession::insert_pending] *)
Definition insert_pending (addr : SocketAddr) (peer_id : list Z) (we_initiated : bool) : H unit :=
  do s <- hget; hput (with_peers s (<[addr := Pending peer_id we_initiated]> (s_peers s))).

(** src/src/bit_torrent/session/session.rs:558-567 [TorrentSession::is_pending_outbound] *)
Definition is_pending_outbound (addr : SocketAddr) : H bool :=
  do s <- hget;
  hret (match s_peers s !! addr with Some (Pending _ true) => true | _ => false end).

(** src/src/bit_torrent/session/session.rs:553-556 [TorrentSession::activate_peer] *)
Definition activate_peer (addr : SocketAddr) (pipeline : Pipeline) : H unit :=
  do s <- hget; hput (with_peers s (<[addr := Active pipeline]> (s_peers s))).

(** src/src/bit_torrent/session/session.rs:597-603 [TorrentSession::shutdown_peers]

    The result is the peers whose connections are closed, in the order of the table. *)
Definition shutdown_peers : H (list SocketAddr) :=
  do s <- hget;
  do_ hput (with_peers s ∅);
  hret (map fst (map_to_list (s_peers s))).

(** src/src/bit_torrent/session/session.rs:592-595 [TorrentSession::terminate_with] *)
Definition terminate_with (other : SocketAddr) : H unit :=
  do s <- hget; hput (with_peers s (delete other (s_peers s))).

Section handlers.
Context `{Crypto}.
(** Whether a connection to a peer can be made. *)
Variable connect : SocketAddr → Result BepRouterError unit.
(** Whether the transport takes a message for a peer. *)
Variable transport : SocketAddr → StandardMessage → Result BepRouterError unit.

(** src/src/bit_torrent/session/session.rs:542-551 [TorrentSession::insert_pipeline] *)
Definition insert_pipeline (addr : SocketAddr) (peer_id bitfield : list Z) : H unit :=
  do s <- hget;
  let caller := from_socket (Key_new peer_id) addr in
  let pipeline := Pipeline.pipeline_new caller (BitField.from_wire bitfield (s_piece_count s)) in
  hput (with_peers s (<[addr := Active pipeline]> (s_peers s))).

(** src/src/bit_torrent/session/bep/router.rs:255-263 [BepRouter::send] *)
Definition send (peer : SocketAddr) (bep : StandardMessage) : H unit :=
  match transport peer bep with
  | Ok _ => hemit (Sent peer bep)
  | Err e => herr e
  end.

Definition active_messages (message : StandardMessage) (peers : gmap SocketAddr PeerState)
    : list Effect :=
  omap (λ '(addr, state),
    match state with
    | Active _ => match transport addr message with
                  | Ok _ => Some (Sent addr message) | Err _ => None end
    | _ => None
    end) (map_to_list peers).

(** src/src/bit_torrent/session/session.rs:582-590 [TorrentSession::broadcast] *)
Definition broadcast (message : StandardMessage) : H unit :=
  λ s, Some (s, active_messages message (s_peers s), Ok tt).

(** src/src/bit_torrent/session/session.rs:569-580 [TorrentSession::broadcast_have]

    A failed send is ignored. *)
Definition broadcast_have (index : Z) : H unit :=
  λ s, Some (s, active_messages (MHave index) (s_peers s), Ok tt).

(** src/src/bit_torrent/session/session.rs:399-412 [TorrentSession::send_downloaded_piece]

    The channel to the writer is there when the session is downloading.  [ToWriter] is the
    send on it, which drops the piece if the writer is gone; that branch, and the
    counter of pending writes, are in [Swarm] and [Download]. *)
Definition send_downloaded_piece (index : Z) (data : list Z) : H unit :=
  do s <- hget;
  match s_mode s with
  | MDownloading => hemit (ToWriter index data)
  | _ => hret tt
  end.

(** src/src/bit_torrent/session/session.rs:414-425 [TorrentSession::send_piece_request] *)
Definition send_piece_request (index : Z) : H unit :=
  do s <- hget;
  match s_mode s with
  | MSeeding => hemit (ToReader index)
  | _ => hret tt
  end.

Definition fill (src : SocketAddr) (p : Pipeline) (received : option Z) : H (list Z) :=
  do bf <- get_bitfield;
  let '(p, requests) := Pipeline.fill_requests p received bf in
  do_ put_pipeline src p;
  hret requests.

(** src/src/bit_torrent/session/bep/router.rs:265-284 [BepRouter::handshake] *)
Definition handshake (peer : SocketAddr) : H unit :=
  match connect peer with
  | Err e => herr e
  | Ok _ =>
    do s <- hget;
    do_ insert_pending peer (s_host_id s) true;
    send peer (MHandshake (InfoHash.to_vec (s_info_hash s)) (s_host_id s))
  end.

(** src/src/bit_torrent/session/bep/router.rs:429-469 [BepRouter::handle_handshake] *)
Definition handle_handshake (infohash_recv peerid_recv : list Z) (source : SocketAddr) : H unit :=
  do p <- get_pipeline source;
  match p with
  | Some _ => hret tt
  | None =>
    match InfoHash.try_from infohash_recv with
    | Err _ => herr HandleFailed
    | Ok hash =>
      do s <- hget;
      if negb (bool_decide (hash = s_info_hash s)) then herr HandleFailed
      else
        do outbound <- is_pending_outbound source;
        if negb outbound then
          do_ insert_pending source peerid_recv false;
          send source (MHandshake (InfoHash.to_vec (s_info_hash s)) (s_host_id s))
        else
          do_ insert_pending source peerid_recv true;
          do bf <- get_bitfield;
          send source (MBitfield (BitField.as_bytes bf))
    end
  end.

(** src/src/bit_torrent/session/bep/router.rs:471-509 [BepRouter::handle_bitfield] *)
Definition handle_bitfield (bitfield_recv : list Z) (source : SocketAddr) : H unit :=
  do self_init <- is_pending_outbound source;
  do pending <- get_pending_peer source;
  match pending with
  | None => hret tt
  | Some peer_id =>
    do_ insert_pipeline source peer_id bitfield_recv;
    do_ (if negb self_init then
           do bf <- get_bitfield; send source (MBitfield (BitField.as_bytes bf))
         else hret tt);
    do s <- hget;
    match s_mode s with
    | MDownloading =>
      do p <- get_pipeline source;
      match p with
      | None => hret tt
      | Some p =>
        do bf <- get_bitfield;
        let '(p, interested) := Pipeline.evaluate_interest p bf in
        do_ put_pipeline source p;
        if (interested : bool) then send source MInterested else hret tt
      end
    | _ => hret tt
    end
  end.

(** src/src/bit_torrent/session/bep/router.rs:546-581 [BepRouter::process_piece] *)
Definition process_piece (source : SocketAddr) (index : Z) (data : list Z) : H (list Z) :=
  do p <- get_pipeline source;
  match p with
  | None => hret []
  | Some p =>
    do added <- add_piece index;
    if negb added then fill source p None
    else
      let p := Pipeline.clear_piece p index in
      do_ put_pipeline source p;
      do_ send_downloaded_piece index data;
      do bf <- get_bitfield;
      do_ broadcast_have index;
      do complete <- hopt (BitField.is_complete bf);
      if (complete : bool) then hret [] else fill source p (Some index)
  end.

(** What the network delivers for a piece request: the payload of the reply. *)
Variable network : SocketAddr → Z → Result BepRouterError (list Z).

(** src/src/bit_torrent/session/bep/router.rs:511-544 [BepRouter::make_request] *)
Definition make_request (source : SocketAddr) (index : Z) (seeder_key : Key)
    : Result BepRouterError (option (list Z)) :=
  let? payload := network source index in
  match split_payload payload with
  | None => Ok None
  | Some (data, sig) =>
    if negb (verify_piece index data sig (key_pub seeder_key)) then Ok None
    else Ok (Some data)
  end.

(** src/src/bit_torrent/session/bep/router.rs:341-360 [handle_request_downloading, in_flight]

    The requests in flight: whichever [pick] says completes next is processed,
    and the requests that follow from it are added.  [false] means the loop has
    not ended after [fuel] completions. *)
Fixpoint request_loop (fuel : nat) (pick : list Z → nat) (source : SocketAddr) (seeder_key : Key)
    (in_flight : list Z) : H bool :=
  match in_flight with
  | [] => hret true
  | first :: _ =>
    match fuel with
    | O => hret false
    | S fuel =>
      let i := pick in_flight mod length in_flight in
      let index := default first (in_flight !! i) in
      let rest := remove_at i in_flight in
      match make_request source index seeder_key with
      | Ok (Some data) =>
        do next <- process_piece source index data;
        request_loop fuel pick source seeder_key (rest ++ next)
      | _ => request_loop fuel pick source seeder_key rest
      end
    end
  end.

(** src/src/bit_torrent/session/bep/router.rs:330-363 [handle_request_downloading, Unchoke] *)
Definition handle_unchoke (fuel : nat) (pick : list Z → nat) (source : SocketAddr) : H bool :=
  do p <- get_pipeline source;
  match p with
  | None => hret true
  | Some p =>
    let p := Pipeline.on_unchoke p in
    do requests <- fill source p None;
    request_loop fuel pick source (node_id (pl_peer p)) requests
  end.

(** src/src/bit_torrent/session/bep/router.rs:324-380 [BepRouter::handle_request_downloading] *)
Definition handle_request_downloading (fuel : nat) (pick : list Z → nat)
    (message : StandardMessage) (source : SocketAddr) : H unit :=
  match message with
  | MUnchoke => do_ handle_unchoke fuel pick source; hret tt
  | MHave index =>
    do p <- get_pipeline source;
    match p with
    | None => herr NonActivePipeline
    | Some p =>
      do p <- hopt (Pipeline.pipeline_set_bitfield p (Z.to_nat index));
      do bf <- get_bitfield;
      let '(p, interested) := Pipeline.evaluate_interest p bf in
      do_ put_pipeline source p;
      if (interested : bool) then send source MInterested else hret tt
    end
  | _ => hret tt
  end.

(** src/src/bit_torrent/session/bep/router.rs:583-622 [BepRouter::handle_piece_request] *)
Definition handle_piece_request (index : Z) (source : SocketAddr) : H unit :=
  do p <- get_pipeline source;
  match p with
  | None => hret tt
  | Some p =>
    if am_choking p then hret tt
    else
      do bf <- get_bitfield;
      do has <- hopt (BitField.have bf (Z.to_nat index));
      if negb has then hret tt else send_piece_request index
  end.

(** src/src/bit_torrent/session/bep/router.rs:382-427 [BepRouter::handle_request_seeding] *)
Definition handle_request_seeding (message : StandardMessage) (source : SocketAddr) : H unit :=
  match message with
  | MInterested =>
    do s <- hget;
    match s_mode s with
    | MSeeding =>
      do p <- get_pipeline source;
      match p with
      | None => hret tt
      | Some p =>
        do_ put_pipeline source (Pipeline.set_choking false (Pipeline.set_peer_interested true p));
        send source MUnchoke
      end
    | _ => hret tt
    end
  | MNotInterested =>
    do p <- get_pipeline source;
    do_ match p with
        | Some p =>
          put_pipeline source (Pipeline.set_choking true (Pipeline.set_peer_interested false p))
        | None => hret tt
        end;
    send source MChoke
  | MRequest index => handle_piece_request index source
  | MHave index =>
    do p <- get_pipeline source;
    match p with
    | None => hret tt
    | Some p =>
      do p <- hopt (Pipeline.pipeline_set_bitfield p (Z.to_nat index));
      put_pipeline source p
    end
  | _ => hret tt
  end.

(** src/src/bit_torrent/session/bep/router.rs:286-322 [BepRouter::handle_request] *)
Definition handle_request (fuel : nat) (pick : list Z → nat) (message : StandardMessage)
    (source : SocketAddr) : H unit :=
  match message with
  | MHandshake info_hash peer_id => handle_handshake info_hash peer_id source
  | MBitfield bf => handle_bitfield bf source
  | MChoke =>
    do p <- get_pipeline source;
    match p with
    | None => hret tt
    | Some p => put_pipeline source (Pipeline.on_choke p)
    end
  | _ =>
    do s <- hget;
    match s_mode s with
    | MDownloading => handle_request_downloading fuel pick message source
    | MSeeding => handle_request_seeding message source
    | MIdle => hret tt
    end
  end.
End handlers.
#[global] Arguments active_messages : simpl never.
#[global] Arguments Pipeline.fill_requests : simpl never.
#[global] Arguments Pipeline.clear_piece : simpl never.
#[global] Arguments BitField.difference : simpl never.
#[global] Arguments BitField.from_wire : simpl never.

(** * Lemmas *)

(** ** Filling the pipeline *)

Definition fresh (pend : gset Z) (l : list Z) : list Z :=
  List.filter (λ i, bool_decide (i ∉ pend)) l.

Lemma fresh_add pend i l : i ∉ l → fresh ({[ i ]} ∪ pend) l = fresh pend l.
Proof.
  intros Hi. apply filter_ext_elem. intros j Hj. apply bool_decide_ext. set_solver.
Qed.

(** The loop takes the first candidates that are not pending, one per slot. *)
Lemma fill_loop_spec cands pend slots acc :
  NoDup cands → Forall (λ i, Z.of_nat i < 2 ^ 32)%Z cands → 0 < slots →
  let new := take slots (fresh pend (map Z.of_nat cands)) in
  Pipeline.fill_loop cands pend slots acc = (list_to_set new ∪ pend, acc ++ new).
Proof.
  revert pend slots acc. induction cands as [|c cands IH]; intros pend slots acc Hnd Hlt Hs;
    cbv zeta.
  { cbn. rewrite take_nil. cbn. f_equal; [set_solver|by rewrite app_nil_r]. }
  apply NoDup_cons in Hnd as [Hc Hnd]. apply Forall_cons in Hlt as [Hc32 Hlt].
  cbn [Pipeline.fill_loop map]. rewrite wrap_small by lia.
  assert (Z.of_nat c ∉ map Z.of_nat cands) as Hc'.
  { intros (d & E%Nat2Z.inj & Hd)%list_elem_of_fmap. by subst. }
  unfold fresh at 1 2. cbn [List.filter].
  destruct (decide (Z.of_nat c ∈ pend)) as [Hin|Hin].
  - rewrite bool_decide_eq_false_2 by set_solver.
    rewrite (proj2 (Nat.eqb_neq slots 0)) by lia. by apply IH.
  - rewrite bool_decide_eq_true_2 by done. destruct slots as [|slots]; [lia|].
    replace (S slots - 1) with slots by lia. cbn [take].
    destruct (Nat.eqb_spec slots 0) as [->|Hs'].
    + cbn. f_equal. set_solver.
    + rewrite IH by (done || lia). cbv zeta. rewrite fresh_add by done. unfold fresh.
      f_equal; [cbn; set_solver|by rewrite <-app_assoc].
Qed.

Definition slots_after (p : Pipeline) (received : option Z) : gset Z :=
  match received with Some index => pending p ∖ {[ index ]} | None => pending p end.

Lemma fill_requests_spec p received bf :
  peer_choking p = false → (Z.of_nat (piece_count (pl_bitfield p)) ≤ 2 ^ 32)%Z →
  let pend := slots_after p received in
  let new := take (MAX_PIPELINE - size pend)
               (fresh pend (map Z.of_nat (BitField.difference (pl_bitfield p) bf))) in
  Pipeline.fill_requests p received bf =
    (Pipeline.set_pending p (list_to_set new ∪ pend), new).
Proof.
  intros Hch Hn. cbv zeta. unfold Pipeline.fill_requests. rewrite Hch. fold (slots_after p received).
  destruct (Nat.eqb_spec (MAX_PIPELINE - size (slots_after p received)) 0) as [->|Hs].
  { cbn. do 2 f_equal. set_solver. }
  rewrite fill_loop_spec; [done|apply BitField.NoDup_difference| |lia].
  apply Forall_forall. intros i (Hi & _)%BitField.elem_of_difference_iff. lia.
Qed.

(** ** The download loop *)

Definition written (effs : list Effect) : list Z :=
  omap (λ e, match e with ToWriter i _ => Some i | _ => None end) effs.

Lemma written_app a b : written (a ++ b) = written a ++ written b.
Proof. apply omap_app. Qed.

(** The pieces the peer has and we lack, as requested indices. *)
Definition missing (pb bf : BitField) : list Z := map Z.of_nat (BitField.difference pb bf).

Section refill.
Context (pb : BitField).

Lemma NoDup_missing bf : NoDup (missing pb bf).
Proof. apply (NoDup_fmap_2 Z.of_nat), BitField.NoDup_difference. Qed.

(** The requests that follow from a received piece keep the pipeline full. *)
Lemma refill_full bf (rest : list Z) (p : Pipeline) received :
  NoDup rest → rest ⊆ missing pb bf → slots_after p received = list_to_set rest →
  let new := take (MAX_PIPELINE - size (slots_after p received))
               (fresh (slots_after p received) (missing pb bf)) in
  NoDup (rest ++ new) ∧ (rest ++ new) ⊆ missing pb bf ∧
  (length (rest ++ new) < MAX_PIPELINE → missing pb bf ⊆ rest ++ new) ∧
  list_to_set new ∪ slots_after p received = (list_to_set (rest ++ new) : gset Z).
Proof.
  intros Hnd Hsub ->. cbv zeta. set (f := fresh (list_to_set rest) (missing pb bf)).
  rewrite size_list_to_set by done. set (k := MAX_PIPELINE - length rest).
  assert (∀ x, x ∈ f ↔ x ∈ missing pb bf ∧ x ∉ rest) as Hf.
  { intros x. unfold f, fresh. rewrite elem_of_filterb, bool_decide_eq_true, elem_of_list_to_set. done. }
  assert (∀ x, x ∈ take k f → x ∈ f) as Htk.
  { intros x Hx. rewrite <-(take_drop k f). apply elem_of_app. by left. }
  split_and!.
  - apply NoDup_app. split_and!; [done| |].
    + intros x Hx Hx'. apply Htk, Hf in Hx' as [_ ?]. done.
    + eapply sublist_NoDup; [|apply sublist_take]. apply NoDup_filterb, NoDup_missing.
  - intros x [Hx|Hx]%elem_of_app; [by apply Hsub|]. by apply Htk, Hf in Hx as [? _].
  - rewrite length_app, length_take. intros Hlt x Hx. apply elem_of_app.
    destruct (decide (x ∈ rest)); [by left|]. right. rewrite take_ge by lia. by apply Hf.
  - rewrite list_to_set_app_L. set_solver.
Qed.
End refill.

Section download.
Context `{Crypto} (transport : SocketAddr → StandardMessage → Result BepRouterError unit)
  (network : SocketAddr → Z → Result BepRouterError (list Z)) (pick : list Z → nat)
  (src : SocketAddr) (pb : BitField) (key : Key) (n : nat).
Hypothesis n_bound : (Z.of_nat n ≤ 2 ^ 32)%Z.
Hypothesis pb_count : piece_count pb = n.

Record loop_inv (s : Session) (in_flight : list Z) : Prop := {
  li_mode : s_mode s = MDownloading;
  li_wf : BitField.wf (s_bitfield s);
  li_count : piece_count (s_bitfield s) = n;
  li_peer : ∃ p, s_peers s !! src = Some (Active p) ∧ peer_choking p = false ∧
                 pl_bitfield p = pb ∧ pending p = list_to_set in_flight;
  li_nodup : NoDup in_flight;
  li_sub : in_flight ⊆ missing pb (s_bitfield s);
  li_full : length in_flight < MAX_PIPELINE → missing pb (s_bitfield s) ⊆ in_flight;
}.

(** Setting a wanted piece takes it off the list. *)
Lemma missing_set bf bf' (i : nat) :
  piece_count bf = n → piece_count bf' = n → i ∈ BitField.difference pb bf →
  (∀ j, BitField.held bf' j = if decide (i = j) then i <? n else BitField.held bf j) →
  missing pb bf ≡ₚ Z.of_nat i :: missing pb bf'.
Proof.
  intros Hc Hc' Hi Hh. pose proof Hi as (Hin & Hbi & _)%BitField.elem_of_difference_iff.
  unfold missing.
  change (Z.of_nat i :: map Z.of_nat (BitField.difference pb bf'))
    with (map Z.of_nat (i :: BitField.difference pb bf')).
  apply Permutation_map. apply NoDup_Permutation; [apply BitField.NoDup_difference| |].
  - constructor; [|apply BitField.NoDup_difference].
    intros (_ & _ & Hb)%BitField.elem_of_difference_iff. rewrite pb_count in Hin.
    rewrite BitField.bit_held, Hh, decide_True in Hb by (lia || done).
    apply Nat.ltb_ge in Hb. lia.
  - intros j. rewrite elem_of_cons, !BitField.elem_of_difference_iff.
    destruct (decide (i = j)) as [<-|Hij].
    + split; [by left|]. intros _. by apply BitField.elem_of_difference_iff.
    + split.
      * intros (Hj & Hb & Hnb). right. split_and!; [done|done|].
        rewrite BitField.bit_held in Hnb |- * by lia. by rewrite Hh, decide_False.
      * intros [->|(Hj & Hb & Hnb)]; [done|]. split_and!; [done|done|].
        rewrite BitField.bit_held in Hnb |- * by lia. by rewrite Hh, decide_False in Hnb.
Qed.

(** Adding a piece we lack. *)
Lemma add_piece_new s bf' (i : nat) :
  BitField.wf (s_bitfield s) → BitField.held (s_bitfield s) i = false →
  BitField.set (s_bitfield s) i = Some bf' →
  add_piece (Z.of_nat i) s = Some (with_bitfield s bf', [], Ok true).
Proof.
  intros Hwf Hh Hset. unfold add_piece, hbind, hget, hopt, hput, hret. cbn.
  by rewrite Nat2Z.id, BitField.have_held, Hh, Hset by done.
Qed.

Lemma written_broadcast message peers : written (active_messages transport message peers) = [].
Proof.
  unfold active_messages. induction (map_to_list peers) as [|[a st] l IH]; [done|]. cbn.
  destruct st; cbn; [apply IH|apply IH|]. destruct (transport a message); cbn; apply IH.
Qed.

(** The piece of a request in flight is missing; once its bit is set it is not,
    and the other requests still are. *)
Lemma in_flight_piece s in_flight rest idx :
  loop_inv s in_flight → in_flight ≡ₚ idx :: rest →
  ∃ i bf', idx = Z.of_nat i ∧ BitField.held (s_bitfield s) i = false ∧
    BitField.set (s_bitfield s) i = Some bf' ∧ BitField.wf bf' ∧ piece_count bf' = n ∧
    missing pb (s_bitfield s) ≡ₚ idx :: missing pb bf' ∧
    (∀ j, BitField.held bf' j =
       if decide (Z.of_nat j = idx) then true else BitField.held (s_bitfield s) j) ∧
    idx ∉ rest ∧ NoDup rest ∧ rest ⊆ missing pb bf'.
Proof.
  intros [_ Hwf Hcount _ Hnd Hsub _] Hperm.
  assert (idx ∈ missing pb (s_bitfield s)) as (i & -> & Hi)%list_elem_of_fmap.
  { apply Hsub. rewrite Hperm. by left. }
  pose proof Hi as (Hin & Hbi & Hnb)%BitField.elem_of_difference_iff. rewrite pb_count in Hin.
  rewrite BitField.bit_held in Hnb by lia.
  destruct (BitField.set_spec (s_bitfield s) i Hwf) as (bf' & Hset & Hwf' & Hc' & Hh').
  rewrite Hcount in Hc', Hh'.
  pose proof (missing_set (s_bitfield s) bf' i Hcount Hc' Hi Hh') as Hmiss.
  rewrite Hperm in Hnd. apply NoDup_cons in Hnd as [Hnin Hndr].
  exists i, bf'. split_and!; try done.
  - intros j. rewrite Hh'. destruct (decide (i = j)) as [<-|];
      [rewrite decide_True by done; by apply Nat.ltb_lt|by rewrite decide_False by lia].
  - intros x Hx. assert (x ∈ missing pb (s_bitfield s)) as Hm.
    { apply Hsub. rewrite Hperm. by right. }
    rewrite Hmiss in Hm. apply elem_of_cons in Hm as [->|]; done.
Qed.

Lemma process_piece_step s in_flight rest idx data :
  loop_inv s in_flight → in_flight ≡ₚ idx :: rest →
  ∃ s' effs next, process_piece transport src idx data s = Some (s', effs, Ok next) ∧
    loop_inv s' (rest ++ next) ∧ written effs = [idx] ∧
    missing pb (s_bitfield s) ≡ₚ idx :: missing pb (s_bitfield s') ∧
    (∀ j, BitField.held (s_bitfield s') j =
       if decide (Z.of_nat j = idx) then true else BitField.held (s_bitfield s) j).
Proof.
  intros Hinv Hperm.
  destruct (in_flight_piece _ _ _ _ Hinv Hperm)
    as (i & bf' & -> & Hnb & Hset & Hwf' & Hc' & Hmiss & Hheld & Hnin & Hndr & Hsub').
  destruct Hinv as [Hmode Hwf Hcount (p & Hp & Hch & Hpb & Hpend) _ _ _].
  set (p1 := Pipeline.clear_piece p (Z.of_nat i)).
  assert (pending p1 = list_to_set rest) as Hp1.
  { unfold p1, Pipeline.clear_piece. cbn. rewrite Hpend. apply set_eq. intros x. rewrite elem_of_difference, !elem_of_list_to_set.
    rewrite Hperm, elem_of_cons, elem_of_singleton. naive_solver. }
  unfold process_piece, hbind at 1, get_pipeline, hbind at 1, hget, hret at 1. rewrite Hp.
  unfold hbind at 1. rewrite (add_piece_new s bf' i) by done. cbn [negb].
  unfold hbind, put_pipeline, send_downloaded_piece, get_bitfield, hget, hput, hemit, hopt, hret,
    fill, broadcast_have, hbind, get_bitfield, hget, put_pipeline, hput. cbn. rewrite Hmode. cbn.
  rewrite BitField.is_complete_spec by done. case_bool_decide as Hcomp; cbn.
  - eexists _, _, []. split; [reflexivity|]. rewrite !app_nil_r. cbn.
    assert (missing pb bf' = []) as Hnil.
    { apply elem_of_nil_inv. intros x (j & -> & (Hj & _ & Hb)%BitField.elem_of_difference_iff)%list_elem_of_fmap.
      rewrite pb_count in Hj. assert (j ∈ BitField.pieces bf') as Hpj.
      { rewrite Hcomp, Hc', elem_of_seq. lia. }
      apply elem_of_filterb in Hpj as [_ Hpj]. rewrite BitField.bit_held in Hb by lia. congruence. }
    split_and!; [|by rewrite written_broadcast|done|done].
    split; cbn [s_mode s_bitfield s_peers with_peers with_bitfield];
      [done|done|done| |done|done|intros _; rewrite Hnil; apply list_subseteq_nil].
    exists p1. by rewrite lookup_insert_eq.
  - pose proof (fill_requests_spec p1 (Some (Z.of_nat i)) bf' Hch) as Hfill.
    change (pl_bitfield p1) with (pl_bitfield p) in Hfill.
    rewrite Hpb, pb_count in Hfill. specialize (Hfill n_bound). cbv zeta in Hfill.
    fold p1. rewrite Hfill. cbn.
    assert (slots_after p1 (Some (Z.of_nat i)) = list_to_set rest) as Hslots.
    { cbn [slots_after]. rewrite Hp1. apply set_eq. intros x.
      rewrite elem_of_difference, elem_of_list_to_set, elem_of_singleton. naive_solver. }
    destruct (refill_full pb bf' rest p1 _ Hndr Hsub' Hslots) as (H1 & H2 & H3 & H4).
    eexists _, _, _. split; [reflexivity|]. cbn.
    split_and!; [|by rewrite app_nil_r, written_broadcast|done|done].
    split; cbn [s_mode s_bitfield s_peers with_peers with_bitfield];
      [done|done|done| |done|done|done].
    eexists. rewrite lookup_insert_eq. split_and!; [done|done|by cbn|]. cbn. exact H4.
Qed.

(** The loop ends with every piece of the peer fetched, each written once. *)
Lemma request_loop_spec fuel s in_flight :
  (∀ i, ∃ data, make_request network src i key = Ok (Some data)) →
  loop_inv s in_flight → length (missing pb (s_bitfield s)) ≤ fuel →
  ∃ s' effs,
    request_loop transport network fuel pick src key in_flight s = Some (s', effs, Ok true) ∧
    written effs ≡ₚ missing pb (s_bitfield s) ∧
    (∀ j, BitField.held (s_bitfield s') j =
       BitField.held (s_bitfield s) j || bool_decide (Z.of_nat j ∈ missing pb (s_bitfield s))).
Proof.
  intros Hans. revert s in_flight. induction fuel as [|fuel IH]; intros s in_flight Hinv Hfuel.
  - assert (missing pb (s_bitfield s) = []) as Hm by (destruct (missing pb _); simpl in *; [done|lia]).
    destruct Hinv as [_ _ _ _ _ Hsub _]. rewrite Hm in Hsub. destruct in_flight as [|i l].
    + exists s, []. rewrite Hm. split_and!; [done|done|]. intros j.
      rewrite bool_decide_eq_false_2 by apply not_elem_of_nil. by rewrite orb_false_r.
    + exfalso. eapply not_elem_of_nil. apply Hsub. by left.
  - destruct in_flight as [|first l] eqn:El.
    + exists s, []. assert (missing pb (s_bitfield s) = []) as Hm.
      { apply elem_of_nil_inv. intros x Hx.
        apply (li_full _ _ Hinv) in Hx; [by apply elem_of_nil in Hx|]. by apply Nat.ltb_lt. }
      rewrite Hm. split_and!; [done|done|]. intros j.
      rewrite bool_decide_eq_false_2 by apply not_elem_of_nil. by rewrite orb_false_r.
    + rewrite <-El in *. assert (in_flight ≠ []) as Hne by by subst.
      set (k := pick in_flight mod length in_flight).
      assert (k < length in_flight) as Hk by (apply Nat.mod_upper_bound; by destruct in_flight).
      destruct (lookup_lt_is_Some_2 _ _ Hk) as [idx Hidx].
      pose proof (remove_at_Permutation _ _ _ Hidx) as Hperm. symmetry in Hperm.
      destruct (Hans idx) as [data Hdata].
      destruct (process_piece_step s in_flight _ idx data Hinv Hperm)
        as (s1 & effs1 & next & E1 & Hinv1 & Hw1 & Hm1 & Hh1).
      destruct (IH s1 (remove_at k in_flight ++ next) Hinv1) as (s2 & effs2 & E2 & Hw2 & Hh2).
      { apply Permutation_length in Hm1. simpl in Hm1. lia. }
      exists s2, (effs1 ++ effs2). split_and!.
      * subst in_flight. cbn [request_loop]. fold k. rewrite Hidx. cbn [default from_option id].
        rewrite Hdata. unfold hbind. rewrite E1. by rewrite E2.
      * rewrite written_app, Hw1, Hw2, Hm1. done.
      * intros j. rewrite Hh2, Hh1. case_decide as Hj.
        -- rewrite orb_true_l, Hj, bool_decide_eq_true_2; [by rewrite orb_true_r|].
           rewrite Hm1. by left.
        -- f_equal. apply bool_decide_ext. rewrite Hm1, elem_of_cons. naive_solver.
Qed.
End download.

Lemma size_list_to_set_le (l : list Z) : size (list_to_set l : gset Z) ≤ length l.
Proof.
  induction l as [|x l IH]; cbn; [by rewrite size_empty|].
  rewrite size_union_alt, size_singleton.
  assert (size (list_to_set l ∖ {[ x ]} : gset Z) ≤ size (list_to_set l : gset Z))
    by (apply subseteq_size; set_solver). lia.
Qed.

(** ** The handshake, over a transport that takes every message *)

Lemma try_from_to_vec h : InfoHash.wf h → InfoHash.try_from (InfoHash.to_vec h) = Ok h.
Proof.
  destruct h as [x|x]; intros [Hl _]; unfold InfoHash.try_from, InfoHash.to_vec;
    cbn [InfoHash.as_ref]; by rewrite Hl.
Qed.

Section handshake_steps.
Context `{Crypto}.
Let transport (_ : SocketAddr) (_ : StandardMessage) : Result BepRouterError unit := Ok tt.

(** Answering a handshake for our torrent, from a peer that is not active. *)
Lemma answer_handshake s src id h :
  InfoHash.try_from (InfoHash.to_vec h) = Ok h → h = s_info_hash s →
  match s_peers s !! src with Some (Active _) => False | _ => True end →
  handle_handshake transport (InfoHash.to_vec h) id src s =
    match s_peers s !! src with
    | Some (Pending _ true) =>
      Some (with_peers s (<[src := Pending id true]> (s_peers s)),
            [Sent src (MBitfield (BitField.as_bytes (s_bitfield s)))], Ok tt)
    | _ =>
      Some (with_peers s (<[src := Pending id false]> (s_peers s)),
            [Sent src (MHandshake (InfoHash.to_vec h) (s_host_id s))], Ok tt)
    end.
Proof.
  intros Htry -> Hp. unfold handle_handshake, get_pipeline, is_pending_outbound, insert_pending,
    get_bitfield, send, hbind, hget, hput, hret, hemit. cbn. rewrite Htry.
  destruct (s_peers s !! src) as [[|pid [|]|p]|] eqn:E; cbn; try done;
    rewrite bool_decide_eq_true_2 by done; cbn; by rewrite E.
Qed.

(** Receiving the bit field of a pending peer. *)
Lemma answer_bitfield s src id out bits :
  s_peers s !! src = Some (Pending id out) →
  ∃ s' effs p,
    handle_bitfield transport bits src s =
      Some (s', (if out then [] else [Sent src (MBitfield (BitField.as_bytes (s_bitfield s)))])
                ++ effs, Ok tt) ∧
    s_peers s' !! src = Some (Active p) ∧ pl_peer p = from_socket (Key_new id) src ∧
    pl_bitfield p = BitField.from_wire bits (s_piece_count s) ∧
    effs = match s_mode s with
           | MDownloading => if decide (BitField.difference (pl_bitfield p) (s_bitfield s) = [])
                             then [] else [Sent src MInterested]
           | _ => []
           end.
Proof.
  intros Hp. unfold handle_bitfield, get_pipeline, get_pending_peer, is_pending_outbound,
    insert_pipeline, put_pipeline, get_bitfield, send, hbind, hget, hput, hret, hemit.
  cbn. rewrite Hp.
  set (bf := BitField.from_wire bits (s_piece_count s)).
  destruct out, (s_mode s) eqn:Em; cbn; rewrite ?Em; cbn; rewrite ?lookup_insert_eq; cbn;
    fold bf; destruct (BitField.difference bf (s_bitfield s)) as [|d ds] eqn:Ed; cbn;
    eexists _, _, _; (split; [reflexivity|]); cbn;
    (split; [apply lookup_insert_eq|]); (split; [done|]); (split; [done|]);
    cbn; fold bf; by rewrite ?Ed.
Qed.

(** The pieces one side lacks and the other has. *)
Definition wants (ours theirs : BitField) : Prop :=
  ∃ i, BitField.held theirs i = true ∧ BitField.held ours i = false.

Lemma difference_wants ours theirs :
  piece_count theirs = piece_count ours → BitField.difference theirs ours ≠ [] ↔ wants ours theirs.
Proof.
  intros Hc. split.
  - intros Hd. destruct (BitField.difference theirs ours) as [|i l] eqn:E; [done|]. exists i.
    assert (i ∈ BitField.difference theirs ours) as (Hi & Ht & Ho)%BitField.elem_of_difference_iff
      by (rewrite E; by left).
    rewrite !BitField.bit_held in * by lia. done.
  - intros (i & Ht & Ho) Hd. assert (i < piece_count theirs) as Hi.
    { unfold BitField.held in Ht. b2p. done. }
    assert (i ∈ BitField.difference theirs ours) as Hin; [|rewrite Hd in Hin; by apply elem_of_nil in Hin].
    apply BitField.elem_of_difference_iff. by rewrite !BitField.bit_held by lia.
Qed.

(** What a side says after the bit fields: that it is interested, exactly when it
    downloads and lacks a piece the other has. *)
Definition says_interest (s : Session) (theirs : BitField) (peer : SocketAddr) (out : list Effect)
    : Prop :=
  (out = [Sent peer MInterested] ∧ s_mode s = MDownloading ∧ wants (s_bitfield s) theirs) ∨
  (out = [] ∧ (s_mode s = MDownloading → ¬ wants (s_bitfield s) theirs)).

Lemma interest_said s theirs peer :
  piece_count theirs = piece_count (s_bitfield s) →
  says_interest s theirs peer
    match s_mode s with
    | MDownloading => if decide (BitField.difference theirs (s_bitfield s) = [])
                      then [] else [Sent peer MInterested]
    | _ => []
    end.
Proof.
  intros Hc. destruct (s_mode s) eqn:Em; [|by right; rewrite Em..].
  case_decide as Hd; [right|left; by rewrite <-difference_wants].
  split; [done|]. intros _ Hw. by apply difference_wants in Hw.
Qed.
End handshake_steps.

(** * Properties *)

(** Filling the pipeline of an unchoked peer requests, in ascending order,
    exactly the first pieces the peer has and we lack that are not already
    pending, as many as there are free slots out of 128, and marks them
    pending; never more than 128 are pending, and a choked pipeline requests
    nothing. *)
Theorem fill_requests_exact (p : Pipeline) (received : option Z) (bf : BitField)
    (Hcount : (Z.of_nat (piece_count (pl_bitfield p)) ≤ 2 ^ 32)%Z)
    (Hpend : size (pending p) ≤ 128) :
  let r := Pipeline.fill_requests p received bf in
  if peer_choking p then r = (p, [])
  else
    let pend := slots_after p received in
    r.2 = take (128 - size pend)
            (List.filter (λ i, bool_decide (i ∉ pend))
               (map Z.of_nat (BitField.difference (pl_bitfield p) bf))) ∧
    pending r.1 = list_to_set r.2 ∪ pend ∧ size (pending r.1) ≤ 128.
Proof.
  cbv zeta. destruct (peer_choking p) eqn:Hch.
  { unfold Pipeline.fill_requests. by rewrite Hch. }
  rewrite fill_requests_spec by done. cbn [fst snd]. fold (fresh (slots_after p received)).
  set (pend := slots_after p received). set (new := take _ _). split_and!; [done|done|].
  assert (size pend ≤ 128) as Hp.
  { unfold pend, slots_after. destruct received; [|done].
    etransitivity; [apply (subseteq_size _ (pending p)); set_solver|done]. }
  cbn [pending Pipeline.set_pending].
  assert (length new ≤ 128 - size pend) as Hn
    by (unfold new, MAX_PIPELINE; rewrite length_take; lia).
  pose proof (size_list_to_set_le new). rewrite size_union_alt.
  assert (size (pend ∖ list_to_set new) ≤ size pend) by (apply subseteq_size; set_solver). lia.
Qed.

(** C10: Being unchoked by a peer that answers every request, with none pending, downloads
    everything it has: whatever order the answers come in, the loop of requests in flight
    ends, hands each piece the peer has and we lack to the writer exactly once,
    and leaves us holding what we held plus what the peer has. *)
Theorem unchoke_downloads_all `{Crypto}
    (transport : SocketAddr → StandardMessage → Result BepRouterError unit)
    (network : SocketAddr → Z → Result BepRouterError (list Z)) (pick : list Z → nat)
    (src : SocketAddr) (s : Session) (p : Pipeline) (n fuel : nat)
    (Hmode : s_mode s = MDownloading) (Hwf : BitField.wf (s_bitfield s))
    (Hcount : piece_count (s_bitfield s) = n) (Hcount' : piece_count (pl_bitfield p) = n)
    (Hn : (Z.of_nat n ≤ 2 ^ 32)%Z) (Hfuel : n ≤ fuel)
    (Hpeer : s_peers s !! src = Some (Active p)) (Hpending : pending p = ∅)
    (Hanswers : ∀ i, ∃ data, make_request network src i (node_id (pl_peer p)) = Ok (Some data)) :
  ∃ s' effs, handle_unchoke transport network fuel pick src s = Some (s', effs, Ok true) ∧
    written effs ≡ₚ map Z.of_nat (BitField.difference (pl_bitfield p) (s_bitfield s)) ∧
    ∀ j, BitField.held (s_bitfield s') j =
         BitField.held (s_bitfield s) j || ((j <? n) && BitField.bit (pl_bitfield p) j).
Proof.
  set (p1 := Pipeline.on_unchoke p). set (bf := s_bitfield s) in *.
  pose proof (fill_requests_spec p1 None bf eq_refl) as Hfill.
  change (pl_bitfield p1) with (pl_bitfield p) in Hfill. rewrite Hcount' in Hfill.
  specialize (Hfill Hn). cbv zeta in Hfill.
  destruct (refill_full (pl_bitfield p) bf [] p1 None) as (H1 & H2 & H3 & H4);
    [constructor|apply list_subseteq_nil|cbn [slots_after]; change (pending p1) with (pending p);
     by rewrite Hpending|].
  cbn [app] in H1, H2, H3, H4. fold (missing (pl_bitfield p) bf) in Hfill.
  set (new := take _ _) in *.
  set (s1 := with_peers s (<[src := Active (Pipeline.set_pending p1 (list_to_set new ∪ slots_after p1 None))]>
               (s_peers s))).
  destruct (request_loop_spec transport network pick src (pl_bitfield p)
    (node_id (pl_peer p)) n Hn Hcount' fuel s1 new Hanswers) as (s' & effs & E & Hw & Hh).
  { split; cbn [s_mode s_bitfield s_peers with_peers s1]; try done.
    eexists. rewrite lookup_insert_eq. split_and!; [done|done|done|exact H4]. }
  { cbn [s1 s_bitfield with_peers]. fold bf. unfold missing.
    rewrite length_map, BitField.difference_filter.
    etransitivity; [apply List.filter_length_le|]. rewrite length_seq. lia. }
  exists s', effs. split_and!; [|done|].
  - unfold handle_unchoke, hbind at 1, get_pipeline, hbind at 1, hget, hret at 1.
    rewrite Hpeer. unfold hbind at 1, fill, hbind at 1, get_bitfield, hbind at 1, hget, hret at 1.
    cbn [app]. fold p1 bf. rewrite Hfill. unfold hbind at 1, put_pipeline, hbind at 1, hget, hput, hret.
    cbn [app]. fold s1. change (pl_peer p1) with (pl_peer p). by rewrite E.
  - intros j. rewrite Hh. cbn [s1 s_bitfield with_peers]. fold bf.
    destruct (decide (Z.of_nat j ∈ missing (pl_bitfield p) bf)) as [Hj|Hj].
    + rewrite bool_decide_eq_true_2 by done.
      apply list_elem_of_fmap in Hj as (k & <-%Nat2Z.inj & (Hk & Hb & _)%BitField.elem_of_difference_iff).
      rewrite Hb, (proj2 (Nat.ltb_lt _ _)) by lia. done.
    + rewrite bool_decide_eq_false_2, orb_false_r by done.
      destruct (BitField.held bf j) eqn:Hb; [done|]. cbn [orb]. symmetry. apply andb_false_iff.
      destruct (Nat.ltb_spec j n); [|by left]. right. apply not_true_iff_false. intros Hbit. apply Hj.
      apply list_elem_of_fmap. exists j. split; [done|]. apply BitField.elem_of_difference_iff.
      split_and!; [lia|done|]. by rewrite BitField.bit_held by lia.
Qed.

(** A received piece counts as held before its hash is checked, whatever its
    data: its bit is set, it goes to the writer, and from then on no pipeline
    requests it, so a piece the writer rejects for its hash is not fetched
    again. *)
Theorem received_piece_not_refetched `{Crypto}
    (transport : SocketAddr → StandardMessage → Result BepRouterError unit)
    (src : SocketAddr) (s : Session) (p q : Pipeline) (i : nat) (data : list Z)
    (received : option Z)
    (Hmode : s_mode s = MDownloading) (Hwf : BitField.wf (s_bitfield s))
    (Hi : i < piece_count (s_bitfield s)) (Hmissing : BitField.held (s_bitfield s) i = false)
    (Hpeer : s_peers s !! src = Some (Active p))
    (Hq : peer_choking q = false) (Hqn : (Z.of_nat (piece_count (pl_bitfield q)) ≤ 2 ^ 32)%Z) :
  ∃ s' effs next, process_piece transport src (Z.of_nat i) data s = Some (s', effs, Ok next) ∧
    ToWriter (Z.of_nat i) data ∈ effs ∧ BitField.have (s_bitfield s') i = Some true ∧
    Z.of_nat i ∉ (Pipeline.fill_requests q received (s_bitfield s')).2.
Proof.
  destruct (BitField.set_spec (s_bitfield s) i Hwf) as (bf' & Hset & Hwf' & Hc' & Hh').
  assert (BitField.held bf' i = true) as Hheld.
  { rewrite Hh', decide_True by done. by apply Nat.ltb_lt. }
  assert (∃ s' effs next, process_piece transport src (Z.of_nat i) data s = Some (s', effs, Ok next) ∧
    ToWriter (Z.of_nat i) data ∈ effs ∧ s_bitfield s' = bf') as (s' & effs & next & E & Hw & Hbf).
  { unfold process_piece, hbind at 1, get_pipeline, hbind at 1, hget, hret at 1. rewrite Hpeer.
    unfold hbind at 1. rewrite (add_piece_new s bf' i) by done. cbn [negb].
    unfold hbind, put_pipeline, send_downloaded_piece, get_bitfield, hget, hput, hemit, hopt, hret,
      fill, broadcast_have, hbind, get_bitfield, hget, put_pipeline, hput. cbn. rewrite Hmode. cbn.
    rewrite BitField.is_complete_spec by done. case_bool_decide; cbn.
    - eexists _, _, _. split; [reflexivity|]. split; [by left|done].
    - destruct (Pipeline.fill_requests _ _ _) as [p' reqs]. cbn.
      eexists _, _, _. split; [reflexivity|]. split; [by left|done]. }
  exists s', effs, next. rewrite Hbf. split_and!; [done|done|by rewrite BitField.have_held, Hheld by done|].
  rewrite fill_requests_spec by done. cbn [snd]. intros Hin.
  assert (Z.of_nat i ∈ map Z.of_nat (BitField.difference (pl_bitfield q) bf')) as Hd.
  { eapply (proj1 (elem_of_filterb _ _ _)). rewrite <-(take_drop (MAX_PIPELINE - size (slots_after q received))).
    apply elem_of_app. left. exact Hin. }
  apply list_elem_of_fmap in Hd as (k & <-%Nat2Z.inj & (_ & _ & Hb)%BitField.elem_of_difference_iff).
  rewrite BitField.bit_held in Hb by lia. congruence.
Qed.

(** C14: A request for a piece is passed on for serving exactly when the session
    is seeding, the peer's pipeline is active, we are not choking it and we hold
    the piece; in every other case nothing is served, and the session does not
    change. *)
Theorem piece_request_served `{Crypto}
    (transport : SocketAddr → StandardMessage → Result BepRouterError unit)
    (network : SocketAddr → Z → Result BepRouterError (list Z)) (fuel : nat) (pick : list Z → nat)
    (src : SocketAddr) (s : Session) (i : nat) (Hwf : BitField.wf (s_bitfield s)) :
  handle_request transport network fuel pick (MRequest (Z.of_nat i)) src s =
    Some (s, match s_mode s, s_peers s !! src with
             | MSeeding, Some (Active p) =>
               if negb (am_choking p) && BitField.held (s_bitfield s) i
               then [ToReader (Z.of_nat i)] else []
             | _, _ => []
             end, Ok tt).
Proof.
  unfold handle_request, hbind at 1, hget.
  destruct (s_mode s) eqn:Hm; [done| |done]. cbn.
  unfold handle_piece_request, hbind, get_pipeline, hbind, hget, hret, get_bitfield, hopt,
    send_piece_request, hemit. cbn.
  destruct (s_peers s !! src) as [[| |p]|]; [done|done| |done].
  destruct (am_choking p); [done|]. cbn. rewrite Nat2Z.id, BitField.have_held by done.
  destruct (BitField.held (s_bitfield s) i); cbn; [|done]. by rewrite Hm.
Qed.

(** C13: The handshake brings both sides together: once the connecting side has
    introduced itself and the two have exchanged handshakes and bit fields,
    each holds an active pipeline with the other's identity and bit field, and each side,
    the connecting one and the accepting one alike, has declared its interest exactly when
    it is downloading and the other has a piece it lacks. *)
Theorem handshake_completes `{Crypto} (network : SocketAddr → Z → Result BepRouterError (list Z))
    (fuel : nat) (pick : list Z → nat) (a b : SocketAddr) (sa sb : Session)
    (Hhash : s_info_hash sa = s_info_hash sb) (Hwf : InfoHash.wf (s_info_hash sa))
    (Hcounta : piece_count (s_bitfield sa) = s_piece_count sa)
    (Hcountb : piece_count (s_bitfield sb) = s_piece_count sb)
    (Hcount : s_piece_count sa = s_piece_count sb)
    (Hnew : match s_peers sb !! a with None => True | Some _ => False end) :
  let connect := λ _, Ok tt in
  let transport := λ _ _, Ok tt in
  let run := handle_request transport network fuel pick in
  let h := InfoHash.to_vec (s_info_hash sa) in
  ∃ sa1 sb1 sa2 sb2 sa3 to_a to_b pa pb,
    handshake connect transport b sa = Some (sa1, [Sent b (MHandshake h (s_host_id sa))], Ok tt) ∧
    run (MHandshake h (s_host_id sa)) a sb = Some (sb1, [Sent a (MHandshake h (s_host_id sb))], Ok tt) ∧
    run (MHandshake h (s_host_id sb)) b sa1 =
      Some (sa2, [Sent b (MBitfield (BitField.as_bytes (s_bitfield sa)))], Ok tt) ∧
    run (MBitfield (BitField.as_bytes (s_bitfield sa))) a sb1 =
      Some (sb2, Sent a (MBitfield (BitField.as_bytes (s_bitfield sb))) :: to_a, Ok tt) ∧
    run (MBitfield (BitField.as_bytes (s_bitfield sb))) b sa2 = Some (sa3, to_b, Ok tt) ∧
    s_peers sa3 !! b = Some (Active pa) ∧ s_peers sb2 !! a = Some (Active pb) ∧
    pl_peer pa = from_socket (Key_new (s_host_id sb)) b ∧
    pl_peer pb = from_socket (Key_new (s_host_id sa)) a ∧
    pl_bitfield pa = s_bitfield sb ∧ pl_bitfield pb = s_bitfield sa ∧
    says_interest sa (s_bitfield sb) b to_b ∧ says_interest sb (s_bitfield sa) a to_a.
Proof.
  cbv zeta.
  pose proof (try_from_to_vec _ Hwf) as Htry.
  destruct (s_peers sb !! a) eqn:Ea; [done|].
  set (sa1 := with_peers sa (<[b := Pending (s_host_id sa) true]> (s_peers sa))).
  set (sb1 := with_peers sb (<[a := Pending (s_host_id sa) false]> (s_peers sb))).
  set (sa2 := with_peers sa1 (<[b := Pending (s_host_id sb) true]> (s_peers sa1))).
  destruct (answer_bitfield sb1 a (s_host_id sa) false (BitField.as_bytes (s_bitfield sa)))
    as (sb2 & to_a & pb & Eb & Hpb & Hidb & Hbfb & Hintb); [apply lookup_insert_eq|].
  destruct (answer_bitfield sa2 b (s_host_id sb) true (BitField.as_bytes (s_bitfield sb)))
    as (sa3 & to_b & pa & Ec & Hpa & Hida & Hbfa & Hinta); [apply lookup_insert_eq|].
  assert (pl_bitfield pa = s_bitfield sb) as Ea'.
  { rewrite Hbfa. cbn. rewrite Hcount, <-Hcountb. by destruct (s_bitfield sb). }
  assert (pl_bitfield pb = s_bitfield sa) as Eb'.
  { rewrite Hbfb. cbn. rewrite <-Hcount, <-Hcounta. by destruct (s_bitfield sa). }
  rewrite Ea' in Hinta. rewrite Eb' in Hintb.
  exists sa1, sb1, sa2, sb2, sa3, to_a, to_b, pa, pb.
  split_and!; [reflexivity| | |exact Eb|exact Ec|done|done|done|done|done|done| |].
  - rewrite Hhash in Htry |- *. unfold handle_request.
    rewrite (answer_handshake _ _ _ (s_info_hash sb)); [by rewrite Ea|done|done|by rewrite Ea].
  - unfold handle_request. rewrite (answer_handshake _ _ _ (s_info_hash sa));
      [|done|done|by cbn; rewrite lookup_insert_eq]. cbn. by rewrite lookup_insert_eq.
  - rewrite Hinta. exact (interest_said sa (s_bitfield sb) b ltac:(congruence)).
  - rewrite Hintb. exact (interest_said sb (s_bitfield sa) a ltac:(congruence)).
Qed.

(** * The hypotheses hold on concrete sessions *)

Module BepExamples.
Definition alice : SocketAddr := SocketV4 (2 ^ 24) 6881.
Definition bob : SocketAddr := SocketV4 (2 ^ 24 + 1) 6882.
Definition bob_key : list Z := [7; 8; 9]%Z.

(** Bob has pieces 0, 1 and 3 of four; we have piece 1. *)
Definition bob_pipeline : Pipeline :=
  @Pipeline.pipeline_new (@from_socket (@Key_new Toy.ToyCrypto bob_key) bob)
    (BitField.from_wire [208]%Z 4).
Definition ours : Session :=
  mkSession (HashV1 (replicate 20 5%Z)) 4 MDownloading (BitField.from_wire [64]%Z 4)
    {[ bob := Active bob_pipeline ]} [1; 2]%Z.
Definition theirs : Session :=
  mkSession (HashV1 (replicate 20 5%Z)) 4 MSeeding (BitField.from_wire [208]%Z 4) ∅ bob_key.

Definition open_transport (_ : SocketAddr) (_ : StandardMessage) : Result BepRouterError unit := Ok tt.
Definition bob_answers (_ : SocketAddr) (i : Z) : Result BepRouterError (list Z) :=
  match @make_payload Toy.ToyCrypto _ i [i; 42%Z] (signer_sign (Toy.signer bob_key)) with
  | Ok payload => Ok payload
  | Err _ => Err HandleFailed
  end.

Lemma bob_answers_ok src (i : Z) :
  @make_request Toy.ToyCrypto bob_answers src i (node_id (pl_peer bob_pipeline)) = Ok (Some [i; 42%Z]).
Proof.
  unfold make_request, bob_answers, make_payload. cbn [signer_sign Toy.signer rbind].
  rewrite split_payload_app by apply length_replicate.
  unfold verify_piece, Verifier_verify. change (key_pub (node_id (pl_peer bob_pipeline))) with bob_key.
  cbn [ed25519_verify Toy.ToyCrypto]. by rewrite bool_decide_eq_true_2.
Qed.

Lemma fill_requests_exact_witness :
  (Pipeline.fill_requests (Pipeline.on_unchoke bob_pipeline) None (s_bitfield ours)).2 = [0; 3]%Z.
Proof.
  pose proof (fill_requests_exact (Pipeline.on_unchoke bob_pipeline) None (s_bitfield ours)) as H.
  cbv zeta in H. destruct H as [H _]; [by vm_compute|vm_compute; lia|]. rewrite H. by vm_compute.
Defined.

Lemma unchoke_downloads_all_witness :
  ∃ s' effs, @handle_unchoke Toy.ToyCrypto open_transport bob_answers 4 (λ _, 1) bob ours =
      Some (s', effs, Ok true) ∧ written effs ≡ₚ [0; 3]%Z.
Proof.
  destruct (@unchoke_downloads_all Toy.ToyCrypto open_transport bob_answers (λ _, 1) bob ours
    bob_pipeline 4 4) as (s' & effs & E & Hw & _);
    [done|by apply (bool_decide_unpack _)|done|done|lia|lia|by vm_compute|done| |].
  - intros i. exists [i; 42%Z]. apply bob_answers_ok.
  - exists s', effs. split; [done|]. rewrite Hw. by vm_compute.
Defined.

Lemma received_piece_not_refetched_witness :
  ∃ s' effs next, @process_piece open_transport bob 3 [0]%Z ours = Some (s', effs, Ok next) ∧
    3%Z ∉ (Pipeline.fill_requests (Pipeline.on_unchoke bob_pipeline) None (s_bitfield s')).2.
Proof.
  destruct (@received_piece_not_refetched Toy.ToyCrypto open_transport bob ours bob_pipeline
    (Pipeline.on_unchoke bob_pipeline) 3 [0]%Z None) as (s' & effs & next & E & _ & _ & Hn);
    [done|by apply (bool_decide_unpack _)|vm_compute; lia|done|by vm_compute|done|by vm_compute|].
  by exists s', effs, next.
Defined.

Lemma piece_request_served_witness :
  @handle_request Toy.ToyCrypto open_transport bob_answers 0 (λ _, 0) (MRequest 3) alice
    (with_peers theirs {[ alice := Active (Pipeline.set_choking false bob_pipeline) ]}) =
  Some (with_peers theirs {[ alice := Active (Pipeline.set_choking false bob_pipeline) ]},
        [ToReader 3], Ok tt).
Proof.
  refine (eq_trans (@piece_request_served Toy.ToyCrypto open_transport bob_answers 0 (λ _, 0) alice
    (with_peers theirs {[ alice := Active (Pipeline.set_choking false bob_pipeline) ]}) 3 _) _);
    [by apply (bool_decide_unpack _)|by vm_compute].
Defined.

(** We connect to Bob, who seeds; then Bob, downloading what we have, to us: the accepting
    side is the one that is interested. *)
Definition us : Session := with_peers ours ∅.
Definition downloader : Session :=
  mkSession (HashV1 (replicate 20 5%Z)) 4 MDownloading (BitField.from_wire [128]%Z 4) ∅ [3]%Z.

Lemma handshake_completes_witness :
  (∃ to_b, says_interest us (s_bitfield theirs) bob to_b ∧ to_b = [Sent bob MInterested]) ∧
  (∃ to_a, says_interest downloader (s_bitfield theirs) alice to_a ∧ to_a = [Sent alice MInterested]).
Proof.
  split.
  - destruct (@handshake_completes Toy.ToyCrypto bob_answers 0 (λ _, 0) alice bob us theirs)
      as (sa1 & sb1 & sa2 & sb2 & sa3 & to_a & to_b & pa & pb & _ & _ & _ & _ & _ & _ & _ & _ & _ & _ & _
          & Hb & _); [done|by apply (bool_decide_unpack _)|done|done|done|done|].
    exists to_b. split; [exact Hb|]. destruct Hb as [[-> _]|[_ Hn]]; [done|]. exfalso.
    apply Hn; [done|]. exists 0. by vm_compute.
  - destruct (@handshake_completes Toy.ToyCrypto bob_answers 0 (λ _, 0) alice bob theirs downloader)
      as (sa1 & sb1 & sa2 & sb2 & sa3 & to_a & to_b & pa & pb & _ & _ & _ & _ & _ & _ & _ & _ & _ & _ & _
          & _ & Ha); [done|by apply (bool_decide_unpack _)|done|done|done|done|].
    exists to_a. split; [exact Ha|]. destruct Ha as [[-> _]|[_ Hn]]; [done|]. exfalso.
    apply Hn; [done|]. exists 1. by vm_compute.
Defined.
End BepExamples.
