(* ===== verification/Swarm.v ===== *)
(** Downloading from several peers at once.  Every packet is handled by a task of its
    own ([Bqti::serve_forever]), so the handlers of [Bep], which are given
    there one at a time, run interleaved: an [Unchoke] starts a task that requests pieces
    and takes them in until nothing is left, while others do the same for other
    peers or the same one, and chokes, announcements, new peers and pauses come
    in between.  Here the tasks are cut where they take a lock or read an
    atomic, and any order of the stretches is a run.

    A [Pipeline] is shared by the table of peers and the tasks that looked it up, so
    pipelines are kept in a list and named by their position. *)

From S2P Require Import Prelude Net Crypto BitField Wire Metainfo Routing Bep.

(** Where a task is, with the pipeline it holds. *)
Inductive Point :=
| AtUnchoke
| AtFill (pid : nat) (received : option Z)
| AtPending (pid : nat) (received : option Z) (session_bitfield : BitField)
| AtLoop
| AtPiece (index : Z) (data : list Z)
| AtAdd (pid : nat) (index : Z) (data : list Z)
| AtClear (pid : nat) (index : Z) (data : list Z)
| AtCount (pid : nat) (index : Z) (data : list Z)
| AtSend (pid : nat) (index : Z) (data : list Z)
| AtComplete (pid : nat) (index : Z)
| AtChokeClear (pid : nat).

Record DTask := mkTask { t_source : SocketAddr; t_in_flight : list Z; t_point : Point }.

(** [w_peers] has the active peers; [w_writer] is what was sent to the writer, and
    [w_lost] what was not, since the session was no longer downloading or the writer had
    gone; [w_receiving] says whether the writer still has its end of the channel.
    [w_pending] is what these tasks make of the counter of pending writes, which the writer
    counts down ([Download]). *)
Record Swarm := mkSwarm {
  w_mode : ActiveMode;
  w_bitfield : BitField;
  w_peers : gmap SocketAddr nat;
  w_pipelines : list Pipeline;
  w_tasks : list DTask;
  w_writer : list (Z * list Z);
  w_lost : list (Z * list Z);
  w_receiving : bool;
  w_pending : Z;
}.

(** [SActivate] is the end of a handshake, [SLeave] a disconnection, [SPause] the
    transition that leaves the downloading state, [SWriterGone] the end of the writer's
    task, which drops its end of the channel while the session may still be in the
    downloading state; [SRun i pick answer] lets the
    [i]-th task run to its next lock, [pick] and [answer] being the request that
    completes and the verified data of its reply, if any. *)
Inductive SwarmEvent :=
| SUnchoke (source : SocketAddr)
| SChoke (source : SocketAddr)
| SHave (source : SocketAddr) (index : Z)
| SActivate (source : SocketAddr) (peer : Node) (bits : list Z)
| SLeave (source : SocketAddr)
| SPause
| SWriterGone
| SRun (i pick : nat) (answer : option (list Z)).

Definition set_pipelines (l : list Pipeline) (w : Swarm) : Swarm :=
  mkSwarm (w_mode w) (w_bitfield w) (w_peers w) l (w_tasks w) (w_writer w) (w_lost w)
    (w_receiving w) (w_pending w).
Definition set_pipeline (pid : nat) (p : Pipeline) (w : Swarm) : Swarm :=
  set_pipelines (<[pid := p]> (w_pipelines w)) w.
Definition set_tasks (l : list DTask) (w : Swarm) : Swarm :=
  mkSwarm (w_mode w) (w_bitfield w) (w_peers w) (w_pipelines w) l (w_writer w) (w_lost w)
    (w_receiving w) (w_pending w).
Definition set_peers (m : gmap SocketAddr nat) (w : Swarm) : Swarm :=
  mkSwarm (w_mode w) (w_bitfield w) m (w_pipelines w) (w_tasks w) (w_writer w) (w_lost w)
    (w_receiving w) (w_pending w).

(** The [i]-th task goes on as [t], or ends. *)
Definition goto (i : nat) (t : DTask) (p : Point) (w : Swarm) : Swarm :=
  set_tasks (<[i := mkTask (t_source t) (t_in_flight t) p]> (w_tasks w)) w.
Definition ends (i : nat) (w : Swarm) : Swarm := set_tasks (remove_at i (w_tasks w)) w.

(** src/src/bit_torrent/session/bep/pipeline.rs:115-143 [Pipeline::fill_requests, under the lock of pending] *)
Definition fill_pending (self : Pipeline) (received : option Z) (session_bitfield : BitField)
    : Pipeline * list Z :=
  let pend := match received with Some index => pending self ∖ {[ index ]}
                                | None => pending self end in
  let available_slots := MAX_PIPELINE - size pend in
  if available_slots =? 0 then (Pipeline.set_pending self pend, [])
  else
    let '(pend, requests) :=
      Pipeline.fill_loop (BitField.difference (pl_bitfield self) session_bitfield) pend
        available_slots [] in
    (Pipeline.set_pending self pend, requests).

(** src/src/bit_torrent/session/session.rs:510-519 [TorrentSession::add_piece]

    [None] is an index panic, which ends the task. *)
Definition add_piece_step (index : Z) (bf : BitField) : option (BitField * bool) :=
  has ← BitField.have bf (Z.to_nat index);
  if (has : bool) then Some (bf, false)
  else bf ← BitField.set bf (Z.to_nat index); Some (bf, true).

(** src/src/bit_torrent/session/session.rs:399-400 [TorrentSession::send_downloaded_piece, the counter]

    The counter is raised first. *)
Definition count_piece (w : Swarm) : Swarm :=
  mkSwarm (w_mode w) (w_bitfield w) (w_peers w) (w_pipelines w) (w_tasks w) (w_writer w) (w_lost w)
    (w_receiving w) (u64 (w_pending w + 1)).
(** src/src/bit_torrent/session/session.rs:402-412 [TorrentSession::send_downloaded_piece, the send]

    A stretch of its own, under the lock of the state: the channel is there while the
    session is downloading, and a send fails when the writer has dropped the other
    end; either way the counter is lowered again. *)
Definition hand_over (index : Z) (data : list Z) (w : Swarm) : Swarm :=
  let given_up :=
    mkSwarm (w_mode w) (w_bitfield w) (w_peers w) (w_pipelines w) (w_tasks w)
      (w_writer w) (w_lost w ++ [(index, data)]) (w_receiving w) (u64 (w_pending w - 1)) in
  match w_mode w with
  | MDownloading =>
    if w_receiving w then
      mkSwarm (w_mode w) (w_bitfield w) (w_peers w) (w_pipelines w) (w_tasks w)
        (w_writer w ++ [(index, data)]) (w_lost w) (w_receiving w) (w_pending w)
    else given_up
  | _ => given_up
  end.

(** src/src/bit_torrent/session/bep/pipeline.rs:57-61 [Pipeline::on_choke]

    The store of [peer_choking], and what follows once the lock of [pending] is
    taken: another task may run in between. *)
Definition choke_store (self : Pipeline) : Pipeline :=
  mkPipeline (pl_peer self) (pl_bitfield self) (am_choking self) (am_interested self) true
    (peer_interested self) (pending self).
Definition choke_clear (self : Pipeline) : Pipeline :=
  mkPipeline (pl_peer self) (pl_bitfield self) (am_choking self) false (peer_choking self)
    (peer_interested self) ∅.

(** A task holds the bit field of a pipeline for reading. *)
Definition reading (w : Swarm) (pid : nat) : bool :=
  existsb (λ t, match t_point t with AtPending p _ _ => p =? pid | _ => false end) (w_tasks w).

(** src/src/bit_torrent/session/bep/router.rs:546-581 [BepRouter::process_piece]

    The stretches of [process_piece] that follow the lookup of the pipeline, up to
    [fill_requests]. *)
Definition run_process (i : nat) (pid : nat) (t : DTask) (w : Swarm) (index : Z) (data : list Z)
    (p : Point) : Swarm :=
  match p with
  | AtAdd _ _ _ =>
    match add_piece_step index (w_bitfield w) with
    | None => ends i w
    | Some (bf, added) =>
      goto i t (if (added : bool) then AtClear pid index data else AtFill pid None)
        (mkSwarm (w_mode w) bf (w_peers w) (w_pipelines w) (w_tasks w) (w_writer w) (w_lost w)
           (w_receiving w) (w_pending w))
    end
  | AtClear _ _ _ =>
    match w_pipelines w !! pid with
    | None => goto i t (AtCount pid index data) w
    | Some p => goto i t (AtCount pid index data) (set_pipeline pid (Pipeline.clear_piece p index) w)
    end
  | AtCount _ _ _ => goto i t (AtSend pid index data) (count_piece w)
  | AtSend _ _ _ => goto i t (AtComplete pid index) (hand_over index data w)
  | _ =>
    match BitField.is_complete (w_bitfield w) with
    | None => ends i w
    | Some complete => goto i t (if (complete : bool) then AtLoop else AtFill pid (Some index)) w
    end
  end.

(** src/src/bit_torrent/session/bep/router.rs:330-363 [handle_request_downloading, Unchoke]

    One stretch of the task.  [fill_requests] is cut before it locks
    [pending]. *)
Definition run_point (i pick : nat) (answer : option (list Z)) (t : DTask) (w : Swarm) : Swarm :=
  match t_point t with
  | AtUnchoke =>
    match pid ← w_peers w !! t_source t; p ← w_pipelines w !! pid; Some (pid, p) with
    | None => ends i w
    | Some (pid, p) => goto i t (AtFill pid None) (set_pipeline pid (Pipeline.on_unchoke p) w)
    end
  | AtFill pid received =>
    match w_pipelines w !! pid with
    | None => ends i w
    | Some p => goto i t (if peer_choking p then AtLoop
                          else AtPending pid received (w_bitfield w)) w
    end
  | AtPending pid received bf =>
    match w_pipelines w !! pid with
    | None => ends i w
    | Some p =>
      let '(p, requests) := fill_pending p received bf in
      goto i (mkTask (t_source t) (t_in_flight t ++ requests) AtLoop) AtLoop (set_pipeline pid p w)
    end
  | AtLoop =>
    match t_in_flight t with
    | [] => ends i w
    | first :: _ =>
      let k := pick mod length (t_in_flight t) in
      let index := default first (t_in_flight t !! k) in
      goto i (mkTask (t_source t) (remove_at k (t_in_flight t)) AtLoop)
        (match answer with Some data => AtPiece index data | None => AtLoop end) w
    end
  | AtPiece index data =>
    match w_peers w !! t_source t with
    | None => goto i t AtLoop w
    | Some pid => goto i t (AtAdd pid index data) w
    end
  | AtAdd pid index data | AtClear pid index data | AtCount pid index data | AtSend pid index data =>
    run_process i pid t w index data (t_point t)
  | AtComplete pid index => run_process i pid t w index [] (t_point t)
  | AtChokeClear pid =>
    match w_pipelines w !! pid with
    | None => ends i w
    | Some p => ends i (set_pipeline pid (choke_clear p) w)
    end
  end.

(** The messages that start a task, and what happens to the table of peers.  A [Have]
    waits while the peer's bit field is held for reading. *)
Definition swarm_step (w : Swarm) (e : SwarmEvent) : Swarm :=
  match e with
  | SUnchoke source =>
    match w_mode w with
    | MDownloading => set_tasks (w_tasks w ++ [mkTask source [] AtUnchoke]) w
    | _ => w
    end
  | SChoke source =>
    match pid ← w_peers w !! source; p ← w_pipelines w !! pid; Some (pid, p) with
    | None => w
    | Some (pid, p) =>
      set_tasks (w_tasks w ++ [mkTask source [] (AtChokeClear pid)])
        (set_pipeline pid (choke_store p) w)
    end
  | SHave source index =>
    match pid ← w_peers w !! source; p ← w_pipelines w !! pid;
          if reading w pid then None
          else p ← Pipeline.pipeline_set_bitfield p (Z.to_nat index); Some (pid, p) with
    | None => w
    | Some (pid, p) => set_pipeline pid p w
    end
  | SActivate source peer bits =>
    set_peers (<[source := length (w_pipelines w)]> (w_peers w))
      (set_pipelines (w_pipelines w ++ [Pipeline.pipeline_new peer
         (BitField.from_wire bits (piece_count (w_bitfield w)))]) w)
  | SLeave source => set_peers (delete source (w_peers w)) w
  | SPause =>
    mkSwarm MIdle (w_bitfield w) (w_peers w) (w_pipelines w) (w_tasks w) (w_writer w) (w_lost w)
      (w_receiving w) (w_pending w)
  | SWriterGone =>
    mkSwarm (w_mode w) (w_bitfield w) (w_peers w) (w_pipelines w) (w_tasks w) (w_writer w) (w_lost w)
      false (w_pending w)
  | SRun i pick answer =>
    match w_tasks w !! i with None => w | Some t => run_point i pick answer t w end
  end.

(** A download as it starts, and what a sequence of events makes of it. *)
Definition swarm_new (bf : BitField) : Swarm := mkSwarm MDownloading bf ∅ [] [] [] [] true 0.
Definition swarm_run (w : Swarm) (es : list SwarmEvent) : Swarm := foldl swarm_step w es.

(** The piece a task has taken but not yet handed over. *)
Definition hand (t : DTask) : option Z :=
  match t_point t with
  | AtClear _ index _ | AtCount _ index _ | AtSend _ index _ => Some index
  | _ => None
  end.
Definition in_hand (w : Swarm) : list Z := omap hand (w_tasks w).

(** The tasks that have counted their piece and not yet sent it. *)
Definition sending (t : DTask) : option unit :=
  match t_point t with AtSend _ _ _ => Some tt | _ => None end.
Definition in_sending (w : Swarm) : nat := length (omap sending (w_tasks w)).

(** The pieces held now that were not at the start. *)
Definition gained (bf0 bf : BitField) : list Z :=
  map Z.of_nat (List.filter (λ i, BitField.held bf i && negb (BitField.held bf0 i))
    (seq 0 (piece_count bf0))).

Definition accounted (w : Swarm) : list Z :=
  map fst (w_writer w) ++ map fst (w_lost w) ++ in_hand w.

(** * The invariant *)

Section invariant.
Context (bf0 : BitField).

Definition in_range (x : Z) : Prop := ∃ i, x = Z.of_nat i ∧ i < piece_count bf0.

Definition point_index (p : Point) : option Z :=
  match p with
  | AtPiece index _ | AtAdd _ index _ | AtClear _ index _ | AtCount _ index _ | AtSend _ index _ =>
    Some index
  | _ => None
  end.
Definition task_ok (t : DTask) : Prop :=
  Forall in_range (t_in_flight t) ∧ ∀ x, point_index (t_point t) = Some x → in_range x.
Definition pipeline_ok (p : Pipeline) : Prop :=
  piece_count (pl_bitfield p) = piece_count bf0 ∧ size (pending p) ≤ MAX_PIPELINE.

Record swarm_ok (w : Swarm) : Prop := {
  ok_wf : BitField.wf (w_bitfield w);
  ok_count : piece_count (w_bitfield w) = piece_count bf0;
  ok_grows : ∀ i, BitField.held bf0 i = true → BitField.held (w_bitfield w) i = true;
  ok_pipelines : Forall pipeline_ok (w_pipelines w);
  ok_tasks : Forall task_ok (w_tasks w);
  ok_accounted : accounted w ≡ₚ gained bf0 (w_bitfield w);
  ok_lost : w_mode w = MDownloading → w_receiving w = true → w_lost w = [];
  ok_pending : w_pending w = u64 (Z.of_nat (length (w_writer w) + in_sending w));
}.

(** Other pipelines, tasks and peers, with no piece taken or handed over. *)
Lemma frame_ok w peers pls tasks :
  swarm_ok w → Forall pipeline_ok pls → Forall task_ok tasks →
  omap hand tasks ≡ₚ in_hand w → length (omap sending tasks) = in_sending w →
  swarm_ok (mkSwarm (w_mode w) (w_bitfield w) peers pls tasks (w_writer w) (w_lost w)
    (w_receiving w) (w_pending w)).
Proof.
  intros [] Hp Ht Hh Hs. split; try done.
  - rewrite <-ok_accounted0. unfold accounted, in_hand. cbn. by rewrite Hh.
  - unfold in_sending. cbn. by rewrite Hs.
Qed.

Lemma in_sending_insert w i t0 t :
  w_tasks w !! i = Some t0 → sending t = sending t0 →
  length (omap sending (<[i := t]> (w_tasks w))) = in_sending w.
Proof.
  intros Hi Hs. unfold in_sending. by rewrite (omap_insert_at sending _ i t0), Hs, <-omap_remove_at.
Qed.

Lemma in_sending_remove w i t0 :
  w_tasks w !! i = Some t0 → sending t0 = None →
  length (omap sending (remove_at i (w_tasks w))) = in_sending w.
Proof. intros Hi Hs. unfold in_sending. by rewrite (omap_remove_at sending _ i t0 Hi), Hs. Qed.

Lemma goto_ok w i t t0 p pls :
  swarm_ok w → w_tasks w !! i = Some t0 → Forall pipeline_ok pls →
  task_ok (mkTask (t_source t) (t_in_flight t) p) →
  hand (mkTask (t_source t) (t_in_flight t) p) = hand t0 →
  sending (mkTask (t_source t) (t_in_flight t) p) = sending t0 →
  swarm_ok (goto i t p (set_pipelines pls w)).
Proof.
  intros Hw Hi Hp Ht Hh Hs. apply (frame_ok w); [done|done| | |exact (in_sending_insert w i t0 _ Hi Hs)].
  - apply Forall_insert; [apply Hw|done].
  - unfold in_hand. cbn [w_tasks set_pipelines].
    by rewrite (omap_insert_at hand _ i t0), Hh, <-omap_remove_at.
Qed.

Lemma goto_ok' w i t t0 p :
  swarm_ok w → w_tasks w !! i = Some t0 →
  task_ok (mkTask (t_source t) (t_in_flight t) p) →
  hand (mkTask (t_source t) (t_in_flight t) p) = hand t0 →
  sending (mkTask (t_source t) (t_in_flight t) p) = sending t0 →
  swarm_ok (goto i t p w).
Proof.
  intros Hw. replace w with (set_pipelines (w_pipelines w) w) at 3 by (by destruct w).
  intros. eapply goto_ok; try done. apply Hw.
Qed.

Lemma hand_sending t : hand t = None → sending t = None.
Proof. unfold hand, sending. by destruct (t_point t). Qed.

Lemma ends_ok w i t pls :
  swarm_ok w → w_tasks w !! i = Some t → Forall pipeline_ok pls → hand t = None →
  swarm_ok (ends i (set_pipelines pls w)).
Proof.
  intros Hw Hi Hp Hh. apply (frame_ok w);
    [done|done| | |exact (in_sending_remove w i t Hi (hand_sending t Hh))].
  - apply Forall_remove_at, Hw.
  - unfold in_hand. by rewrite (omap_remove_at hand (w_tasks w) i t), Hh.
Qed.

Lemma ends_ok' w i t :
  swarm_ok w → w_tasks w !! i = Some t → hand t = None → swarm_ok (ends i w).
Proof.
  intros Hw. replace w with (set_pipelines (w_pipelines w) w) at 3 by (by destruct w).
  intros. eapply ends_ok; try done. apply Hw.
Qed.

Lemma lookup_pipeline_ok w pid p : swarm_ok w → w_pipelines w !! pid = Some p → pipeline_ok p.
Proof. intros Hw. apply Forall_lookup_1, Hw. Qed.

Lemma insert_pipeline_ok w pid p :
  swarm_ok w → pipeline_ok p → Forall pipeline_ok (<[pid := p]> (w_pipelines w)).
Proof. intros Hw Hp. apply Forall_insert; [apply Hw|done]. Qed.

(** Taking the free slots of a pipeline keeps its bound, and the requests are of pieces
    of the torrent. *)
Lemma fill_pending_ok p received bf p' requests :
  (Z.of_nat (piece_count bf0) ≤ 2 ^ 32)%Z → pipeline_ok p →
  fill_pending p received bf = (p', requests) → pipeline_ok p' ∧ Forall in_range requests.
Proof.
  intros Hn [Hpc Hsz] Hf. set (q := Pipeline.on_unchoke p).
  assert (fill_pending p received bf =
    (Pipeline.set_pending p (pending (Pipeline.fill_requests q received bf).1),
     (Pipeline.fill_requests q received bf).2)) as Heq.
  { unfold fill_pending, Pipeline.fill_requests. cbn [peer_choking q Pipeline.on_unchoke].
    unfold q. cbn [pending pl_bitfield Pipeline.on_unchoke].
    destruct (_ =? 0); [done|]. by destruct (Pipeline.fill_loop _ _ _ _). }
  rewrite fill_requests_spec in Heq by (cbn; done || (rewrite Hpc; lia)).
  rewrite Hf in Heq. cbn [fst snd] in Heq. injection Heq as -> ->.
  set (pend := slots_after q received).
  assert (size pend ≤ MAX_PIPELINE) as Hs.
  { etransitivity; [|exact Hsz]. apply subseteq_size. unfold pend. destruct received; cbn; set_solver. }
  split; [split; [done|]|].
  - cbn [pending Pipeline.set_pending]. rewrite size_union_alt.
    set (new := take _ _). assert (length new ≤ MAX_PIPELINE - size pend) as Hl.
    { unfold new. rewrite length_take. lia. }
    assert (size (list_to_set new : gset Z) = length new) as Hd.
    { apply size_list_to_set. eapply sublist_NoDup; [|apply sublist_take].
      apply NoDup_filterb, (NoDup_fmap_2 Z.of_nat), BitField.NoDup_difference. }
    assert (size (pend ∖ list_to_set new) ≤ size pend) by (apply subseteq_size; set_solver).
    lia.
  - apply Forall_take, Forall_forall. intros x [Hx _]%elem_of_filterb.
    apply list_elem_of_fmap in Hx as (i & -> & (Hi & _)%BitField.elem_of_difference_iff).
    exists i. split; [done|]. cbn in Hi. lia.
Qed.

Lemma set_bitfield_ok p i p' :
  pipeline_ok p → Pipeline.pipeline_set_bitfield p i = Some p' → pipeline_ok p'.
Proof.
  intros [Hpc Hsz]. unfold Pipeline.pipeline_set_bitfield, BitField.set.
  destruct (_ <=? i); cbn [mbind option_bind]; [by intros [= <-]|].
  destruct (_ !! _); cbn [mbind option_bind]; [by intros [= <-]|done].
Qed.

(** Setting the bit of a missing piece gains exactly that piece. *)
Lemma gained_set bf bf' i :
  i < piece_count bf0 → BitField.held bf i = false → BitField.held bf0 i = false →
  (∀ j, BitField.held bf' j = if decide (i = j) then true else BitField.held bf j) →
  gained bf0 bf' ≡ₚ Z.of_nat i :: gained bf0 bf.
Proof.
  intros Hi Hf Hf0 Hh. apply NoDup_Permutation.
  - apply (NoDup_fmap_2 Z.of_nat), NoDup_filterb, NoDup_seq.
  - apply NoDup_cons. split; [|apply (NoDup_fmap_2 Z.of_nat), NoDup_filterb, NoDup_seq].
    intros (j & <-%Nat2Z.inj & Hj)%list_elem_of_fmap. apply elem_of_filterb in Hj as [_ Hj].
    by rewrite Hf in Hj.
  - intros x. rewrite elem_of_cons. unfold gained. rewrite !list_elem_of_fmap.
    setoid_rewrite elem_of_filterb. setoid_rewrite Hh. setoid_rewrite elem_of_seq.
    split.
    + intros (j & -> & Hj & Hb). case_decide; [subst; by left|right; eauto].
    + intros [->|(j & -> & Hj & Hb)].
      * exists i. rewrite decide_True, Hf0 by done. cbn. split_and!; (done || lia).
      * exists j. case_decide; [subst; by rewrite Hf in Hb|eauto].
Qed.

Lemma add_ok w i t pid index data :
  swarm_ok w → w_tasks w !! i = Some t → t_point t = AtAdd pid index data →
  swarm_ok (run_process i pid t w index data (AtAdd pid index data)).
Proof.
  intros Hw Hi Ht. assert (task_ok t) as [Hfl Hpt] by (eapply Forall_lookup_1; [apply Hw|done]).
  destruct (Hpt index) as (k & -> & Hk); [by rewrite Ht|].
  assert (hand t = None) as Hh by (unfold hand; by rewrite Ht).
  cbn [run_process]. unfold add_piece_step. rewrite Nat2Z.id, BitField.have_held by apply Hw.
  cbn [mbind option_bind]. destruct (BitField.held (w_bitfield w) k) eqn:Hb.
  { replace (mkSwarm _ _ _ _ _ _ _ _ _) with w by (by destruct w).
    eapply goto_ok'; try done. symmetry. by apply hand_sending. }
  destruct (BitField.set_spec (w_bitfield w) k (ok_wf _ Hw)) as (bf & -> & Hwf & Hpc & Hheld).
  rewrite (ok_count _ Hw), (proj2 (Nat.ltb_lt _ _) Hk) in Hheld. cbn [mbind option_bind].
  assert (BitField.held bf0 k = false) as Hb0.
  { destruct (BitField.held bf0 k) eqn:E; [|done]. apply (ok_grows _ Hw) in E. congruence. }
  split; cbn; try done; try apply Hw.
  - by rewrite Hpc, (ok_count _ Hw).
  - intros j Hj. rewrite Hheld. case_decide; [done|]. by apply (ok_grows _ Hw).
  - apply Forall_insert; [apply Hw|]. split; [done|]. intros x [= <-]. by exists k.
  - rewrite (gained_set (w_bitfield w) bf k), <-(ok_accounted _ Hw) by done.
    unfold accounted, in_hand. cbn.
    rewrite (omap_insert_at hand _ i t), (omap_remove_at hand _ i t Hi), Hh by done. cbn. solve_Permutation.
  - rewrite (ok_pending _ Hw). do 3 f_equal. symmetry.
    apply (in_sending_insert w i t); [done|]. symmetry. by apply hand_sending.
Qed.

(** Counting a piece, and sending it, change the number of those about to be sent. *)
Lemma count_ok w i t pid index data :
  swarm_ok w → w_tasks w !! i = Some t → t_point t = AtCount pid index data →
  swarm_ok (goto i t (AtSend pid index data) (count_piece w)).
Proof.
  intros Hw Hi Ht. assert (task_ok t) as [Hfl Hpt] by (eapply Forall_lookup_1; [apply Hw|done]).
  assert (hand t = Some index) as Hh by (unfold hand; by rewrite Ht).
  assert (sending t = None) as Hs by (unfold sending; by rewrite Ht).
  split; cbn; try apply Hw.
  - apply Forall_insert; [apply Hw|]. split; [done|]. intros x [= <-]. apply Hpt. by rewrite Ht.
  - rewrite <-(ok_accounted _ Hw). unfold accounted, in_hand. cbn.
    rewrite (omap_insert_at hand _ i t) by done. cbn.
    by rewrite (omap_remove_at hand (w_tasks w) i t Hi), Hh.
  - rewrite (ok_pending _ Hw). unfold in_sending. cbn.
    rewrite (omap_insert_at sending _ i t) by done. cbn.
    rewrite (omap_remove_at sending (w_tasks w) i t Hi), Hs. cbn.
    rewrite wrap_add_l. f_equal. lia.
Qed.

Lemma send_ok w i t pid index data :
  swarm_ok w → w_tasks w !! i = Some t → t_point t = AtSend pid index data →
  swarm_ok (goto i t (AtComplete pid index) (hand_over index data w)).
Proof.
  intros Hw Hi Ht. assert (task_ok t) as [Hfl Hpt] by (eapply Forall_lookup_1; [apply Hw|done]).
  assert (hand t = Some index) as Hh by (unfold hand; by rewrite Ht).
  assert (Forall task_ok (<[i:=mkTask (t_source t) (t_in_flight t) (AtComplete pid index)]>
    (w_tasks w))) as Htasks.
  { apply Forall_insert; [apply Hw|]. split; [done|]. done. }
  assert (∀ a b, a ++ b ≡ₚ (index :: map fst (w_writer w)) ++ map fst (w_lost w) →
    a ++ b ++ omap hand (<[i:=mkTask (t_source t) (t_in_flight t) (AtComplete pid index)]>
      (w_tasks w)) ≡ₚ gained bf0 (w_bitfield w)) as Hacc.
  { intros a b Hab. rewrite app_assoc, Hab, <-(ok_accounted _ Hw). unfold accounted, in_hand.
    rewrite (omap_insert_at hand _ i t), (omap_remove_at hand _ i t Hi), Hh by done. cbn.
    solve_Permutation. }
  assert (sending t = Some tt) as Hs by (unfold sending; by rewrite Ht).
  assert (in_sending w = S (length (omap sending
    (<[i:=mkTask (t_source t) (t_in_flight t) (AtComplete pid index)]> (w_tasks w))))) as Hn.
  { unfold in_sending. rewrite (omap_insert_at sending _ i t) by done. cbn.
    by rewrite (omap_remove_at sending (w_tasks w) i t Hi), Hs. }
  assert (u64 (w_pending w - 1) = u64 (Z.of_nat (length (w_writer w) + length (omap sending
    (<[i:=mkTask (t_source t) (t_in_flight t) (AtComplete pid index)]> (w_tasks w)))))) as Hback.
  { rewrite (ok_pending _ Hw), Hn, wrap_sub_l. f_equal. lia. }
  unfold hand_over. destruct (w_mode w) eqn:Hm, (w_receiving w) eqn:Hr; split; cbn; try apply Hw; try done;
    try exact Hback;
    try (apply Hacc; rewrite map_app; cbn; solve_Permutation).
  - intros _ _. by apply (ok_lost _ Hw).
  - rewrite (ok_pending _ Hw), Hn, length_app. cbn. f_equal. lia.
Qed.

Lemma run_point_ok w i pick answer t :
  (Z.of_nat (piece_count bf0) ≤ 2 ^ 32)%Z → swarm_ok w → w_tasks w !! i = Some t →
  swarm_ok (run_point i pick answer t w).
Proof.
  intros Hn Hw Hi. assert (task_ok t) as [Hfl Hpt] by (eapply Forall_lookup_1; [apply Hw|done]).
  pose proof (ok_pipelines _ Hw) as Hps.
  unfold run_point. destruct (t_point t) eqn:Ht;
    try assert (hand t = None) as Hh by (unfold hand; by rewrite Ht);
    try assert (sending t = None) as Hs by (unfold sending; by rewrite Ht).
  - destruct (w_peers w !! t_source t) as [pid|]; cbn [mbind option_bind]; [|by eapply ends_ok'].
    destruct (w_pipelines w !! pid) as [p|] eqn:Hp; cbn [mbind option_bind]; [|by eapply ends_ok'].
    eapply goto_ok; try done. apply insert_pipeline_ok; [done|].
    by apply (lookup_pipeline_ok w pid p).
  - destruct (w_pipelines w !! pid); [|by eapply ends_ok'].
    eapply goto_ok'; try done; by destruct (peer_choking _).
  - destruct (w_pipelines w !! pid) as [p|] eqn:Hp; [|by eapply ends_ok'].
    destruct (fill_pending p received session_bitfield) as [p' requests] eqn:Hf.
    eapply fill_pending_ok in Hf as [Hp' Hr]; [|done|by eapply lookup_pipeline_ok].
    eapply goto_ok; try done; [by apply insert_pipeline_ok|].
    split; [by apply Forall_app|done].
  - destruct (t_in_flight t) as [|first l] eqn:Hl; [by eapply ends_ok'|]. rewrite <-Hl in *.
    set (k := pick mod _). eapply goto_ok'; try done; [|by destruct answer..].
    split; [by apply Forall_remove_at|].
    destruct answer; [|done]. intros x [= <-].
    destruct (t_in_flight t !! k) eqn:Hx; cbn; [by eapply Forall_lookup_1|].
    rewrite Hl in Hfl. by apply Forall_cons in Hfl as [? _].
  - destruct (w_peers w !! t_source t); (eapply goto_ok'; try done).
  - by apply add_ok.
  - cbn [run_process]. destruct (w_pipelines w !! pid) as [p|] eqn:Hp.
    + eapply goto_ok; try done; [|unfold hand; by rewrite Ht]. apply insert_pipeline_ok; [done|].
      destruct (lookup_pipeline_ok w pid p) as [Hpc Hsz]; [done..|]. split; [done|].
      etransitivity; [|exact Hsz]. apply subseteq_size. cbn. set_solver.
    + eapply goto_ok'; try done. unfold hand; by rewrite Ht.
  - by apply count_ok.
  - by apply (send_ok w i t pid index data).
  - cbn [run_process]. destruct (BitField.is_complete (w_bitfield w)) as [complete|];
      [|by eapply ends_ok']. eapply goto_ok'; try done; by destruct complete.
  - destruct (w_pipelines w !! pid) as [p|] eqn:Hp; [|by eapply ends_ok'].
    eapply ends_ok; try done. apply insert_pipeline_ok; [done|].
    destruct (lookup_pipeline_ok w pid p) as [Hpc _]; [done..|]. split; [done|].
    cbn. rewrite size_empty. lia.
Qed.

Lemma swarm_step_ok w e :
  (Z.of_nat (piece_count bf0) ≤ 2 ^ 32)%Z → swarm_ok w → swarm_ok (swarm_step w e).
Proof.
  intros Hn Hw. destruct e; cbn [swarm_step].
  - destruct (w_mode w); [|done..]. apply (frame_ok w); [done|apply Hw| | |].
    + apply Forall_app. split; [apply Hw|]. by repeat constructor.
    + unfold in_hand. rewrite omap_app. cbn. by rewrite app_nil_r.
    + unfold in_sending. rewrite omap_app. cbn. by rewrite app_nil_r.
  - destruct (w_peers w !! source) as [pid|]; cbn [mbind option_bind]; [|done].
    destruct (w_pipelines w !! pid) as [p|] eqn:Hp; cbn [mbind option_bind]; [|done].
    apply (frame_ok w); [done| | | |].
    + apply insert_pipeline_ok; [done|]. by apply (lookup_pipeline_ok w pid p).
    + apply Forall_app. split; [apply Hw|]. by repeat constructor.
    + unfold in_hand. cbn. rewrite omap_app. cbn. by rewrite app_nil_r.
    + unfold in_sending. cbn. rewrite omap_app. cbn. by rewrite app_nil_r.
  - destruct (w_peers w !! source) as [pid|]; cbn [mbind option_bind]; [|done].
    destruct (w_pipelines w !! pid) as [p|] eqn:Hp; cbn [mbind option_bind]; [|done].
    destruct (reading w pid); [done|].
    destruct (Pipeline.pipeline_set_bitfield p _) as [p'|] eqn:Hs; cbn [mbind option_bind]; [|done].
    apply (frame_ok w); [done| |apply Hw|done|done]. apply insert_pipeline_ok; [done|].
    eapply set_bitfield_ok; [by eapply lookup_pipeline_ok|done].
  - apply (frame_ok w); [done| |apply Hw|done|done]. apply Forall_app. split; [apply Hw|].
    constructor; [|done]. split; [apply (ok_count _ Hw)|]. cbn. rewrite size_empty. lia.
  - apply (frame_ok w); [done|apply Hw|apply Hw|done|done].
  - split; try apply Hw. done.
  - split; try apply Hw. done.
  - destruct (w_tasks w !! i) eqn:Hi; [by apply run_point_ok|done].
Qed.

Lemma swarm_new_ok : BitField.wf bf0 → swarm_ok (swarm_new bf0).
Proof.
  intros Hwf. split; cbn; try done. unfold accounted, gained. cbn.
  rewrite (filter_ext_elem _ (λ _, false)).
  - induction (seq 0 (piece_count bf0)); done.
  - intros i _. by destruct (BitField.held bf0 i).
Qed.

Lemma swarm_run_ok es w :
  (Z.of_nat (piece_count bf0) ≤ 2 ^ 32)%Z → swarm_ok w → swarm_ok (swarm_run w es).
Proof.
  intros Hn. revert w. induction es as [|e es IH]; intros w Hw; [done|].
  apply IH. by apply swarm_step_ok.
Qed.
End invariant.

(** Only a pause and the writer's end close the way to the writer. *)
Lemma swarm_step_open w e :
  (e ≠ SPause → w_mode (swarm_step w e) = w_mode w) ∧
  (e ≠ SWriterGone → w_receiving (swarm_step w e) = w_receiving w).
Proof.
  destruct e; cbn [swarm_step]; try done.
  - by destruct (w_mode w) eqn:E.
  - by destruct (_ ≫= _) as [[]|].
  - by destruct (_ ≫= _) as [[]|].
  - destruct (w_tasks w !! i) as [t|]; [|done].
    unfold run_point, run_process, hand_over. repeat (case_match; try done).
Qed.

Lemma swarm_run_open w es :
  SPause ∉ es → SWriterGone ∉ es →
  w_mode (swarm_run w es) = w_mode w ∧ w_receiving (swarm_run w es) = w_receiving w.
Proof.
  revert w. induction es as [|e es IH]; intros w; [done|].
  intros [Hp Hps]%not_elem_of_cons [Hg Hgs]%not_elem_of_cons. destruct (swarm_step_open w e) as [Hm Hr], (IH (swarm_step w e) Hps Hgs) as [Hm' Hr'].
  change (swarm_run w (e :: es)) with (swarm_run (swarm_step w e) es).
  rewrite Hm', Hr', Hm, Hr by done. done.
Qed.

(** * Properties *)

(** C12: However the tasks of a download interleave, with peers joining, choking,
    announcing and leaving, and with the session being paused or the writer ending at any
    point, the pieces sent to the writer, those given up and those a task has taken and not yet
    handed over are together, each once, the pieces the bit field gained since the
    start: no piece is sent to the writer twice, or when it was held before.  A piece is given
    up, marked as held all the same, only because the session had left the downloading state
    or the writer had gone: none is while the session downloads and the writer is there.
    The counter of pending writes has counted the pieces sent and those about to be
    sent, and no others.  Every pipeline keeps within its bound of requests. *)
Theorem pieces_written_once (bf : BitField) (es : list SwarmEvent)
    (Hwf : BitField.wf bf) (Hn : (Z.of_nat (piece_count bf) ≤ 2 ^ 32)%Z) :
  let w := swarm_run (swarm_new bf) es in
  map fst (w_writer w) ++ map fst (w_lost w) ++ in_hand w ≡ₚ gained bf (w_bitfield w) ∧
  NoDup (map fst (w_writer w)) ∧
  (w_mode w = MDownloading → w_receiving w = true → w_lost w = []) ∧
  (SPause ∉ es → SWriterGone ∉ es → w_lost w = []) ∧
  w_pending w = u64 (Z.of_nat (length (w_writer w) + in_sending w)) ∧
  (∀ i, BitField.held bf i = true → BitField.held (w_bitfield w) i = true) ∧
  Forall (λ p, size (pending p) ≤ MAX_PIPELINE) (w_pipelines w).
Proof.
  cbv zeta. destruct (swarm_run_ok bf es (swarm_new bf)) as [_ _ Hg Hp _ Ha Hl Hc];
    [done|by apply swarm_new_ok|]. split_and!; [done| |done| |done|done|].
  - assert (NoDup (accounted (swarm_run (swarm_new bf) es))) as Hnd.
    { rewrite Ha. apply (NoDup_fmap_2 Z.of_nat), NoDup_filterb, NoDup_seq. }
    by apply NoDup_app in Hnd as [? _].
  - intros Hpause Hgone. destruct (swarm_run_open (swarm_new bf) es Hpause Hgone) as [Hm Hr].
    by apply Hl; [rewrite Hm|rewrite Hr].
  - eapply Forall_impl; [exact Hp|]. by intros p [_ ?].
Qed.

Module SwarmExamples.
Import Toy.
#[local] Existing Instance Toy.ToyCrypto.
Definition addr_a : SocketAddr := SocketV4 1 6881.
Definition addr_b : SocketAddr := SocketV4 2 6881.
Definition peer_a : Node := from_socket (Key_new [1]%Z) addr_a.
Definition peer_b : Node := from_socket (Key_new [2]%Z) addr_b.

(** Two seeders of the same three pieces, whose tasks both ask for all of them; the
    first completes piece 1, the second answers for it as well, and the writer ends while
    the first task has piece 2 in hand: the session still downloads, and the piece is
    given up. *)
Definition two_seeders : list SwarmEvent :=
  [SActivate addr_a peer_a [224]%Z; SActivate addr_b peer_b [224]%Z;
   SUnchoke addr_a; SUnchoke addr_b] ++
  concat (replicate 3 [SRun 0 0 None; SRun 1 0 None]) ++
  [SRun 0 1 (Some [7]%Z); SRun 1 1 (Some [7]%Z); SRun 0 0 None; SRun 1 0 None;
   SRun 1 0 None; SRun 0 0 None] ++
  replicate 6 (SRun 1 0 None) ++
  [SRun 0 0 None; SRun 0 0 None; SRun 0 1 (Some [8]%Z); SRun 0 0 None; SRun 0 0 None; SRun 0 0 None;
   SWriterGone; SRun 0 0 None; SRun 0 0 None].

Lemma pieces_written_once_witness :
  let w := swarm_run (swarm_new (BitField.empty 3)) two_seeders in
  NoDup (map fst (w_writer w)) ∧ w_mode w = MDownloading ∧
  map fst (w_writer w) = [1]%Z ∧ map fst (w_lost w) = [2]%Z ∧ w_pending w = 1%Z.
Proof.
  cbv zeta. split.
  - apply (pieces_written_once (BitField.empty 3) two_seeders); [apply BitField.empty_wf|cbn; lia].
  - vm_compute. done.
Defined.
End SwarmExamples.
