(* ===== verification/Attacks.v ===== *)
(** The misbehaving nodes of the repository.  Three build features replace an
    operation of a node by one that attacks its peers: [ml_replay_token]
    ([kademlia/mod.rs]), [ml_forge_token] ([kademlia/client.rs]) and
    [ml_piece_sub] ([bep/piece_auth.rs]).  The replaced operations are
    modelled here, with what [rand::random] returned as an argument, and run
    against the honest node of [Kademlia] and the honest downloader of [Bep].

    What an attacker cannot do is stated by [SignerBinds]: among the messages of one
    length, a signature he makes verifies for the message it was made for
    and for no other. *)

From S2P Require Import Prelude Net Crypto Wire Bep Routing Store Auth Conn Rpc Kademlia.
Import ConnectionManager.

Set Default Proof Using "Type*".

Class SignerBinds `{Crypto} (s : Signer) (len : nat) : Prop :=
  sign_binds d d' sig :
    length d = len → length d' = len → signer_sign s d = Ok sig →
    ed25519_verify (signer_pub_key s) d' sig = true → d = d'.

Section attacks.
Context `{CryptoLaws} `{AuthCrypto}.
Context (now : Z) (manifest : string → Result unit (list Z)).
Context (rpc : nat → ConnectionManager → Node → DhtRequest + AuthDhtRequest →
               Result RpcError DhtResponse * ConnectionManager).
Context (outcome : nat → SendOutcome) (BQTI_VERSION : string) (pick : nat → nat).

Local Notation "'kdo' x <- m ; k" := (kbind m (fun x => k))
  (at level 200, x pattern, right associativity).
Local Notation "'kdo_' m ; k" := (kbind m (fun _ => k)) (at level 200, right associativity).

(** * The operations *)

(** src/src/bit_torrent/dht/kademlia/mod.rs:118-166 [Kademlia::authenticate, ml_replay_token] *)
Definition authenticate_replay (nonce : Z) (target : Node) : K unit :=
  kdo s <- kget;
  kdo token <- klift (ok_or (KAuthError UnAuthorized) (best_token now (k_auth s)));
  kdo signature <- klift (map_err (λ _, KAuthError InvalidToken)
                          (signer_sign (inner_cert (k_auth s)) (ownership token nonce)));
  kdo r <- rpc_call rpc target (inl (SubmitHandshake token signature));
  match r with
  | Pong receiver_id =>
    if negb (bool_decide (receiver_id = node_id target)) then kfail (KAuthError RoguePeer)
    else on_connection (node_addr target) Connection.set_outbound_authenticated
  | _ => kfail (KAuthError UnAuthorized)
  end.

(** src/src/bit_torrent/dht/kademlia/client.rs:26-54 [Kademlia::forget_token] *)
Definition forget_token (fuel : nat) (bootstrap : Node) : K Node :=
  kdo signed_secret <- request_challange rpc fuel bootstrap;
  kdo s <- kget;
  let host := host (k_table s) in
  kdo bootstrap <- submit_challange now rpc BQTI_VERSION bootstrap signed_secret;
  kdo s <- kget;
  kdo r <- kopt (issue_token now manifest (k_auth s) host signed_secret BQTI_VERSION);
  kdo token <- klift (map_err KAuthError r);
  kdo_ on_connection (node_addr bootstrap) Connection.set_outbound_authenticated;
  kdo_ kmod (set_auth_manager (λ a, store_token a token));
  kret bootstrap.

(** src/src/bit_torrent/dht/kademlia/client.rs:89-115 [KademliaClient::join_network, ml_forge_token] *)
Definition join_network_forged (prove_fuel fuel : nat) (bootstrap : Node) : K unit :=
  kdo bootstrap <- forget_token prove_fuel bootstrap;
  kdo_ acknowledge now rpc bootstrap;
  kdo host <- host_id;
  kdo_ node_lookup now rpc pick fuel host;
  kret tt.

(** src/src/bit_torrent/session/bep/piece_auth.rs:22-31 [piece_hash, ml_piece_sub] *)
Definition piece_hash_sub (fake_index _index : Z) (data : list Z) : list Z :=
  sha256 (le_bytes 4 fake_index ++ data).

(** src/src/bit_torrent/session/bep/piece_auth.rs:33-45 [make_payload, ml_piece_sub] *)
Definition make_payload_sub {E} (fake_index index : Z) (data : list Z)
    (prover_sign : list Z → Result E (list Z)) : Result E (list Z) :=
  let hash := piece_hash_sub fake_index index data in
  let? sig := prover_sign hash in
  Ok (data ++ sig).

(** * A replayed handshake *)

Lemma length_ownership t n : length (ownership t n) = 36.
Proof.
  unfold ownership, Token.hash, Token.calculate_hash.
  by rewrite length_app, sha256_length, length_be_bytes.
Qed.

Lemma challange_range auth pk ip : (0 ≤ challange auth pk ip < 256 ^ 4)%Z.
Proof.
  unfold challange, calculate_challenge.
  set (h := sha256 _). assert (length (take 4 h) = 4) as Hl.
  { rewrite length_take. unfold h. by rewrite sha256_length. }
  pose proof (of_be_range (take 4 h)) as Hr. rewrite Hl in Hr. apply Hr.
  apply Forall_take, sha256_bytes.
Qed.

Lemma ownership_inj t n n' :
  (0 ≤ n < 256 ^ 4)%Z → (0 ≤ n' < 256 ^ 4)%Z → ownership t n = ownership t n' → n = n'.
Proof.
  intros Hn Hn' Ht. apply app_inv_head in Ht.
  rewrite <-(of_be_bytes 4 n), <-(of_be_bytes 4 n') by done. by rewrite Ht.
Qed.

(** A handshake whose proof does not verify: the connection is closed. *)
Lemma submit_handshake_bad t sig id src conn s :
  Token.token_verify now t = true → Token.verify_pgp t (k_pgp_keys s) = true →
  ed25519_verify (tk_peer t)
    (ownership t (challange (k_auth s) (tk_peer t) (addr_ip src))) sig = false →
  handle_packet now manifest rpc outcome (HandShake (mkEnv id (SubmitHandshake t sig))) src conn s =
    Some (Err (KAuthError RoguePeer), set_conns (set_heap (alter Connection.close conn)) s).
Proof.
  intros Hv Hp Hs. cbn [handle_packet]. unfold handle_handshake. cbn [payload].
  rewrite (kbind_Ok _ _ s (node_id (host (k_table s))) s) by done.
  apply kbind_Err. unfold check_handshake. rewrite (kbind_Ok _ _ s s s) by done. cbv zeta.
  rewrite Hv, Hp. cbn [negb orb]. cbn [key_pub Token.sender Key_new].
  unfold Verifier_verify. by rewrite Hs.
Qed.

(** A handshake whose token is not one of the swarm's. *)
Lemma submit_handshake_foreign t sig id src conn s :
  Token.verify_pgp t (k_pgp_keys s) = false →
  handle_packet now manifest rpc outcome (HandShake (mkEnv id (SubmitHandshake t sig))) src conn s =
    Some (Err (KAuthError InvalidToken), set_conns (set_heap (alter Connection.close conn)) s).
Proof.
  intros Hp. cbn [handle_packet]. unfold handle_handshake. cbn [payload].
  rewrite (kbind_Ok _ _ s (node_id (host (k_table s))) s) by done.
  apply kbind_Err. unfold check_handshake. rewrite (kbind_Ok _ _ s s s) by done. cbv zeta.
  rewrite Hp, orb_true_r. done.
Qed.

Lemma inbound_close s conn :
  inbound (set_conns (set_heap (alter Connection.close conn)) s) conn = inbound s conn.
Proof. unfold inbound. cbn. rewrite lookup_alter_eq. by destruct (heap (k_conns s) !! conn). Qed.

(** The two sides of a replayed handshake, whatever the verification says. *)
Lemma replay_runs (client server : Kademlia) (target : Node) (src : SocketAddr) (conn : Z)
    (t : Token) (nonce id : Z) (sig : list Z) (m : ConnectionManager) :
  let run := handle_packet now manifest rpc outcome (HandShake (mkEnv id (SubmitHandshake t sig)))
               src conn server in
  best_token now (k_auth client) = Some t →
  signer_sign (inner_cert (k_auth client)) (ownership t nonce) = Ok sig →
  node_id (host (k_table server)) = node_id target →
  rpc (k_clock client) (k_conns client) target (inl (SubmitHandshake t sig)) =
    (ok_or Timeout (reply_of run), m) →
  ∀ server' r, run = Some (r, server') →
  (r = Ok tt → reply_of run = Some (Pong (node_id (host (k_table server))))) →
  ∃ client', authenticate_replay nonce target client =
               Some (match r with Ok _ => Ok tt | Err _ => Err (KRpcError Timeout) end, client').
Proof.
  intros run Hbest Hsign Hhost Hx server' r Hrun Hr. unfold authenticate_replay.
  rewrite (kbind_Ok _ _ client client client) by done. rewrite Hbest.
  unfold rpc_call, exchange, kbind, klift, ok_or. rewrite Hsign. cbn [map_err]. rewrite Hx.
  destruct r as [[]|e].
  - rewrite Hr by done. cbn [ok_or map_err]. rewrite Hhost, bool_decide_eq_true_2 by done.
    cbn [negb]. unfold on_connection, kmod. eauto.
  - rewrite Hrun. cbn [reply_of ok_or map_err]. eauto.
Qed.

(** C20: A handshake that does not answer the server's challenge fails: a node
    that holds a valid token, and submits it with its own signature over a nonce
    it made up instead of asking for one, is authenticated if the nonce
    happens to be the challenge of that server for its key and address, and
    otherwise the server refuses it as a rogue peer, closes the connection and
    leaves it unauthenticated, and the node's own call fails. *)
Theorem replay_needs_challenge (client server : Kademlia) (target : Node) (src : SocketAddr)
    (conn : Z) (t : Token) (nonce id : Z) (sig : list Z) (m : ConnectionManager)
    `{!SignerLaws (inner_cert (k_auth client))} `{!SignerBinds (inner_cert (k_auth client)) 36} :
  let me := signer_pub_key (inner_cert (k_auth client)) in
  let challenge := challange (k_auth server) me (addr_ip src) in
  let run := handle_packet now manifest rpc outcome (HandShake (mkEnv id (SubmitHandshake t sig)))
               src conn server in
  best_token now (k_auth client) = Some t → tk_peer t = me →
  Token.token_verify now t = true → Token.verify_pgp t (k_pgp_keys server) = true →
  (0 ≤ nonce < 256 ^ 4)%Z →
  signer_sign (inner_cert (k_auth client)) (ownership t nonce) = Ok sig →
  outcome (k_clock server) = SendOk → node_id (host (k_table server)) = node_id target →
  is_Some (heap (k_conns server) !! conn) → inbound server conn = None →
  rpc (k_clock client) (k_conns client) target (inl (SubmitHandshake t sig)) =
    (ok_or Timeout (reply_of run), m) →
  ∃ client' server' r r',
    run = Some (r, server') ∧ authenticate_replay nonce target client = Some (r', client') ∧
    (nonce = challenge → r = Ok tt ∧ r' = Ok tt ∧ inbound server' conn = Some (Key_new me)) ∧
    (nonce ≠ challenge →
       r = Err (KAuthError RoguePeer) ∧ r' = Err (KRpcError Timeout) ∧ inbound server' conn = None ∧
       heap (k_conns server') !! conn = Connection.close <$> heap (k_conns server) !! conn).
Proof.
  intros me challenge run Hbest Hpeer Hv Hp Hn Hsign Hout Hhost Hconn Hin Hx.
  destruct (decide (nonce = challenge)) as [->|Hne].
  - pose proof (submit_handshake_ok now manifest rpc outcome t sig id src conn server Hv Hp) as Hrun.
    rewrite Hpeer in Hrun. specialize (Hrun (sign_verifies _ _ Hsign) Hout).
    destruct (replay_runs client server target src conn t challenge id sig m Hbest Hsign Hhost Hx
      _ _ Hrun) as [client' Hc].
    { intros _. rewrite Hrun. cbn. by rewrite last_snoc. }
    eexists _, _, _, _. split; [exact Hrun|]. split; [exact Hc|]. split; [|done]. intros _.
    split; [done|]. split; [done|]. rewrite <-Hpeer. by apply inbound_set_auth.
  - pose proof (submit_handshake_bad t sig id src conn server Hv Hp) as Hrun. rewrite Hpeer in Hrun.
    specialize (Hrun ltac:(apply not_true_iff_false; intros Hs; apply Hne, (ownership_inj t);
      [done|apply challange_range|eapply sign_binds; eauto using length_ownership])).
    destruct (replay_runs client server target src conn t nonce id sig m Hbest Hsign Hhost Hx
      _ _ Hrun) as [client' Hc]; [done|].
    eexists _, _, _, _. split; [exact Hrun|]. split; [exact Hc|]. split; [done|]. intros _.
    split; [done|]. split; [done|]. rewrite inbound_close. split; [done|].
    cbn. by rewrite lookup_alter_eq.
Qed.

(** * A forged token *)

Lemma request_challange_auth fuel b s r s' :
  request_challange rpc fuel b s = Some (r, s') → k_auth s' = k_auth s.
Proof.
  intros [(e & He & _)|(h & s1 & [= <- <-] & Hr)]%kbind_inv; [done|].
  apply kbind_inv in Hr as [(e & He & _)|(resp & s1 & He & Hr)].
  all: unfold rpc_call, exchange, kbind, klift in He; destruct (rpc _ _ _ _) as [x c];
    injection He as _ <-; try done.
  destruct resp; try (injection Hr as _ <-; done).
  apply kbind_inv in Hr as [(e & [=] & _)|(s2 & s3 & [= <- <-] & Hr)].
  apply kbind_inv in Hr as [(e & He & _)|(pw & s3 & He & Hr)].
  all: unfold kopt in He; destruct (prove _ _ _ _ _); try done.
  injection He as <- <-. by injection Hr as _ <-.
Qed.

Lemma submit_challange_auth b pw s n s' :
  submit_challange now rpc BQTI_VERSION b pw s = Some (Ok n, s') →
  ∃ t, k_auth s' = store_token (k_auth s) t ∧ host (k_table s') = host (k_table s).
Proof.
  intros [(e & _ & [=])|(h & s1 & [= <- <-] & Hr)]%kbind_inv.
  apply kbind_inv in Hr as [(e & _ & [=])|(sig & s1 & He & Hr)].
  unfold klift in He. destruct (pow_signature pw); [|done]. injection He as <- <-.
  apply kbind_inv in Hr as [(e & _ & [=])|(resp & s1 & He & Hr)].
  unfold rpc_call, exchange, kbind, klift in He. destruct (rpc _ _ _ _) as [x c].
  injection He as _ <-. destruct resp; try done.
  apply kbind_inv in Hr as [(e & _ & [=])|(s2 & s3 & [= <- <-] & Hr)].
  destruct (negb _ || negb _); [done|].
  unfold kbind, on_connection, kmod, kret in Hr. injection Hr as _ <-. eauto.
Qed.

(** What a node without a PGP signature issues to itself. *)
Lemma issue_token_unbound auth sender secret version t
    `{!SignerLaws (inner_cert auth)} :
  pgp_details auth = None → (0 ≤ now ∧ now + TOKEN_EXP_SECONDS < 2 ^ 64)%Z →
  issue_token now manifest auth sender secret version = Some (Ok t) →
  issuer_ca_cert_sig t = [] ∧ tk_peer t = key_pub (node_id sender) ∧
  issuer t = signer_pub_key (inner_cert auth) ∧ Token.is_expired now t = false ∧
  Token.token_verify now t = true.
Proof.
  intros Hpgp Hnow. unfold issue_token. rewrite Hpgp.
  destruct (pow_verify secret _) as [[]|]; cbn [mbind option_bind negb]; try done.
  match goal with |- context [x ← ?m; _] => destruct m as [[lvl|]|] end;
    cbn [mbind option_bind rbind]; try done.
  unfold Token.token_sign, TOKEN_EXP_SECONDS in *. rewrite wrap_small by lia.
  destruct (signer_sign _ _) as [sig|] eqn:Es; [|done]. cbn. intros [= <-].
  split; [done|]. split; [done|]. split; [done|].
  unfold Token.token_verify, Token.is_expired. cbn [exp_at tk_signature].
  rewrite (proj2 (Z.eqb_neq _ _)), (proj2 (Z.ltb_ge _ _)) by lia.
  split; [done|]. exact (sign_verifies _ _ Es).
Qed.

(** Forging a token is of no use to a node that has no PGP signature of the
    swarm: the token [forget_token] leaves in its hands, which replaces the one
    the bootstrap node issued, passes every check a node makes on tokens but one, and
    for want of that one every node of every swarm refuses a handshake
    with it, closes the connection and leaves it as it was. *)
Theorem forged_token_refused (fuel : nat) (bootstrap : Node) (s s' : Kademlia) (n : Node)
    `{!SignerLaws (inner_cert (k_auth s))} :
  pgp_details (k_auth s) = None → (0 ≤ now ∧ now + TOKEN_EXP_SECONDS < 2 ^ 64)%Z →
  forget_token fuel bootstrap s = Some (Ok n, s') →
  ∃ t, best_token now (k_auth s') = Some t ∧ issuer t = signer_pub_key (inner_cert (k_auth s)) ∧
    Token.verify_for now t (key_pub (node_id (host (k_table s')))) = true ∧
    ∀ (server : Kademlia) (src : SocketAddr) (conn id : Z) (sig : list Z), ∃ server',
      handle_packet now manifest rpc outcome (HandShake (mkEnv id (SubmitHandshake t sig)))
        src conn server = Some (Err (KAuthError InvalidToken), server') ∧
      inbound server' conn = inbound server conn ∧
      heap (k_conns server') !! conn = Connection.close <$> heap (k_conns server) !! conn.
Proof.
  intros Hpgp Hnow [(e & _ & [=])|(pw & s1 & Hq & Hr)]%kbind_inv.
  apply request_challange_auth in Hq.
  apply kbind_inv in Hr as [(e & [=] & _)|(s2 & s3 & [= <- <-] & Hr)].
  apply kbind_inv in Hr as [(e & _ & [=])|(b & s2 & H2' & Hr)].
  apply submit_challange_auth in H2' as (t0 & Ha & Hh).
  apply kbind_inv in Hr as [(e & [=] & _)|(s3 & s4 & [= <- <-] & Hr)].
  apply kbind_inv in Hr as [(e & _ & [=])|(r & s3 & Hi & Hr)].
  unfold kopt in Hi. destruct (issue_token _ _ _ _ _ _) as [r0|] eqn:Et; [|done].
  injection Hi as -> <-. destruct r as [t|e]; [|done].
  unfold kbind, klift, on_connection, kmod, kret in Hr. cbn [map_err] in Hr. injection Hr as _ <-.
  rewrite Ha in Et. assert (inner_cert (store_token (k_auth s1) t0) = inner_cert (k_auth s)) as Hc
    by by rewrite <-Hq.
  assert (SignerLaws (inner_cert (store_token (k_auth s1) t0))) by by rewrite Hc.
  assert (pgp_details (store_token (k_auth s1) t0) = None) as Hd by (cbn; by rewrite Hq).
  destruct (issue_token_unbound _ _ _ _ _ Hd Hnow Et) as (Hsig & Hpeer & Hiss & Hx & Hv).
  exists t. split; [cbn; by rewrite Hx|]. split; [by rewrite Hiss, Hc|]. split.
  { unfold Token.verify_for. cbn. rewrite Hh, bool_decide_eq_true_2 by done. done. }
  intros server src conn id sig. eexists. split.
  - apply submit_handshake_foreign. unfold Token.verify_pgp. by rewrite Hsig.
  - split; [apply inbound_close|]. cbn. by rewrite lookup_alter_eq.
Qed.

(** * A substituted piece *)

(** A seeder that signs a piece under another index than the one asked for is
    not believed: the downloader drops the answer, whatever the data; a
    seeder that signs it under the right one is believed. *)
Theorem substituted_piece_dropped (seeder : Signer) `{!SignerLaws seeder} `{!SignerBinds seeder 32}
    (network : SocketAddr → Z → Result BepRouterError (list Z)) (source : SocketAddr)
    (fake_index index : Z) (data payload : list Z) :
  data ≠ [] →
  (fake_index ≠ index → piece_hash_sub fake_index index data ≠ piece_hash index data) →
  make_payload_sub fake_index index data (signer_sign seeder) = Ok payload →
  network source index = Ok payload →
  make_request network source index (Key_new (signer_pub_key seeder)) =
    Ok (if decide (fake_index = index) then Some data else None).
Proof.
  intros Hd Hinj Hpay Hnet. unfold make_payload_sub, piece_hash_sub in Hpay.
  destruct (signer_sign seeder _) as [sig|] eqn:E; [|done]. injection Hpay as <-.
  unfold make_request. rewrite Hnet. cbn [rbind].
  rewrite split_payload_app by (eapply sign_length; done). destruct data as [|x data]; [done|].
  unfold verify_piece, Verifier_verify, piece_hash. cbn [key_pub Key_new].
  destruct (ed25519_verify _ _ _) eqn:Ev; cbn [negb]; case_decide as Hi; try done.
  - exfalso. apply Hinj; [done|]. eapply sign_binds; [..|exact Ev]; eauto using sha256_length.
  - exfalso. apply not_true_iff_false in Ev. apply Ev. subst. exact (sign_verifies _ _ E).
Qed.

End attacks.

(** * Instances of the properties *)

Module AttackExamples.

(** Signatures that determine the message. *)
Definition seal (d : list Z) : list Z := replicate (64 - length d) 0%Z ++ d.

#[local] Instance seal_crypto : Crypto := {
  sha1 d := replicate 20 (Toy.checksum d);
  sha256 d := replicate 32 (Toy.checksum d);
  ed25519_verify _ d sig := bool_decide (sig = seal d);
}.

#[local] Instance seal_laws : CryptoLaws.
Proof.
  split; intros d; [apply length_replicate|apply length_replicate|..];
    apply Forall_replicate, Toy.checksum_ok.
Qed.

Definition signer (pk : list Z) : Signer :=
  mkSigner pk (λ d, if length d <=? 64 then Ok (seal d) else Err CertFailed).

#[local] Instance signer_laws pk : SignerLaws (signer pk).
Proof.
  split; simpl; intros d sig; destruct (Nat.leb_spec (length d) 64); try done; intros [= <-].
  - by apply bool_decide_eq_true.
  - unfold seal. rewrite length_app, length_replicate. lia.
Qed.

#[local] Instance signer_binds pk len : SignerBinds (signer pk) len.
Proof.
  intros d d' sig Hd Hd'. simpl. destruct (_ <=? _); [|done]. intros [= <-] Hs%bool_decide_eq_true.
  unfold seal in Hs. rewrite Hd, Hd' in Hs. by apply app_inv_head in Hs.
Qed.

#[local] Existing Instance KadExamples.toy_auth.
Import KadExamples.

Definition token0 (sig : list Z) : Token :=
  mkToken swarm [7%Z] (replicate 32 5%Z) 900 2700 [9%Z] [1%Z] [3%Z] Unattested (Some sig).
Definition held : Token := token0 (seal (Token.hash (token0 []))).
Definition replayer : Kademlia :=
  mkKad (mkAuth [5%Z] None (signer [7%Z]) [6%Z] (Some held)) {[ swarm := tt ]}
    (RateLimiter.limiter_new 100 60) (one_conn my_addr server_addr None) DHTStore.store_new
    (RouteTable.table_new (mkNode (Key_new [7%Z]) my_addr)) 0 [].

Definition replay_sig : list Z := seal (ownership held 77).
Definition replay_run := handle_packet 1000 no_manifest no_rpc sends
  (HandShake (mkEnv 2 (SubmitHandshake held replay_sig))) my_addr 0 (server None).

(** A made-up nonce, 77. *)
Lemma replay_needs_challenge_witness :
  ∃ client' server' r r',
    replay_run = Some (r, server') ∧
    authenticate_replay 1000 no_rpc 77 target replayer = Some (r', client') ∧
    r = Err (KAuthError RoguePeer) ∧ r' = Err (KRpcError Timeout) ∧ inbound server' 0 = None.
Proof.
  destruct (@replay_needs_challenge seal_crypto seal_laws toy_auth 1000 no_manifest no_rpc sends
    replayer (server None) target my_addr 0 held 77 2 replay_sig (k_conns replayer)
    (signer_laws [7%Z]) (signer_binds [7%Z] 36)) as (c' & s' & r & r' & Hs & Hc & _ & Hne).
  - vm_compute; reflexivity.
  - reflexivity.
  - vm_compute; reflexivity.
  - vm_compute; reflexivity.
  - lia.
  - vm_compute; reflexivity.
  - reflexivity.
  - reflexivity.
  - eexists. vm_compute. reflexivity.
  - vm_compute; reflexivity.
  - unfold no_rpc. f_equal.
  - destruct Hne as (-> & -> & Hi & _); [vm_compute; discriminate|].
    exists c', s', (Err (KAuthError RoguePeer)), (Err (KRpcError Timeout)). done.
Defined.

(** A bootstrap node that asks for no work. *)
Definition easy_rpc : nat → ConnectionManager → Node → DhtRequest + AuthDhtRequest →
    Result RpcError DhtResponse * ConnectionManager := λ _ m _ body,
  (match body with
   | inl (RequestChallange _) => Ok (Challange 5 0)
   | inl (SubmitChallange _ _ _ _ _ _) => Ok (Welcome held)
   | _ => Err Timeout
   end, m).
Definition forging := forget_token 1000 no_manifest easy_rpc "1" 1 target replayer.

Lemma forged_token_refused_witness :
  ∃ t, best_token 1000 (k_auth (state_of replayer forging)) = Some t ∧ issuer t = [7%Z] ∧
    ∃ server', handle_packet 1000 no_manifest easy_rpc sends
      (HandShake (mkEnv 3 (SubmitHandshake t [])))  my_addr 0 (server None) =
        Some (Err (KAuthError InvalidToken), server').
Proof.
  destruct (@forged_token_refused seal_crypto seal_laws toy_auth 1000 no_manifest easy_rpc sends "1"
    1 target replayer (state_of replayer forging) target (signer_laws [7%Z])) as (t & Hb & Hi & _ & Hr).
  - reflexivity.
  - unfold TOKEN_EXP_SECONDS. lia.
  - assert (match forging with Some (Ok n, _) => bool_decide (n = target) | _ => false end = true) as Hf
      by (vm_compute; reflexivity).
    unfold state_of. change (forget_token 1000 no_manifest easy_rpc "1" 1 target replayer) with forging.
    destruct forging as [[[n|] s]|]; try done. apply bool_decide_eq_true in Hf as ->. reflexivity.
  - exists t. split; [exact Hb|]. split; [exact Hi|].
    destruct (Hr (server None) my_addr 0%Z 3%Z []) as (s' & Hs & _). exists s'. exact Hs.
Defined.

Lemma substituted_piece_dropped_witness :
  make_request (λ _ _, Ok ([1; 2; 3]%Z ++ seal (replicate 32 15%Z))) my_addr 4
    (Key_new [7%Z]) = Ok None.
Proof.
  refine (@substituted_piece_dropped seal_crypto seal_laws (signer [7%Z]) (signer_laws [7%Z])
    (signer_binds [7%Z] 32) _ my_addr 9 4 [1; 2; 3]%Z _ _ _ _ _).
  - done.
  - intros _. vm_compute. discriminate.
  - vm_compute. reflexivity.
  - reflexivity.
Defined.
End AttackExamples.
