(* ===== verification/Discovery.v ===== *)
(** How a session finds its peers: the bootstrap and the discovery task of
    [session/bep/router.rs], and [add_discovered_peers] of [session/session.rs].

    A turn of the discovery task is [tick], for the timer that fired.  Each
    address it finds is dialled by a task of its own, which claims the address in
    the peer table, shakes hands, and gives the address up again if that fails or
    takes too long; [dial_step] interleaves these tasks with one another, with
    new discoveries, and with what the message handlers do to the table. *)

From S2P Require Import Prelude Net Crypto BitField Wire Metainfo I2p Routing Store Auth.
From S2P Require Import Conn Rpc Kademlia Pex Bep.

(** * Joining the network *)

(** src/src/bit_torrent/dht/node.rs:79-81 [BootStrap::from_socket] *)
Definition bootstrap_of `{Crypto} (socket : SocketAddr) : Node :=
  from_socket (Key_new (replicate 32 0%Z)) socket.

Fixpoint contains (part s : string) : bool :=
  starts_with part s || match s with "" => false | String _ s => contains part s end.

Section discovery.
Context `{Crypto} `{AuthCrypto} `{AddrText} `{I2p.MapIter} `{SetIter}.
Context (now : Z)
  (rpc : nat → ConnectionManager → Node → DhtRequest + AuthDhtRequest →
         Result RpcError DhtResponse * ConnectionManager)
  (version : string) (pick : nat → nat) (order : list Node → list Node) (prove_fuel fuel : nat).
(** [get_b64_addr]: the lookup of a name over the SAM bridge, on an I2P
    endpoint. *)
Context (i2p : option (string → option string)).
(** The order in which the bootstraps of several addresses end. *)
Context (ends : list TorrentAddr → list TorrentAddr).

Definition lookup_b64 (addr : string) : option string :=
  match i2p with
  | Some lookup => if contains "b32.i2p" addr then lookup addr else Some addr
  | None => Some addr
  end.

(** src/src/bit_torrent/session/bep/router.rs:113-156 [BepRouter::dht_bootstrap]

    The futures of the addresses in the order in which they end; a join that
    would end later is dropped with its future. *)
Fixpoint dht_bootstrap (addrs : list TorrentAddr) (r : Resolver.Resolver) (k : Kademlia)
    : option (bool * Resolver.Resolver * Kademlia) :=
  match addrs with
  | [] => Some (false, r, k)
  | addr :: addrs =>
    match lookup_b64 (TorrentAddr.addr_to_string addr) with
    | None => dht_bootstrap addrs r k
    | Some target_addr =>
      match Resolver.resolve_address r target_addr with
      | (Err _, r) => dht_bootstrap addrs r k
      | (Ok addr_solved, r) =>
        match join_network now rpc version pick prove_fuel fuel (bootstrap_of addr_solved) k with
        | None => None
        | Some (_, k) => Some (true, r, k)
        end
      end
    end
  end.

(** * The discovery task *)

(** What the task sees and changes: the DHT, the exchange, the resolver, and
    whether it is to bootstrap again; [d_found] are the lists of addresses given
    to [add_discovered_peers]. *)
Record Discovery := mkDisc {
  d_kademlia : Kademlia;
  d_pex : PexRouter;
  d_resolver : Resolver.Resolver;
  d_rebootstrap : bool;
  d_found : list (list SocketAddr);
}.

(** The timers of the task. *)
Inductive Timer := TRebootstrap | TDiscovery | TAnnounce | TPex.
#[export] Instance Timer_eq_dec : EqDecision Timer.
Proof using. solve_decision. Defined.

(** src/src/bit_torrent/session/bep/router.rs:206-250 [start_peer_discovery, one turn]

    For a torrent and the mode of its session; [resolve] is the resolver of
    [get_peers] and [dest] the destination of an I2P endpoint.  A timer whose
    guard does not hold is not waited for. *)
Definition tick (metadata : TorrentFile) (mode : ActiveMode) (resolve : string → option SocketAddr)
    (dest : option string) (d : Discovery) (t : Timer) : option Discovery :=
  let info_hash := key_of_info_hash (TorrentFile.info_hash metadata) in
  let is_private := TorrentFile.is_private metadata in
  match t with
  | TRebootstrap =>
    if d_rebootstrap d then
      match tc_dht_nodes (TorrentFile.common metadata) with
      | None => Some (mkDisc (d_kademlia d) (d_pex d) (d_resolver d) false (d_found d))
      | Some bootstrap_nodes =>
        '(joined, r, k) ← dht_bootstrap (ends bootstrap_nodes) (d_resolver d) (d_kademlia d);
        Some (mkDisc k (d_pex d) r (negb joined) (d_found d))
      end
    else Some d
  | TDiscovery =>
    '(result, k) ← Kademlia.get_peers now rpc pick resolve fuel info_hash (d_kademlia d);
    let peers := match result with Ok p => p | Err _ => [] end in
    let rebootstrap := match peers with [] => true | _ => false end in
    Some (mkDisc k (d_pex d) (d_resolver d) rebootstrap
            (if rebootstrap then d_found d else d_found d ++ [peers]))
  | TAnnounce =>
    match mode with
    | MSeeding =>
      '(_, k) ← Kademlia.announce now rpc pick order fuel dest info_hash (d_kademlia d);
      Some (mkDisc k (d_pex d) (d_resolver d) (d_rebootstrap d) (d_found d))
    | _ => Some d
    end
  | TPex =>
    if is_private then Some d
    else
      match PexRouter.get_peers (d_pex d) info_hash with
      | [] => Some d
      | pex_peers => Some (mkDisc (d_kademlia d) (d_pex d) (d_resolver d) (d_rebootstrap d)
                             (d_found d ++ [pex_peers]))
      end
  end.

(** ** Its timers *)

(** src/src/bit_torrent/session/bep/router.rs:56-59 [the intervals]

    In seconds. *)
Definition period (t : Timer) : Z :=
  match t with
  | TAnnounce => 30 * 60
  | TDiscovery => 1 * 60
  | TPex => 1 * 60
  | TRebootstrap => 30
  end.

(** The time from which [tick] of each interval returns.  A late tick does not move the
    ones after it. *)
Definition Clock : Type := Timer → Z.
Definition advance (t : Timer) (c : Clock) : Clock :=
  λ t', if decide (t' = t) then (c t' + period t')%Z else c t'.

(** The task between two turns: [None] once it has returned. *)
Record Searching := mkSearching { se_state : Discovery; se_clock : Clock }.

(** src/src/bit_torrent/session/bep/router.rs:158-193 [start_peer_discovery, before the loop]

    [started] is the time at which the bootstrap has ended.  The first tick of the
    discovery is taken here, those of the others in the loop; [router] is whether the
    router is still there. *)
Definition start_peer_discovery (metadata : TorrentFile) (started : Z) (router : bool)
    (k : Kademlia) (pex : PexRouter) (r : Resolver.Resolver) : option (option Searching) :=
  let searching r k :=
    let created : Clock := λ _, (started + 5)%Z in
    Some (Some (mkSearching (mkDisc k pex r false []) (advance TDiscovery created))) in
  match tc_dht_nodes (TorrentFile.common metadata) with
  | None => searching r k
  | Some bootstrap_nodes =>
    if negb router then Some None
    else '(_, r, k) ← dht_bootstrap (ends bootstrap_nodes) r k; searching r k
  end.

Definition waits_for (metadata : TorrentFile) (s : Searching) (t : Timer) : bool :=
  match t with
  | TRebootstrap => d_rebootstrap (se_state s)
  | TPex => negb (TorrentFile.is_private metadata)
  | _ => true
  end.

(** src/src/bit_torrent/session/bep/router.rs:195-206 [start_peer_discovery, the loop]

    One turn at a time [at_] with the timer it takes of those that are due. *)
Definition turn (metadata : TorrentFile) (mode : ActiveMode) (resolve : string → option SocketAddr)
    (dest : option string) (router : bool) (at_ : Z) (t : Timer) (s : Searching)
    : option (option Searching) :=
  if negb router then Some None
  else if waits_for metadata s t && (se_clock s t <=? at_)%Z then
    d ← tick metadata mode resolve dest (se_state s) t;
    Some (Some (mkSearching d (advance t (se_clock s))))
  else Some (Some s).

(** * Properties of the task *)

(** Bootstrapping reports success exactly when one of the addresses resolves,
    whatever becomes of the join. *)
Lemma bootstrap_resolves addrs k b r' k' :
  dht_bootstrap addrs Resolver.IPResolver k = Some (b, r', k') →
  b = existsb (λ a, match lookup_b64 (TorrentAddr.addr_to_string a) with
                    | Some t => negb (String.eqb t "") &&
                                match parse_socket t with Some _ => true | None => false end
                    | None => false
                    end) addrs.
Proof.
  induction addrs as [|a addrs IH]; cbn [dht_bootstrap existsb]; [by intros [= <- _ _]|].
  destruct (lookup_b64 _) as [t|]; [|exact IH].
  unfold Resolver.resolve_address, Resolver.ip_resolve.
  destruct (String.eqb t ""); [exact IH|]. destruct (parse_socket t); cbn; [|exact IH].
  destruct (join_network _ _ _ _ _ _ _ _) as [[? ?]|]; [|done]. by intros [= <- _ _].
Qed.

(** A turn never gives an empty list to be dialled; a private torrent dials no
    address of the exchange; only a seeding session announces itself; and a
    lookup that finds nothing asks for another bootstrap, one that finds peers
    withdraws it. *)
Lemma tick_spec metadata mode resolve dest d t d' :
  tick metadata mode resolve dest d t = Some d' →
  (∃ l, d_found d' = d_found d ++ l ∧ Forall (λ ps, ps ≠ []) l ∧
     (l ≠ [] → t = TDiscovery ∨ (t = TPex ∧ TorrentFile.is_private metadata = false)) ∧
     (t = TDiscovery → (d_rebootstrap d' = true ↔ l = []))) ∧
  (t = TAnnounce → mode ≠ MSeeding → d' = d) ∧
  d_pex d' = d_pex d.
Proof.
  assert (∀ (l : list (list SocketAddr)), l = l ++ []) as Hnil by (intros l; by rewrite app_nil_r).
  destruct t; cbn [tick]; cbv zeta.
  - intros Ht. split_and!; [|done|].
    + exists []. split_and!; [|done..].
      destruct (d_rebootstrap d); [|by simplify_eq]. destruct (tc_dht_nodes _); [|by simplify_eq].
      destruct (dht_bootstrap _ _ _) as [[[? ?] ?]|]; by simplify_eq/=.
    + destruct (d_rebootstrap d); [|by simplify_eq]. destruct (tc_dht_nodes _); [|by simplify_eq].
      destruct (dht_bootstrap _ _ _) as [[[? ?] ?]|]; by simplify_eq/=.
  - destruct (Kademlia.get_peers _ _ _ _ _ _ _) as [[result k]|]; cbn; [|done]. intros [= <-].
    split_and!; [|done|done]. destruct (match result with Ok p => p | Err _ => [] end) as [|p ps]; cbn.
    + exists []. split_and!; auto; done.
    + exists [p :: ps]. split_and!; [done|by repeat constructor|by left|done].
  - intros Ht. assert (d_found d' = d_found d ∧ d_pex d' = d_pex d) as [Hf Hp].
    { destruct mode; try by simplify_eq.
      destruct (Kademlia.announce _ _ _ _ _ _ _ _) as [[? ?]|]; by simplify_eq/=. }
    split_and!; [exists []; split_and!; try done; by rewrite Hf| |done].
    intros _ Hm. destruct mode; by simplify_eq.
  - destruct (TorrentFile.is_private metadata) eqn:Hp.
    + intros [= <-]. split_and!; [exists []; split_and!; done|done|done].
    + destruct (PexRouter.get_peers _ _) as [|p ps]; intros [= <-]; cbn; (split_and!; [|done|done]).
      * exists []. split_and!; done.
      * exists [p :: ps]. split_and!; [done|by repeat constructor|by right|done].
Qed.

(** A run of the task: the times of its turns, with the mode of the session and the timer
    taken; the log has the turns whose timer was due. *)
Fixpoint search (metadata : TorrentFile) (resolve : string → option SocketAddr) (dest : option string)
    (s : Searching) (l : list (Z * ActiveMode * Timer)) : option (Searching * list (Z * Timer)) :=
  match l with
  | [] => Some (s, [])
  | (at_, mode, t) :: l =>
    match turn metadata mode resolve dest true at_ t s with
    | Some (Some s') =>
      '(s'', log) ← search metadata resolve dest s' l;
      Some (s'', if waits_for metadata s t && (se_clock s t <=? at_)%Z then (at_, t) :: log else log)
    | _ => None
    end
  end.

Definition times (t : Timer) (log : list (Z * Timer)) : list Z :=
  omap (λ '(at_, t'), if decide (t' = t) then Some at_ else None) log.

(** The turns of a timer come no sooner than its period allows: its [k]-th, counted from
    zero, not before [k] periods after the first was due.  In particular a session is
    announced at most once in half an hour, and when it was not seeding at that moment, not
    before the next. *)
Lemma search_schedule metadata resolve dest s l s' log :
  search metadata resolve dest s l = Some (s', log) →
  ∀ t, (se_clock s' t = se_clock s t + Z.of_nat (length (times t log)) * period t)%Z ∧
    ∀ k at_, times t log !! k = Some at_ → (se_clock s t + Z.of_nat k * period t ≤ at_)%Z.
Proof.
  revert s s' log. induction l as [|[[at_ mode] t0] l IH]; intros s s' log; cbn [search].
  { intros [= <- <-] t. split; [cbn; lia|done]. }
  unfold turn. cbn [negb].
  destruct (waits_for metadata s t0 && (se_clock s t0 <=? at_)%Z) eqn:Hd.
  - destruct (tick _ _ _ _ _ _) as [d|]; [|done]. cbn [mbind option_bind].
    destruct (search _ _ _ _ l) as [[s1 log1]|] eqn:E; [|done]. intros [= <- <-] t.
    apply andb_true_iff in Hd as [_ Hd%Z.leb_le].
    destruct (IH _ _ _ E t) as [Hc Hk]. cbn [se_clock] in Hc, Hk. unfold advance in Hc, Hk.
    unfold times in *. cbn [omap list_omap]. destruct (decide (t = t0)) as [->|Hne].
    + rewrite decide_True by done. split; [cbn [length]; lia|]. intros [|k] at1; cbn.
      * intros [= <-]. lia.
      * intros Hat. specialize (Hk k at1 Hat). lia.
    + rewrite decide_False by done. by split.
  - destruct (search _ _ _ s l) as [[s1 log1]|] eqn:E; [|done]. intros [= <- <-]. by apply IH.
Qed.
End discovery.

(** * Dialling *)

(** [Vec::dedup]. *)
Fixpoint dedup (l : list SocketAddr) : list SocketAddr :=
  match l with
  | a :: (b :: _) as l' => if bool_decide (a = b) then dedup l' else a :: dedup l'
  | _ => l
  end.

Definition addr_leb (a b : SocketAddr) : bool := lex_leb (addr_key a) (addr_key b).

(** A task that dials: about to claim its address, or shaking hands. *)
Inductive Dial := DClaim (addr : SocketAddr) | DShake (addr : SocketAddr).

(** How a handshake ends: not in time, or as the network lets it. *)
Inductive ShakeEnd :=
| ShakeTimeout
| ShakeEnds (connect : SocketAddr → Result BepRouterError unit)
    (transport : SocketAddr → StandardMessage → Result BepRouterError unit).

Record Dialing := mkDialing { dg_session : Session; dg_tasks : list Dial }.

Inductive DialEvent :=
| EvDiscovered (peers : list SocketAddr)
| EvDial (i : nat) (o : ShakeEnd)
| EvTable (addr : SocketAddr) (st : option PeerState).

Definition forget (addr : SocketAddr) (s : Session) : Session :=
  with_peers s (delete addr (s_peers s)).

(** src/src/bit_torrent/session/session.rs:427-437 [TorrentSession::add_discovered_peers]

    The tasks that are spawned. *)
Definition add_discovered_peers (peers : list SocketAddr) : list Dial :=
  map DClaim (dedup (sort_by addr_leb peers)).

(** src/src/bit_torrent/session/session.rs:446-460 [add_discovered_peers, the claim] *)
Definition claim (addr : SocketAddr) (s : Session) : Session * list Dial :=
  match s_peers s !! addr with
  | Some _ => (s, [])
  | None => (with_peers s (<[addr := Connecting]> (s_peers s)), [DShake addr])
  end.

(** src/src/bit_torrent/session/session.rs:462-483 [add_discovered_peers, the handshake] *)
Definition shake (addr : SocketAddr) (o : ShakeEnd) (s : Session) : Session :=
  match o with
  | ShakeTimeout => forget addr s
  | ShakeEnds connect transport =>
    match handshake connect transport addr s with
    | None => s
    | Some (s, _, Ok _) => s
    | Some (s, _, Err _) => forget addr s
    end
  end.

(** src/src/bit_torrent/session/session.rs:440-484 [add_discovered_peers, the task]

    Interleaved with other tasks and with the handlers of messages, which set or
    remove the entry of a peer. *)
Definition dial_step (d : Dialing) (e : DialEvent) : Dialing :=
  let '(mkDialing s tasks) := d in
  match e with
  | EvDiscovered peers => mkDialing s (tasks ++ add_discovered_peers peers)
  | EvDial i o =>
    match tasks !! i with
    | None => d
    | Some (DClaim addr) =>
      let '(s, next) := claim addr s in mkDialing s (delete i tasks ++ next)
    | Some (DShake addr) => mkDialing (shake addr o s) (delete i tasks)
    end
  | EvTable addr (Some st) => mkDialing (with_peers s (<[addr := st]> (s_peers s))) tasks
  | EvTable addr None => mkDialing (forget addr s) tasks
  end.

Definition shaking (tasks : list Dial) : list SocketAddr :=
  omap (λ t, match t with DShake a => Some a | _ => None end) tasks.

(** An event that takes no entry from under a handshake. *)
Definition undisturbed (d : Dialing) (e : DialEvent) : Prop :=
  match e with EvTable addr None => addr ∉ shaking (dg_tasks d) | _ => True end.

Inductive dials : Dialing → list DialEvent → Dialing → Prop :=
| dials_nil d : dials d [] d
| dials_snoc d es d' e : dials d es d' → undisturbed d' e → dials d (es ++ [e]) (dial_step d' e).

(** ** Each address once *)

Lemma dedup_elem l x : x ∈ dedup l ↔ x ∈ l.
Proof.
  induction l as [|a [|b l] IH]; [done|done|]. cbn [dedup]. case_bool_decide as E.
  - rewrite IH. subst. set_solver.
  - change (x ∈ a :: dedup (b :: l) ↔ x ∈ a :: b :: l). rewrite !elem_of_cons, IH, elem_of_cons. done.
Qed.

Lemma addr_leb_antisym a b : addr_leb a b = true → addr_leb b a = true → a = b.
Proof.
  intros Ha Hb. pose proof (lex_leb_antisym _ _ Ha Hb) as E.
  apply (f_equal addr_of_key) in E. rewrite !addr_of_key_key in E. by injection E.
Qed.

Lemma dedup_sorted_NoDup l : StronglySorted (λ a b, addr_leb a b = true) l → NoDup (dedup l).
Proof.
  induction l as [|a [|b l] IH]; intros Hs; [constructor|by apply NoDup_singleton|].
  apply StronglySorted_inv in Hs as [Hs Ha]. cbn [dedup]. case_bool_decide as E; [by apply IH|].
  change (NoDup (a :: dedup (b :: l))). constructor; [|by apply IH].
  rewrite dedup_elem, elem_of_cons. intros [|Hin]; [done|]. apply E.
  apply Forall_cons in Ha as [Hab _]. apply StronglySorted_inv in Hs as [_ Hb].
  rewrite Forall_forall in Hb. apply addr_leb_antisym; auto.
Qed.

(** The tasks of one discovery dial each address once. *)
Lemma discovered_once peers : ∃ l, add_discovered_peers peers = map DClaim l ∧ NoDup l ∧
  ∀ a, a ∈ l ↔ a ∈ peers.
Proof.
  eexists. split_and!; [done| |].
  - apply dedup_sorted_NoDup, sort_by_StronglySorted.
    + intros a b. apply lex_leb_total.
    + intros a b c. apply lex_leb_trans.
  - intros a. rewrite dedup_elem. by rewrite (sort_by_Permutation addr_leb peers).
Qed.

(** ** At most one handshake *)

Record dial_inv (d : Dialing) : Prop := {
  di_once : NoDup (shaking (dg_tasks d));
  di_table a : a ∈ shaking (dg_tasks d) → is_Some (s_peers (dg_session d) !! a);
}.

Lemma shaking_app l k : shaking (l ++ k) = shaking l ++ shaking k.
Proof. apply omap_app. Qed.

Lemma shaking_claims l : shaking (map DClaim l) = [].
Proof. by induction l. Qed.

Lemma shaking_delete tasks i t : tasks !! i = Some t →
  shaking tasks ≡ₚ shaking [t] ++ shaking (delete i tasks).
Proof.
  intros Hi. rewrite <- (take_drop_middle _ _ _ Hi) at 1. rewrite delete_take_drop, !shaking_app.
  change (shaking (t :: drop (S i) tasks)) with (shaking ([t] ++ drop (S i) tasks)).
  rewrite shaking_app. rewrite !(assoc_L (++)). by rewrite (Permutation_app_comm (shaking (take i tasks))).
Qed.

(** A handshake touches no entry but that of its peer. *)
Lemma shake_other a o s b : b ≠ a → s_peers (shake a o s) !! b = s_peers s !! b.
Proof.
  intros Hne. unfold shake, forget. destruct o as [|connect transport]; cbn.
  { by rewrite lookup_delete_ne. }
  unfold handshake. destruct (connect a); cbn; [|by rewrite lookup_delete_ne].
  unfold send. destruct (transport a _); cbn.
  - by rewrite lookup_insert_ne.
  - by rewrite lookup_delete_ne, lookup_insert_ne.
Qed.

Lemma dial_inv_step d e : dial_inv d → undisturbed d e → dial_inv (dial_step d e).
Proof.
  intros [Hn Ht] Hu. destruct d as [s tasks], e as [peers|i o|a [st|]]; cbn in *.
  - split; cbn; unfold add_discovered_peers; rewrite shaking_app, shaking_claims, app_nil_r; done.
  - destruct (tasks !! i) as [[a|a]|] eqn:Ei; [| |done]; apply shaking_delete in Ei; cbn in Ei.
    + unfold claim. rewrite Ei in Hn. destruct (s_peers s !! a) as [st|] eqn:Ea; split; cbn; rewrite ?app_nil_r.
      * done.
      * intros b Hb. apply Ht. by rewrite Ei.
      * rewrite shaking_app. apply NoDup_app. split_and!; [done| |apply NoDup_singleton].
        intros b Hb Hba. apply list_elem_of_singleton in Hba as ->. rewrite <- Ei in Hb.
        destruct (Ht a Hb). congruence.
      * intros b. rewrite shaking_app, elem_of_app. intros [Hb|Hb].
        -- destruct (decide (b = a)) as [->|]; [by rewrite lookup_insert_eq|].
           rewrite lookup_insert_ne by done. apply Ht. by rewrite Ei.
        -- apply list_elem_of_singleton in Hb as ->. by rewrite lookup_insert_eq.
    + rewrite Ei in Hn. apply NoDup_cons in Hn as [Hna Hn]. split; cbn; [done|].
      intros b Hb. rewrite shake_other by (intros ->; done). apply Ht. rewrite Ei. by right.
  - split; cbn; [done|]. intros b Hb. destruct (decide (b = a)) as [->|].
    + by rewrite lookup_insert_eq.
    + rewrite lookup_insert_ne by done. by apply Ht.
  - split; cbn; [done|]. intros b Hb. rewrite lookup_delete_ne by (intros <-; done). by apply Ht.
Qed.

(** However discoveries, dials and handlers interleave, as long as no handler
    takes away the entry of a handshake under way, at most one handshake with an
    address is under way, the address is in the table meanwhile, and an address
    that is in the table is not dialled. *)
Lemma dials_once s es d : dials (mkDialing s []) es d →
  NoDup (shaking (dg_tasks d)) ∧
  (∀ a, a ∈ shaking (dg_tasks d) → is_Some (s_peers (dg_session d) !! a)) ∧
  (∀ a, is_Some (s_peers (dg_session d) !! a) → claim a (dg_session d) = (dg_session d, [])).
Proof.
  intros Hd. assert (dial_inv d) as [Hn Ht].
  { remember (mkDialing s []) as d0 eqn:E0. induction Hd as [|d0 es d' e Hd IH Hu]; subst.
    - split; [constructor|]. intros a Ha. by apply not_elem_of_nil in Ha.
    - by apply dial_inv_step; [apply IH|]. }
  split_and!; [done..|]. intros a [st Ha]. unfold claim. by rewrite Ha.
Qed.

(** A handshake that fails leaves the address free for the next discovery. *)
Lemma failed_dial_retried a s connect transport e :
  connect a = Err e →
  (claim a (shake a (ShakeEnds connect transport) s)).2 = [DShake a] ∧
  (claim a (shake a ShakeTimeout s)).2 = [DShake a].
Proof.
  intros He. unfold shake, handshake. rewrite He. cbn. unfold claim, forget. cbn.
  by rewrite lookup_delete_eq.
Qed.

Module DiscoveryExamples.
Import BepExamples.

(** A peer that greets us while we dial it becomes active; when our own handshake
    then times out, its entry is removed all the same. *)
Example timeout_drops_active :
  let d := foldl dial_step (mkDialing (with_peers ours ∅) [])
    [EvDiscovered [bob]; EvDial 0 ShakeTimeout; EvTable bob (Some (Active bob_pipeline));
     EvDial 0 ShakeTimeout] in
  s_peers (dg_session d) !! bob = None ∧ dg_tasks d = [].
Proof. vm_compute. done. Qed.
End DiscoveryExamples.

(** * Asking again *)

(** src/src/bit_torrent/session/session.rs:127-170 [TorrentSession::spawn_interest_prober]

    One tick, which no task of the program starts: every active peer is told our
    interest if it has a piece we lack.  [transport] is the outcome of a message. *)
Definition interest_tick (transport : SocketAddr → StandardMessage → Result BepRouterError unit)
    (s : Session) : Session * list Effect :=
  let bitfield := s_bitfield s in
  (with_peers s ((λ state, match state with
                           | Active p => Active (Pipeline.evaluate_interest p bitfield).1
                           | state => state
                           end) <$> s_peers s),
   omap (λ '(peer, state),
     match state with
     | Active p =>
       if (Pipeline.evaluate_interest p bitfield).2 then
         match transport peer MInterested with Ok _ => Some (Sent peer MInterested) | Err _ => None end
       else None
     | _ => None
     end) (map_to_list (s_peers s))).

(** Exactly the active peers with a piece we lack, and a working connection, are told, each
    once; and no peer is added or lost. *)
Lemma interest_told transport s a :
  (Sent a MInterested ∈ (interest_tick transport s).2 ↔
   ∃ p u, s_peers s !! a = Some (Active p) ∧ BitField.difference (pl_bitfield p) (s_bitfield s) ≠ [] ∧
     transport a MInterested = Ok u) ∧
  NoDup (interest_tick transport s).2 ∧
  dom (s_peers (interest_tick transport s).1) = dom (s_peers s).
Proof.
  cbn [interest_tick fst snd s_peers with_peers]. split_and!; [|apply NoDup_omap|apply dom_fmap_L].
  - rewrite list_elem_of_omap. split.
    + intros ([b st] & Hb%elem_of_map_to_list & E). destruct st as [| |p]; [done|done|]. cbn in E.
      destruct (BitField.difference _ _) as [|i l] eqn:Ed; [done|]. cbn in E.
      destruct (transport b MInterested) as [u|] eqn:Et; [|done]. injection E as ->.
      exists p, u. by rewrite Ed.
    + intros (p & u & Ha & Hd & Ht). exists (a, Active p). split; [by apply elem_of_map_to_list|]. cbn.
      destruct (BitField.difference _ _); [done|]. cbn. by rewrite Ht.
  - intros [b st] [b' st'] x Hb Hb' E E'. apply elem_of_map_to_list in Hb, Hb'.
    destruct st as [| |p], st' as [| |p']; try done. cbn in E, E'.
    destruct (BitField.difference _ _); [done|]. cbn in E.
    destruct (transport b MInterested); [|done]. injection E as <-.
    destruct (BitField.difference _ _); [done|]. cbn in E'.
    destruct (transport b' MInterested); [|done]. injection E' as <-. rewrite Hb in Hb'. by simplify_eq.
  - apply NoDup_map_to_list.
Qed.
