(* ===== verification/Session.v ===== *)
(** The life cycle of a session: [session/transition.rs], [session/state.rs] and
    the worker tasks of [session/session.rs].

    The state sits behind a lock that a transition takes and releases several
    times, so other transitions and the workers run in between.  A transition in
    progress is a program counter [Pc], one constructor per stretch of code that
    runs without giving up the lock or awaiting; [step_transition] runs one
    stretch.  The system is a set of transitions in progress and of workers, and
    [step] interleaves them.  A cancellation token is a number; what preparing a
    download or a seed finds on disk is the environment [Env] of that step. *)

From S2P Require Import Prelude BitField Bep.

(** * Data *)

(** src/src/bit_torrent/session/state.rs:144-147 [LastState] *)
Inductive LastState :=
| LDownloading (dest : string)
| LSeeding (path : string).

(** src/src/bit_torrent/session/state.rs:149-165 [TorrentState]

    [resources] says whether the worker has yet to take the resources. *)
Inductive TorrentState :=
| Idle (last : option LastState)
| Downloading (path dest : string) (resources : bool) (token : nat)
| Seeding (path : string) (resources : bool) (token : nat)
| Cancelled.

(** src/src/bit_torrent/session/transition.rs:21-36 [Transition]

    The metainfo a transition carries is the session's own. *)
Inductive Transition :=
| Download (dest : string)
| Seed (path : string)
| Pause
| Resume
| Cancel.

(** src/src/bit_torrent/session/mod.rs:13-29 [TorrentSessionError] *)
Inductive TorrentSessionError :=
| FailedToLoad
| StateError
| UnableToFindXDGFolder
| InvalidTransition (to : string)
| ChunkReaderError.

(** src/src/bit_torrent/session/manager.rs:43-49 [SessionEvent] *)
Inductive SessionEvent :=
| PieceVerified (total_pieces current : Z)
| SeedStarted
| EIdle
| PieceDownloaded (total_pieces current : Z)
| DownloadCompleted (resource_path : string).

(** src/src/bit_torrent/session/transition.rs:21-21 [Display for Transition] *)
Definition transition_name (to : Transition) : string :=
  match to with
  | Download _ => "Download" | Seed _ => "Seed" | Pause => "Pause"
  | Resume => "Resume" | Cancel => "Cancel"
  end.

Module TorrentState.
(** src/src/bit_torrent/session/state.rs:174-178 [Default for TorrentState] *)
Definition default_state : TorrentState := Idle None.

(** src/src/bit_torrent/session/state.rs:191-201 [TorrentState::cancel_inner]

    The token that is cancelled, if any. *)
Definition cancel_inner (self : TorrentState) : option nat :=
  match self with
  | Downloading _ _ _ token => Some token
  | Seeding _ _ token => Some token
  | _ => None
  end.

(** src/src/bit_torrent/session/state.rs:203-216 [TorrentState::can_transition_to] *)
Definition can_transition_to (self : TorrentState) (to : Transition) : bool :=
  match self, to with
  | Idle None, Download _
  | Idle None, Seed _
  | Downloading _ _ _ _, Pause
  | Downloading _ _ _ _, Cancel
  | Downloading _ _ _ _, Seed _
  | Seeding _ _ _, Pause
  | Seeding _ _ _, Cancel
  | Idle (Some _), Resume
  | Idle (Some _), Cancel => true
  | _, _ => false
  end.

(** src/src/bit_torrent/session/state.rs:180-188 [TorrentSession::current_mode] *)
Definition current_mode (self : TorrentState) : ActiveMode :=
  match self with
  | Downloading _ _ _ _ => MDownloading
  | Seeding _ _ _ => MSeeding
  | _ => MIdle
  end.

(** src/src/bit_torrent/session/state.rs:248-255 [TorrentState::take_downloading] *)
Definition take_downloading (self : TorrentState) : option (TorrentState * string) :=
  match self with
  | Downloading path dest true token => Some (Downloading path dest false token, dest)
  | _ => None
  end.

(** src/src/bit_torrent/session/state.rs:257-262 [TorrentState::take_seeding] *)
Definition take_seeding (self : TorrentState) : option TorrentState :=
  match self with
  | Seeding path true token => Some (Seeding path false token)
  | _ => None
  end.

(** src/src/bit_torrent/session/state.rs:264-266 [TorrentState::is_cancelled] *)
Definition is_cancelled (self : TorrentState) : bool :=
  match self with Cancelled => true | _ => false end.
End TorrentState.

(** * The system *)

(** What preparing the resources of a state answers: the directory, and the bit
    field of a resume file or of a check of the pieces. *)
Record Env := mkEnv {
  prepare_download : string → Result TorrentSessionError (string * option BitField);
  prepare_seed : string → Result TorrentSessionError (string * BitField);
}.

Inductive WorkerKind := Downloader (directory : string) | Seeder.
Inductive WorkerStatus := Spawned | Running | Finished.
Record Worker := mkWorker { wk_kind : WorkerKind; wk_token : nat; wk_status : WorkerStatus }.

(** Where a transition in progress is. *)
Inductive Pc :=
| Guard (to : Transition)
| CancelInner (to : Transition)
| Body (to : Transition)
| SetBitfield (bitfield : BitField) (next : TorrentState)
| SwapState (next : TorrentState)
| Spawn (kind : WorkerKind) (token : nat)
| SendIdle
| Returned (r : Result TorrentSessionError unit)
| Panicked.

Record Config := mkConfig {
  c_state : TorrentState;
  c_bitfield : BitField;
  c_cancelled : gset nat;
  c_next : nat;
  c_events : list SessionEvent;
  c_workers : list Worker;
  c_tasks : list Pc;
}.

Definition set_state (c : Config) (st : TorrentState) : Config :=
  mkConfig st (c_bitfield c) (c_cancelled c) (c_next c) (c_events c) (c_workers c) (c_tasks c).
Definition set_bitfield (c : Config) (bf : BitField) : Config :=
  mkConfig (c_state c) bf (c_cancelled c) (c_next c) (c_events c) (c_workers c) (c_tasks c).
Definition set_tasks (c : Config) (ts : list Pc) : Config :=
  mkConfig (c_state c) (c_bitfield c) (c_cancelled c) (c_next c) (c_events c) (c_workers c) ts.
Definition set_workers (c : Config) (ws : list Worker) : Config :=
  mkConfig (c_state c) (c_bitfield c) (c_cancelled c) (c_next c) (c_events c) ws (c_tasks c).
Definition send_event (c : Config) (e : SessionEvent) : Config :=
  mkConfig (c_state c) (c_bitfield c) (c_cancelled c) (c_next c) (c_events c ++ [e])
    (c_workers c) (c_tasks c).
Definition cancel (c : Config) (token : option nat) : Config :=
  match token with
  | None => c
  | Some t => mkConfig (c_state c) (c_bitfield c) ({[ t ]} ∪ c_cancelled c) (c_next c)
                (c_events c) (c_workers c) (c_tasks c)
  end.
(** [CancellationToken::new]. *)
Definition new_token (c : Config) : Config * nat :=
  (mkConfig (c_state c) (c_bitfield c) (c_cancelled c) (S (c_next c)) (c_events c)
     (c_workers c) (c_tasks c), c_next c).

(** src/src/bit_torrent/session/state.rs:269-273 [Drop for TorrentState] *)
Definition drop_state (c : Config) (st : TorrentState) : Config :=
  cancel c (TorrentState.cancel_inner st).

(** src/src/bit_torrent/session/transition.rs:39-47 [TorrentSession::swap_state]

    The state that is not kept is dropped. *)
Definition swap_state (c : Config) (next : TorrentState) : Config :=
  if TorrentState.is_cancelled (c_state c) then drop_state c next
  else drop_state (set_state c next) (c_state c).

(** src/src/bit_torrent/session/transition.rs:96-117 [TorrentSession::transition_downloading]

    Up to the first write of shared state. *)
Definition transition_downloading (env : Env) (c : Config) (dest : string) : Config * Pc :=
  let '(c, token) := new_token c in
  match prepare_download env dest with
  | Err e => (c, Returned (Err e))
  | Ok (path, resume) =>
    let next := Downloading path dest true token in
    (c, match resume with Some bf => SetBitfield bf next | None => SwapState next end)
  end.

(** src/src/bit_torrent/session/transition.rs:126-147 [TorrentSession::transition_seeding]

    Up to the first write of shared state. *)
Definition transition_seeding (env : Env) (c : Config) (user_space : string) : Config * Pc :=
  let '(c, token) := new_token c in
  match prepare_seed env user_space with
  | Err e => (c, Returned (Err e))
  | Ok (path, bf) => (c, SetBitfield bf (Seeding path true token))
  end.

(** src/src/bit_torrent/session/transition.rs:151-167 [TorrentSession::transition_idle]

    The state it means to go to. *)
Definition transition_idle (st : TorrentState) : TorrentState :=
  Idle match st with
       | Downloading _ dest _ _ => Some (LDownloading dest)
       | Seeding path _ _ => Some (LSeeding path)
       | _ => None
       end.

(** src/src/bit_torrent/session/transition.rs:63-93 [TorrentSession::transition, body]

    With [transition_cancelled], lines 169-178. *)
Definition transition_body (env : Env) (c : Config) (to : Transition) : Config * Pc :=
  match to with
  | Download dest => transition_downloading env c dest
  | Seed path => transition_seeding env c path
  | Pause => (c, SwapState (transition_idle (c_state c)))
  | Resume =>
    match c_state c with
    | Idle (Some (LDownloading dest)) => (c, Body (Download dest))
    | Idle (Some (LSeeding path)) => (c, Body (Seed path))
    | _ => (c, Panicked)
    end
  | Cancel =>
    if TorrentState.is_cancelled (c_state c) then (c, Returned (Ok tt))
    else (c, SwapState Cancelled)
  end.

Definition after_swap (next : TorrentState) : Pc :=
  match next with
  | Downloading path _ _ token => Spawn (Downloader path) token
  | Seeding _ _ token => Spawn Seeder token
  | Idle _ => SendIdle
  | Cancelled => Returned (Ok tt)
  end.

(** src/src/bit_torrent/session/transition.rs:49-179 [TorrentSession::transition] *)
Definition step_transition (env : Env) (c : Config) (pc : Pc) : Config * Pc :=
  match pc with
  | Guard to =>
    (c, if TorrentState.can_transition_to (c_state c) to then CancelInner to
        else Returned (Err (InvalidTransition (transition_name to))))
  | CancelInner to => (cancel c (TorrentState.cancel_inner (c_state c)), Body to)
  | Body to => transition_body env c to
  | SetBitfield bf next => (set_bitfield c bf, SwapState next)
  | SwapState next => (swap_state c next, after_swap next)
  | Spawn kind token =>
    (set_workers c (c_workers c ++ [mkWorker kind token Spawned]), Returned (Ok tt))
  | SendIdle => (send_event c EIdle, Returned (Ok tt))
  | Returned r => (c, Returned r)
  | Panicked => (c, Panicked)
  end.

(** src/src/bit_torrent/session/session.rs:181-317 [spawn_downloader, the task]

    The task takes the resources of the state it finds; its loop ends when its
    token is cancelled or when the download is [done].  The next status, and the
    transition it starts.  What the loop does with the pieces it is given is
    [Download.writer_step]; the broadcasts of interest are left out. *)
Definition step_downloader (done : bool) (c : Config) (directory : string) (token : nat)
    (st : WorkerStatus) : Config * WorkerStatus * list Pc :=
  match st with
  | Spawned =>
    match TorrentState.take_downloading (c_state c) with
    | Some (state, _) => (set_state c state, Running, [])
    | None => (c, Finished, [])
    end
  | Running =>
    if decide (token ∈ c_cancelled c) then (c, Finished, [])
    else if done then
      (send_event (cancel c (Some token)) (DownloadCompleted directory), Finished,
       [Guard (Seed directory)])
    else (c, Running, [])
  | Finished => (c, Finished, [])
  end.

(** src/src/bit_torrent/session/session.rs:329-394 [spawn_seeder, the task]

    What a seeder sends for a request is [read_piece] and [make_payload]; the
    broadcast of a choke is left out. *)
Definition step_seeder (closed : bool) (c : Config) (token : nat) (st : WorkerStatus)
    : Config * WorkerStatus * list Pc :=
  match st with
  | Spawned =>
    let c := send_event c SeedStarted in
    match TorrentState.take_seeding (c_state c) with
    | Some state => (set_state c state, Running, [])
    | None => (c, Finished, [])
    end
  | Running =>
    if decide (token ∈ c_cancelled c) then (c, Finished, [])
    else if closed then (c, Finished, [Guard Pause])
    else (c, Running, [])
  | Finished => (c, Finished, [])
  end.

Definition step_worker (ended : bool) (c : Config) (w : Worker) : Config * Worker * list Pc :=
  let '(c, st, started) :=
    match wk_kind w with
    | Downloader directory => step_downloader ended c directory (wk_token w) (wk_status w)
    | Seeder => step_seeder ended c (wk_token w) (wk_status w)
    end in
  (c, mkWorker (wk_kind w) (wk_token w) st, started).

(** Anyone may ask for a transition; transitions in progress and workers proceed
    in any order. *)
Inductive step : Config → Config → Prop :=
| step_call c to : step c (set_tasks c (c_tasks c ++ [Guard to]))
| step_task env c l1 pc l2 c' pc' :
    c_tasks c = l1 ++ pc :: l2 → step_transition env c pc = (c', pc') →
    step c (set_tasks c' (l1 ++ pc' :: l2))
| step_work ended c l1 w l2 c' w' started :
    c_workers c = l1 ++ w :: l2 → step_worker ended c w = (c', w', started) →
    step c (set_tasks (set_workers c' (l1 ++ w' :: l2)) (c_tasks c' ++ started)).

(** src/src/bit_torrent/session/session.rs:63-79 [TorrentSession::new]

    Before its first transition. *)
Definition session_new (piece_count : nat) : Config :=
  mkConfig TorrentState.default_state (BitField.empty piece_count) ∅ 0 [] [] [].

Definition reachable (c : Config) : Prop := ∃ n, rtc step (session_new n) c.

(** A transition that runs undisturbed: seven stretches at most. *)
Fixpoint run_pc (fuel : nat) (env : Env) (c : Config) (pc : Pc) : Config * Pc :=
  match fuel with
  | O => (c, pc)
  | S fuel => let '(c, pc) := step_transition env c pc in run_pc fuel env c pc
  end.
Definition run_transition (env : Env) (c : Config) (to : Transition) : Config * Pc :=
  run_pc 7 env c (Guard to).

(** * Lemmas *)

(** ** Tokens

    Every token belongs to one transition in progress or one worker; one that
    has been handed to a worker is cancelled unless it is the state's. *)

Definition settled (c : Config) (t : nat) : Prop :=
  t ∈ c_cancelled c ∨ TorrentState.cancel_inner (c_state c) = Some t.

(** Tokens a transition has put in place, and tokens it still holds back. *)
Definition placed (pc : Pc) : list nat := match pc with Spawn _ t => [t] | _ => [] end.
Definition held_back (pc : Pc) : list nat :=
  match pc with
  | SetBitfield _ next | SwapState next => option_list (TorrentState.cancel_inner next)
  | _ => []
  end.
Definition task_tokens (pc : Pc) : list nat := placed pc ++ held_back pc.
Definition worker_tokens (c : Config) : list nat := map wk_token (c_workers c).
Definition tokens (c : Config) : list nat := worker_tokens c ++ flat_map task_tokens (c_tasks c).

Record inv (c : Config) : Prop := {
  inv_nodup : NoDup (tokens c);
  inv_bound : Forall (λ t, t < c_next c) (tokens c);
  inv_settled : ∀ t, t ∈ worker_tokens c ++ flat_map placed (c_tasks c) → settled c t;
  inv_known : ∀ t, settled c t → t < c_next c;
}.

Lemma settled_cancel c o t : settled c t → settled (cancel c o) t.
Proof. destruct o; unfold settled; cbn; set_solver. Qed.

Lemma cancel_settles c o t : o = Some t → settled (cancel c o) t.
Proof. intros ->. left. cbn. set_solver. Qed.

Lemma cancel_source c o t : settled (cancel c o) t → settled c t ∨ o = Some t.
Proof. destruct o; unfold settled; cbn; set_solver. Qed.

Lemma swap_source c next t :
  settled (swap_state c next) t → settled c t ∨ TorrentState.cancel_inner next = Some t.
Proof.
  unfold swap_state, drop_state. destruct (TorrentState.is_cancelled _);
    intros [H|H]%cancel_source; [by left|by right| |left; by right].
  destruct H as [H|H]; [left; by left|by right].
Qed.

Lemma swap_state_settled c next t :
  settled c t ∨ TorrentState.cancel_inner next = Some t → settled (swap_state c next) t.
Proof.
  unfold swap_state, drop_state. intros H. destruct (TorrentState.is_cancelled _) eqn:E.
  - destruct H; [by apply settled_cancel|by apply cancel_settles].
  - destruct H as [[H|H]|H].
    + apply settled_cancel. by left.
    + by apply cancel_settles.
    + apply settled_cancel. by right.
Qed.

Lemma cancel_frame c o :
  c_state (cancel c o) = c_state c ∧ c_next (cancel c o) = c_next c ∧
  c_workers (cancel c o) = c_workers c ∧ c_tasks (cancel c o) = c_tasks c.
Proof. by destruct o. Qed.

Lemma swap_frame c next :
  c_next (swap_state c next) = c_next c ∧ c_workers (swap_state c next) = c_workers c ∧
  c_tasks (swap_state c next) = c_tasks c.
Proof.
  unfold swap_state, drop_state. destruct (TorrentState.is_cancelled _);
    [apply (cancel_frame c)|apply (cancel_frame (set_state c next))].
Qed.

(** What one stretch of a transition does to the tokens. *)
Record stretch (c c' : Config) (pc pc' : Pc) : Prop := {
  st_tasks : c_tasks c' = c_tasks c;
  st_next : c_next c ≤ c_next c';
  st_settled : ∀ t, settled c t → settled c' t;
  st_source : ∀ t, settled c' t → settled c t ∨ t ∈ task_tokens pc;
  st_placed : ∀ t, t ∈ placed pc' → settled c' t;
  st_workers : ∀ t, t ∈ worker_tokens c' → t ∈ worker_tokens c ∨ t ∈ placed pc;
  st_tokens : ∃ new, worker_tokens c' ++ task_tokens pc' ≡ₚ worker_tokens c ++ task_tokens pc ++ new ∧
                     new ⊆ seq (c_next c) (c_next c' - c_next c) ∧ NoDup new;
}.

Ltac stretch_same := split;
  [done|cbn; lia|intros t Ht; exact Ht|by left|intros t Ht; cbn in Ht; set_solver|by left|
   exists []; split_and!; [by rewrite ?app_nil_r|apply list_subseteq_nil|constructor]].

Lemma stretch_prepare c pc pc' t :
  task_tokens pc = [] → placed pc' = [] → held_back pc' = [] ∨ held_back pc' = [t] →
  t = c_next c → stretch c (new_token c).1 pc pc'.
Proof.
  intros Hpc Hpl Hh ->. split; [done|cbn; lia|intros t Ht; exact Ht|by left|by rewrite Hpl; intros t []%elem_of_nil|
    by left|].
  exists (held_back pc'). unfold task_tokens at 1. rewrite Hpl, Hpc. cbn.
  split_and!; [done| |destruct Hh as [->| ->]; repeat constructor; set_solver].
  intros x Hx. apply elem_of_seq. destruct Hh as [E|E]; rewrite E in Hx; [by apply elem_of_nil in Hx|].
  apply list_elem_of_singleton in Hx as ->. lia.
Qed.

Lemma step_transition_stretch env c pc c' pc' :
  step_transition env c pc = (c', pc') → stretch c c' pc pc'.
Proof.
  destruct pc as [to|to|to|bf next|next|kind token| |r|]; cbn [step_transition]; intros [= <- <-] || intros E.
  - destruct (TorrentState.can_transition_to _ _); stretch_same.
  - destruct (cancel_frame c (TorrentState.cancel_inner (c_state c))) as (_ & Hn & Hw & Ht).
    split; [done|lia|intros t; apply settled_cancel| |intros t []%elem_of_nil| |].
    + intros t [H|H]%cancel_source; left; [done|by right].
    + unfold worker_tokens. rewrite Hw. by left.
    + exists []. unfold worker_tokens. rewrite Hw. split_and!; [done|apply list_subseteq_nil|constructor].
  - unfold transition_body in E. destruct to as [dest|path| | |].
    + unfold transition_downloading in E. cbn in E.
      destruct (prepare_download env dest) as [[path [bf|]]|e]; injection E as <- <-;
        (eapply stretch_prepare; [done|done|by auto|done]).
    + unfold transition_seeding in E. cbn in E.
      destruct (prepare_seed env path) as [[p bf]|e]; injection E as <- <-;
        (eapply stretch_prepare; [done|done|by auto|done]).
    + injection E as <- <-. stretch_same.
    + destruct (c_state c) as [[[|]|]| | |]; injection E as <- <-; stretch_same.
    + destruct (TorrentState.is_cancelled _); injection E as <- <-; stretch_same.
  - stretch_same.
  - destruct (swap_frame c next) as (Hn & Hw & Ht).
    split; [done|lia|intros t Ht'; apply swap_state_settled; by left| | | |].
    + intros t [H|H]%swap_source; [by left|right]. unfold task_tokens. cbn. by rewrite H; left.
    + intros t Ht'. apply swap_state_settled. right. destruct next; cbn in *; set_solver.
    + unfold worker_tokens. rewrite Hw. by left.
    + exists []. unfold worker_tokens. rewrite Hw, app_nil_r.
      split_and!; [by destruct next|apply list_subseteq_nil|constructor].
  - split; [done|cbn; lia|intros t Ht; exact Ht|by left|intros t []%elem_of_nil| |].
    + unfold worker_tokens. cbn. intros t. rewrite map_app, elem_of_app. cbn. set_solver.
    + exists []. unfold worker_tokens. cbn. rewrite map_app, <-app_assoc.
      split_and!; [done|apply list_subseteq_nil|constructor].
  - stretch_same.
  - stretch_same.
  - stretch_same.
Qed.

Lemma flat_map_middle (f : Pc → list nat) l1 pc l2 :
  flat_map f (l1 ++ pc :: l2) ≡ₚ f pc ++ flat_map f (l1 ++ l2).
Proof. rewrite !flat_map_app. cbn. solve_Permutation. Qed.

Lemma inv_task env c l1 pc l2 c' pc' :
  inv c → c_tasks c = l1 ++ pc :: l2 → step_transition env c pc = (c', pc') →
  inv (set_tasks c' (l1 ++ pc' :: l2)).
Proof.
  intros [Hnd Hb Hs Hk] Ht E%step_transition_stretch.
  destruct E as [Ht' Hn Hset Hsrc Hpl Hw (new & Hp & Hnew & Hndn)].
  assert (tokens (set_tasks c' (l1 ++ pc' :: l2)) ≡ₚ tokens c ++ new) as Hperm.
  { unfold tokens. cbn [c_tasks set_tasks]. change (worker_tokens (set_tasks _ _)) with (worker_tokens c').
    rewrite Ht, !flat_map_middle, app_assoc, Hp. solve_Permutation. }
  assert (∀ t, t ∈ new → c_next c ≤ t < c_next c') as Hr.
  { intros t Hin. apply Hnew, elem_of_seq in Hin. lia. }
  rewrite Forall_forall in Hb. split.
  - rewrite Hperm. apply NoDup_app. split_and!; [done| |done].
    intros t Hin Hin'. apply Hb in Hin. apply Hr in Hin'. lia.
  - apply Forall_forall. intros t. rewrite Hperm, elem_of_app. cbn. intros [H%Hb|H%Hr]; lia.
  - intros t. change (settled (set_tasks c' _) t) with (settled c' t).
    change (worker_tokens (set_tasks _ _)) with (worker_tokens c'). cbn [c_tasks set_tasks].
    rewrite flat_map_middle, !elem_of_app. specialize (Hs t). rewrite Ht in Hs.
    rewrite flat_map_middle, !elem_of_app in Hs. specialize (Hw t). specialize (Hpl t).
    specialize (Hset t). intuition.
  - intros t [H%Hk|H]%Hsrc; cbn; [lia|]. apply Nat.lt_le_trans with (c_next c); [|done]. apply Hb.
    unfold tokens. rewrite Ht, flat_map_middle, !elem_of_app. by auto.
Qed.

Lemma step_worker_frame ended c w c' w' started :
  step_worker ended c w = (c', w', started) →
  wk_token w' = wk_token w ∧ c_next c' = c_next c ∧ c_tasks c' = c_tasks c ∧
  (∀ t, settled c t → settled c' t) ∧ (∀ t, settled c' t → settled c t ∨ t = wk_token w) ∧
  flat_map task_tokens started = [] ∧
  flat_map placed started = [] ∧ (c_state c = Cancelled → c_state c' = Cancelled).
Proof.
  unfold step_worker, step_downloader, step_seeder, settled.
  destruct (wk_kind w), (wk_status w); cbn.
  all: try (case_decide; [|destruct ended]).
  all: try (destruct (c_state c) as [|? ? []|? []|] eqn:Es; cbn).
  all: intros [= <- <- <-]; cbn; rewrite ?Es; cbn; split_and!; try done.
  all: set_solver.
Qed.

Lemma inv_worker ended c l1 w l2 c' w' started :
  inv c → c_workers c = l1 ++ w :: l2 → step_worker ended c w = (c', w', started) →
  inv (set_tasks (set_workers c' (l1 ++ w' :: l2)) (c_tasks c' ++ started)).
Proof.
  intros [Hnd Hb Hs Hk] Hw E%step_worker_frame. destruct E as (Etok & En & Et & Hset & Hsrc & H1 & H2 & _).
  set (d := set_tasks _ _).
  assert (worker_tokens d = worker_tokens c) as Ewt.
  { unfold worker_tokens, d. cbn. rewrite Hw, !map_app. cbn. by rewrite Etok. }
  assert (tokens d = tokens c) as Etk.
  { unfold tokens. rewrite Ewt. cbn. by rewrite Et, flat_map_app, H1, app_nil_r. }
  split; [by rewrite Etk|rewrite Etk; cbn; by rewrite En| |].
  - intros t. rewrite Ewt. cbn. rewrite Et, flat_map_app, H2, app_nil_r.
    intros Hin. apply (Hset t), Hs, Hin.
  - intros t [H%Hk| ->]%Hsrc; cbn; rewrite En; [done|]. rewrite Forall_forall in Hb. apply Hb.
    unfold tokens, worker_tokens. rewrite Hw, map_app, !elem_of_app. left. right. by left.
Qed.

Lemma inv_step c c' : inv c → step c c' → inv c'.
Proof.
  intros Hi Hst. revert Hi.
  destruct Hst as [d to|env d l1 pc l2 d' pc' Ht E|ended d l1 w l2 d' w' started Hw E]; intros Hi;
    [|by eapply inv_task|by eapply inv_worker].
  destruct Hi as [Hnd Hb Hs Hk]. split; unfold tokens, worker_tokens in *; cbn;
    [rewrite flat_map_app; cbn; by rewrite app_nil_r..|done].
Qed.

Lemma inv_reachable c : reachable c → inv c.
Proof.
  intros [n Hr]. assert (inv (session_new n)) as Hi.
  { split; [constructor|constructor|intros t []%elem_of_nil|intros t [[]%elem_of_empty|[=]]]. }
  revert Hi. induction Hr as [|c1 c2 c3 Hs _ IH]; [done|]. eauto using inv_step.
Qed.

Lemma reachable_rtc c c' : reachable c → rtc step c c' → reachable c'.
Proof. intros [n H] Hr. exists n. by etransitivity. Qed.

(** ** The cancelled state *)

Lemma swap_cancelled c next : c_state c = Cancelled → c_state (swap_state c next) = Cancelled.
Proof.
  intros E. unfold swap_state, drop_state. rewrite E. cbn. by rewrite (proj1 (cancel_frame c _)).
Qed.

Lemma cancelled_step c c' : c_state c = Cancelled → step c c' → c_state c' = Cancelled.
Proof.
  intros Hc Hst. revert Hc. destruct Hst as [d to|env d l1 pc l2 d' pc' Ht E|ended d l1 w l2 d' w' started Hw E]; intros Hc.
  - done.
  - cbn. destruct pc; cbn in E; try (injection E as <- <-; cbn); try done.
    + by rewrite (proj1 (cancel_frame d _)).
    + destruct to; cbn in E; unfold transition_downloading, transition_seeding in E; cbn in E;
        rewrite ?Hc in E; repeat case_match; simplify_eq; done.
    + by apply swap_cancelled.
  - apply step_worker_frame in E as (_ & _ & _ & _ & _ & _ & _ & E). cbn. by apply E.
Qed.

(** * The abstract life cycle *)

(** What a session is doing, as its users see it. *)
Inductive Life :=
| LIdle (last : option LastState)
| LDown (dest : string)
| LSeed (path : string)
| LCancelled.

Definition life (st : TorrentState) : Life :=
  match st with
  | Idle last => LIdle last
  | Downloading _ dest _ _ => LDown dest
  | Seeding path _ _ => LSeed path
  | Cancelled => LCancelled
  end.

Definition start_download (env : Env) (dest : string) : Result TorrentSessionError Life :=
  match prepare_download env dest with Ok _ => Ok (LDown dest) | Err e => Err e end.
Definition start_seed (env : Env) (path : string) : Result TorrentSessionError Life :=
  match prepare_seed env path with Ok (dir, _) => Ok (LSeed dir) | Err e => Err e end.

(** The transitions of the life cycle; a pause remembers what to resume. *)
Definition next_life (env : Env) (l : Life) (to : Transition) : Result TorrentSessionError Life :=
  match l, to with
  | LIdle None, Download dest => start_download env dest
  | LIdle None, Seed path => start_seed env path
  | LDown _, Seed path => start_seed env path
  | LDown dest, Pause => Ok (LIdle (Some (LDownloading dest)))
  | LSeed path, Pause => Ok (LIdle (Some (LSeeding path)))
  | LIdle (Some (LDownloading dest)), Resume => start_download env dest
  | LIdle (Some (LSeeding path)), Resume => start_seed env path
  | LDown _, Cancel | LSeed _, Cancel | LIdle (Some _), Cancel => Ok LCancelled
  | _, _ => Err (InvalidTransition (transition_name to))
  end.

(** * Properties *)

(** C15: However transitions and workers interleave, at most one worker runs with
    a live cancellation token, and its token is that of the session's current
    state; so no live worker is left behind when the session is idle or
    cancelled. *)
Theorem single_live_worker (c : Config) (Hc : reachable c) :
  length (List.filter (λ w, bool_decide (wk_token w ∉ c_cancelled c)) (c_workers c)) ≤ 1 ∧
  ∀ w, w ∈ c_workers c → wk_token w ∉ c_cancelled c →
       TorrentState.cancel_inner (c_state c) = Some (wk_token w).
Proof.
  apply inv_reachable in Hc as [Hnd _ Hs _].
  assert (∀ w, w ∈ c_workers c → wk_token w ∉ c_cancelled c →
    TorrentState.cancel_inner (c_state c) = Some (wk_token w)) as Hlive.
  { intros w Hw Hl. destruct (Hs (wk_token w)) as [|]; [|done|done].
    apply elem_of_app. left. apply list_elem_of_fmap. by exists w. }
  split; [|done].
  set (live := List.filter _ _).
  assert (NoDup (map wk_token live)) as Hndl.
  { apply NoDup_app in Hnd as [Hnd _]. unfold worker_tokens in Hnd. unfold live.
    clear -Hnd. induction (c_workers c) as [|w ws IH]; cbn in *; [constructor|].
    apply NoDup_cons in Hnd as [Hw Hnd]. destruct (bool_decide _); cbn; [|by apply IH].
    constructor; [|by apply IH]. intros (w' & E & (? & _)%elem_of_filterb)%list_elem_of_fmap.
    apply Hw, list_elem_of_fmap. by exists w'. }
  assert (∀ w, w ∈ live → TorrentState.cancel_inner (c_state c) = Some (wk_token w)) as Hall.
  { intros w (Hw & Hl%bool_decide_eq_true)%elem_of_filterb. by apply Hlive. }
  destruct live as [|w1 [|w2 l]]; cbn; [lia|lia|]. exfalso.
  cbn in Hndl. apply NoDup_cons in Hndl as [Hn _]. apply Hn.
  pose proof (Hall w1 ltac:(by left)). pose proof (Hall w2 ltac:(right; by left)).
  assert (wk_token w1 = wk_token w2) as -> by congruence. by left.
Qed.

(** Cancelling is final: once a session is cancelled no interleaving of
    transitions, already in progress or new, and of workers brings it back, and
    the token of every worker there is or will be is cancelled. *)
Theorem cancelled_terminal (c c' : Config) (Hc : reachable c) (Hcancelled : c_state c = Cancelled)
    (Hsteps : rtc step c c') :
  c_state c' = Cancelled ∧ ∀ w, w ∈ c_workers c' → wk_token w ∈ c_cancelled c'.
Proof.
  pose proof (inv_reachable c' (reachable_rtc _ _ Hc Hsteps)) as [_ _ Hs _].
  assert (c_state c' = Cancelled) as E.
  { clear -Hcancelled Hsteps. revert Hcancelled. induction Hsteps; eauto using cancelled_step. }
  split; [done|]. intros w Hw. destruct (Hs (wk_token w)) as [|H]; [|done|by rewrite E in H].
  apply elem_of_app. left. apply list_elem_of_fmap. by exists w.
Qed.

(** C16: A transition that runs undisturbed implements the life cycle: it ends
    (after seven stretches at most) with the result of the life cycle and never
    panics; where the life cycle allows it the session moves to that state, the
    token of the state it leaves is cancelled, and a new state comes with a
    fresh live token and one worker; where it is refused nothing changes, and
    where preparing fails the session stays in its state. *)
Theorem transition_refines (env : Env) (c : Config) (to : Transition) (Hc : reachable c) :
  ∃ c', run_transition env c to =
          (c', Returned (match next_life env (life (c_state c)) to with
                         | Ok _ => Ok tt | Err e => Err e end)) ∧
    match next_life env (life (c_state c)) to with
    | Ok l =>
      life (c_state c') = l ∧
      (∀ t, TorrentState.cancel_inner (c_state c) = Some t → t ∈ c_cancelled c') ∧
      match c_state c' with
      | Downloading path _ _ t =>
        t ∉ c_cancelled c' ∧ c_workers c' = c_workers c ++ [mkWorker (Downloader path) t Spawned]
      | Seeding _ _ t =>
        t ∉ c_cancelled c' ∧ c_workers c' = c_workers c ++ [mkWorker Seeder t Spawned]
      | _ => c_workers c' = c_workers c
      end
    | Err _ =>
      c_state c' = c_state c ∧ c_workers c' = c_workers c ∧
      (TorrentState.can_transition_to (c_state c) to = false → c' = c)
    end.
Proof.
  apply inv_reachable in Hc as [_ _ _ Hk]. unfold settled in Hk.
  pose proof (Hk (c_next c)) as Hf.
  destruct c as [st bf cs nx evs ws ts]. cbn in *.
  assert (nx ∉ cs) as Hnx by (intros H; specialize (Hf (or_introl H)); lia).
  assert (∀ t, TorrentState.cancel_inner st = Some t → t ≠ nx) as Hst
    by (intros t H ->; specialize (Hf (or_intror H)); lia).
  clear Hf Hk. unfold run_transition.
  destruct st as [[[dest|path]|]|p d r t|p r t|], to as [dest'|path'| | |]; cbn;
    unfold start_download, start_seed, transition_downloading, transition_seeding; cbn;
    try (destruct (prepare_download env _) as [[? [?|]]|?]; cbn);
    try (destruct (prepare_seed env _) as [[? ?]|?]; cbn);
    unfold swap_state, drop_state; cbn.
  all: eexists; (split; [reflexivity|]); cbn; split_and!; try done; try set_solver.
Qed.

(** * Schedules

    A schedule says which transition or worker proceeds next; running it gives a
    reachable system. *)

Inductive Action :=
| Call (to : Transition)
| Task (env : Env) (i : nat)
| Work (ended : bool) (i : nat).

Definition act (c : Config) (a : Action) : Config :=
  match a with
  | Call to => set_tasks c (c_tasks c ++ [Guard to])
  | Task env i =>
    match c_tasks c !! i with
    | Some pc => let '(c', pc') := step_transition env c pc in set_tasks c' (<[i := pc']> (c_tasks c))
    | None => c
    end
  | Work ended i =>
    match c_workers c !! i with
    | Some w => let '(c', w', started) := step_worker ended c w in
                set_tasks (set_workers c' (<[i := w']> (c_workers c))) (c_tasks c' ++ started)
    | None => c
    end
  end.

Lemma act_step c a : rtc step c (act c a).
Proof.
  destruct a as [to|env i|ended i]; cbn.
  - apply rtc_once. constructor.
  - destruct (c_tasks c !! i) as [pc|] eqn:E; [|done].
    destruct (step_transition env c pc) as [c' pc'] eqn:Es. apply rtc_once.
    rewrite insert_take_drop by (by eapply lookup_lt_Some).
    eapply step_task; [|exact Es]. symmetry. by apply take_drop_middle.
  - destruct (c_workers c !! i) as [w|] eqn:E; [|done].
    destruct (step_worker ended c w) as [[c' w'] started] eqn:Es. apply rtc_once.
    rewrite insert_take_drop by (by eapply lookup_lt_Some).
    eapply step_work; [|exact Es]. symmetry. by apply take_drop_middle.
Qed.

Lemma schedule_steps c l : rtc step c (foldl act c l).
Proof.
  revert c. induction l as [|a l IH]; intros c; [done|]. etransitivity; [apply act_step|apply IH].
Qed.

Lemma schedule_reachable n l : reachable (foldl act (session_new n) l).
Proof. exists n. apply schedule_steps. Qed.

Module SessionExamples.
Definition env : Env := mkEnv (λ dest, Ok ("cache/" +:+ dest, None)) (λ path, Ok (path, BitField.empty 8)).

(** The transition at [i] runs to its end. *)
Definition all (i : nat) : list Action := replicate 7 (Task env i).

(** A download is started, its worker runs, and the session is paused. *)
Definition downloading : list Action := Call (Download "home") :: all 0 ++ [Work false 0].
Definition paused : list Action := downloading ++ Call Pause :: all 1.

Definition after (l : list Action) : Config := foldl act (session_new 8) l.

Lemma single_live_worker_witness :
  length (List.filter (λ w, bool_decide (wk_token w ∉ c_cancelled (after downloading)))
            (c_workers (after downloading))) = 1.
Proof.
  apply Nat.le_antisymm; [|vm_compute; lia].
  apply (single_live_worker (after downloading) (schedule_reachable 8 downloading)).
Defined.

Lemma cancelled_terminal_witness :
  c_state (foldl act (after (paused ++ Call Cancel :: all 2)) (Call Resume :: all 3)) = Cancelled.
Proof.
  apply (cancelled_terminal (after (paused ++ Call Cancel :: all 2)));
    [apply schedule_reachable|by vm_compute|apply schedule_steps].
Defined.

Lemma transition_refines_witness :
  ∃ c', run_transition env (after paused) Resume = (c', Returned (Ok tt)) ∧
        life (c_state c') = LDown "home".
Proof.
  destruct (transition_refines env (after paused) Resume (schedule_reachable 8 paused))
    as (c' & E & H & _). exists c'. split; [exact E|exact H].
Defined.

(** Two transitions to [Resume] that both pass the guard: the second finds the
    session resumed and panics. *)
Definition resumed_twice : list Action :=
  paused ++ [Call Resume; Call Resume; Task env 2; Task env 3] ++ all 2 ++ [Task env 3; Task env 3].

Lemma resume_race_panics :
  reachable (after resumed_twice) ∧ c_tasks (after resumed_twice) !! 3 = Some Panicked.
Proof. split; [apply schedule_reachable|by vm_compute]. Qed.

(** A worker that first runs after its download was paused and resumed takes the
    resources of the new state and stops, and the new worker finds none: the
    session is downloading, its token is live, and no worker is left. *)
Definition stale_worker : list Action :=
  Call (Download "home") :: all 0 ++ Call Pause :: all 1 ++ Call Resume :: all 2 ++
  [Work false 0; Work false 0; Work false 1].

Lemma stale_worker_strands :
  reachable (after stale_worker) ∧
  TorrentState.current_mode (c_state (after stale_worker)) = MDownloading ∧
  map wk_status (c_workers (after stale_worker)) = [Finished; Finished] ∧
  TorrentState.cancel_inner (c_state (after stale_worker)) = Some 1 ∧
  1 ∉ c_cancelled (after stale_worker) ∧
  c_tasks (after stale_worker) = replicate 3 (Returned (Ok tt)).
Proof.
  split_and!; [apply schedule_reachable|by vm_compute|by vm_compute|by vm_compute| |by vm_compute].
  apply (bool_decide_unpack _). by vm_compute.
Qed.
End SessionExamples.
