(* ===== verification/Download.v ===== *)
(** From received pieces to files: the writer task of [session/session.rs], the
    resume file of [session/resume.rs] and the check of the pieces a seed starts
    from in [session/state.rs].

    The writer's loop, the tasks it spawns for each piece and the router that
    hands it pieces run concurrently; an [Event] says which of them proceeds,
    and [writer_step] what it does.  The files of one piece are written in one
    step, in the order [schedule] gives (see [Chunks.write_piece]). *)

From S2P Require Import Prelude Crypto BitField Metainfo Chunks Session.

(** * Resume files *)

(** src/src/bit_torrent/session/resume.rs:16-22 [ResumeFile] *)
Record ResumeFile := mkResume {
  rf_info_hash : list Z;
  rf_bitfield : list Z;
  rf_resource : string;
  rf_total_pieces : nat;
}.

Module ResumeFile.
(** src/src/bit_torrent/session/resume.rs:25-32 [ResumeFile::new] *)
Definition resume_new (info_hash : InfoHash) (bitfield : BitField) (resource : string) : ResumeFile :=
  mkResume (InfoHash.to_vec info_hash) (BitField.as_bytes bitfield) resource (piece_count bitfield).

(** src/src/bit_torrent/session/resume.rs:38-49 [ResumeFile::open]

    [stored] is the decoded content of the file, if it is there and decodes. *)
Definition resume_open (stored : option ResumeFile) (info_hash : InfoHash) : option ResumeFile :=
  data ← stored;
  if negb (bool_decide (rf_info_hash data = InfoHash.as_ref info_hash)) then None else Some data.

(** src/src/bit_torrent/session/resume.rs:62-64 [ResumeFile::get_bitfield] *)
Definition get_bitfield (self : ResumeFile) : BitField :=
  BitField.from_wire (rf_bitfield self) (rf_total_pieces self).

(** src/src/bit_torrent/session/resume.rs:66-69 [ResumeFile::is_complete] *)
Definition is_complete (self : ResumeFile) : option bool :=
  let bitfield := get_bitfield self in
  m ← find_opt (λ i, negb <$> BitField.have bitfield i) (seq 0 (rf_total_pieces self));
  Some (match m with None => true | Some _ => false end).
End ResumeFile.

(** * What a seed starts from *)

Section seeding.
Context `{Crypto} `{Os}.

Fixpoint verify_loop (w : World) (handler : MultiFileHandler) (index : nat)
    (piece_hashes : list (list Z)) (bitfield : BitField)
    : option (Result ChunkHandlerError BitField) :=
  match piece_hashes with
  | [] => Some (Ok bitfield)
  | expected :: piece_hashes =>
    r ← read_piece w handler (u32 (Z.of_nat index));
    match r with
    | Err e => Some (Err e)
    | Ok data =>
      if negb (bool_decide (Sha1Hash_digest data = expected)) then
        verify_loop w handler (S index) piece_hashes bitfield
      else
        bitfield ← BitField.set bitfield index;
        verify_loop w handler (S index) piece_hashes bitfield
    end
  end.

(** src/src/bit_torrent/session/state.rs:110-140 [StateResources::verify_pieces]

    The progress events are not part of the result. *)
Definition verify_pieces (w : World) (handler : MultiFileHandler) (piece_hashes : list (list Z))
    : option (Result ChunkHandlerError BitField) :=
  let total_pieces := length piece_hashes in
  verify_loop w handler 0 piece_hashes (BitField.empty total_pieces).

(** src/src/bit_torrent/session/state.rs:74-108 [StateResources::seed]

    [dir] is the directory of the cache and [stored] its resume file. *)
Definition seed_resources (w : World) (dir : option string) (stored : option ResumeFile)
    (metafile : TorrentFile) : option (Result TorrentSessionError (MultiFileHandler * BitField)) :=
  match dir with
  | None => Some (Err UnableToFindXDGFolder)
  | Some dir =>
    match seed w dir (TorrentFile.piece_length metafile) (TorrentFile.files metafile) with
    | Err _ => Some (Err ChunkReaderError)
    | Ok handler =>
      let resume := ResumeFile.resume_open stored (TorrentFile.info_hash metafile) in
      let verify :=
        r ← verify_pieces w handler (TorrentFile.piece_hashes metafile);
        Some (match r with Ok bf => Ok (handler, bf) | Err _ => Err ChunkReaderError end) in
      match resume with
      | Some resume =>
        complete ← ResumeFile.is_complete resume;
        if (complete : bool) then Some (Ok (handler, ResumeFile.get_bitfield resume)) else verify
      | None => verify
      end
    end
  end.
End seeding.

(** * The writer *)

(** A task spawned for a piece: about to start, holding the resources and about
    to write, or written and about to check for completion. *)
Inductive WriteTask :=
| TStart (index : nat) (data : list Z)
| TWrite (index : nat) (data : list Z)
| TCheck (index : nat).

(** [w_hand] has the pieces whose bit is set and which a task of the router has yet to
    hand over, [w_sending] those it has counted and is about to send, [w_queue] is the
    channel to the writer. *)
Record Writer := mkWriter {
  w_world : World;
  w_bitfield : BitField;
  w_hand : list (nat * list Z);
  w_sending : list (nat * list Z);
  w_queue : list (nat * list Z);
  w_tasks : list WriteTask;
  w_pending : Z;
  w_done : bool;
  w_running : bool;
  w_resume : option ResumeFile;
  w_events : list SessionEvent;
}.

Inductive Event :=
| Add (index : nat) (data : list Z)
| Count (k : nat)
| Send (k : nat)
| Recv
| Tick
| TaskRun (i : nat)
| Break.

Definition holds_resources (t : WriteTask) : bool :=
  match t with TStart _ _ => false | _ => true end.

Section writer.
Context `{Crypto} `{Os} (schedule : nat → list nat).
Variables (metadata : TorrentFile) (handler : MultiFileHandler) (dir : string).

Definition piece_total : nat := length (TorrentFile.piece_hashes metadata).

(** src/src/bit_torrent/session/session.rs:510-519 [TorrentSession::add_piece]

    The task that got [true] holds the piece. *)
Definition add_piece (w : Writer) (index : nat) (data : list Z) : option Writer :=
  has ← BitField.have (w_bitfield w) index;
  if (has : bool) then Some w
  else
    bf ← BitField.set (w_bitfield w) index;
    Some (mkWriter (w_world w) bf (w_hand w ++ [(index, data)]) (w_sending w) (w_queue w) (w_tasks w)
            (w_pending w) (w_done w) (w_running w) (w_resume w) (w_events w)).

(** src/src/bit_torrent/session/session.rs:399-400 [TorrentSession::send_downloaded_piece, the counter]

    Of the task with the [k]-th piece in hand. *)
Definition count_downloaded_piece (w : Writer) (k : nat) : Writer :=
  match w_hand w !! k with
  | None => w
  | Some p =>
    mkWriter (w_world w) (w_bitfield w) (remove_at k (w_hand w)) (w_sending w ++ [p]) (w_queue w)
      (w_tasks w) (u64 (w_pending w + 1)) (w_done w) (w_running w) (w_resume w) (w_events w)
  end.

(** src/src/bit_torrent/session/session.rs:402-412 [TorrentSession::send_downloaded_piece, the send]

    Of the task with the [k]-th piece that is counted.  The send fails when the writer's
    task has ended and dropped its end of the channel: the piece is dropped. *)
Definition send_downloaded_piece (w : Writer) (k : nat) : Writer :=
  match w_sending w !! k with
  | None => w
  | Some p =>
    let rest := remove_at k (w_sending w) in
    if w_running w then
      mkWriter (w_world w) (w_bitfield w) (w_hand w) rest (w_queue w ++ [p]) (w_tasks w)
        (w_pending w) (w_done w) (w_running w) (w_resume w) (w_events w)
    else
      mkWriter (w_world w) (w_bitfield w) (w_hand w) rest (w_queue w) (w_tasks w)
        (u64 (w_pending w - 1)) (w_done w) (w_running w) (w_resume w) (w_events w)
  end.

Definition persist_resume (w : Writer) : option ResumeFile :=
  Some (ResumeFile.resume_new (TorrentFile.info_hash metadata) (w_bitfield w) dir).

Definition set_tasks (w : Writer) (ts : list WriteTask) : Writer :=
  mkWriter (w_world w) (w_bitfield w) (w_hand w) (w_sending w) (w_queue w) ts (w_pending w) (w_done w) (w_running w)
    (w_resume w) (w_events w).
Definition write_ended (w : Writer) (world : World) (ts : list WriteTask)
    (events : list SessionEvent) : Writer :=
  mkWriter world (w_bitfield w) (w_hand w) (w_sending w) (w_queue w) ts (u64 (w_pending w - 1)) (w_done w) (w_running w)
    (w_resume w) (w_events w ++ events).

(** The resources live as long as the loop or a task that holds them. *)
Definition alive (w : Writer) : bool := w_running w || existsb holds_resources (w_tasks w).

(** src/src/bit_torrent/session/session.rs:233-273 [spawn_downloader, the task of a piece]

    Up to the next await: the write, then the lock of the bit field. *)
Definition run_write_task (w : Writer) (i : nat) : option Writer :=
  match w_tasks w !! i with
  | None => Some w
  | Some (TStart index data) =>
    if negb (alive w) then Some (set_tasks w (remove_at i (w_tasks w)))
    else
      match TorrentFile.verify_hash metadata (Z.of_nat index) data with
      | Err _ => Some (write_ended w (w_world w) (remove_at i (w_tasks w)) [])
      | Ok _ => Some (set_tasks w (<[i := TWrite index data]> (w_tasks w)))
      end
  | Some (TWrite index data) =>
    let '(world, r) := write_piece schedule (w_world w) handler (Z.of_nat index) data in
    match r with
    | Ok _ => Some (write_ended w world (<[i := TCheck index]> (w_tasks w))
                      [PieceDownloaded (u32 (Z.of_nat piece_total - 1)) (Z.of_nat index)])
    | Err _ => Some (write_ended w world (remove_at i (w_tasks w)) [])
    end
  | Some (TCheck _) =>
    count ← BitField.count (w_bitfield w);
    Some (mkWriter (w_world w) (w_bitfield w) (w_hand w) (w_sending w) (w_queue w) (remove_at i (w_tasks w)) (w_pending w)
            (w_done w || (count =? piece_total)) (w_running w) (w_resume w) (w_events w))
  end.

(** src/src/bit_torrent/session/session.rs:208-303 [spawn_downloader, the loop]

    One turn of [select!], which looks at the completion first; a download that
    is not cancelled.  [Break] is the code after the loop, without the link into
    the user's directory and the broadcast that ends our interest. *)
Definition writer_step (w : Writer) (e : Event) : option Writer :=
  match e with
  | Add index data => add_piece w index data
  | Count k => Some (count_downloaded_piece w k)
  | Send k => Some (send_downloaded_piece w k)
  | TaskRun i => run_write_task w i
  | Tick =>
    if negb (w_running w) || w_done w then Some w
    else Some (mkWriter (w_world w) (w_bitfield w) (w_hand w) (w_sending w) (w_queue w) (w_tasks w) (w_pending w) (w_done w)
                 (w_running w) (persist_resume w) (w_events w))
  | Recv =>
    if negb (w_running w) || w_done w then Some w
    else
      match w_queue w with
      | [] => Some w
      | (index, data) :: queue =>
        Some (mkWriter (w_world w) (w_bitfield w) (w_hand w) (w_sending w) queue (w_tasks w ++ [TStart index data])
                (w_pending w) (w_done w) (w_running w) (w_resume w) (w_events w))
      end
  | Break =>
    if negb (w_running w) || negb (w_done w) then Some w
    else Some (mkWriter (w_world w) (w_bitfield w) (w_hand w) (w_sending w) (w_queue w) (w_tasks w) (w_pending w) (w_done w)
                 false (persist_resume w) (w_events w ++ [DownloadCompleted dir]))
  end.

Definition run_writer (w : Writer) (es : list Event) : option Writer :=
  foldl (λ acc e, w ← acc; writer_step w e) (Some w) es.
End writer.

Definition writer_new (world : World) (bitfield : BitField) : Writer :=
  mkWriter world bitfield [] [] [] [] 0 false true None [].

(** * Lemmas *)

(** ** Checking the pieces *)

Section verify.
Context `{Crypto} `{FullTransfer}.

Definition stored_piece (w : World) (h : MultiFileHandler) (i : nat) : list Z :=
  slice (piece_lo h i) (Z.to_nat (h_piece_length h)) (flat w (targets h)).

Definition matches (w : World) (h : MultiFileHandler) (hashes : list (list Z)) (i : nat) : bool :=
  match hashes !! i with
  | Some expected => bool_decide (Sha1Hash_digest (stored_piece w h i) = expected)
  | None => false
  end.

Lemma verify_loop_spec w h done todo bf :
  handler_ok w h → BitField.wf bf → piece_count bf = length (done ++ todo) →
  (Z.of_nat (length (done ++ todo)) ≤ 2 ^ 32)%Z →
  (∀ i, i < length (done ++ todo) → piece_lo h i < size_of (targets h)) →
  (∀ i, BitField.held bf i = (i <? length done) && matches w h (done ++ todo) i) →
  ∃ bf', verify_loop w h (length done) todo bf = Some (Ok bf') ∧ BitField.wf bf' ∧
    piece_count bf' = length (done ++ todo) ∧
    ∀ i, BitField.held bf' i = matches w h (done ++ todo) i.
Proof.
  intros Hok. revert done bf. induction todo as [|e todo IH]; intros done bf Hwf Hc Hn Hin Hh.
  - exists bf. split_and!; [done|done|done|]. intros i. rewrite Hh. unfold matches.
    destruct (Nat.ltb_spec i (length done)); [done|].
    rewrite app_nil_r, lookup_ge_None_2 by done. by rewrite andb_false_r.
  - assert (length done < length (done ++ e :: todo)) as Hd by (rewrite length_app; cbn; lia).
    assert (matches w h (done ++ e :: todo) (length done) =
      bool_decide (Sha1Hash_digest (stored_piece w h (length done)) = e)) as Hm.
    { unfold matches. by rewrite list_lookup_middle. }
    cbn [verify_loop]. rewrite wrap_small by lia. rewrite read_piece_flat by (done || lia).
    rewrite decide_True by (by apply Hin). cbn -[Sha1Hash_digest]. fold (stored_piece w h (length done)).
    assert (∀ i, i <? length (done ++ [e]) = (i <? length done) || (i =? length done)) as Hlt.
    { intros i. rewrite length_app. change (length [e]) with 1.
      destruct (Nat.ltb_spec i (length done)), (Nat.eqb_spec i (length done)), (Nat.ltb_spec i (length done + 1));
        solve [lia|done]. }
    replace (S (length done)) with (length (done ++ [e])) by (rewrite length_app; cbn; lia).
    replace (done ++ e :: todo) with ((done ++ [e]) ++ todo) in * by (by rewrite <-app_assoc).
    case_bool_decide as Heq; cbn [negb].
    + destruct (BitField.set_spec bf (length done) Hwf) as (bf1 & -> & Hwf1 & Hc1 & Hh1).
      cbn. apply IH; [done|by rewrite Hc1|done|done|]. intros i. rewrite Hh1, Hc, Hlt.
      destruct (decide (length done = i)) as [<-|Hne].
      * rewrite Nat.eqb_refl, orb_true_r, Hm by done. by apply Nat.ltb_lt.
      * rewrite (proj2 (Nat.eqb_neq _ _)), orb_false_r by lia. apply Hh.
    + apply IH; [done|done|done|done|]. intros i. rewrite Hh, Hlt.
      destruct (Nat.eqb_spec i (length done)) as [->|]; [|by rewrite orb_false_r].
      rewrite Hm. by rewrite !andb_false_r.
Qed.
End verify.

(** ** The writer *)

Definition task_waits (t : WriteTask) : option nat :=
  match t with TStart i _ | TWrite i _ => Some i | TCheck _ => None end.

(** The pieces counted and not yet written, and all those taken and not yet
    written. *)
Definition waiting (w : Writer) : list nat :=
  map fst (w_sending w ++ w_queue w) ++ omap task_waits (w_tasks w).
Definition taken (w : Writer) : list nat := map fst (w_hand w) ++ waiting w.

Definition in_range (n : nat) (l : list nat) : list nat :=
  omap (λ i, if decide (i < n) then Some i else None) l.

Lemma elem_of_in_range n l i : i ∈ in_range n l ↔ i < n ∧ i ∈ l.
Proof.
  unfold in_range. rewrite list_elem_of_omap. split.
  - intros (j & Hj & E). case_decide; simplify_eq. done.
  - intros [Hi Hin]. exists i. by rewrite decide_True.
Qed.

Section writer_lemmas.
Context `{Crypto} `{Os} (schedule : nat → list nat).
Context (metadata : TorrentFile) (handler : MultiFileHandler) (dir : string).
Notation n := (piece_total metadata).

Definition verified (p : nat * list Z) : Prop :=
  TorrentFile.verify_hash metadata (Z.of_nat p.1) p.2 = Ok tt.

Lemma verified_lt p : verified p → p.1 < n.
Proof.
  destruct p as [i d]. unfold verified, piece_total, TorrentFile.verify_hash, TorrentFile.piece_hashes,
    TorrentV1.v1_verify_hash, TorrentV2.v2_verify_hash. cbn. rewrite Nat2Z.id.
  destruct metadata; cbn; destruct (_ !! i) eqn:E; cbn; try done; intros _; by eapply lookup_lt_Some.
Qed.

Lemma write_pieces_snoc ws p w :
  (write_pieces schedule handler (ws ++ [p]) w).1 =
  (write_piece schedule (write_pieces schedule handler ws w).1 handler (Z.of_nat p.1) p.2).1.
Proof.
  unfold write_pieces. rewrite foldl_app. destruct (foldl _ _ ws) as [w' r], p as [i d]. cbn.
  by destruct (write_piece _ _ _ _ _).
Qed.

Record winv (world0 : World) (bf0 : BitField) (w : Writer) (ws : list (nat * list Z)) : Prop := {
  wi_wf : BitField.wf (w_bitfield w);
  wi_count : piece_count (w_bitfield w) = n;
  wi_mono : ∀ i, BitField.held bf0 i = true → BitField.held (w_bitfield w) i = true;
  wi_world : w_world w = (write_pieces schedule handler ws world0).1;
  wi_verified : Forall verified ws;
  wi_tasks : Forall (λ t, match t with TWrite i d => verified (i, d) | _ => True end) (w_tasks w);
  wi_nodup : NoDup (in_range n (taken w ++ map fst ws));
  wi_held : ∀ i, i ∈ in_range n (taken w ++ map fst ws) →
              BitField.held (w_bitfield w) i = true ∧ BitField.held bf0 i = false;
  wi_pending : w_running w = true → w_pending w = u64 (Z.of_nat (length (waiting w)));
}.

(** Steps that leave the bit field alone and keep or drop what is waiting. *)
Lemma winv_keep_taken world0 bf0 w ws w' ws' gone :
  winv world0 bf0 w ws → w_bitfield w' = w_bitfield w →
  taken w ++ map fst ws ≡ₚ gone ++ taken w' ++ map fst ws' →
  w_world w' = (write_pieces schedule handler ws' world0).1 →
  Forall verified ws' →
  Forall (λ t, match t with TWrite i d => verified (i, d) | _ => True end) (w_tasks w') →
  (w_running w' = true → w_pending w' = u64 (Z.of_nat (length (waiting w')))) →
  winv world0 bf0 w' ws'.
Proof.
  intros [Hwf Hc Hm Hw Hv Ht Hnd Hh Hp] Hbf Hperm Hw' Hv' Ht' Hp'.
  assert (in_range n (taken w ++ map fst ws) ≡ₚ
          in_range n gone ++ in_range n (taken w' ++ map fst ws')) as Hr.
  { unfold in_range. rewrite Hperm. by rewrite omap_app. }
  split; rewrite ?Hbf; try done.
  - rewrite Hr in Hnd. by apply NoDup_app in Hnd as (_ & _ & ?).
  - intros i Hi. apply Hh. rewrite Hr. apply elem_of_app. by right.
Qed.

Lemma winv_keep world0 bf0 w ws w' ws' gone :
  winv world0 bf0 w ws → w_bitfield w' = w_bitfield w → w_hand w' = w_hand w →
  waiting w ++ map fst ws ≡ₚ gone ++ waiting w' ++ map fst ws' →
  w_world w' = (write_pieces schedule handler ws' world0).1 →
  Forall verified ws' →
  Forall (λ t, match t with TWrite i d => verified (i, d) | _ => True end) (w_tasks w') →
  (w_running w' = true → w_pending w' = u64 (Z.of_nat (length (waiting w')))) →
  winv world0 bf0 w' ws'.
Proof.
  intros Hi Hbf Hhd Hperm. apply (winv_keep_taken _ _ w ws _ _ gone Hi Hbf).
  unfold taken. rewrite Hhd, <-!app_assoc, Hperm. solve_Permutation.
Qed.

Lemma u64_pred (k : nat) : u64 (u64 (Z.of_nat (S k)) - 1) = u64 (Z.of_nat k).
Proof. unfold wrap. rewrite Zminus_mod_idemp_l. f_equal. lia. Qed.

Lemma waiting_remove w i t ts :
  w_tasks w !! i = Some t → ts = remove_at i (w_tasks w) →
  waiting w ≡ₚ option_list (task_waits t) ++ map fst (w_sending w ++ w_queue w) ++ omap task_waits ts.
Proof.
  intros E ->. unfold waiting. rewrite <-(remove_at_Permutation _ _ _ E) at 1. cbn.
  destruct (task_waits t); cbn; [|done]. symmetry. apply Permutation_middle.
Qed.

Lemma waiting_replace w i t t' ts :
  w_tasks w !! i = Some t → ts = <[i := t']> (w_tasks w) → task_waits t' = task_waits t →
  waiting w ≡ₚ map fst (w_sending w ++ w_queue w) ++ omap task_waits ts.
Proof.
  intros E -> Ht. unfold waiting. rewrite (insert_Permutation _ _ _ _ E).
  rewrite <-(remove_at_Permutation _ _ _ E) at 1. cbn. by rewrite Ht.
Qed.

Lemma winv_add world0 bf0 w ws i d :
  winv world0 bf0 w ws → ∃ w', add_piece w i d = Some w' ∧ winv world0 bf0 w' ws.
Proof.
  intros Hi. pose proof Hi as [Hwf Hc Hm Hw Hv Ht Hnd Hh Hp]. unfold add_piece.
  rewrite BitField.have_held by done. cbn. destruct (BitField.held (w_bitfield w) i) eqn:Eh; [by eauto|].
  destruct (BitField.set_spec (w_bitfield w) i Hwf) as (bf & -> & Hwf' & Hc' & Hh'). cbn.
  eexists. split; [reflexivity|]. rewrite Hc in Hc', Hh'.
  set (w' := mkWriter _ _ _ _ _ _ _ _ _ _ _).
  assert (in_range n (taken w' ++ map fst ws) ≡ₚ
    (if decide (i < n) then [i] else []) ++ in_range n (taken w ++ map fst ws)) as Hr.
  { trans (in_range n (i :: taken w ++ map fst ws)); [|cbn; by destruct (decide (i < n))].
    unfold in_range. apply omap_Permutation. unfold taken, waiting, w'. cbn. rewrite map_app. cbn.
    solve_Permutation. }
  split; cbn [w_bitfield w_world w_tasks w_running w_pending w']; try done.
  - intros j Hj. apply Hm in Hj. rewrite Hh'. destruct (decide (i = j)); congruence.
  - rewrite Hr. destruct (decide (i < n)); [|done]. constructor; [|done]. intros [E _]%Hh. congruence.
  - intros j. rewrite Hr, elem_of_app, Hh'. intros [Hj|Hj].
    + destruct (decide (i < n)); [|by apply elem_of_nil in Hj]. apply list_elem_of_singleton in Hj as ->.
      rewrite decide_True, (proj2 (Nat.ltb_lt _ _)) by done. split; [done|].
      apply not_true_iff_false. intros E%Hm. congruence.
    + pose proof (Hh j Hj) as [H1 H2]. rewrite decide_False by (intros ->; congruence). done.
Qed.

Lemma taken_count w k : taken (count_downloaded_piece w k) ≡ₚ taken w.
Proof.
  unfold count_downloaded_piece. destruct (w_hand w !! k) as [p|] eqn:E; [|done].
  unfold taken, waiting. cbn. rewrite <-(remove_at_Permutation _ _ _ E) at 2. rewrite !map_app. cbn.
  solve_Permutation.
Qed.

(** A send moves the piece to the channel, or drops it. *)
Lemma waiting_send w k p :
  w_sending w !! k = Some p →
  waiting w ≡ₚ (if w_running w then [] else [p.1]) ++ waiting (send_downloaded_piece w k).
Proof.
  intros E. unfold send_downloaded_piece. rewrite E. unfold waiting.
  destruct (w_running w); cbn; rewrite <-(remove_at_Permutation _ _ _ E) at 1;
    rewrite !map_app; cbn; solve_Permutation.
Qed.

Lemma winv_count world0 bf0 w ws k :
  winv world0 bf0 w ws → winv world0 bf0 (count_downloaded_piece w k) ws.
Proof.
  intros Hi. pose proof Hi as [Hwf Hc Hm Hw Hv Ht Hnd Hh Hp]. pose proof (taken_count w k) as Htk.
  unfold count_downloaded_piece in *. destruct (w_hand w !! k) as [p|] eqn:E; [|done].
  eapply (winv_keep_taken _ _ _ _ _ _ []); [done|done|by rewrite Htk|done|done|done|].
  cbn. intros Hr. rewrite (Hp Hr), wrap_add_l. unfold waiting. cbn. rewrite !map_app, !length_app. cbn.
  f_equal. lia.
Qed.

Lemma winv_send world0 bf0 w ws k :
  winv world0 bf0 w ws → winv world0 bf0 (send_downloaded_piece w k) ws.
Proof.
  intros Hi. pose proof Hi as [Hwf Hc Hm Hw Hv Ht Hnd Hh Hp]. pose proof (waiting_send w k) as Hs.
  unfold send_downloaded_piece in *. destruct (w_sending w !! k) as [p|] eqn:E; [|done].
  specialize (Hs p eq_refl). destruct (w_running w) eqn:Hr.
  - eapply (winv_keep _ _ _ _ _ _ []); [done|done|done|by rewrite Hs|done|done|done|].
    cbn [w_pending w_running]. intros _. by rewrite (Hp eq_refl), Hs.
  - eapply (winv_keep _ _ _ _ _ _ [p.1]); [done|done|done|by rewrite Hs|done|done|done|].
    cbn. intros Hr'. congruence.
Qed.

Lemma winv_task world0 bf0 w ws i :
  winv world0 bf0 w ws →
  ∃ w' ws', run_write_task schedule metadata handler w i = Some w' ∧ winv world0 bf0 w' ws'.
Proof.
  intros Hi. pose proof Hi as [Hwf Hc Hm Hw Hv Ht Hnd Hh Hp]. unfold run_write_task.
  destruct (w_tasks w !! i) as [t|] eqn:E; [|by eauto].
  pose proof (waiting_remove w i t _ E eq_refl) as Hrem.
  pose proof (Forall_remove_at _ i _ Ht) as Ht'.
  destruct t as [index data|index data|index]; cbn in Hrem.
  - destruct (alive w) eqn:Ea; cbn.
    + destruct (TorrentFile.verify_hash _ _ _) as [[]|] eqn:Ev.
      * eexists _, ws. split; [reflexivity|]. pose proof (waiting_replace w i _ (TWrite index data) _ E eq_refl eq_refl) as Hrep.
        eapply (winv_keep _ _ _ _ _ _ []); [done|done|done|by rewrite Hrep|done|done| |].
        -- cbn. apply Forall_insert; [done|exact Ev].
        -- cbn. intros Hrun. rewrite (Hp Hrun). by rewrite Hrep.
      * eexists _, ws. split; [reflexivity|].
        eapply (winv_keep _ _ _ _ _ _ [index]); [done|done|done|by rewrite Hrem|done|done|done|].
        cbn. intros Hrun. rewrite (Hp Hrun), Hrem. apply u64_pred.
    + eexists _, ws. split; [reflexivity|].
      eapply (winv_keep _ _ _ _ _ _ [index]); [done|done|done|by rewrite Hrem|done|done|done|].
      cbn. intros Hrun. unfold alive in Ea. by rewrite Hrun in Ea.
  - assert (verified (index, data)) as Hver.
    { rewrite Forall_forall in Ht. by apply (Ht (TWrite index data)), list_elem_of_lookup_2 with i. }
    pose proof (write_pieces_snoc ws (index, data) world0) as Hsnoc. rewrite <-Hw in Hsnoc. cbn in Hsnoc.
    destruct (write_piece _ _ _ _ _) as [world r] eqn:Ew. cbn in Hsnoc.
    assert (Forall verified (ws ++ [(index, data)])) as Hv' by (apply Forall_app; by repeat constructor).
    destruct r as [[]|e]; eexists _, (ws ++ [(index, data)]); (split; [reflexivity|]).
    + assert (omap task_waits (<[i:=TCheck index]> (w_tasks w)) ≡ₚ omap task_waits (remove_at i (w_tasks w))) as Hins
        by (by rewrite (insert_Permutation _ _ _ _ E)).
      eapply (winv_keep _ _ _ _ _ _ []); [done|done|done| |done|done| |].
      * rewrite Hrem. unfold waiting. cbn. rewrite Hins, !map_app. cbn. solve_Permutation.
      * cbn. by apply Forall_insert.
      * cbn. intros Hrun. rewrite (Hp Hrun), Hrem. unfold waiting. cbn.
        rewrite Hins. apply u64_pred.
    + eapply (winv_keep _ _ _ _ _ _ []); [done|done|done| |done|done|done|].
      * rewrite Hrem. unfold waiting. cbn. rewrite !map_app. cbn. solve_Permutation.
      * cbn. intros Hrun. rewrite (Hp Hrun), Hrem. apply u64_pred.
  - rewrite BitField.count_spec by done. cbn. eexists _, ws. split; [reflexivity|].
    eapply (winv_keep _ _ _ _ _ _ []); [done|done|done|by rewrite Hrem|done|done|done|].
    cbn. intros Hrun. rewrite (Hp Hrun). by rewrite Hrem.
Qed.

Lemma winv_step world0 bf0 w ws e :
  winv world0 bf0 w ws →
  ∃ w' ws', writer_step schedule metadata handler dir w e = Some w' ∧ winv world0 bf0 w' ws'.
Proof.
  intros Hi. pose proof Hi as [Hwf Hc Hm Hw Hv Ht Hnd Hh Hp]. destruct e as [i d|k|k| | |i|]; cbn.
  - destruct (winv_add _ _ _ _ i d Hi) as (w' & ? & ?). by eauto.
  - eexists _, ws. split; [reflexivity|]. by apply winv_count.
  - eexists _, ws. split; [reflexivity|]. by apply winv_send.
  - destruct (_ || _); [by eauto|]. destruct (w_queue w) as [|[i d] q] eqn:Eq; [by eauto|].
    eexists _, ws. split; [reflexivity|].
    assert (waiting w ≡ₚ map fst (w_sending w ++ q) ++ omap task_waits (w_tasks w ++ [TStart i d])) as Hperm.
    { unfold waiting. rewrite Eq, omap_app, !map_app. cbn. solve_Permutation. }
    eapply (winv_keep _ _ _ _ _ _ []); [done|done|done|by rewrite Hperm|done|done| |].
    + cbn. apply Forall_app. split; [done|by repeat constructor].
    + cbn. intros Hrun. rewrite (Hp Hrun). by rewrite Hperm.
  - destruct (_ || _); [by eauto|]. eexists _, ws. split; [reflexivity|].
    by eapply (winv_keep _ _ _ _ _ _ []).
  - by eapply winv_task.
  - destruct (_ || _); [by eauto|]. eexists _, ws. split; [reflexivity|].
    by eapply (winv_keep _ _ _ _ _ _ []).
Qed.
End writer_lemmas.

(** Every byte belongs to a piece of the torrent. *)
Lemma piece_of_byte (len pl k : nat) : 0 < pl → k < len → k / pl < (len + pl - 1) / pl.
Proof.
  intros Hpl Hk. pose proof (Nat.mul_div_le k pl ltac:(lia)).
  pose proof (Nat.mul_succ_div_gt (len + pl - 1) pl ltac:(lia)). nia.
Qed.

(** ** A download in which nothing goes wrong *)

Section good_download.
Context `{Crypto} `{FullTransfer} (schedule : nat → list nat).
Context (metadata : TorrentFile) (handler : MultiFileHandler) (dir : string).
Context (content : list Z) (world0 : World).
Notation n := (piece_total metadata).
Hypothesis handler_good : handler_ok world0 handler.
Hypothesis distinct : NoDup (map handle (targets handler)).
Hypothesis schedule_ok : ∀ k, schedule k ≡ₚ seq 0 k.
Hypothesis content_size : length content = size_of (targets handler).
Hypothesis in_content : ∀ i, i < n → (Z.of_nat i < 2 ^ 32)%Z ∧ piece_lo handler i < length content.
Hypothesis hashes_ok : ∀ i, i < n →
  TorrentFile.verify_hash metadata (Z.of_nat i) (piece_of handler content i).2 = Ok tt.

(** A piece of the content. *)
Definition good (p : nat * list Z) : Prop := p.1 < n ∧ p = piece_of handler content p.1.
Definition good_task (t : WriteTask) : Prop :=
  match t with TStart i d | TWrite i d => good (i, d) | TCheck _ => True end.
Definition good_event (e : Event) : Prop :=
  match e with Add i d => good (i, d) | _ => True end.

Record ginv (w : Writer) (ws : list nat) : Prop := {
  g_world : write_pieces schedule handler (map (piece_of handler content) ws) world0 =
            (w_world w, Ok tt);
  g_hand : Forall good (w_hand w);
  g_sending : Forall good (w_sending w);
  g_queue : Forall good (w_queue w);
  g_tasks : Forall good_task (w_tasks w);
  g_wf : BitField.wf (w_bitfield w);
  g_count : piece_count (w_bitfield w) = n;
  g_held : ∀ i, BitField.held (w_bitfield w) i = true ↔ i ∈ taken w ++ ws;
  g_done : length (BitField.pieces (w_bitfield w)) = n →
    w_done w = true ∨ w_hand w ++ w_sending w ++ w_queue w ≠ [] ∨ w_tasks w ≠ [];
}.

(** One more piece of the content is written without an error. *)
Lemma write_next w ws i : ginv w ws → i < n →
  ∃ world, write_piece schedule (w_world w) handler (Z.of_nat i) (piece_of handler content i).2 =
             (world, Ok tt) ∧
    write_pieces schedule handler (map (piece_of handler content) (ws ++ [i])) world0 = (world, Ok tt).
Proof.
  intros [Hw _ _ _ _ _ Hc Hh _] Hi.
  destruct (write_pieces_spec schedule world0 handler content (ws ++ [i])) as (world & E & _); try done.
  { apply Forall_forall. intros j [Hj| ->%list_elem_of_singleton]%elem_of_app; apply in_content; [|done].
    assert (BitField.held (w_bitfield w) j = true) as Hb by (apply Hh; apply elem_of_app; by right).
    unfold BitField.held in Hb. rewrite Hc in Hb. apply andb_prop in Hb as [Hb _]. by apply Nat.ltb_lt. }
  exists world. split; [|done]. rewrite map_app in E. unfold write_pieces in *.
  rewrite foldl_app, Hw in E. cbn in E. cbn.
  destruct (write_piece _ _ _ _ _) as [w' [[]|]]; congruence.
Qed.

Lemma remove_at_nonempty {A} (l : list A) i y : i < length l → <[i := y]> l ≠ [].
Proof. intros Hi E. apply (f_equal length) in E. rewrite length_insert in E. cbn in E. lia. Qed.

Lemma ginv_task w ws i : ginv w ws → w_running w = true →
  ∃ w' ws', run_write_task schedule metadata handler w i = Some w' ∧ ginv w' ws'.
Proof.
  intros Hg Hrun. pose proof Hg as [Hw Hhd Hsd Hq Ht Hwf Hc Hh Hd]. unfold run_write_task.
  destruct (w_tasks w !! i) as [t|] eqn:E; [|by eauto].
  pose proof (waiting_remove w i t _ E eq_refl) as Hrem.
  pose proof (Forall_lookup_1 _ _ _ _ Ht E) as Hti.
  pose proof (lookup_lt_Some _ _ _ E) as Hlen.
  destruct t as [index data|index data|index]; cbn in Hrem, Hti.
  - destruct Hti as [Hlt Hd']. cbn in Hlt, Hd'.
    pose proof (hashes_ok index Hlt) as Hver. rewrite <-Hd' in Hver. cbn [snd] in Hver.
    unfold alive. rewrite Hrun, Hver. cbn [orb negb].
    pose proof (waiting_replace w i _ (TWrite index data) _ E eq_refl eq_refl) as Hrep.
    eexists _, ws. split; [reflexivity|]. split; cbn; try done.
    + apply Forall_insert; done.
    + intros j. rewrite Hh. unfold taken. by rewrite Hrep.
    + intros Hp. destruct (Hd Hp) as [?|[?|?]]; [by left|right; by left|]. right. right.
      by apply remove_at_nonempty.
  - destruct Hti as [Hlt Hd']. cbn in Hlt, Hd'.
    destruct (write_next w ws index Hg Hlt) as (world & E1 & E2). rewrite <-Hd' in E1. cbn in E1.
    rewrite E1. eexists _, (ws ++ [index]). split; [reflexivity|]. split; cbn; try done.
    + by apply Forall_insert.
    + intros j. rewrite Hh. unfold taken. rewrite Hrem. unfold waiting. cbn.
      assert (omap task_waits (<[i:=TCheck index]> (w_tasks w)) ≡ₚ omap task_waits (remove_at i (w_tasks w))) as ->
        by (by rewrite (insert_Permutation _ _ _ _ E)).
      rewrite !elem_of_app, elem_of_cons, !elem_of_app, list_elem_of_singleton. tauto.
    + intros _. right. right. by apply remove_at_nonempty.
  - rewrite BitField.count_spec by done. cbn. eexists _, ws. split; [reflexivity|]. split; cbn; try done.
    + by apply Forall_remove_at.
    + intros j. rewrite Hh. unfold taken. by rewrite Hrem.
    + intros ->. left. by rewrite Nat.eqb_refl, orb_true_r.
Qed.

Lemma ginv_step w ws e : ginv w ws → w_running w = true → good_event e →
  ∃ w' ws', writer_step schedule metadata handler dir w e = Some w' ∧
            (w_running w' = true → ginv w' ws').
Proof.
  intros Hg Hrun He. pose proof Hg as [Hw Hhd Hsd Hq Ht Hwf Hc Hh Hd].
  destruct e as [i d|k|k| | |i|]; cbn.
  - unfold add_piece. rewrite BitField.have_held by done. cbn.
    destruct (BitField.held (w_bitfield w) i) eqn:Eh; [by eauto|].
    destruct (BitField.set_spec (w_bitfield w) i Hwf) as (bf & -> & Hwf' & Hc' & Hh'). cbn.
    eexists _, ws. split; [reflexivity|]. intros _. split; cbn; try done.
    + apply Forall_app. split; [done|]. by constructor.
    + congruence.
    + intros j. rewrite Hh', Hc. unfold taken, waiting. cbn [w_hand w_sending w_queue w_tasks].
      rewrite map_app, !elem_of_app. cbn [map fst]. rewrite list_elem_of_singleton. destruct (decide (i = j)) as [<-|Hij].
      * destruct He as [Hlt _]. cbn in Hlt. rewrite (proj2 (Nat.ltb_lt _ _)) by done. naive_solver.
      * rewrite Hh. unfold taken, waiting. rewrite !elem_of_app. naive_solver.
    + intros _. right. left. by destruct (w_hand w).
  - eexists _, ws. split; [reflexivity|]. intros _. pose proof (taken_count w k) as Htk.
    unfold count_downloaded_piece in *. destruct (w_hand w !! k) as [p|] eqn:Ek; [|done].
    split; cbn; try done.
    + by apply Forall_remove_at.
    + apply Forall_app. split; [done|]. constructor; [|done]. by apply (Forall_lookup_1 _ (w_hand w) k).
    + intros j. by rewrite Hh, Htk.
    + intros _. right. left. destruct (remove_at k (w_hand w)), (w_sending w); done.
  - eexists _, ws. split; [reflexivity|]. intros _. pose proof (waiting_send w k) as Hs.
    unfold send_downloaded_piece in *. destruct (w_sending w !! k) as [p|] eqn:Ek; [|done].
    specialize (Hs p eq_refl). rewrite Hrun in Hs |- *. cbn in Hs. split; cbn; try done.
    + by apply Forall_remove_at.
    + apply Forall_app. split; [done|]. constructor; [|done]. by apply (Forall_lookup_1 _ (w_sending w) k).
    + intros j. unfold taken in *. by rewrite Hh, Hs.
    + intros _. right. left. destruct (w_hand w), (remove_at k (w_sending w)), (w_queue w); done.
  - destruct (_ || _); [by eauto|]. destruct (w_queue w) as [|[i d] q] eqn:Eq; [by eauto|].
    eexists _, ws. split; [reflexivity|]. intros _. apply Forall_cons in Hq as [Hi Hq].
    split; cbn; try done.
    + apply Forall_app. split; [done|]. by constructor.
    + intros j. rewrite Hh. unfold taken, waiting. rewrite Eq, omap_app, !map_app. cbn.
      rewrite !elem_of_app, elem_of_cons, list_elem_of_singleton. tauto.
    + intros _. right. right. by destruct (w_tasks w).
  - destruct (_ || _); [by eauto|]. eexists _, ws. split; [reflexivity|]. intros _. by split.
  - destruct (ginv_task w ws i Hg Hrun) as (w' & ws' & ? & ?). by eauto.
  - destruct (_ || _); [by eauto|]. eexists _, ws. split; [reflexivity|]. by intros [=].
Qed.

Lemma ginv_new : 0 < n → ginv (writer_new world0 (BitField.empty n)) [].
Proof.
  intros Hpos. split; cbn; try done.
  - apply BitField.empty_wf.
  - intros i. rewrite BitField.empty_held. split; [done|]. by intros ?%elem_of_nil.
  - intros E. exfalso. assert (BitField.pieces (BitField.empty n) = []) as Ep.
    { apply elem_of_nil_inv. intros i [_ Hi]%elem_of_filterb. by rewrite BitField.empty_held in Hi. }
    change (length (BitField.pieces (BitField.empty n)) = n) in E.
    rewrite Ep in E. cbn in E. lia.
Qed.

(** Once everything is worked off, the bytes of every piece held are the content's. *)
Lemma ginv_settled w ws :
  ginv w ws → w_hand w = [] → w_sending w = [] → w_queue w = [] → w_tasks w = [] →
  let pl := Z.to_nat (h_piece_length handler) in
  (∀ k, BitField.held (w_bitfield w) (k / pl) = true →
        flat (w_world w) (targets handler) !! k = content !! k) ∧
  (BitField.is_complete (w_bitfield w) = Some true → n = (length content + pl - 1) / pl →
     w_done w = true ∧ flat (w_world w) (targets handler) = content).
Proof.
  intros [Hw _ _ _ _ Hwf Hc Hh Hd] Hhand Hsending Hqueue Htasks pl. rewrite Hhand, Hsending, Hqueue in Hd.
  unfold taken, waiting in Hh. rewrite Hhand, Hsending, Hqueue, Htasks in Hh. cbn in Hh.
  destruct (write_pieces_spec schedule world0 handler content ws) as (w' & E & Hok' & Hb); try done.
  { apply Forall_forall. intros i Hi%Hh. apply in_content. unfold BitField.held in Hi.
    rewrite Hc in Hi. apply andb_prop in Hi as [Hi _]. by apply Nat.ltb_lt. }
  rewrite Hw in E. injection E as <-.
  assert (∀ k, BitField.held (w_bitfield w) (k / pl) = true →
    flat (w_world w) (targets handler) !! k = content !! k) as Hbytes by (intros k Hk; by apply Hb, Hh).
  split; [done|]. rewrite BitField.is_complete_spec by done. intros [= Ec%bool_decide_eq_true] Hn.
  split; [destruct Hd as [?|[?|?]]; [by rewrite Ec, length_seq|done|done|done]|].
  apply list_eq. intros k. destruct (decide (k < length content)) as [Hk|Hk].
  - apply Hbytes. assert (k / pl ∈ BitField.pieces (w_bitfield w)) as Hp.
    { rewrite Ec, elem_of_seq, Hc, Hn. split; [lia|]. apply piece_of_byte; [|done].
      destruct Hok' as [_ _ _ Hp _]. unfold pl. lia. }
    by apply elem_of_filterb in Hp as [_ ?].
  - rewrite !lookup_ge_None_2; [done|lia|].
    rewrite length_flat, <-content_size by apply Hok'. lia.
Qed.
End good_download.

Lemma stopped_stays `{Crypto} `{Os} schedule metadata handler dir w e w' :
  writer_step schedule metadata handler dir w e = Some w' → w_running w = false → w_running w' = false.
Proof.
  intros E Hr. destruct e as [i d|k|k| | |i|]; cbn in E; rewrite ?Hr in E; cbn in E; try (by simplify_eq).
  - unfold add_piece in E. destruct (BitField.have _ _) as [[]|]; cbn in E; simplify_eq; [done|].
    destruct (BitField.set _ _); cbn in E; by simplify_eq.
  - injection E as <-. unfold count_downloaded_piece. by destruct (w_hand w !! k).
  - injection E as <-. unfold send_downloaded_piece. rewrite Hr. by destruct (w_sending w !! k).
  - unfold run_write_task in E. destruct (w_tasks w !! i) as [[]|]; [| | |by simplify_eq].
    + destruct (alive w); cbn in E; [|by simplify_eq].
      destruct (TorrentFile.verify_hash _ _ _); by simplify_eq.
    + destruct (write_piece _ _ _ _ _) as [? []]; by simplify_eq.
    + destruct (BitField.count _); cbn in E; by simplify_eq.
Qed.

Lemma run_writer_snoc `{Crypto} `{Os} schedule metadata handler dir w es e :
  run_writer schedule metadata handler dir w (es ++ [e]) =
    (w' ← run_writer schedule metadata handler dir w es; writer_step schedule metadata handler dir w' e).
Proof. unfold run_writer. by rewrite foldl_app. Qed.

Lemma winv_run `{Crypto} `{Os} schedule metadata handler dir world0 bf0 es :
  BitField.wf bf0 → piece_count bf0 = piece_total metadata →
  ∃ w ws, run_writer schedule metadata handler dir (writer_new world0 bf0) es = Some w ∧
          winv schedule metadata handler world0 bf0 w ws.
Proof.
  intros Hwf Hc. induction es as [|e es (w & ws & E & Hi)] using rev_ind.
  - eexists _, []. split; [reflexivity|]. split; cbn; try done; try constructor.
    all: by match goal with Hn : _ ∈ [] |- _ => apply elem_of_nil in Hn end.
  - destruct (winv_step schedule metadata handler dir world0 bf0 w ws e Hi) as (w' & ws' & E' & Hi').
    exists w', ws'. rewrite run_writer_snoc, E. done.
Qed.

(** * Properties *)

(** C35: The bit field a seed announces is exact: without a complete resume file
    for its torrent, a piece is announced exactly when the bytes stored for it
    hash to the expected SHA-1, each of the torrent's pieces being checked; a
    complete resume file is taken at its word. *)
Theorem seed_bitfield_exact `{Crypto} `{FullTransfer} (w : World) (dir : string)
    (stored : option ResumeFile) (metafile : TorrentFile) (h : MultiFileHandler)
    (Hseed : seed w dir (TorrentFile.piece_length metafile) (TorrentFile.files metafile) = Ok h)
    (Hok : handler_ok w h) (Hn : (Z.of_nat (piece_total metafile) ≤ 2 ^ 32)%Z)
    (Hin : ∀ i, i < piece_total metafile → piece_lo h i < size_of (targets h))
    (Hresume : ∀ r, stored = Some r → BitField.wf (ResumeFile.get_bitfield r)) :
  ∃ bf, seed_resources w (Some dir) stored metafile = Some (Ok (h, bf)) ∧
    let exact := piece_count bf = piece_total metafile ∧
      ∀ i, BitField.have bf i =
        Some (match TorrentFile.piece_hashes metafile !! i with
              | Some expected => bool_decide (sha1 (stored_piece w h i) = expected)
              | None => false
              end) in
    match ResumeFile.resume_open stored (TorrentFile.info_hash metafile) with
    | Some r =>
      if bool_decide (BitField.pieces (ResumeFile.get_bitfield r) = seq 0 (rf_total_pieces r))
      then bf = ResumeFile.get_bitfield r else exact
    | None => exact
    end.
Proof.
  unfold seed_resources. rewrite Hseed.
  destruct (verify_loop_spec w h [] (TorrentFile.piece_hashes metafile)
    (BitField.empty (piece_total metafile))) as (bf & E & Hwf & Hc & Hh);
    [done|apply BitField.empty_wf|done|done|done|intros i; apply BitField.empty_held|].
  assert (∀ i, BitField.have bf i = Some (matches w h (TorrentFile.piece_hashes metafile) i)) as Hhave
    by (intros i; by rewrite BitField.have_held, Hh by done).
  change (verify_pieces w h (TorrentFile.piece_hashes metafile) = Some (Ok bf)) in E. rewrite E. cbn.
  destruct (ResumeFile.resume_open stored _) as [r|] eqn:Er; [|by eauto].
  assert (BitField.wf (ResumeFile.get_bitfield r)) as Hr.
  { apply Hresume. unfold ResumeFile.resume_open in Er. destruct stored; cbn in Er; [|done].
    by case_bool_decide; simplify_eq. }
  change (ResumeFile.is_complete r) with (BitField.is_complete (ResumeFile.get_bitfield r)).
  rewrite BitField.is_complete_spec by done. cbn.
  change (piece_count (ResumeFile.get_bitfield r)) with (rf_total_pieces r).
  case_bool_decide; eexists; by split_and!.
Qed.

(** C6: Whatever the pieces received and however the writer's loop and its tasks
    interleave, the writer does not panic and the files change only by writing
    pieces whose data matches their hash, each at most once and none that was
    held from the start; while it runs, its counter is the number of pieces
    received and not yet settled. *)
Theorem download_writes_verified `{Crypto} `{Os} (schedule : nat → list nat)
    (metadata : TorrentFile) (handler : MultiFileHandler) (dir : string) (world0 : World)
    (bf0 : BitField) (es : list Event)
    (Hwf : BitField.wf bf0) (Hcount : piece_count bf0 = piece_total metadata) :
  ∃ w ws, run_writer schedule metadata handler dir (writer_new world0 bf0) es = Some w ∧
    w_world w = (write_pieces schedule handler ws world0).1 ∧
    Forall (λ '(i, data), TorrentFile.verify_hash metadata (Z.of_nat i) data = Ok tt) ws ∧
    NoDup (map fst ws) ∧
    (∀ i, i ∈ map fst ws → BitField.held bf0 i = false ∧ BitField.held (w_bitfield w) i = true) ∧
    (w_running w = true → w_pending w = u64 (Z.of_nat (length (waiting w)))).
Proof.
  destruct (winv_run schedule metadata handler dir world0 bf0 es Hwf Hcount) as (w & ws & E & Hi).
  destruct Hi as [_ _ _ Hw Hv _ Hnd Hh Hp]. exists w, ws.
  assert (in_range (piece_total metadata) (map fst ws) = map fst ws) as Hr.
  { clear -Hv. induction Hv as [|p ws Hp _ IH]; [done|]. cbn.
    apply verified_lt in Hp. rewrite decide_True by done. by f_equal. }
  unfold in_range in Hnd, Hh, Hr. rewrite omap_app, Hr in Hnd.
  split_and!; [done|done| | | |done].
  - eapply Forall_impl; [exact Hv|]. by intros [].
  - by apply NoDup_app in Hnd as (_ & _ & ?).
  - intros i Hi. destruct (Hh i) as [? ?]; [|done]. rewrite omap_app, Hr. apply elem_of_app. by right.
Qed.


(** * Concrete downloads *)

Module DownloadExamples.
#[local] Existing Instance Toy.ToyCrypto.
#[local] Existing Instance ChunksExamples.toy_os.
#[local] Existing Instance ChunksExamples.toy_full.

Definition world : World := ChunksExamples.opened.1.
Definition handler : MultiFileHandler := ChunksExamples.opened.2.
Definition content : list Z := ChunksExamples.demo_content.
Definition piece (i : nat) : list Z := (piece_of handler content i).2.

Definition torrent : TorrentFile :=
  V1 (mkV1 (mkCommon (HashV1 (replicate 20 5%Z)) "demo" None None 4 None None None None None) false
        (sha1 (piece 0) ++ sha1 (piece 1) ++ sha1 (piece 2))
        (MultiFile ChunksExamples.demo_files)).

Definition order (n : nat) : list nat := reverse (seq 0 n).
Definition run (es : list Event) : option Writer :=
  run_writer order torrent handler "/data" (writer_new world (BitField.empty 3)) es.
Definition final (es : list Event) : Writer :=
  default (writer_new world (BitField.empty 3)) (run es).

Definition receive_all : list Event :=
  [Add 1 (piece 1); Add 0 (piece 0); Count 0; Add 2 (piece 2); Count 0; Send 0; Count 0; Send 0; Send 0;
   Recv; Recv; Recv].
Definition undisturbed : list Event :=
  receive_all ++ [TaskRun 2; TaskRun 0; TaskRun 0; TaskRun 1; TaskRun 2; TaskRun 1; TaskRun 0; TaskRun 1; TaskRun 0].
(** The completion is noticed after the first write. *)
Definition hasty : list Event :=
  receive_all ++ [TaskRun 0; TaskRun 0; TaskRun 0; Break; TaskRun 0; TaskRun 0].

Lemma piece_hashes_ok i : i < 3 →
  TorrentFile.verify_hash torrent (Z.of_nat i) (piece_of handler content i).2 = Ok tt.
Proof. intros Hi. destruct i as [|[|[|i]]]; [by vm_compute..|lia]. Qed.

Lemma handles_distinct : NoDup (map handle (targets handler)).
Proof. apply (bool_decide_unpack _). by vm_compute. Qed.

Lemma download_writes_verified_witness :
  ∃ w ws, run hasty = Some w ∧ w_world w = (write_pieces order handler ws world).1 ∧
          NoDup (map fst ws).
Proof.
  destruct (download_writes_verified order torrent handler "/data" world (BitField.empty 3) hasty)
    as (w & ws & E & Hw & _ & Hnd & _); [apply BitField.empty_wf|by vm_compute|].
  exists w, ws. split_and!; [exact E|exact Hw|exact Hnd].
Defined.


Lemma seed_bitfield_exact_witness :
  ∃ bf, seed_resources world (Some "/data") None torrent = Some (Ok (handler, bf)) ∧
        BitField.have bf 1 = Some false.
Proof.
  destruct (seed_bitfield_exact world "/data" None torrent handler) as (bf & E & Hc & Hh).
  - by vm_compute.
  - exact ChunksExamples.opened_ok.
  - by vm_compute.
  - intros i Hi. vm_compute in Hi. destruct i as [|[|[|i]]]; [vm_compute; lia..|lia].
  - done.
  - exists bf. split; [exact E|]. rewrite Hh. by vm_compute.
Defined.

(** Every piece was received with the right data, yet the download is announced
    as complete, with a complete resume file, while two pieces were never
    written; the seed that follows announces them. *)
Lemma completion_loses_pieces :
  DownloadCompleted "/data" ∈ w_events (final hasty) ∧
  flat (w_world (final hasty)) (targets handler) = [0; 0; 0; 0; 5; 6; 7; 8; 0; 0; 0]%Z ∧
  ∃ bf, seed_resources (w_world (final hasty)) (Some "/data") (w_resume (final hasty)) torrent =
    Some (Ok (handler, bf)) ∧ BitField.is_complete bf = Some true.
Proof.
  split; [|split; [by vm_compute|eexists; split; by vm_compute]].
  apply list_elem_of_In. vm_compute. tauto.
Qed.
End DownloadExamples.
