(* ===== verification/Transfer.v ===== *)
(** A download from end to end: the tasks of the router, which take pieces from several
    peers at once ([Swarm]), together with the writer they hand the pieces to and
    the tasks that write them ([Download]).  The two share the session's bit field
    and the channel of pieces; every stretch of a router task that touches either
    is a step of both.

    The bit field, and whether the writer still receives, are fields of both states:
    [coupled] has them equal. *)

From S2P Require Import Prelude Net Crypto BitField Metainfo Routing Chunks Session Bep.
From S2P Require Import Swarm Download.

Record Transfer := mkTransfer { x_swarm : Swarm; x_writer : Writer }.

(** A step of the router or of a peer, and the steps of the writer. *)
Inductive TransferEvent :=
| XRouter (e : SwarmEvent)
| XRecv
| XTick
| XTask (i : nat)
| XBreak.

(** The place of a piece in a list of them. *)
Definition place (index : Z) (data : list Z) (l : list (nat * list Z)) : nat :=
  default 0 (fst <$> list_find (λ p, p = (Z.to_nat index, data)) l).

(** Where a stretch of a router task meets the writer's session. *)
Definition shared_event (sw : Swarm) (wr : Writer) (e : SwarmEvent) : option Event :=
  match e with
  | SRun i _ _ =>
    match t_point <$> Swarm.w_tasks sw !! i with
    | Some (AtAdd _ index data) => Some (Add (Z.to_nat index) data)
    | Some (AtCount _ index data) => Some (Count (place index data (w_hand wr)))
    | Some (AtSend _ index data) => Some (Send (place index data (w_sending wr)))
    | _ => None
    end
  | _ => None
  end.

Section transfer.
Context `{Crypto} `{Os} (schedule : nat → list nat).
Variables (metadata : TorrentFile) (handler : MultiFileHandler) (dir : string).

(** The writer's end is [XBreak], a step of its own. *)
Definition transfer_step (x : Transfer) (e : TransferEvent) : option Transfer :=
  let write e := writer_step schedule metadata handler dir (x_writer x) e in
  match e with
  | XRouter SWriterGone => Some x
  | XRouter e =>
    wr ← match shared_event (x_swarm x) (x_writer x) e with
         | Some e' => write e'
         | None => Some (x_writer x)
         end;
    Some (mkTransfer (swarm_step (x_swarm x) e) wr)
  | XRecv => wr ← write Recv; Some (mkTransfer (x_swarm x) wr)
  | XTick => wr ← write Tick; Some (mkTransfer (x_swarm x) wr)
  | XTask i => wr ← write (TaskRun i); Some (mkTransfer (x_swarm x) wr)
  | XBreak =>
    wr ← write Break;
    Some (mkTransfer (if w_running wr then x_swarm x else swarm_step (x_swarm x) SWriterGone) wr)
  end.

Definition transfer_run (x : Transfer) (es : list TransferEvent) : option Transfer :=
  foldl (λ acc e, x ← acc; transfer_step x e) (Some x) es.
End transfer.

Definition transfer_new (world : World) (bitfield : BitField) : Transfer :=
  mkTransfer (swarm_new bitfield) (writer_new world bitfield).

(** The request that completes when the [i]-th task runs. *)
Definition asked (sw : Swarm) (i pick : nat) : option Z :=
  t ← Swarm.w_tasks sw !! i;
  match t_point t with
  | AtLoop =>
    first ← head (t_in_flight t);
    Some (default first (t_in_flight t !! (pick mod length (t_in_flight t))))
  | _ => None
  end.

(** * The two states *)

(** The piece at a point, and the one a task has taken. *)
Definition point_piece (p : Point) : option (nat * list Z) :=
  match p with
  | AtPiece index data | AtAdd _ index data | AtClear _ index data | AtCount _ index data
  | AtSend _ index data => Some (Z.to_nat index, data)
  | _ => None
  end.
Definition hand_piece (t : DTask) : option (nat * list Z) :=
  match t_point t with
  | AtClear _ index data | AtCount _ index data => Some (Z.to_nat index, data)
  | _ => None
  end.
Definition sent_piece (t : DTask) : option (nat * list Z) :=
  match t_point t with AtSend _ index data => Some (Z.to_nat index, data) | _ => None end.
Definition hand_pieces (sw : Swarm) : list (nat * list Z) := omap hand_piece (Swarm.w_tasks sw).
Definition sent_pieces (sw : Swarm) : list (nat * list Z) := omap sent_piece (Swarm.w_tasks sw).

Record coupled (sw : Swarm) (wr : Writer) : Prop := {
  cp_bitfield : Download.w_bitfield wr = Swarm.w_bitfield sw;
  cp_hand : w_hand wr ≡ₚ hand_pieces sw;
  cp_sending : w_sending wr ≡ₚ sent_pieces sw;
  cp_running : w_running wr = w_receiving sw;
}.

(** Steps of the router that touch neither the bit field nor a piece in hand. *)
Definition same_pieces (sw sw' : Swarm) : Prop :=
  Swarm.w_bitfield sw' = Swarm.w_bitfield sw ∧ w_receiving sw' = w_receiving sw ∧
  hand_pieces sw' ≡ₚ hand_pieces sw ∧ sent_pieces sw' ≡ₚ sent_pieces sw.

(** What a task has of the writer's. *)
Definition pieces_at (t : DTask) := (hand_piece t, sent_piece t).

Lemma pieces_at_inv t t' : pieces_at t = pieces_at t' →
  hand_piece t = hand_piece t' ∧ sent_piece t = sent_piece t'.
Proof. by intros [= ? ?]. Qed.

Lemma goto_pieces sw i t t0 p pls :
  Swarm.w_tasks sw !! i = Some t0 →
  pieces_at (mkTask (t_source t) (t_in_flight t) p) = pieces_at t0 →
  same_pieces sw (goto i t p (set_pipelines pls sw)).
Proof.
  intros Hi [Hh Hs]%pieces_at_inv. unfold same_pieces, hand_pieces, sent_pieces.
  cbn [goto Swarm.w_tasks Swarm.set_tasks set_pipelines]. split_and!; [done|done| |].
  - by rewrite (omap_insert_at hand_piece _ i t0), Hh, <-omap_remove_at.
  - by rewrite (omap_insert_at sent_piece _ i t0), Hs, <-omap_remove_at.
Qed.

Lemma goto_pieces' sw i t t0 p :
  Swarm.w_tasks sw !! i = Some t0 →
  pieces_at (mkTask (t_source t) (t_in_flight t) p) = pieces_at t0 →
  same_pieces sw (goto i t p sw).
Proof.
  replace sw with (set_pipelines (w_pipelines sw) sw) at 3 by (by destruct sw). apply goto_pieces.
Qed.

Lemma ends_pieces sw i t pls :
  Swarm.w_tasks sw !! i = Some t → pieces_at t = (None, None) →
  same_pieces sw (ends i (set_pipelines pls sw)).
Proof.
  intros Hi [= Hh Hs]. unfold same_pieces, hand_pieces, sent_pieces. split_and!; [done|done| |].
  - by rewrite (omap_remove_at hand_piece (Swarm.w_tasks sw) i t), Hh.
  - by rewrite (omap_remove_at sent_piece (Swarm.w_tasks sw) i t), Hs.
Qed.

Lemma ends_pieces' sw i t :
  Swarm.w_tasks sw !! i = Some t → pieces_at t = (None, None) → same_pieces sw (ends i sw).
Proof.
  replace sw with (set_pipelines (w_pipelines sw) sw) at 3 by (by destruct sw). apply ends_pieces.
Qed.

Lemma app_pieces sw pls peers t :
  pieces_at t = (None, None) →
  same_pieces sw (mkSwarm (w_mode sw) (Swarm.w_bitfield sw) peers pls (Swarm.w_tasks sw ++ [t])
    (w_writer sw) (w_lost sw) (w_receiving sw) (Swarm.w_pending sw)).
Proof.
  intros [= Hh Hs]. unfold same_pieces, hand_pieces, sent_pieces. cbn. rewrite !omap_app. cbn.
  by rewrite Hh, Hs, !app_nil_r.
Qed.

Lemma run_point_pieces sw i pick answer t :
  Swarm.w_tasks sw !! i = Some t →
  match t_point t with AtAdd _ _ _ | AtCount _ _ _ | AtSend _ _ _ => False | _ => True end →
  same_pieces sw (run_point i pick answer t sw).
Proof.
  intros Hi Hp. unfold run_point. destruct (t_point t) eqn:Ht; try done; clear Hp;
    try assert (pieces_at t = (None, None)) as Hh by (unfold pieces_at, hand_piece, sent_piece; by rewrite Ht).
  - destruct (_ ≫= _) as [[pid p]|]; [|by eapply ends_pieces']. by eapply goto_pieces.
  - destruct (w_pipelines sw !! pid) as [p|]; [|by eapply ends_pieces'].
    eapply goto_pieces'; [done|]. by destruct (peer_choking p).
  - destruct (w_pipelines sw !! pid) as [p|]; [|by eapply ends_pieces'].
    destruct (fill_pending _ _ _). by eapply goto_pieces.
  - destruct (t_in_flight t); [by eapply ends_pieces'|]. eapply goto_pieces'; [done|]. by destruct answer.
  - destruct (w_peers sw !! t_source t); by eapply goto_pieces'.
  - cbn [run_process]. assert (pieces_at t = (Some (Z.to_nat index, data), None)) as Hh
      by (unfold pieces_at, hand_piece, sent_piece; by rewrite Ht).
    destruct (w_pipelines sw !! pid); [by eapply goto_pieces|by eapply goto_pieces'].
  - cbn [run_process]. destruct (BitField.is_complete _) as [c|]; [|by eapply ends_pieces'].
    eapply goto_pieces'; [done|]. by destruct c.
  - destruct (w_pipelines sw !! pid); [|by eapply ends_pieces']. by eapply ends_pieces.
Qed.

(** What the steps of the router and of the writer do to the shared state agree. *)
Section coupling.
Context `{Crypto} `{Os} (schedule : nat → list nat).
Context (metadata : TorrentFile) (handler : MultiFileHandler) (dir : string) (bf0 : BitField).
Notation write := (writer_step schedule metadata handler dir).

Lemma task_index sw i t index :
  swarm_ok bf0 sw → Swarm.w_tasks sw !! i = Some t → point_index (t_point t) = Some index →
  ∃ k, index = Z.of_nat k ∧ k < piece_count bf0.
Proof.
  intros Hok Hi Ht. assert (task_ok bf0 t) as [_ Hp] by (eapply Forall_lookup_1; [apply Hok|done]).
  by apply Hp.
Qed.

Lemma coupled_same sw sw' wr : coupled sw wr → same_pieces sw sw' → coupled sw' wr.
Proof.
  intros [Hb Hh Hs Hr] (Hb' & Hr' & Hh' & Hs'). split; [congruence|by rewrite Hh, Hh'|by rewrite Hs, Hs'|congruence].
Qed.

Lemma place_found index data l k :
  (Z.to_nat index, data) ∈ l → k = place index data l → l !! k = Some (Z.to_nat index, data).
Proof.
  intros Hin ->. unfold place. destruct (list_find _ l) as [[j p]|] eqn:Ef; cbn.
  - by apply list_find_Some in Ef as (Hj & -> & _).
  - exfalso. apply list_find_None in Ef. rewrite Forall_forall in Ef. by apply (Ef _ Hin).
Qed.

Lemma coupled_add sw wr i t pid index data :
  coupled sw wr → swarm_ok bf0 sw → Swarm.w_tasks sw !! i = Some t →
  t_point t = AtAdd pid index data →
  ∃ wr', write wr (Add (Z.to_nat index) data) = Some wr' ∧
         coupled (run_process i pid t sw index data (AtAdd pid index data)) wr'.
Proof.
  intros [Hb Hh Hs Hr] Hok Hi Ht.
  destruct (task_index sw i t index Hok Hi) as (k & -> & Hk); [by rewrite Ht|].
  assert (pieces_at t = (None, None)) as Hn by (unfold pieces_at, hand_piece, sent_piece; by rewrite Ht).
  cbn [run_process writer_step]. unfold add_piece_step, add_piece. rewrite Nat2Z.id, Hb.
  rewrite !BitField.have_held by apply Hok. cbn [mbind option_bind].
  destruct (BitField.held (Swarm.w_bitfield sw) k).
  { exists wr. split; [done|].
    replace (mkSwarm _ _ _ _ _ _ _ _ _) with sw by (by destruct sw).
    apply (coupled_same sw); [done|]. by eapply goto_pieces'. }
  destruct (BitField.set_spec (Swarm.w_bitfield sw) k (ok_wf _ _ Hok)) as (bf & -> & _).
  injection Hn as Hn Hn'. cbn [mbind option_bind]. eexists. split; [reflexivity|].
  unfold hand_pieces, sent_pieces in *. split; cbn; [done| | |done].
  - rewrite (omap_insert_at hand_piece _ i t), Hh, (omap_remove_at hand_piece _ i t Hi), Hn by done.
    cbn. rewrite Nat2Z.id. solve_Permutation.
  - rewrite (omap_insert_at sent_piece _ i t), Hs, (omap_remove_at sent_piece _ i t Hi), Hn' by done.
    done.
Qed.

(** The piece of a task leaves the list it is in. *)
Lemma leaves {A} `{EqDecision A} (f : DTask → option A) ts i t t' l k (p : A) :
  ts !! i = Some t → f t = Some p → f t' = None → l ≡ₚ omap f ts → l !! k = Some p →
  remove_at k l ≡ₚ omap f (<[i := t']> ts).
Proof.
  intros Hi Ht Ht' Hl Hk. rewrite (omap_insert_at f _ i t), Ht' by done. cbn.
  apply (Permutation.Permutation_cons_inv (a := p)).
  rewrite (remove_at_Permutation _ _ _ Hk), Hl, (omap_remove_at f _ i t Hi), Ht. done.
Qed.

(** It joins the other. *)
Lemma joins {A} (f : DTask → option A) ts i t t' l (p : A) :
  ts !! i = Some t → f t = None → f t' = Some p → l ≡ₚ omap f ts →
  l ++ [p] ≡ₚ omap f (<[i := t']> ts).
Proof.
  intros Hi Ht Ht' Hl. rewrite (omap_insert_at f _ i t), Ht', Hl, (omap_remove_at f _ i t Hi), Ht by done.
  cbn. solve_Permutation.
Qed.

Lemma stays {A} (f : DTask → option A) ts i t t' l :
  ts !! i = Some t → f t' = f t → l ≡ₚ omap f ts → l ≡ₚ omap f (<[i := t']> ts).
Proof. intros Hi Ht Hl. by rewrite (omap_insert_at f _ i t), Ht, Hl, <-omap_remove_at. Qed.

Lemma in_list {A} (f : DTask → option A) ts i t l (p : A) :
  ts !! i = Some t → f t = Some p → l ≡ₚ omap f ts → p ∈ l.
Proof.
  intros Hi Ht ->. apply list_elem_of_omap. exists t. split; [|done]. by eapply list_elem_of_lookup_2.
Qed.

Lemma coupled_count sw wr i t pid index data :
  coupled sw wr → Swarm.w_tasks sw !! i = Some t → t_point t = AtCount pid index data →
  ∃ wr', write wr (Count (place index data (w_hand wr))) = Some wr' ∧
         coupled (run_process i pid t sw index data (AtCount pid index data)) wr'.
Proof.
  intros [Hb Hh Hs Hr] Hi Ht.
  assert (hand_piece t = Some (Z.to_nat index, data)) as Hn by (unfold hand_piece; by rewrite Ht).
  assert (sent_piece t = None) as Hn' by (unfold sent_piece; by rewrite Ht).
  pose proof (in_list hand_piece _ i t _ _ Hi Hn Hh) as Hin.
  pose proof (place_found index data (w_hand wr) _ Hin eq_refl) as Hk.
  cbn [run_process writer_step]. unfold count_downloaded_piece. rewrite Hk.
  eexists. split; [reflexivity|]. split; cbn; [done|by eapply leaves|by eapply joins|done].
Qed.

Lemma coupled_send sw wr i t pid index data :
  coupled sw wr → w_mode sw = MDownloading → Swarm.w_tasks sw !! i = Some t →
  t_point t = AtSend pid index data →
  ∃ wr', write wr (Send (place index data (w_sending wr))) = Some wr' ∧
         coupled (run_process i pid t sw index data (AtSend pid index data)) wr'.
Proof.
  intros [Hb Hh Hs Hr] Hm Hi Ht.
  assert (hand_piece t = None) as Hn by (unfold hand_piece; by rewrite Ht).
  assert (sent_piece t = Some (Z.to_nat index, data)) as Hn' by (unfold sent_piece; by rewrite Ht).
  pose proof (in_list sent_piece _ i t _ _ Hi Hn' Hs) as Hin.
  pose proof (place_found index data (w_sending wr) _ Hin eq_refl) as Hk.
  cbn [run_process writer_step]. unfold send_downloaded_piece, hand_over. rewrite Hk, Hm, Hr.
  eexists. split; [reflexivity|].
  destruct (w_receiving sw) eqn:Er; (split; cbn; [done|by eapply stays|by eapply leaves|congruence]).
Qed.

Lemma coupled_step sw wr e :
  coupled sw wr → swarm_ok bf0 sw → w_mode sw = MDownloading → e ≠ SPause → e ≠ SWriterGone →
  ∃ wr', match shared_event sw wr e with
         | Some e' => write wr e'
         | None => Some wr
         end = Some wr' ∧ coupled (swarm_step sw e) wr'.
Proof.
  intros Hc Hok Hm Hne Hng. destruct e; cbn [shared_event swarm_step]; try (eexists; split; [reflexivity|]);
    try (apply (coupled_same sw); [done|]).
  - rewrite Hm. by apply (app_pieces sw).
  - destruct (_ ≫= _) as [[pid p]|]; [|done]. by apply (app_pieces sw).
  - by destruct (_ ≫= _) as [[pid p]|].
  - done.
  - done.
  - done.
  - done.
  - destruct (Swarm.w_tasks sw !! i) as [t|] eqn:Hi; cbn [fmap option_fmap option_map]; [|by eauto].
    destruct (t_point t) eqn:Ht;
      try (eexists; split; [reflexivity|]; apply (coupled_same sw); [done|];
           apply run_point_pieces; [done|by rewrite Ht]).
    + unfold run_point. rewrite Ht. by apply coupled_add.
    + unfold run_point. rewrite Ht. by apply coupled_count.
    + unfold run_point. rewrite Ht. by apply coupled_send.
Qed.
End coupling.

(** ** The data of the pieces *)

Section pieces.
Context (P : nat * list Z → Prop).

Definition piece_ok (t : DTask) : Prop := ∀ p, point_piece (t_point t) = Some p → P p.
Definition pieces_ok (sw : Swarm) : Prop := Forall piece_ok (Swarm.w_tasks sw).

Lemma goto_pieces_ok i t p sw : pieces_ok sw →
  (∀ q, point_piece p = Some q → P q) → pieces_ok (goto i t p sw).
Proof. intros Ho Hp. by apply Forall_insert. Qed.

Lemma ends_pieces_ok i sw : pieces_ok sw → pieces_ok (ends i sw).
Proof. apply Forall_remove_at. Qed.

Lemma pieces_ok_step sw e :
  pieces_ok sw →
  (∀ i pick data index, e = SRun i pick (Some data) → asked sw i pick = Some index →
     P (Z.to_nat index, data)) →
  pieces_ok (swarm_step sw e).
Proof.
  intros Ho Ha. destruct e; cbn [swarm_step]; try done.
  - destruct (w_mode sw); [|done..]. apply Forall_app. split; [done|]. by repeat constructor.
  - destruct (_ ≫= _) as [[]|]; [|done]. apply Forall_app. split; [done|]. by repeat constructor.
  - by destruct (_ ≫= _) as [[]|].
  - destruct (Swarm.w_tasks sw !! i) as [t|] eqn:Hi; [|done].
    pose proof (Forall_lookup_1 _ _ _ _ Ho Hi) as Hp. unfold piece_ok in Hp.
    unfold run_point. destruct (t_point t) eqn:Ht.
    + destruct (_ ≫= _) as [[]|]; [by apply goto_pieces_ok|by apply ends_pieces_ok].
    + destruct (w_pipelines sw !! _) as [p|]; [|by apply ends_pieces_ok]. apply goto_pieces_ok; [done|].
      by destruct (peer_choking p).
    + destruct (w_pipelines sw !! _); [|by apply ends_pieces_ok]. destruct (fill_pending _ _ _). by apply goto_pieces_ok.
    + destruct (t_in_flight t) as [|first l] eqn:Hl; [by apply ends_pieces_ok|].
      apply goto_pieces_ok; [done|]. destruct answer as [data|]; [|done]. intros q [= <-].
      apply (Ha i pick data _ eq_refl). unfold asked. rewrite Hi. cbn. by rewrite Ht, Hl.
    + destruct (w_peers sw !! _); by apply goto_pieces_ok.
    + cbn [run_process]. destruct (add_piece_step _ _) as [[bf []]|]; [| |by apply ends_pieces_ok];
        by apply goto_pieces_ok.
    + cbn [run_process]. destruct (w_pipelines sw !! _); by apply goto_pieces_ok.
    + cbn [run_process]. by apply goto_pieces_ok.
    + cbn [run_process]. apply goto_pieces_ok; [|done]. unfold hand_over.
      by destruct (w_mode sw), (w_receiving sw).
    + cbn [run_process]. destruct (BitField.is_complete _) as [[]|]; [| |by apply ends_pieces_ok];
        by apply goto_pieces_ok.
    + destruct (w_pipelines sw !! _); by apply ends_pieces_ok.
Qed.
End pieces.

(** * Properties *)

Section honest.
Context `{Crypto} `{FullTransfer} (schedule : nat → list nat).
Context (metadata : TorrentFile) (handler : MultiFileHandler) (dir : string) (content : list Z).
Notation step := (transfer_step schedule metadata handler dir).

(** The replies that pass the check of the peer's signature carry the content, and the
    session is not paused. *)
Definition honest (x : Transfer) (e : TransferEvent) : Prop :=
  match e with
  | XRouter SPause => False
  | XRouter (SRun i pick (Some data)) =>
    match asked (x_swarm x) i pick with
    | Some index => (Z.to_nat index, data) = piece_of handler content (Z.to_nat index)
    | None => True
    end
  | _ => True
  end.

Fixpoint honest_run (x : Transfer) (es : list TransferEvent) : Prop :=
  match es with
  | [] => True
  | e :: es => honest x e ∧ match step x e with Some x' => honest_run x' es | None => True end
  end.

Context (world0 : World).
Notation n := (piece_total metadata).
Notation pl := (Z.to_nat (h_piece_length handler)).
Hypothesis handler_good : handler_ok world0 handler.
Hypothesis distinct : NoDup (map handle (targets handler)).
Hypothesis schedule_ok : ∀ k, schedule k ≡ₚ seq 0 k.
Hypothesis content_size : length content = size_of (targets handler).
Hypothesis content_pos : 0 < length content.
Hypothesis pieces_cover : n = (length content + pl - 1) / pl.
Hypothesis pieces_bound : (Z.of_nat n ≤ 2 ^ 32)%Z.
Hypothesis hashes_ok : ∀ i, i < n →
  TorrentFile.verify_hash metadata (Z.of_nat i) (piece_of handler content i).2 = Ok tt.

Record transfer_ok (x : Transfer) : Prop := {
  xo_coupled : coupled (x_swarm x) (x_writer x);
  xo_swarm : swarm_ok (BitField.empty n) (x_swarm x);
  xo_mode : w_mode (x_swarm x) = MDownloading;
  xo_pieces : pieces_ok (λ p, p = piece_of handler content p.1) (x_swarm x);
  xo_writer : ∃ ws, winv schedule metadata handler world0 (BitField.empty n) (x_writer x) ws;
  xo_good : w_running (x_writer x) = true →
    ∃ ws, ginv schedule metadata handler content world0 (x_writer x) ws;
}.

Lemma pl_pos : 0 < pl.
Proof using handler_good.
  clear pieces_cover content_size content_pos pieces_bound hashes_ok. destruct handler_good as [_ _ _ Hp _]. lia.
Qed.

Lemma in_content i : i < n → (Z.of_nat i < 2 ^ 32)%Z ∧ piece_lo handler i < length content.
Proof using handler_good content_pos pieces_cover pieces_bound.
  clear content_size. intros Hi. unfold piece_lo. pose proof pl_pos.
  pose proof (Nat.mul_div_le (length content + pl - 1) pl ltac:(lia)).
  rewrite <-pieces_cover in *. split; [lia|nia].
Qed.

(** A step of the writer keeps what is known of it. *)
Lemma write_ok wr e :
  (∃ ws, winv schedule metadata handler world0 (BitField.empty n) wr ws) →
  (w_running wr = true → ∃ ws, ginv schedule metadata handler content world0 wr ws) →
  good_event metadata handler content e →
  ∃ wr', writer_step schedule metadata handler dir wr e = Some wr' ∧
    (∃ ws, winv schedule metadata handler world0 (BitField.empty n) wr' ws) ∧
    (w_running wr' = true → ∃ ws, ginv schedule metadata handler content world0 wr' ws).
Proof.
  intros [ws Hw] Hg He.
  destruct (winv_step schedule metadata handler dir world0 _ wr ws e Hw) as (wr' & ws' & E & Hw').
  exists wr'. split_and!; [done|by eauto|]. intros Hr.
  destruct (w_running wr) eqn:Hr0; [|eapply stopped_stays in E; [|done]; congruence].
  destruct (Hg eq_refl) as [gs Hgs].
  destruct (ginv_step schedule metadata handler dir content world0 handler_good distinct schedule_ok
    content_size in_content hashes_ok wr gs e Hgs Hr0 He) as (wr2 & gs' & E2 & Hg2).
  rewrite E in E2. injection E2 as <-. eauto.
Qed.

(** Steps of the writer other than the two it shares with the router. *)
Lemma loop_ok x e :
  transfer_ok x → match e with Add _ _ | Count _ | Send _ | Break => False | _ => True end →
  ∃ wr', writer_step schedule metadata handler dir (x_writer x) e = Some wr' ∧
         transfer_ok (mkTransfer (x_swarm x) wr').
Proof.
  intros [[Hb Hh Hsd Hrn] Hs Hm Hp Hw Hg] He.
  destruct (write_ok (x_writer x) e) as (wr' & E & Hw' & Hg'); [done..|by destruct e|].
  exists wr'. split; [done|].
  assert (Download.w_bitfield wr' = Download.w_bitfield (x_writer x) ∧ w_hand wr' = w_hand (x_writer x) ∧
    w_sending wr' = w_sending (x_writer x) ∧ w_running wr' = w_running (x_writer x))
    as (Hb' & Hh' & Hsd' & Hrn').
  { destruct e; try done; cbn in E; unfold run_write_task, Download.set_tasks, write_ended in E;
      repeat (case_match; simplify_eq/=; try done).
    destruct (BitField.count _); cbn in E; by simplify_eq. }
  split; cbn; try done. split; [congruence|by rewrite Hh'|by rewrite Hsd'|congruence].
Qed.

(** The writer's end, which the router notices. *)
Lemma break_ok x :
  transfer_ok x →
  ∃ wr', writer_step schedule metadata handler dir (x_writer x) Break = Some wr' ∧
         transfer_ok (mkTransfer (if w_running wr' then x_swarm x
                                  else swarm_step (x_swarm x) SWriterGone) wr').
Proof.
  intros [[Hb Hh Hsd Hrn] Hs Hm Hp Hw Hg].
  destruct (write_ok (x_writer x) Break) as (wr' & E & Hw' & Hg'); [done..|].
  exists wr'. split; [done|].
  assert (Download.w_bitfield wr' = Download.w_bitfield (x_writer x) ∧ w_hand wr' = w_hand (x_writer x) ∧
    w_sending wr' = w_sending (x_writer x) ∧
    (w_running wr' = true → w_running (x_writer x) = true)) as (Hb' & Hh' & Hsd' & Hrn').
  { cbn in E. destruct (_ || _); by simplify_eq/=. }
  destruct (w_running wr') eqn:Er; split; cbn; try done.
  - split; [congruence|by rewrite Hh'|by rewrite Hsd'|]. rewrite Er, <-Hrn. symmetry. by apply Hrn'.
  - intros _. by apply Hg'.
  - split; cbn; [congruence|by rewrite Hh'|by rewrite Hsd'|done].
  - apply (swarm_step_ok _ _ SWriterGone); [cbn; lia|done].
  - intros Hr. congruence.
Qed.

(** What the router shares with the writer is of the content. *)
Lemma shared_good x e e' :
  transfer_ok x → shared_event (x_swarm x) (x_writer x) e = Some e' →
  good_event metadata handler content e'.
Proof.
  intros Hx. destruct e as [| | | | | | |i pick answer]; cbn; try done.
  destruct (Swarm.w_tasks (x_swarm x) !! i) as [t|] eqn:Hi; cbn; [|done].
  destruct (t_point t) eqn:Ht; try done; intros [= <-]; [|done..].
  destruct (task_index (BitField.empty n) (x_swarm x) i t index (xo_swarm x Hx) Hi) as (k & -> & Hk);
    [by rewrite Ht|]. split; [by rewrite Nat2Z.id|].
  pose proof (Forall_lookup_1 _ _ _ _ (xo_pieces x Hx) Hi) as Hp. unfold piece_ok in Hp.
  apply Hp. by rewrite Ht.
Qed.

Lemma transfer_step_ok x e : transfer_ok x → honest x e →
  ∃ x', step x e = Some x' ∧ transfer_ok x'.
Proof.
  intros Hx Hho. destruct e as [e| | |i|]; cbn [transfer_step].
  2-4: edestruct (loop_ok x) as (wr' & -> & ?); [done|exact I|]; cbn; eauto.
  2: destruct (break_ok x Hx) as (wr' & -> & ?); cbn; eauto.
  assert (e ≠ SPause) as Hne by (by intros ->).
  assert (e = SWriterGone ∨ e ≠ SWriterGone) as [->|Hng] by (destruct e; auto); [by eauto|].
  replace (match e with SWriterGone => Some x | _ => _ end) with
    (wr ← match shared_event (x_swarm x) (x_writer x) e with
          | Some e' => writer_step schedule metadata handler dir (x_writer x) e'
          | None => Some (x_writer x)
          end; Some (mkTransfer (swarm_step (x_swarm x) e) wr)) by by destruct e.
  pose proof Hx as [Hc Hs Hm Hp Hw Hg].
  destruct (coupled_step schedule metadata handler dir _ _ _ e Hc Hs Hm Hne Hng) as (wr' & E & Hc').
  rewrite E. cbn. eexists. split; [reflexivity|].
  assert ((∃ ws, winv schedule metadata handler world0 (BitField.empty n) wr' ws) ∧
    (w_running wr' = true → ∃ ws, ginv schedule metadata handler content world0 wr' ws)) as [Hw' Hg'].
  { destruct (shared_event _ _ e) as [e'|] eqn:Ee; [|by simplify_eq].
    destruct (write_ok (x_writer x) e') as (wr2 & E2 & ?); [done..|by eapply shared_good|].
    rewrite E in E2. by injection E2 as <-. }
  split; cbn; try done.
  - apply swarm_step_ok; [cbn; lia|done].
  - by rewrite (proj1 (swarm_step_open (x_swarm x) e)).
  - apply pieces_ok_step; [done|]. intros i pick data index -> Ha. cbn in Hho. by rewrite Ha in Hho.
Qed.

Lemma transfer_new_ok : transfer_ok (transfer_new world0 (BitField.empty n)).
Proof.
  assert (0 < n) as Hpos.
  { rewrite pieces_cover. pose proof (piece_of_byte (length content) pl 0 pl_pos content_pos). lia. }
  split; cbn; try done.
  - apply swarm_new_ok, BitField.empty_wf.
  - constructor.
  - destruct (winv_run schedule metadata handler dir world0 (BitField.empty n) []) as (w & ws & [= <-] & ?);
      [apply BitField.empty_wf|done|eauto].
  - intros _. exists []. by apply ginv_new.
Qed.

Lemma transfer_run_ok es x : transfer_ok x → honest_run x es →
  ∃ x', transfer_run schedule metadata handler dir x es = Some x' ∧ transfer_ok x'.
Proof.
  revert x. induction es as [|e es IH]; intros x Hx; [by eauto|]. intros [He Hes].
  destruct (transfer_step_ok x e Hx He) as (x1 & E & Hx1). rewrite E in Hes.
  destruct (IH x1 Hx1 Hes) as (x' & E' & ?). exists x'. split; [|done].
  unfold transfer_run in *. cbn. by rewrite E.
Qed.
End honest.


Module TransferExamples.
Import DownloadExamples SwarmExamples.
#[local] Existing Instance Toy.ToyCrypto.
#[local] Existing Instance ChunksExamples.toy_os.
#[local] Existing Instance ChunksExamples.toy_full.

(** One task of the router, by itself, and the stretches for one piece. *)
Definition go (i k : nat) : list TransferEvent := replicate k (XRouter (SRun i 0 None)).
Definition deliver (i pick p k : nat) : list TransferEvent :=
  XRouter (SRun i pick (Some (piece p))) :: go i k.

(** Two seeders of all three pieces; the second delivers the last piece while the first has
    piece 0 in hand. *)
Definition schedule : list TransferEvent :=
  map XRouter [SActivate addr_a peer_a [224]%Z; SActivate addr_b peer_b [224]%Z;
    SUnchoke addr_a; SUnchoke addr_b] ++
  go 0 3 ++ go 1 3 ++ deliver 0 0 0 2 ++ deliver 1 2 2 8 ++ go 0 6 ++ XRecv ::
  deliver 0 0 1 6 ++ [XTask 0; XRecv] ++ go 0 6 ++ [XRecv; XTick] ++ replicate 8 (XTask 0).

Definition final : Transfer :=
  default (transfer_new world (BitField.empty 3))
    (transfer_run order torrent handler "/data" (transfer_new world (BitField.empty 3)) schedule).

End TransferExamples.
