(* ===== verification/Disk.v ===== *)
(** The program's directories: the data directory of [utils/bqti.rs] with its
    uploads and downloads, the links between them and the user's files, and the
    files a session keeps there ([session/cache.rs], [session/resume.rs],
    [session/state.rs]).

    The operations are run on the file system of [Fs]: path resolution, hard and
    symbolic links, permission bits. *)

From S2P Require Import Prelude Net Crypto BitField Metainfo Chunks Builder Session Download.
From S2P Require Import Fs.

Section disk.
Context `{Hex} (root : bool) (cwd : Location).
(** The variable [XDG_DATA_HOME] and the directory [ProjectDirs] finds. *)
Context (xdg_data_home project_data_dir : option Path).

(** * Directories *)

(** src/src/utils/bqti.rs:20-26 [bqti_data_dir] *)
Definition bqti_data_dir : option Path :=
  match xdg_data_home with
  | Some base => Some (join base ["bqti"])
  | None => project_data_dir
  end.

(** src/src/utils/bqti.rs:28-31 [uploads_dir] *)
Definition uploads_dir (fs : Fs) : option Path :=
  dir ← bqti_data_dir;
  let uploads_dir := join dir ["uploads"] in
  if exists_ root cwd fs uploads_dir then Some uploads_dir else None.

(** src/src/utils/bqti.rs:33-36 [downloads_dir] *)
Definition downloads_dir (fs : Fs) : option Path :=
  dir ← bqti_data_dir;
  let downloads_dir := join dir ["downloads"] in
  if exists_ root cwd fs downloads_dir then Some downloads_dir else None.

(** src/src/utils/bqti.rs:134-137 [certs_dir] *)
Definition certs_dir : option Path := (λ data, join data ["certs"]) <$> bqti_data_dir.

(** src/src/utils/bqti.rs:139-142 [swarm_dir] *)
Definition swarm_dir : option Path := (λ data, join data ["swarm"]) <$> bqti_data_dir.

(** src/src/utils/bqti.rs:144-152 [inner_files] *)
Definition inner_files (fs : Fs) (dir : Path) : option (list Path) :=
  match read_dir root cwd dir fs with
  | (_, Ok names) => Some (map (λ n, join dir [n]) names)
  | (_, Err _) => None
  end.

(** src/src/utils/bqti.rs:154-158 [ensure_dir] *)
Definition ensure_dir (path : Path) : Io unit := create_dir_all root cwd 511 path.

(** src/src/utils/bqti.rs:201-207 [ensure_parent_dirs] *)
Definition ensure_parent_dirs (path : Path) : Io unit :=
  match parent path with Some p => create_dir_all root cwd 511 p | None => mret tt end.

(** * Uploads: hard links to the user's files *)

Definition upload_target (user_base internal_base rel_path : Path) : Io Path :=
  if bool_decide (rel_path = [] ∨ rel_path = ["."]) then
    match path_file_name user_base with
    | Some n => mret (join internal_base [n])
    | None => fail ENOENT
    end
  else mret (join internal_base rel_path).

(** src/src/utils/bqti.rs:84-114 [ensure_upload_dir, one file]

    An early return of [None] is an error here. *)
Definition upload_file (user_base internal_base : Path) (file : EmbededFile) : Io unit :=
  let rel_path := components (to_path file) in
  present ← gets (λ fs, exists_ root cwd fs user_base);
  if negb present then fail ENOENT
  else
    _ ← match parent (join internal_base rel_path) with
        | Some p => create_dir_all root cwd 448 p
        | None => mret tt
        end;
    target ← upload_target user_base internal_base rel_path;
    present ← gets (λ fs, exists_ root cwd fs target);
    if present : bool then mret tt
    else hard_link root cwd (join user_base rel_path) target.

Fixpoint upload_files (user_base internal_base : Path) (files : list EmbededFile) : Io unit :=
  match files with
  | [] => mret tt
  | file :: files =>
    _ ← upload_file user_base internal_base file; upload_files user_base internal_base files
  end.

Definition upload_base (dir : Path) (metadata : TorrentFile) : Path :=
  join (join dir ["uploads"]) [InfoHash.to_string (TorrentFile.info_hash metadata)].

(** src/src/utils/bqti.rs:77-117 [ensure_upload_dir] *)
Definition ensure_upload_dir (user_base : Path) (metadata : TorrentFile) (fs : Fs)
    : Fs * option Path :=
  match bqti_data_dir with
  | None => (fs, None)
  | Some bqti_dir =>
    let internal_base := upload_base bqti_dir metadata in
    match upload_files user_base internal_base (TorrentFile.files metadata) fs with
    | (fs, Ok _) => (fs, Some internal_base)
    | (fs, Err _) => (fs, None)
    end
  end.

(** * Downloads *)

(** src/src/utils/bqti.rs:119-132 [ensure_download_dir] *)
Definition ensure_download_dir (entry : Path) (fs : Fs) : Fs * option Path :=
  match bqti_data_dir with
  | None => (fs, None)
  | Some base =>
    let path := join (join base ["downloads"]) entry in
    if exists_ root cwd fs path then (fs, Some path)
    else
      match create_dir_all root cwd 448 path fs with
      | (fs, Ok _) => (fs, Some path)
      | (fs, Err _) => (fs, None)
      end
  end.

Fixpoint protect_files (dir : Path) (names : list string) : Io unit :=
  match names with
  | [] => mret tt
  | name :: names =>
    let path := join dir [name] in
    file ← gets (λ fs, is_file root cwd fs path);
    _ ← (if file : bool then chmod root cwd 256 path else mret tt);
    protect_files dir names
  end.

(** src/src/utils/bqti.rs:46-61 [link, the permissions] *)
Definition protect_dir (internal_dir : Path) : Io unit :=
  names ← read_dir root cwd internal_dir;
  _ ← protect_files internal_dir names;
  chmod root cwd 448 internal_dir.

(** src/src/utils/bqti.rs:38-75 [link] *)
Definition link (user_downloads_dir : Path) (info_hash_hex : string) : Io Path :=
  match bqti_data_dir with
  | None => fail ENOENT
  | Some p =>
    let internal_dir := join (join p ["downloads"]) [info_hash_hex] in
    _ ← protect_dir internal_dir;
    let dest_symlink := join user_downloads_dir ["download"] in
    present ← gets (λ fs, exists_ root cwd fs dest_symlink || is_symlink root cwd fs dest_symlink);
    _ ← (if present : bool then
           or_else (remove_file root cwd dest_symlink) (remove_dir_all root cwd dest_symlink)
         else mret tt);
    _ ← symlink root cwd internal_dir dest_symlink;
    mret dest_symlink
  end.

(** * The files of a session *)

(** The answer of [preallocate] for an open file. *)
Context (allocate : nat → Z → Result FsError unit).

Definition extend (length : nat) (data : list Z) : list Z :=
  data ++ replicate (length - List.length data) 0%Z.

(** src/src/bit_torrent/chunks/file_handler.rs:98-121 [MultiFileHandler::download, one file]

    The open file, with its new length. *)
Definition open_target (base_path : Path) (embedded : EmbededFile) : Io nat :=
  full_path ← gets (λ fs, if is_file root cwd fs base_path then base_path
                          else join base_path (components (to_path embedded)));
  _ ← ensure_parent_dirs full_path;
  i ← open_rw root cwd full_path;
  let length := u64 (ef_length embedded) in
  _ ← liftR (λ _, allocate i length);
  _ ← modify (λ fs, set_inode i (mkInode (mode_of fs i)
                (extend (Z.to_nat length) (default [] (i_data <$> inodes fs !! i)))) fs);
  mret i.

Fixpoint open_targets (base_path : Path) (files : list EmbededFile) : Io (list nat) :=
  match files with
  | [] => mret []
  | f :: files =>
    i ← open_target base_path f; ids ← open_targets base_path files; mret (i :: ids)
  end.

(** [bencode::encode] of a torrent and of a resume file. *)
Context (encode_torrent : TorrentFile → Result FsError (list Z))
  (encode_resume : ResumeFile → Result FsError (list Z)).

(** src/src/bit_torrent/mod.rs:31-38 [save] *)
Definition save (path : Path) (torrent : TorrentFile) : Io unit :=
  bytes ← liftR (λ _, encode_torrent torrent); write root cwd path bytes.

(** src/src/bit_torrent/session/cache.rs:104-115 [SessionCache::persist_torrent]

    A failure is only logged. *)
Definition persist_torrent (dir : Path) (torrent : TorrentFile) (fs : Fs) : Fs :=
  let path := join dir [".torrent"] in
  if exists_ root cwd fs path then fs else (save path torrent fs).1.

(** src/src/bit_torrent/session/resume.rs:34-36 [ResumeFile::resume_path] *)
Definition resume_path (resource : Path) : Path := join resource [".bqtiresume"].

(** src/src/bit_torrent/session/resume.rs:51-60 [ResumeFile::persist] *)
Definition persist (data : ResumeFile) (resource : Path) : Io unit :=
  let path := resume_path resource in
  let tmp := join resource [".bqtiresume.bqti.tmp"] in
  bytes ← liftR (λ _, encode_resume data);
  _ ← write root cwd tmp bytes;
  rename root cwd tmp path.

(** src/src/bit_torrent/session/cache.rs:117-123 [SessionCache::persist_resume] *)
Definition persist_resume (dir : Path) (text : string) (torrent : TorrentFile)
    (bitfield : BitField) (fs : Fs) : Fs :=
  (persist (ResumeFile.resume_new (TorrentFile.info_hash torrent) bitfield text) dir fs).1.

(** src/src/bit_torrent/session/state.rs:44-70 [StateResources::download]

    The open files and the directory of the cache. *)
Definition download_resources (metafile : TorrentFile) (fs : Fs)
    : Fs * Result TorrentSessionError (Path * list nat) :=
  match ensure_download_dir [InfoHash.to_string (TorrentFile.info_hash metafile)] fs with
  | (fs, None) => (fs, Err UnableToFindXDGFolder)
  | (fs, Some dir) =>
    match open_targets dir (TorrentFile.files metafile) fs with
    | (fs, Err _) => (fs, Err ChunkReaderError)
    | (fs, Ok ids) => (persist_torrent dir metafile fs, Ok (dir, ids))
    end
  end.

(** src/src/bit_torrent/session/state.rs:218-232 [TorrentState::purge, the removal]

    [path] is the directory of an active session. *)
Definition purge_dir (path : option Path) : Io unit :=
  match path with Some path => remove_dir_all root cwd path | None => mret tt end.

(** * Uploads add hard links and nothing else *)

Definition rel (f : EmbededFile) : Path := components (to_path f).

Lemma upload_target_state user_base base r fs : (upload_target user_base base r fs).1 = fs.
Proof. unfold upload_target. case_bool_decide; [|done]. by destruct (path_file_name _). Qed.

Lemma upload_file_grows user_base base f fs : grows fs (upload_file user_base base f fs).1.
Proof.
  unfold upload_file, mbind, Io_bind, gets. destruct (exists_ _ _ fs user_base); [|done]. simpl.
  set (mk := match parent _ with Some p => _ | None => _ end).
  assert (Hmk : grows fs (mk fs).1).
  { unfold mk. destruct (parent _); [apply create_dir_all_grows|done]. }
  destruct (mk fs) as [fs1 [?|?]]; [|done]. simpl in Hmk.
  pose proof (upload_target_state user_base base (components (to_path f)) fs1) as Ht.
  destruct (upload_target _ _ _ fs1) as [fs2 [target|?]]; simpl in Ht; subst; [|done].
  destruct (exists_ _ _ fs1 target); [done|]. etrans; [done|]. apply hard_link_grows.
Qed.

Lemma upload_files_grows user_base base files fs : grows fs (upload_files user_base base files fs).1.
Proof.
  revert fs. induction files as [|f files IH]; intros fs; [done|].
  cbn [upload_files]. unfold mbind, Io_bind.
  pose proof (upload_file_grows user_base base f fs) as Hg.
  destruct (upload_file user_base base f fs) as [fs1 [?|?]]; [|done]. by etrans.
Qed.

Lemma join_rel b r : Forall name_ok r → join ("/" :: b) r = "/" :: b ++ r.
Proof.
  intros Hr. destruct r as [|c r]; [done|]. apply Forall_cons in Hr as [(? & ? & ?) _].
  unfold join. repeat case_match; simplify_eq; done.
Qed.

(** One file: the directories on the way to it, and its entry, which is the node
    of the user's file. *)
Lemma upload_file_spec user_base b f fs fs' :
  Forall name_ok (rel f) → rel f ≠ [] → straight fs (b ++ rel f) →
  upload_file user_base ("/" :: b) f fs = (fs', Ok tt) →
  (∀ q, ¬ q `prefix_of` b ++ rel f → node fs q = None → node fs' q = None) ∧
  (∀ q t, q ≠ b ++ rel f → node fs q = None → node fs' q ≠ Some (NLink t)) ∧
  (node fs (b ++ rel f) = None →
   ∃ s n, lstat root cwd fs' (join user_base (rel f)) = Ok (s, n) ∧
          node fs' (b ++ rel f) = Some n).
Proof.
  intros Hnm Hne Hs. unfold upload_file, mbind, Io_bind, gets.
  change (components (to_path f)) with (rel f).
  destruct (exists_ _ _ fs user_base); [|done]. cbn [negb].
  assert (Hr : b ++ rel f ≠ []) by by destruct b, (rel f).
  rewrite (join_rel b _ Hnm), (parent_abs _ Hr).
  pose proof (create_dir_all_straight root cwd 448 _ _ (straight_parent _ _ Hs)) as Ha.
  destruct (create_dir_all _ _ 448 _ fs) as [fs1 [?|?]]; [|done]. cbn [fst] in Ha.
  unfold upload_target. rewrite bool_decide_false; last first.
  { intros [?|E]; [done|]. rewrite E in Hnm. apply Forall_cons in Hnm as [(_ & ? & _) _]. done. }
  unfold mret, Io_ret. rewrite (join_rel b _ Hnm).
  assert (Hs1 : straight fs1 (b ++ rel f)) by by eapply adds_dirs_straight.
  assert (Hlast : ¬ b ++ rel f `prefix_of` removelast (b ++ rel f)).
  { destruct (b ++ rel f) as [|x l] using rev_ind; [done|]. rewrite removelast_app_one.
    intros Hp%prefix_length. rewrite length_app in Hp. simpl in Hp. lia. }
  assert (Hout : ∀ q, ¬ q `prefix_of` b ++ rel f → node fs q = None → node fs1 q = None).
  { intros q Hq Hn. destruct Ha as [_ Ha]. destruct (Ha q Hn) as [?|[? _]]; [done|].
    destruct Hq. etrans; [done|apply removelast_prefix]. }
  assert (Hlnk : ∀ q t, node fs q = None → node fs1 q ≠ Some (NLink t)).
  { intros q t Hn. destruct Ha as [_ Ha]. destruct (Ha q Hn) as [->|(_ & ? & ->)]; done. }
  destruct (exists_ root cwd fs1 ("/" :: b ++ rel f)) eqn:Ee.
  - intros [= <-]. split_and!; [done|by auto|]. intros Hn.
    exfalso. assert (node fs1 (b ++ rel f) = None).
    { destruct Ha as [_ Ha]. destruct (Ha _ Hn) as [?|[? _]]; [done|by destruct Hlast]. }
    by rewrite exists_straight in Ee.
  - unfold hard_link, mbind, Io_bind, liftR.
    destruct (lstat root cwd fs1 _) as [[s n]|] eqn:El; [|done].
    destruct (new_entry root cwd _ fs1) as [fs2 [r|]] eqn:En; [|done].
    apply new_entry_straight in En as (-> & -> & Hn1); [|done]. cbn [snd].
    assert (Hset : node (set_node (b ++ rel f) n fs1) (b ++ rel f) = Some n).
    { destruct (b ++ rel f); [done|]. cbn. by rewrite lookup_insert_eq. }
    assert (Hoth : ∀ q, q ≠ b ++ rel f → node (set_node (b ++ rel f) n fs1) q = node fs1 q).
    { intros q Hq. destruct q; [done|]. cbn. by rewrite lookup_insert_ne. }
    intros Hm. assert (fs' = set_node (b ++ rel f) n fs1) as ->.
    { destruct n; [done|..]; unfold modify in Hm; congruence. }
    split_and!.
    + intros q Hq ?. rewrite Hoth; [by apply Hout|]. intros ->. by apply Hq.
    + intros q t Hq ?. rewrite Hoth by done. by apply Hlnk.
    + intros _. exists s, n. split; [|done]. eapply lstat_grows; [|done]. by apply set_node_grows.
Qed.

(** The files of a torrent: plain relative paths, none of which leads through
    another. *)
Definition apart (f g : EmbededFile) : Prop :=
  ¬ rel f `prefix_of` rel g ∧ ¬ rel g `prefix_of` rel f.
Definition files_ok (files : list EmbededFile) : Prop :=
  Forall (λ f, Forall name_ok (rel f) ∧ rel f ≠ []) files ∧ ForallOrdPairs apart files.

(** The entry of a torrent's file is the node of the user's file. *)
Definition linked (user_base : Path) (b : Location) (fs' : Fs) (f : EmbededFile) : Prop :=
  ∃ s n, lstat root cwd fs' (join user_base (rel f)) = Ok (s, n) ∧ node fs' (b ++ rel f) = Some n.

Lemma linked_grows user_base b fs fs' f :
  grows fs fs' → linked user_base b fs f → linked user_base b fs' f.
Proof.
  intros Hg (s & n & Hl & Hn). exists s, n. split; [by eapply lstat_grows|by eapply grows_node].
Qed.

Lemma upload_files_spec user_base b files fs fs' :
  files_ok files → Forall (λ f, straight fs (b ++ rel f)) files →
  upload_files user_base ("/" :: b) files fs = (fs', Ok tt) →
  Forall (λ f, node fs (b ++ rel f) = None → linked user_base b fs' f) files.
Proof.
  intros [Hok Hap]. revert fs. induction Hap as [|f files Hf Hap IH]; intros fs Hs Hu;
    [by constructor|].
  apply Forall_cons in Hok as [[Hnm Hne] Hok]. apply Forall_cons in Hs as [Hsf Hs].
  cbn [upload_files] in Hu. unfold mbind, Io_bind in Hu.
  pose proof (upload_file_grows user_base ("/" :: b) f fs) as Hg.
  destruct (upload_file user_base ("/" :: b) f fs) as [fs1 [[]|]] eqn:E; [|done].
  apply upload_file_spec in E as (Hout & Hlnk & Hl); [|done..]. cbn [fst] in Hg.
  pose proof (upload_files_grows user_base ("/" :: b) files fs1) as Hg1. rewrite Hu in Hg1.
  assert (Hs1 : Forall (λ g, straight fs1 (b ++ rel g)) files).
  { apply Forall_forall. intros g Hg'. rewrite Forall_forall in Hs, Hf.
    destruct (Hs g Hg') as [Hn Hl']. split; [done|]. intros q t Hq.
    destruct (node fs q) as [n|] eqn:En.
    - rewrite (grows_node _ _ _ _ Hg En). intros [= ->]. by eapply Hl'.
    - apply Hlnk; [|done]. intros ->. apply prefix_app_inv in Hq.
      by destruct (Hf g Hg') as [Hf' _]. }
  constructor.
  - intros Hn. eapply linked_grows; [exact Hg1|]. by apply Hl.
  - specialize (IH Hok fs1 Hs1 Hu). rewrite Forall_forall in IH, Hf |- *.
    intros g Hg' Hn. apply IH; [done|]. apply Hout; [|done].
    intros Hp%prefix_app_inv. by destruct (Hf g Hg') as [_ Hf'].
Qed.

Lemma join_name b (c : string) : name_ok c → join ("/" :: b) [c] = "/" :: b ++ [c].
Proof. intros Hc. apply join_rel. by constructor. Qed.

(** Where the upload directory of a torrent lies. *)
Definition upload_location (d : Location) (t : TorrentFile) : Location :=
  (d ++ ["uploads"]) ++ [InfoHash.to_string (TorrentFile.info_hash t)].

Lemma upload_base_eq d t : Forall name_ok (upload_location d t) →
  upload_base ("/" :: d) t = "/" :: upload_location d t.
Proof.
  unfold upload_location, upload_base. intros [[_ Hu]%Forall_app Hh]%Forall_app.
  apply Forall_cons in Hh as [Hh _]. by rewrite !join_name.
Qed.

(** ** A single file *)

(** The torrent the daemon builds for one file has an empty path for it: the
    path of the file relative to itself. *)
Lemma single_file_rel p entry_length md5 :
  strip_prefix p p = Some "" ∧ rel (mkFile entry_length (components "") md5) = [].
Proof.
  split; [|done]. unfold strip_prefix. rewrite bool_decide_true by apply firstn_all.
  by rewrite drop_all.
Qed.

Lemma upload_single_fails user_base b f n fs fs' res :
  rel f = [] → path_file_name user_base = Some n → b ≠ [] →
  straight fs (b ++ [n]) → node fs b = None →
  upload_file user_base ("/" :: b) f fs = (fs', res) → ∃ e, res = Err e.
Proof.
  intros Hrel Hfn Hb Hs Hn. unfold upload_file, mbind, Io_bind, gets.
  change (components (to_path f)) with (rel f). rewrite Hrel.
  destruct (exists_ _ _ fs user_base); [|intros [= _ <-]; by eexists]. cbn [negb].
  assert (Hsb : straight fs b) by by eapply straight_prefix; [|eexists].
  change (join ("/" :: b) []) with ("/" :: (b ++ [])). rewrite app_nil_r, (parent_abs _ Hb).
  pose proof (create_dir_all_straight root cwd 448 _ _ (straight_parent _ _ Hsb)) as Ha.
  destruct (create_dir_all _ _ 448 _ fs) as [fs1 [?|?]]; [|intros [= _ <-]; by eexists].
  cbn [fst] in Ha. unfold upload_target. rewrite bool_decide_true by by left. rewrite Hfn.
  assert (Hs1 : straight fs1 (b ++ [n])) by by eapply adds_dirs_straight.
  rewrite join_name by by destruct Hs as [[_ [? _]%Forall_cons]%Forall_app _].
  assert (Hn1 : node fs1 b = None).
  { destruct Ha as [_ Ha]. destruct (Ha b Hn) as [?|[Hp _]]; [done|]. exfalso.
    destruct b as [|x b] using rev_ind; [done|]. rewrite removelast_app_one in Hp.
    apply prefix_length in Hp. rewrite length_app in Hp. simpl in Hp. lia. }
  assert (Hw : ∀ follow r, resolve root cwd fs1 follow ("/" :: b ++ [n]) ≠ Ok r).
  { intros follow r. rewrite resolve_root. intros Hw. destruct Hs1 as [Hs1 Hl].
    apply walk_parent in Hw as [m Hm]; [|done..]. simpl in Hm. congruence. }
  unfold mret, Io_ret. replace (exists_ root cwd fs1 ("/" :: b ++ [n])) with false; last first.
  { unfold exists_, stat. destruct (resolve _ _ _ _ _) as [x|] eqn:E; [by destruct (Hw true x)|done]. }
  unfold hard_link, mbind, Io_bind, liftR.
  destruct (lstat _ _ fs1 _) as [[? ?]|]; [|intros [= _ <-]; by eexists].
  destruct (new_entry root cwd _ fs1) as [fs2 [r|]] eqn:E; [|intros [= _ <-]; by eexists].
  apply new_entry_ok in E as (_ & E & _). by destruct (Hw false r).
Qed.

(** * Linking a download *)

Definition data_of (fs : Fs) (i : nat) : option (list Z) := i_data <$> inodes fs !! i.

(** Only modes of files change. *)
Definition same_content (fs fs' : Fs) : Prop :=
  (∀ r, node fs' r = node fs r) ∧ (∀ i, data_of fs' i = data_of fs i).

Lemma chmod_file_spec m p fs fs' r i :
  stat root cwd fs p = Ok (r, NFile i) → chmod root cwd m p fs = (fs', Ok tt) →
  same_content fs fs' ∧ mode_of fs' i = m ∧ ∀ j, j ≠ i → mode_of fs' j = mode_of fs j.
Proof.
  intros Es. unfold chmod, mbind, Io_bind, liftR, gets. rewrite Es. cbn [fst snd].
  destruct (inodes fs !! i) as [x|] eqn:Ei; [|done]. intros [= <-].
  unfold mode_of, data_of, same_content, data_of. cbn. split_and!.
  - by intros [].
  - intros j. destruct (decide (j = i)) as [->|]; [by rewrite lookup_insert_eq, Ei|].
    by rewrite lookup_insert_ne.
  - by rewrite lookup_insert_eq.
  - intros j Hj. by rewrite lookup_insert_ne.
Qed.

Lemma protect_files_spec dir names fs fs' :
  protect_files dir names fs = (fs', Ok tt) →
  same_content fs fs' ∧ (∀ i, mode_of fs i = 256%Z → mode_of fs' i = 256%Z) ∧
  (∀ name r i, name ∈ names → stat root cwd fs (join dir [name]) = Ok (r, NFile i) →
               mode_of fs' i = 256%Z).
Proof.
  revert fs. induction names as [|name names IH]; intros fs Hp.
  { injection Hp as <-. split_and!; [by split|done|]. intros ??? []%elem_of_nil. }
  cbn [protect_files] in Hp. unfold mbind, Io_bind, gets in Hp.
  assert (Hstep : ∃ fs1, protect_files dir names fs1 = (fs', Ok tt) ∧ same_content fs fs1 ∧
    (∀ i, mode_of fs i = 256%Z → mode_of fs1 i = 256%Z) ∧
    (∀ r i, stat root cwd fs (join dir [name]) = Ok (r, NFile i) → mode_of fs1 i = 256%Z)).
  { unfold is_file in Hp. destruct (stat root cwd fs (join dir [name])) as [[r [?|i|?]]|] eqn:Es.
    2: { destruct (chmod root cwd 256 (join dir [name]) fs) as [fs1 [[]|]] eqn:Ec; [|done].
         destruct (chmod_file_spec _ _ _ _ _ _ Es Ec) as (Hc & Hm & Ho).
         exists fs1. split_and!; [done|done| |].
         - intros j Hj. destruct (decide (j = i)) as [->|]; [done|]. by rewrite Ho.
         - by intros ?? [= <- <-]. }
    all: exists fs; split_and!; try done. }
  destruct Hstep as (fs1 & Hp1 & [Hn Hd] & Hkeep & Hset). apply IH in Hp1 as ([Hn1 Hd1] & Hk1 & Hs1).
  split_and!.
  - split; intros; [by rewrite Hn1|by rewrite Hd1].
  - intros i Hi. by apply Hk1, Hkeep.
  - intros x r i [->|Hx]%elem_of_cons Est; [by eapply Hk1, Hset|].
    eapply Hs1; [done|]. by rewrite (stat_ext _ _ fs1 fs).
Qed.

Lemma children_elem fs I name n : tree fs !! (I ++ [name]) = Some n → name ∈ children fs I.
Proof.
  intros Hn. unfold children. apply list_elem_of_omap. exists (I ++ [name]). split.
  - apply list_elem_of_fmap. exists (I ++ [name], n). split; [done|].
    by apply elem_of_map_to_list.
  - rewrite removelast_app_one, bool_decide_true by done. by rewrite last_snoc.
Qed.

(** Where the cache of a download lies. *)
Definition download_location (d : Location) (info_hash_hex : string) : Location :=
  (d ++ ["downloads"]) ++ [info_hash_hex].

Lemma download_base_eq d h : Forall name_ok (download_location d h) →
  join (join ("/" :: d) ["downloads"]) [h] = "/" :: download_location d h.
Proof.
  unfold download_location. intros [_ Hh]%Forall_app.
  apply Forall_cons in Hh as [Hh _]. by rewrite !join_name.
Qed.

Lemma download_name : name_ok "download".
Proof. done. Qed.

Lemma chmod_dir_spec m r n fs fs' :
  straight fs r → node fs r = Some (NDir n) → chmod root cwd m ("/" :: r) fs = (fs', Ok tt) →
  fs' = set_node r (NDir m) fs ∧ r ≠ [].
Proof.
  intros Hs Hn. unfold chmod, mbind, Io_bind, liftR.
  destruct (stat root cwd fs ("/" :: r)) as [[q k]|] eqn:E; [|done].
  apply stat_straight in E as [-> E]; [|done]. simplify_eq. cbn [fst snd].
  destruct r; [done|]. by intros [= <-].
Qed.

(** The part of [link] in the user's directory. *)
Lemma relink_spec u I fs fs' fs1 present :
  straight fs u →
  (if present : bool
   then or_else (remove_file root cwd ("/" :: u ++ ["download"]))
          (remove_dir_all root cwd ("/" :: u ++ ["download"])) fs
   else (fs, Ok tt)) = (fs1, Ok tt) →
  symlink root cwd I ("/" :: u ++ ["download"]) fs1 = (fs', Ok tt) →
  node fs' (u ++ ["download"]) = Some (NLink I) ∧ inodes fs' = inodes fs ∧
  ∀ q, ¬ u ++ ["download"] `prefix_of` q → node fs' q = node fs q.
Proof.
  intros Hs Hrm Hsym.
  assert (Hc : cuts (u ++ ["download"]) fs fs1).
  { destruct present; [|by injection Hrm as <-]. unfold or_else in Hrm.
    destruct (remove_last root cwd u "download" fs Hs download_name) as [Hc _].
    destruct (remove_file _ _ _ fs) as [fs2 [?|?]]; simplify_eq/=; [done|].
    pose proof (cuts_straight _ _ _ _ Hs Hc) as Hs2.
    destruct (remove_last root cwd u "download" fs2 Hs2 download_name) as [_ Hc2].
    rewrite Hrm in Hc2. by etrans. }
  pose proof (cuts_straight _ _ _ _ Hs Hc) as Hs1. destruct Hc as [Hi Hc].
  unfold symlink, mbind, Io_bind in Hsym.
  destruct (new_entry _ _ _ fs1) as [fs2 [q|]] eqn:E; [|done].
  apply new_entry_last in E as (-> & -> & _); [|done..]. injection Hsym as <-.
  assert (Hne : u ++ ["download"] ≠ []) by by destruct u.
  split_and!; [|done|].
  - destruct (u ++ ["download"]); [done|]. cbn. by rewrite lookup_insert_eq.
  - intros q Hq. rewrite <-(Hc q Hq). destruct q; [done|]. cbn. rewrite lookup_insert_ne; [done|].
    intros Heq. apply Hq. by rewrite Heq.
Qed.

Lemma stat_entry I name i m fs :
  straight fs I → is_ok (stat root cwd fs ("/" :: I)) = true → node fs I = Some (NDir m) →
  can_search root m = true → name_ok name → node fs (I ++ [name]) = Some (NFile i) →
  stat root cwd fs ("/" :: I ++ [name]) = Ok (I ++ [name], NFile i).
Proof.
  intros [HI HIl] Est Hm Hse Hname Hf. unfold stat in *. rewrite resolve_root in *.
  destruct (walk root 40 fs true [] I) as [q|] eqn:Ew; [|done].
  pose proof Ew as Ew'. apply walk_straight in Ew' as ->; [|done..].
  rewrite (walk_snoc root 40 fs true [] I I name m); try done.
  - simpl. by rewrite Hf.
  - by apply name_ok_snoc.
  - right. cbn [app]. by rewrite Hf.
Qed.

(** The part of [link] in the directory of the download. *)
Lemma protect_dir_spec I fs fs' :
  straight fs I → protect_dir ("/" :: I) fs = (fs', Ok tt) →
  (∀ q, q ≠ I → node fs' q = node fs q) ∧ node fs' I = Some (NDir 448) ∧
  (∀ i, data_of fs' i = data_of fs i) ∧
  (∀ m name i, node fs I = Some (NDir m) → can_search root m = true → name_ok name →
     node fs (I ++ [name]) = Some (NFile i) → mode_of fs' i = 256%Z).
Proof.
  intros HI. unfold protect_dir, read_dir, mbind, Io_bind, liftR, gets.
  destruct (stat root cwd fs ("/" :: I)) as [[q n]|] eqn:Est; [|done]. pose proof Est as Est'.
  apply stat_straight in Est as [-> Hn]; [|done]. cbn [fst snd].
  destruct n as [m| |]; [|done..]. destruct (can_read root m); [|done].
  destruct (protect_files _ _ fs) as [fsA [[]|]] eqn:Ep; [|done].
  apply protect_files_spec in Ep as ([HnA HdA] & _ & HmA).
  assert (HIA : straight fsA I) by (destruct HI; split; [done|intros; rewrite HnA; auto]).
  intros Ec. apply (chmod_dir_spec _ _ m) in Ec as [-> HIne]; [|done|by rewrite HnA].
  split_and!; [| |exact HdA|].
  - intros q Hq. rewrite <-HnA. destruct q; [done|]. cbn. by rewrite lookup_insert_ne.
  - destruct I; [done|]. cbn. by rewrite lookup_insert_eq.
  - intros m' name i Hm Hse Hname Hf. change (mode_of fsA i = 256%Z).
    assert (tree fs !! (I ++ [name]) = Some (NFile i)) as Htr.
    { destruct (I ++ [name]) eqn:Ein; [by destruct I|]. done. }
    eapply HmA; [by eapply children_elem|]. rewrite join_name by done.
    eapply stat_entry; [done|by rewrite Est'|done..].
Qed.

(** What a successful [link] leaves. *)
Record linked_to (u I : Location) (fs fs' : Fs) : Prop := {
  lk_link : node fs' (u ++ ["download"]) = Some (NLink ("/" :: I));
  lk_other q : ¬ u ++ ["download"] `prefix_of` q → q ≠ I → node fs' q = node fs q;
  lk_dir : ¬ u ++ ["download"] `prefix_of` I → node fs' I = Some (NDir 448);
  lk_data i : data_of fs' i = data_of fs i;
  lk_mode m name i : node fs I = Some (NDir m) → can_search root m = true → name_ok name →
    node fs (I ++ [name]) = Some (NFile i) → mode_of fs' i = 256%Z;
}.

Lemma link_spec u d h fs fs' p :
  bqti_data_dir = Some ("/" :: d) →
  straight fs (download_location d h) → straight fs u →
  link ("/" :: u) h fs = (fs', Ok p) →
  p = "/" :: u ++ ["download"] ∧ linked_to u (download_location d h) fs fs'.
Proof.
  intros Hd HI Hu. unfold link. rewrite Hd, download_base_eq by apply HI.
  set (I := download_location d h) in *. rewrite (join_name u "download" download_name).
  unfold mbind, Io_bind, gets.
  destruct (protect_dir ("/" :: I) fs) as [fsB [[]|]] eqn:Ep; [|done].
  apply protect_dir_spec in Ep as (HB & HBI & HBd & HBm); [|done].
  assert (HuB : straight fsB u).
  { destruct Hu as [Hu Hl]. split; [done|]. intros q t Hq.
    destruct (decide (q = I)) as [->|]; [by rewrite HBI|]. rewrite HB by done. by apply Hl. }
  set (present := exists_ _ _ fsB _ || _).
  match goal with |- context [(if present then ?a else ?b) fsB] =>
    destruct ((if present then a else b) fsB) as [fsC [[]|]] eqn:Erm; [|done] end.
  destruct (symlink _ _ _ _ fsC) as [fsD [[]|]] eqn:Esym; [|done]. intros [= <- <-].
  split; [done|].
  destruct (relink_spec u ("/" :: I) fsB fsD fsC present HuB) as (Hl & Hi & Ho);
    [by destruct present|done|].
  constructor.
  - done.
  - intros q Hq HqI. by rewrite Ho, HB.
  - intros Hq. by rewrite Ho.
  - intros i. unfold data_of. rewrite Hi. apply HBd.
  - intros m name i Hm Hse Hname Hf. unfold mode_of. rewrite Hi. by eapply HBm.
Qed.

(** ** Opening the files of a download again *)

(** The file [name] of a directory is there and read-only. *)
Record closed (I : Location) (name : string) (i : nat) (fs : Fs) : Prop := {
  cl_dir : ∃ m, stat root cwd fs ("/" :: I) = Ok (I, NDir m);
  cl_file : stat root cwd fs ("/" :: I ++ [name]) = Ok (I ++ [name], NFile i);
  cl_mode : mode_of fs i = 256%Z;
}.

Lemma closed_grows I name i fs fs' : grows fs fs' → closed I name i fs → closed I name i fs'.
Proof.
  intros Hg [[m Hd] Hf Hm]. split.
  - exists m. by eapply stat_grows.
  - by eapply stat_grows.
  - unfold mode_of. destruct Hg as [_ ->]. done.
Qed.

Lemma closed_modes I name i fs fs' :
  (∀ r, node fs' r = node fs r) → mode_of fs' i = mode_of fs i →
  closed I name i fs → closed I name i fs'.
Proof.
  intros Hn Hm [[m Hd] Hf Hi]. split.
  - exists m. by rewrite (stat_ext _ _ fs' fs).
  - by rewrite (stat_ext _ _ fs' fs).
  - congruence.
Qed.

Lemma mode_set_inode fs i j m x :
  mode_of (set_inode j (mkInode m x) fs) i = if decide (i = j) then m else mode_of fs i.
Proof.
  unfold mode_of. cbn. destruct (decide (i = j)) as [->|]; [by rewrite lookup_insert_eq|].
  by rewrite lookup_insert_ne.
Qed.

Lemma open_rw_closed I name i p fs fs' j :
  closed I name i fs → open_rw root cwd p fs = (fs', Ok j) → closed I name i fs'.
Proof.
  intros Hc. unfold open_rw, open_create, mbind, Io_bind, liftR, gets.
  destruct (resolve root cwd fs true p) as [r|]; [|done].
  destruct (node fs r) as [[?|k|?]|] eqn:En; try done.
  - destruct (_ && _); [|done]. by intros [= <- <-].
  - destruct (may_edit root fs r); [|done]. intros [= <- <-].
    set (k := fresh _). assert (Hk : k ≠ i).
    { intros Hk. assert (i ∉ dom (inodes fs)) as Hi by (rewrite <-Hk; apply is_fresh).
      apply Hi. apply elem_of_dom. pose proof (cl_mode _ _ _ _ Hc) as Hm. unfold mode_of in Hm.
      destruct (inodes fs !! i); [by eexists|done]. }
    eapply closed_grows; [apply set_node_grows|].
    { by destruct r. }
    eapply closed_modes; [..|exact Hc]; [by intros []|]. rewrite mode_set_inode.
    by rewrite decide_False.
Qed.

Lemma ensure_parent_dirs_grows p fs : grows fs (ensure_parent_dirs p fs).1.
Proof. unfold ensure_parent_dirs. destruct (parent p); [apply create_dir_all_grows|done]. Qed.

Lemma open_target_closed I name i f fs fs' j :
  root = false → name_ok name → closed I name i fs →
  open_target ("/" :: I) f fs = (fs', Ok j) → closed I name i fs' ∧ rel f ≠ [name].
Proof.
  intros Hr Hnm Hc. unfold open_target, mbind, Io_bind, gets, liftR.
  replace (is_file root cwd fs ("/" :: I)) with false; last first.
  { unfold is_file. destruct (cl_dir _ _ _ _ Hc) as [m ->]. done. }
  set (p := join ("/" :: I) _). pose proof (ensure_parent_dirs_grows p fs) as Hg.
  destruct (ensure_parent_dirs p fs) as [fs1 [[]|]]; [|done]. cbn [fst] in Hg.
  apply (closed_grows _ _ _ _ _ Hg) in Hc.
  destruct (open_rw root cwd p fs1) as [fs2 [k|]] eqn:Eo; [|done].
  destruct (allocate _ _); [|done]. intros [= <- <-]. split.
  - eapply closed_modes; [..|by eapply open_rw_closed]; [by intros []|].
    rewrite mode_set_inode. case_decide; [by subst|done].
  - intros Hrel. unfold rel in Hrel. subst p. rewrite Hrel, join_name in Eo by done.
    destruct Hc as [_ Hf Hm]. unfold stat in Hf.
    unfold open_rw, open_create, mbind, Io_bind, liftR, gets in Eo.
    destruct (resolve root cwd fs1 true _) as [r|]; [|done]. simpl in Hf.
    destruct (node fs1 r) as [n|]; [|done]. injection Hf as -> ->.
    rewrite Hm in Eo. unfold can_write in Eo. rewrite Hr in Eo. by rewrite andb_false_r in Eo.
Qed.

Lemma open_targets_closed I name i files fs fs' ids :
  root = false → name_ok name → closed I name i fs →
  open_targets ("/" :: I) files fs = (fs', Ok ids) → Forall (λ f, rel f ≠ [name]) files.
Proof.
  intros Hr Hnm. revert fs ids. induction files as [|f files IH]; intros fs ids Hc Ho; [done|].
  cbn [open_targets] in Ho. unfold mbind, Io_bind in Ho.
  destruct (open_target ("/" :: I) f fs) as [fs1 [j|]] eqn:E; [|done].
  apply (open_target_closed I name i) in E as [Hc1 Hne]; [|done..].
  destruct (open_targets _ files fs1) as [fs2 [ids'|]] eqn:E2; [|done].
  injection Ho as -> _. constructor; [done|]. by apply (IH fs1 ids').
Qed.

(** A linked download, once more: what was found in its directory is found
    there, read-only. *)
Lemma link_closed u d h fs fs1 p name i m :
  let I := download_location d h in
  bqti_data_dir = Some ("/" :: d) →
  straight fs (I ++ [name]) → straight fs u → ¬ u ++ ["download"] `prefix_of` I ++ [name] →
  stat root cwd fs ("/" :: I) = Ok (I, NDir m) → can_search root m = true →
  stat root cwd fs ("/" :: I ++ [name]) = Ok (I ++ [name], NFile i) →
  link ("/" :: u) h fs = (fs1, Ok p) → closed I name i fs1.
Proof.
  intros I Hd Hs Hu Hout Hdir Hse Hfile Hl.
  assert (HsI : straight fs I)
    by (apply (straight_prefix fs (I ++ [name])); [done|by exists [name]]).
  assert (Hnm : name_ok name) by by destruct Hs as [[_ [? _]%Forall_cons]%Forall_app _].
  apply (link_spec u d h) in Hl as [-> Hl]; [|done..].
  assert (HI : download_location d h = I) by done. rewrite HI in Hl. clearbody I.
  assert (HoutI : ¬ u ++ ["download"] `prefix_of` I).
  { intros ?. apply Hout. etrans; [done|by eexists]. }
  pose proof (proj2 (stat_straight _ _ _ _ _ _ HsI Hdir)) as HnI.
  pose proof (proj2 (stat_straight _ _ _ _ _ _ Hs Hfile)) as HnF.
  assert (Hway : same_way root fs fs1 (I ++ [name])).
  { intros q Hq. destruct (decide (q = I)) as [->|].
    - right. exists m, 448%Z. split_and!; [done|by apply (lk_dir _ _ _ _ Hl)|].
      unfold can_search. by rewrite orb_true_r.
    - left. apply (lk_other _ _ _ _ Hl); [|done]. intros ?. apply Hout. by etrans. }
  assert (HnF1 : node fs1 (I ++ [name]) = Some (NFile i)).
  { rewrite (lk_other _ _ _ _ Hl); [done..|apply snoc_ne]. }
  split.
  - destruct (stat_same_way root cwd fs fs1 I (NDir m)) as (n' & E & Hn'); [done| |done| |].
    + intros q Hq. apply Hway. etrans; [done|by eexists].
    + rewrite (lk_dir _ _ _ _ Hl) by done. by eexists.
    + exists 448%Z. rewrite (lk_dir _ _ _ _ Hl) in Hn' by done. by simplify_eq.
  - destruct (stat_same_way root cwd fs fs1 (I ++ [name]) (NFile i)) as (n' & E & Hn');
      [done..|by eexists|]. by simplify_eq.
  - by eapply (lk_mode _ _ _ _ Hl).
Qed.

(** ** Claims *)


(** Seeding one file fails: its path relative to itself is empty, so the
    directory made for its entry is the parent of the upload directory, and the
    hard link into a directory that does not exist is refused. *)
Theorem single_file_seed_fails (user_base : Path) (t : TorrentFile) (f : EmbededFile) (fs : Fs)
    (d : Location) (n : string) :
  bqti_data_dir = Some ("/" :: d) →
  TorrentFile.files t = [f] → ef_path f = [] → path_file_name user_base = Some n →
  straight fs (upload_location d t ++ [n]) → node fs (upload_location d t) = None →
  (ensure_upload_dir user_base t fs).2 = None.
Proof.
  intros Hd Hf Hp Hn Hs Hno. unfold ensure_upload_dir. rewrite Hd, Hf.
  rewrite upload_base_eq by by destruct Hs as [[? _]%Forall_app _].
  cbn [upload_files]. unfold mbind, Io_bind.
  destruct (upload_file _ _ f fs) as [fs1 res] eqn:E.
  apply upload_single_fails with (n := n) in E as [e ->]; [done| |done| |done..].
  - unfold rel, to_path. by rewrite Hp.
  - unfold upload_location. by destruct (d ++ ["uploads"]).
Qed.

(** C8: Removing a seed removes what was added for it only: every file the user
    had, wherever it is outside the upload directory of the torrent, keeps its
    name and its content, also when the removal stops half-way. *)
Theorem removal_keeps_user_files (user_base : Path) (t : TorrentFile) (fs fs1 fs2 : Fs)
    (dir : Path) (d : Location) (res : Result FsError unit) (q : Location) (n : Node) :
  ensure_upload_dir user_base t fs = (fs1, Some dir) →
  purge_dir (Some dir) fs1 = (fs2, res) →
  bqti_data_dir = Some ("/" :: d) →
  straight fs1 (upload_location d t) →
  node fs q = Some n → ¬ upload_location d t `prefix_of` q →
  node fs2 q = Some n ∧ inodes fs2 = inodes fs.
Proof.
  intros He Hp Hd Hs Hn Hq. unfold ensure_upload_dir in He. rewrite Hd in He.
  pose proof (upload_files_grows user_base (upload_base ("/" :: d) t) (TorrentFile.files t) fs) as Hg.
  destruct (upload_files _ _ _ fs) as [fs' [?|]]; simplify_eq/=.
  rewrite (upload_base_eq d t) in Hp by apply Hs.
  assert (Hc : cuts (upload_location d t) fs1 fs2).
  { replace fs2 with (remove_dir_all root cwd ("/" :: upload_location d t) fs1).1 by by rewrite Hp.
    destruct (lstat root cwd fs1 ("/" :: upload_location d t)) as [[r m]|e] eqn:E.
    - pose proof E as E'. apply lstat_straight in E as [-> _]; [|done].
      by eapply remove_dir_all_cuts.
    - by rewrite (remove_dir_all_absent _ _ _ _ _ E). }
  destruct Hc as [Hi Hc]. rewrite Hc by done. split; [by eapply grows_node|].
  destruct Hg as [_ Hg]. congruence.
Qed.

(** C9: Linking a download, which also happens when it is paused or stopped half way,
    makes a file that stands directly in its directory read-only: the file is found
    where it was, with the mode 400.  Opening the files of the torrent to take the
    download up again then errs, unless the process is privileged.  Nothing is claimed
    of a download all of whose files are in subdirectories. *)
Theorem interrupted_download_cannot_resume (t : TorrentFile) (f : EmbededFile) (fs fs1 : Fs)
    (u d : Location) (p : Path) (name : string) (i : nat) (m : Z) :
  let h := InfoHash.to_string (TorrentFile.info_hash t) in
  let I := download_location d h in
  root = false → bqti_data_dir = Some ("/" :: d) →
  f ∈ TorrentFile.files t → rel f = [name] →
  straight fs (I ++ [name]) → straight fs u → ¬ u ++ ["download"] `prefix_of` I ++ [name] →
  stat root cwd fs ("/" :: I) = Ok (I, NDir m) → can_search root m = true →
  stat root cwd fs ("/" :: I ++ [name]) = Ok (I ++ [name], NFile i) →
  link ("/" :: u) h fs = (fs1, Ok p) →
  (stat root cwd fs1 ("/" :: I ++ [name]) = Ok (I ++ [name], NFile i) ∧ mode_of fs1 i = 256%Z) ∧
  ∃ e, (download_resources t fs1).2 = Err e.
Proof.
  intros h I Hr Hd Hf Hrel Hs Hu Hout Hdir Hse Hfile Hl.
  assert (Hnm : name_ok name) by by destruct Hs as [[_ [? _]%Forall_cons]%Forall_app _].
  assert (HI : Forall name_ok I) by by destruct Hs as [[? _]%Forall_app _].
  eapply link_closed in Hl as Hc; [|done..]. split; [by destruct Hc|].
  unfold download_resources, ensure_download_dir. rewrite Hd, download_base_eq by done.
  fold h. fold I. unfold exists_. destruct (cl_dir _ _ _ _ Hc) as [m' E]. fold I in E.
  rewrite E. simpl.
  destruct (open_targets ("/" :: I) _ fs1) as [fs2 [ids|e]] eqn:Eo; [|by eexists].
  eapply open_targets_closed in Eo; [|done..]. rewrite Forall_forall in Eo. by destruct (Eo f).
Qed.
End disk.

(** * Examples *)

Module DiskExamples.
#[local] Existing Instance Toy.ToyCrypto.
#[local] Existing Instance ToyHex.hex.

(** A home directory with a file and a directory of two, and an empty data
    directory. *)
Definition disk : Fs := mkFs
  (list_to_map [
    (["home"], NDir 493); (["home"; "u"], NDir 448); (["data"], NDir 448);
    (["home"; "u"; "film"], NFile 1); (["home"; "u"; "dir"], NDir 448);
    (["home"; "u"; "dir"; "a"], NFile 2); (["home"; "u"; "dir"; "b"], NFile 3)])
  (list_to_map [
    (1, mkInode 420 [1%Z]); (2, mkInode 420 [2%Z]); (3, mkInode 420 [3%Z])]).

Definition xdg : option Path := Some ["/"; "data"].
Definition home : Path := ["/"; "home"; "u"].
Definition data : Location := ["data"; "bqti"].

Definition torrent (files : list EmbededFile) : TorrentFile :=
  V1 (mkV1 (mkCommon (InfoHash.v1_new [1%Z]) "film" None None 16384%Z None None None None None)
        false [] (MultiFile files)).
Definition one_file : EmbededFile := mkFile 1 [] None.
Definition single : TorrentFile := torrent [one_file].
Definition file_a : EmbededFile := mkFile 1 ["a"] None.
Definition two : TorrentFile := torrent [file_a; mkFile 1 ["b"] None].

Definition seed_of (t : TorrentFile) (user : Path) : Fs * option Path :=
  ensure_upload_dir false [] xdg None user t disk.
Definition granted (i : nat) (length : Z) : Result FsError unit := Ok tt.
Definition encoded (t : TorrentFile) : Result FsError (list Z) := Ok [100%Z; 101%Z].
Definition download_of (root : bool) (t : TorrentFile) (fs : Fs) :=
  download_resources root [] xdg None granted encoded t fs.
Definition hash : string := InfoHash.to_string (TorrentFile.info_hash two).

(** Seeding a directory links its files, again too. *)
Example seeding_links :
  let fs := (seed_of two (join home ["dir"])).1 in
  (seed_of two (join home ["dir"])).2 = Some ("/" :: upload_location data two) ∧
  node fs (upload_location data two ++ ["a"]) = Some (NFile 2) ∧
  (ensure_upload_dir false [] xdg None (join home ["dir"]) two fs).2 =
    Some ("/" :: upload_location data two).
Proof. by vm_compute. Qed.

(** A link in the user's directory is taken as it is: one with a relative target
    leads nowhere from the upload directory. *)
Example relative_link_breaks :
  let fs := set_node ["home"; "u"; "dir"; "a"] (NLink ["b"]) disk in
  let r := ensure_upload_dir false [] xdg None (join home ["dir"]) (torrent [file_a]) fs in
  is_file false [] fs (join home ["dir"; "a"]) = true ∧ r.2 ≠ None ∧
  exists_ false [] r.1 ("/" :: upload_location data two ++ ["a"]) = false ∧
  (ensure_upload_dir false [] xdg None (join home ["dir"]) (torrent [file_a]) r.1).2 = None.
Proof. by vm_compute. Qed.

(** [link] replaces whatever is called [download] in the user's directory. *)
Example link_replaces_user_files :
  let fs := set_node ["home"; "u"; "download"] (NDir 448)
              (set_node ["home"; "u"; "download"; "notes"] (NFile 1) disk) in
  let fs1 := (download_of false two fs).1 in
  let fs2 := (link false [] xdg None home hash fs1).1 in
  is_file false [] fs1 (join home ["download"; "notes"]) = true ∧
  exists_ false [] fs2 (join home ["download"; "notes"]) = false ∧
  is_symlink false [] fs2 (join home ["download"]) = true.
Proof. by vm_compute. Qed.

(** A restored download has its own directory as the user's: a file of the
    torrent that is called [download] is replaced by a link. *)
Example restored_link_replaces_content :
  let t := torrent [mkFile 1 ["download"] None; file_a] in
  let fs1 := (download_of false t disk).1 in
  let I := download_location data hash in
  let fs2 := (link false [] xdg None ("/" :: I) hash fs1).1 in
  is_file false [] fs1 ("/" :: I ++ ["download"]) = true ∧
  is_file false [] fs2 ("/" :: I ++ ["download"]) = false.
Proof. by vm_compute. Qed.

Lemma pair_of {A B} (x : A * B) (b : B) : x.2 = b → x = (x.1, b).
Proof. by destruct x; simpl; intros ->. Qed.

Lemma two_files_ok : files_ok (TorrentFile.files two).
Proof.
  split; [by apply (bool_decide_unpack _); vm_compute|].
  repeat constructor; by apply (bool_decide_unpack _); vm_compute.
Qed.


Lemma single_file_seed_fails_witness :
  (seed_of single (join home ["film"])).2 = None.
Proof.
  apply (single_file_seed_fails false [] xdg None (join home ["film"]) single one_file disk data
    "film"); try reflexivity.
  apply straightb_ok. vm_compute. reflexivity.
Defined.

Definition seeded : Fs := (seed_of two (join home ["dir"])).1.
Definition upload_path : Path := "/" :: upload_location data two.
Definition unseeded : Fs * Result FsError unit := purge_dir false [] (Some upload_path) seeded.

Lemma removal_keeps_user_files_witness :
  unseeded.2 = Ok tt ∧ node unseeded.1 (upload_location data two) = None ∧
  node unseeded.1 ["home"; "u"; "dir"; "a"] = Some (NFile 2) ∧
  inodes unseeded.1 = inodes disk.
Proof.
  split; [by vm_compute|]. split; [by vm_compute|].
  apply (removal_keeps_user_files false [] xdg None (join home ["dir"]) two disk seeded
    unseeded.1 upload_path data unseeded.2 ["home"; "u"; "dir"; "a"] (NFile 2)).
  - refine (pair_of (seed_of two (join home ["dir"])) (Some upload_path) _).
    vm_compute. reflexivity.
  - apply surjective_pairing.
  - reflexivity.
  - apply straightb_ok. vm_compute. reflexivity.
  - reflexivity.
  - by apply (bool_decide_unpack _); vm_compute.
Defined.

Definition downloading : Fs := (download_of false two disk).1.
Definition paused : Fs := (link false [] xdg None home hash downloading).1.

Lemma interrupted_download_cannot_resume_witness :
  (download_of true two paused).2 ≠ Err ChunkReaderError ∧
  mode_of paused 4 = 256%Z ∧ ∃ e, (download_of false two paused).2 = Err e.
Proof.
  split; [by vm_compute|].
  enough ((stat false [] paused ("/" :: download_location data hash ++ ["a"]) =
    Ok (download_location data hash ++ ["a"], NFile 4) ∧ mode_of paused 4 = 256%Z) ∧
    ∃ e, (download_of false two paused).2 = Err e) as [[_ Hm] He] by (by split).
  apply (interrupted_download_cannot_resume false [] xdg None granted encoded two file_a
    downloading paused ["home"; "u"] data (join home ["download"]) "a" 4 448).
  - reflexivity.
  - reflexivity.
  - left.
  - reflexivity.
  - apply straightb_ok. vm_compute. reflexivity.
  - apply straightb_ok. vm_compute. reflexivity.
  - by apply (bool_decide_unpack _); vm_compute.
  - vm_compute. reflexivity.
  - reflexivity.
  - vm_compute. reflexivity.
  - refine (pair_of (link false [] xdg None home hash downloading) (Ok (join home ["download"])) _).
    vm_compute. reflexivity.
Defined.
End DiskExamples.
