(* ===== verification/Standalone.v ===== *)
(** The commands that work without the daemon on [.torrent] files: [standalone.rs],
    with [load] and [save] of [bit_torrent/mod.rs] and the parsers of
    [cli.rs].  They read the content and write the torrent in the file system
    of [Fs], through the builder of [Builder] and the records of [Metainfo].

    Paths are text; [components] (of [Builder]) turns them into the paths of [Fs].  The
    bencode serialisation is a parameter, as in [Metainfo].  Text is UTF-8, and its
    white space ASCII. *)

From Stdlib Require Import Ascii.
From S2P Require Import Prelude Net Crypto Metainfo Chunks Fs Builder.

(** * Arguments *)

(** src/src/cli.rs:128-134 [TorrentVersion] *)
Inductive TorrentVersion := CliV1 | CliV2 | CliHybrid.

(** src/src/standalone.rs:28-41 [CreateArgs] *)
Record CreateArgs := mkArgs {
  a_path : string;
  a_name : option string;
  a_files : list string;
  a_version : TorrentVersion;
  a_announce : list (list string);
  a_seeds : option (list string);
  a_nodes : option (list string);
  a_piece_length : Z;
  a_private : bool;
  a_comment : option string;
  a_created_by : option string;
  a_output : option string;
}.

(** src/src/cli.rs:136-182 [Torrent] *)
Inductive TorrentCommand :=
| Create (args : CreateArgs)
| Inspect (torrent : string)
| Validate (torrent : string).

(** src/src/bit_torrent/error.rs:5-18 [BitTorrentError] *)
Inductive BitTorrentError :=
| BtIo (e : FsError)
| BtCodec (msg : string)
| BtInvalidPath
| BtTorrent (e : TorrentError).

(** [str::replace], for a nonempty pattern: [skip] characters of a match are left. *)
Fixpoint replace_from (pat to : string) (skip : nat) (s : string) : string :=
  match s with
  | "" => ""
  | String c rest =>
    match skip with
    | S skip => replace_from pat to skip rest
    | O => if starts_with pat s then to +:+ replace_from pat to (String.length pat - 1) rest
           else String c (replace_from pat to 0 rest)
    end
  end.

(** src/src/cli.rs:110-120 [parse_addr] *)
Definition parse_addr (addr : string) : Result string string :=
  if starts_with ":" addr then Ok ("127.0.0.1" +:+ addr)
  else if starts_with "localhost" addr then Ok (replace_from "localhost" "127.0.0.1" 0 addr)
  else Ok addr.

(** src/src/cli.rs:184-186 [parse_tier] *)
Definition parse_tier (s : string) : Result string (list string) := Ok (split_on "," s).

(** ** White space *)

Definition is_space (c : ascii) : bool :=
  let n := nat_of_ascii c in (n =? 32) || ((9 <=? n) && (n <=? 13)).

(** [str::split_whitespace]: [word] is the word being read, backwards. *)
Fixpoint words_from (word : list ascii) (s : string) : list string :=
  let flush := match word with [] => [] | _ => [String.string_of_list_ascii (reverse word)] end in
  match s with
  | "" => flush
  | String c s => if is_space c then flush ++ words_from [] s else words_from (c :: word) s
  end.
Definition split_whitespace (s : string) : list string := words_from [] s.

Fixpoint trim_start (s : string) : string :=
  match s with String c rest => if is_space c then trim_start rest else s | "" => "" end.
(** [str::trim]. *)
Definition trim (s : string) : string :=
  let rev s := String.string_of_list_ascii (reverse (String.list_ascii_of_string s)) in
  rev (trim_start (rev (trim_start s))).

(** * The commands *)

Section standalone.
Context `{Crypto} `{AddrText} `{Hex} (from_utf8 : BencodeTorrent.from_utf8_t).
Context (root : bool) (cwd : Location).
(** [serde_bencode] on the info dictionary, and on the whole file. *)
Context (encode_info : BencodeInfo → Result string (list Z)).
Context (encode : BencodeTorrent → Result string (list Z)).
Context (decode : list Z → Result string BencodeTorrent).
(** The sizes of buffered reads; the depth of the directories that are walked; the
    time and the version. *)
Context (read_count : string → nat → nat → nat) (depth : nat) (now : Z) (version : string).

(** The file system as the builder walks it. *)
Definition fs_tree (fs : Fs) : Tree := {|
  tree_is_file p := is_file root cwd fs (components p);
  tree_read_dir p :=
    match (read_dir root cwd (components p) fs).2 with
    | Ok names => Some (map (path_push p) names)
    | Err _ => None
    end;
  tree_open p := match read root cwd fs (components p) with Ok d => Some d | Err _ => None end;
|}.

(** src/src/bit_torrent/mod.rs:23-29 [load] *)
Definition load (path : string) (fs : Fs) : Result BitTorrentError TorrentFile :=
  let? bytes := map_err BtIo (read root cwd fs (components path)) in
  let? info := map_err BtCodec (decode bytes) in
  map_err BtTorrent (TorrentFile.apply_from_metadata from_utf8 encode_info info).

(** src/src/bit_torrent/mod.rs:31-38 [save] *)
Definition save (path : string) (torrent : TorrentFile) (fs : Fs) : Fs * Result BitTorrentError unit :=
  let bencode_data := TorrentFile.to_bencode torrent in
  match encode bencode_data with
  | Err e => (fs, Err (BtCodec e))
  | Ok bytes => let '(fs, r) := write root cwd (components path) bytes fs in (fs, map_err BtIo r)
  end.

(** src/src/standalone.rs:16-26 [file_name] *)
Definition file_name (args : CreateArgs) : Result BitTorrentError string :=
  match a_name args with
  | Some name => Ok name
  | None => ok_or BtInvalidPath (path_file_name (components (a_path args)))
  end.

(** src/src/bit_torrent/torrent/builder/mod.rs:24-38 [TorrentBuilder::with_v2, with_v1] *)
Definition with_v2 (name path : string) (piece_length : Z) : V2Builder :=
  V2Builder_new name path piece_length.
Definition with_v1 (name path : string) (piece_length : Z) : V1Builder :=
  V1Builder_new name path piece_length.

(** src/src/standalone.rs:79-90 [create, version 1] *)
Definition create_v1 (fs : Fs) (args : CreateArgs) (name : string) : V1Builder :=
  let t := fs_tree fs in
  let b := with_v1 name (a_path args) (i64 (a_piece_length args)) in
  let b := builder_file depth b (a_path args) in
  let b := builder_files depth b (a_files args) in
  let b := builder_announce_list b (a_announce args) in
  let b := builder_dht_nodes b (a_nodes args) in
  let b := builder_web_seeds b (a_seeds args) in
  let b := builder_comment b (a_comment args) in
  let b := builder_private b (a_private args) in
  builder_created_by b (a_created_by args).

(** src/src/standalone.rs:91-101 [create, version 2] *)
Definition create_v2 (fs : Fs) (args : CreateArgs) (name : string) : V2Builder :=
  let t := fs_tree fs in
  let b := with_v2 name (a_path args) (i64 (a_piece_length args)) in
  let b := v2_file depth b (a_path args) in
  let b := v2_files depth b (a_files args) in
  let b := v2_announce_list b (a_announce args) in
  let b := v2_web_seeds b (a_seeds args) in
  let b := v2_dht_nodes b (a_nodes args) in
  let b := v2_comment b (a_comment args) in
  v2_created_by b (a_created_by args).

(** src/src/standalone.rs:78-107 [create, up to the torrent] *)
Definition create_torrent (fs : Fs) (args : CreateArgs) : Result BitTorrentError TorrentFile :=
  let t := fs_tree fs in
  match a_version args with
  | CliV1 =>
    let? name := file_name args in
    map_err BtTorrent (build read_count encode_info now version (create_v1 fs args name))
  | CliV2 =>
    let? name := file_name args in
    map_err BtTorrent (v2_build read_count encode_info now version (create_v2 fs args name))
  | CliHybrid => Err (BtTorrent (UnsupportedVersion 0))
  end.

(** src/src/standalone.rs:109-124 [create, final_path] *)
Definition final_path (fs : Fs) (args : CreateArgs) (torrent : TorrentFile) : string :=
  let final_path := default "." (a_output args) in
  if is_dir root cwd fs (components final_path) then
    let clean_name := String.concat "_" (split_whitespace (trim (TorrentFile.name torrent))) in
    path_push final_path (clean_name +:+ ".torrent")
  else final_path.

(** src/src/standalone.rs:77-133 [create] *)
Definition create (args : CreateArgs) (fs : Fs) : Fs * Result BitTorrentError unit :=
  match create_torrent fs args with
  | Err e => (fs, Err e)
  | Ok torrent => save (final_path fs args torrent) torrent fs
  end.

(** src/src/standalone.rs:135-142 [inspect]

    What is printed is the torrent; a panic is [None]. *)
Definition inspect (torrent : string) (fs : Fs) : option TorrentFile :=
  match load torrent fs with Ok torrent => Some torrent | Err _ => None end.

(** src/src/bit_torrent/torrent/metainfo/mod.rs:142-145 [Integrity::validate] *)
Definition torrent_validate (torrent : TorrentFile) : option (Result TorrentError unit) :=
  match torrent with
  | V1 t => Some (TorrentV1.v1_validate t)
  | V2 t => v2_validate t
  end.

(** src/src/standalone.rs:144-154 [validate] *)
Definition validate (torrent : string) (fs : Fs) : option (Result BitTorrentError unit) :=
  match load torrent fs with
  | Err e => Some (Err e)
  | Ok torrent => map_err BtTorrent <$> torrent_validate torrent
  end.

(** src/src/standalone.rs:43-75 [handle_torrent] *)
Definition handle_torrent (torrent : TorrentCommand) (fs : Fs)
    : Fs * option (Result BitTorrentError unit) :=
  match torrent with
  | Create args => let '(fs, r) := create args fs in (fs, Some r)
  | Inspect torrent => (fs, (λ _, Ok tt) <$> inspect torrent fs)
  | Validate torrent => (fs, validate torrent fs)
  end.
End standalone.

(** * Loading what was created *)

(** What reading a saved version 1 torrent back gives: a single file is named
    after the torrent, and an empty list of web seeds is none. *)
Definition reloaded (t : TorrentV1) : TorrentV1 :=
  let c := v1_info t in
  mkV1 (mkCommon (tc_info_hash c) (tc_name c) (tc_announce c) (tc_announce_list c) (tc_piece_length c)
          (tc_creation_date c) (tc_comment c) (tc_created_by c)
          (match tc_web_seeds c with Some [] => None | seeds => seeds end) (tc_dht_nodes c))
    (v1_private t) (v1_pieces t)
    (match v1_mode t with
     | SingleFile f => SingleFile (mkFile (ef_length f) [tc_name c] None)
     | MultiFile fs => MultiFile fs
     end).

Section reload.
Context `{CryptoLaws} `{AddrText} (from_utf8 : BencodeTorrent.from_utf8_t)
  (encode_info : BencodeInfo → Result string (list Z)).

Lemma u64_i64 z : (0 ≤ z < 2 ^ 63)%Z → u64 (i64 z) = z.
Proof.
  intros Hz. unfold i64. rewrite Z.mod_small.
  - replace (z + 2 ^ 63 - 2 ^ 63)%Z with z by lia. apply wrap_small.
    change (2 ^ 64)%Z with (2 ^ 63 + 2 ^ 63)%Z. lia.
  - change (2 ^ 64)%Z with (2 ^ 63 + 2 ^ 63)%Z. lia.
Qed.

(** The dictionary a torrent is saved with is the one it was hashed from. *)
Lemma to_info_built c pr pcs fs :
  Forall (λ f, ef_md5sum f = None) fs →
  TorrentFile.to_info (V1 (mkV1 c pr pcs (mode_of fs))) =
    BencodeInfo.v1 (tc_name c) (if pr : bool then Some 1%Z else None) pcs (i64 (tc_piece_length c))
      (V1Mode.mode_to_bencode (mode_of fs)).
Proof.
  intros Hfs. destruct fs as [|f [|g fs]]; try done. apply Forall_inv in Hfs.
  unfold TorrentFile.to_info, TorrentFile.files, TorrentV1.v1_files. cbn. by rewrite Hfs.
Qed.

Lemma reload_built t fs raw :
  v1_mode t = mode_of fs → Forall (λ f, ef_md5sum f = None) fs → v1_pieces t ≠ [] →
  (0 ≤ tc_piece_length (v1_info t) < 2 ^ 63)%Z →
  encode_info (TorrentFile.to_info (V1 t)) = Ok raw →
  tc_info_hash (v1_info t) = InfoHash.v1_new raw →
  Forall node_text_ok (default [] (tc_dht_nodes (v1_info t))) →
  TorrentFile.apply_from_metadata from_utf8 encode_info (TorrentFile.to_bencode (V1 t)) =
    Ok (V1 (reloaded t)).
Proof.
  destruct t as [c pr pcs m]. cbn [v1_mode v1_info v1_pieces]. intros -> Hfs Hp Hpl He Hh Hn.
  unfold TorrentFile.apply_from_metadata, TorrentFile.to_bencode. cbn [bt_info].
  rewrite He. rewrite to_info_built in * by done. cbn [map_err rbind].
  destruct (V1Mode.mode_to_bencode (mode_of fs)) as [l md|l] eqn:Em;
    cbn [BencodeInfo.v1 bi_pieces bi_file_tree]; (destruct pcs as [|x pcs]; [done|]);
    unfold TorrentV1.v1_from_bencode, BencodeTorrent.dht_nodes; cbn [bt_info bt_nodes TorrentFile.common];
    rewrite nodes_roundtrip by done; unfold BencodeInfo.mode, PieceLength.from;
    cbn [bi_length bi_md5sum bi_files bi_name bi_private bi_piece_length fmap option_fmap option_map ok_or
         rbind bi_pieces v1_info]; rewrite u64_i64 by done.
  - destruct fs as [|f [|]]; try done. injection Em as <- <-. apply Forall_inv in Hfs. rewrite Hfs.
    cbn. unfold reloaded. cbn. rewrite Hh. do 4 f_equal; [|by destruct pr].
    unfold BencodeTorrent.web_seeds. cbn. by destruct (tc_web_seeds c) as [[]|].
  - assert (mode_of fs = MultiFile fs ∧ l = map FileInfo_from fs) as [E ->].
    { destruct fs as [|f [|]]; try done; by injection Em as <-. }
    cbn. rewrite map_EmbededFile_from. unfold reloaded. cbn. rewrite Hh, E. do 4 f_equal; [|by destruct pr].
    unfold BencodeTorrent.web_seeds. cbn. by destruct (tc_web_seeds c) as [[]|].
Qed.

Lemma reloaded_total t : TorrentV1.v1_total_size (reloaded t) = TorrentV1.v1_total_size t.
Proof. by destruct t as [c pr pcs [f|fs]]. Qed.

Lemma reloaded_valid t : TorrentV1.v1_validate (reloaded t) = TorrentV1.v1_validate t.
Proof. unfold TorrentV1.v1_validate. by rewrite reloaded_total. Qed.
End reload.

(** A file that has just been written reads back, and no other entry moved. *)
Lemma write_read root cwd p r b fs fs' :
  leads cwd p r → straight fs r → write root cwd p b fs = (fs', Ok tt) →
  (∀ i, node fs r = Some (NFile i) → can_read root (Fs.mode_of fs i) = true) →
  read root cwd fs' p = Ok b ∧ ∀ q, q ≠ r → node fs' q = node fs q.
Proof.
  intros Hp Hs Hw Hread.
  destruct (write_spec_at root cwd p r b fs fs' Hp Hs Hw) as (i & m & Hn & Hi & Hm & Hq & _ & _ & Hr).
  split; [|done]. unfold read, stat. rewrite Hr. cbn [rbind]. rewrite Hn. cbn. rewrite Hi. cbn.
  destruct Hm as [[Hf ->]|(_ & _ & ->)]; [by rewrite Hread|].
  unfold can_read. by rewrite orb_true_r.
Qed.

Section created.
Context `{CryptoLaws} `{AddrText} `{Hex} (from_utf8 : BencodeTorrent.from_utf8_t).
Context (root : bool) (cwd : Location).
Context (encode_info : BencodeInfo → Result string (list Z)).
Context (encode : BencodeTorrent → Result string (list Z)).
Context (decode : list Z → Result string BencodeTorrent).
Context (read_count : string → nat → nat → nat) (depth : nat) (now : Z) (version : string).

Local Abbreviation create_torrent := (create_torrent root cwd encode_info read_count depth now version).
Local Abbreviation create := (create root cwd encode_info encode read_count depth now version).
Local Abbreviation load := (load from_utf8 root cwd encode_info decode).
Local Abbreviation validate := (validate from_utf8 root cwd encode_info decode).
Local Abbreviation create_v1 := (create_v1 root cwd depth).
Local Abbreviation final_path := (final_path root cwd).

Lemma create_inv args fs fs' :
  create args fs = (fs', Ok tt) →
  ∃ torrent bytes, create_torrent fs args = Ok torrent ∧
    encode (TorrentFile.to_bencode torrent) = Ok bytes ∧
    write root cwd (components (final_path fs args torrent)) bytes fs = (fs', Ok tt).
Proof.
  unfold Standalone.create. destruct (create_torrent fs args) as [t|e]; [|done]. unfold save.
  destruct (encode _) as [b|e] eqn:Ee; [|done].
  destruct (write _ _ _ _ _) as [fs1 [[]|e]] eqn:Ew; [|done]. intros [= <-]. eauto.
Qed.

Lemma create_v1_inv args fs t : a_version args = CliV1 → create_torrent fs args = Ok t →
  ∃ name v1, t = V1 v1 ∧
    @build _ (fs_tree root cwd fs) read_count encode_info now version (create_v1 fs args name) = Ok (V1 v1).
Proof.
  unfold Standalone.create_torrent. intros ->. destruct (file_name args) as [name|]; [|done].
  cbn [rbind]. destruct (build _ _ _ _ _) as [t'|] eqn:Eb; [|done]. intros [= ->].
  exists name. revert Eb. unfold build.
  destruct (PieceLength.validate _); [|done]. cbn [rbind]. destruct (is_empty _); [done|].
  destruct (finalize _ _ _) as [[pcs m]|]; [|done]. cbn [rbind].
  destruct (builder_info_hash _ _ _ _); [|done]. intros [= <-]. eauto.
Qed.

(** The dictionary whose hash names a built torrent. *)
Lemma build_info `{Tree} b t :
  build read_count encode_info now version b = Ok (V1 t) →
  ∃ raw, encode_info (BencodeInfo.v1 (tc_name (v1_info t)) (if v1_private t then Some 1%Z else None)
           (v1_pieces t) (i64 (tc_piece_length (v1_info t))) (V1Mode.mode_to_bencode (v1_mode t))) = Ok raw ∧
    tc_info_hash (v1_info t) = InfoHash.v1_new raw.
Proof.
  unfold build. destruct (PieceLength.validate _); [|done]. cbn [rbind]. destruct (is_empty _); [done|].
  destruct (finalize _ _ _) as [[pcs m]|]; [|done]. cbn [rbind]. unfold builder_info_hash.
  destruct (encode_info _) as [raw|] eqn:Ee; [|done]. intros [= <-]. by exists raw.
Qed.

(** C4: A torrent made from files with the version 1 command can be used.  Suppose that
    creating it succeeds, that there is something in the files (at most 2^45 bytes), that
    every file can be opened and read to its end, that the DHT nodes are
    I2P names or IPv4 addresses, that the decoder inverts the encoder on this torrent, that the
    path written to, absolute or relative to the working directory (the default),
    passes no symbolic link, and that a file already there is readable.  Then the file
    at that path (named after the torrent when a directory was chosen) loads, the
    validate command accepts it, and what loads has the info hash, the piece hashes,
    the piece length, the name, the trackers, the nodes and the sizes of the files
    of the torrent that was built, in total the bytes of the files; and nothing else
    in the file system has moved. *)
Theorem created_torrent_loads (args : CreateArgs) (fs fs' : Fs) (r : Location)
    (t : TorrentV1) (cs : list (list Z)) :
  a_version args = CliV1 → create args fs = (fs', Ok tt) → create_torrent fs args = Ok (V1 t) →
  (∀ name, Forall2 (@opens (fs_tree root cwd fs) read_count) (entries_of (create_v1 fs args name)) cs) →
  0 < length (concat cs) → (Z.of_nat (length (concat cs)) ≤ 2 ^ 45)%Z →
  Forall node_text_ok (default [] (tc_dht_nodes (v1_info t))) →
  (∀ bytes, encode (TorrentFile.to_bencode (V1 t)) = Ok bytes →
     decode bytes = Ok (TorrentFile.to_bencode (V1 t))) →
  let path := final_path fs args (V1 t) in
  leads cwd (components path) r → straight fs r →
  (∀ i, node fs r = Some (NFile i) → can_read root (Fs.mode_of fs i) = true) →
  ∃ t', load path fs' = Ok (V1 t') ∧ validate path fs' = Some (Ok tt) ∧
  tc_info_hash (v1_info t') = tc_info_hash (v1_info t) ∧
  TorrentV1.v1_piece_hashes t' = TorrentV1.v1_piece_hashes t ∧
  tc_piece_length (v1_info t') = tc_piece_length (v1_info t) ∧
  tc_name (v1_info t') = tc_name (v1_info t) ∧
  (tc_announce (v1_info t'), tc_announce_list (v1_info t')) =
    (tc_announce (v1_info t), tc_announce_list (v1_info t)) ∧
  tc_dht_nodes (v1_info t') = tc_dht_nodes (v1_info t) ∧
  map ef_length (TorrentV1.v1_files t') = map ef_length (TorrentV1.v1_files t) ∧
  TorrentV1.v1_total_size t' = Z.of_nat (length (concat cs)) ∧
  ∀ q, q ≠ r → node fs' q = node fs q.
Proof.
  intros Hver Hcreate Ht Hopens Hpos Hsize Hnodes Hcodec path Hpath Hs Hread. exists (reloaded t).
  apply create_inv in Hcreate as (t' & bytes & Ht' & He & Hw). rewrite Ht in Ht'. injection Ht' as <-.
  fold path in Hw.
  destruct (write_read root cwd _ r bytes fs fs' Hpath Hs Hw Hread) as [Hrd Hq].
  destruct (create_v1_inv args fs _ Hver Ht) as (name & v1 & [= <-] & Hb).
  destruct (built_valid _ _ _ _ _ _ _ Hb (Hopens name) Hpos Hsize) as (Hpl & Htot & Hph & Hval).
  destruct (build_inv _ _ _ _ _ _ _ Hb (Hopens name)) as (_ & Epl & _ & Em).
  destruct (build_info _ _ Hb) as (raw & Hraw & Hh).
  assert (load path fs' = Ok (V1 (reloaded t))) as Hl.
  { unfold Standalone.load. rewrite Hrd. cbn [map_err rbind]. rewrite (Hcodec _ He). cbn [map_err rbind].
    assert (Forall (λ f, ef_md5sum f = None)
      (zip_with described (entries_of (create_v1 fs args name)) cs)) as Hmd.
    { generalize (entries_of (create_v1 fs args name)). clear. intros es. revert cs.
      induction es as [|e es IH]; intros [|c cs]; cbn; constructor; auto. }
    rewrite (reload_built _ _ _ _ raw Em Hmd); [done| | | |done|done].
    - intros E. unfold TorrentV1.v1_piece_hashes in Hph. rewrite E in Hph.
      apply (f_equal length) in Hph. rewrite length_map, length_chunks in Hph by lia.
      assert (0 < (length (concat cs) + Z.to_nat (b_piece_length (create_v1 fs args name)) - 1) /
        Z.to_nat (b_piece_length (create_v1 fs args name))) by (apply Nat.div_str_pos; lia).
      change (length (chunks_exact 20 [])) with 0 in Hph. lia.
    - rewrite Epl. change (2 ^ 63)%Z with 9223372036854775808%Z.
      change (2 ^ 14 ≤ b_piece_length (create_v1 fs args name) ≤ 134217728)%Z in Hpl. lia.
    - destruct t as [c pr pcs m]. cbn in Em. subst m. rewrite to_info_built by done. exact Hraw. }
  split_and!; try done.
  - unfold Standalone.validate. rewrite Hl. cbn. by rewrite reloaded_valid, Hval.
  - unfold reloaded. by destruct (v1_mode t) eqn:Emode; unfold TorrentV1.v1_files; rewrite Emode.
  - by rewrite reloaded_total.
Qed.

(** A torrent made with the version 2 command cannot be used: the command
    reports success, and then the file it wrote is refused by [load] as being of no
    known version, so that validating it fails and inspecting it panics. *)
Theorem created_v2_unloadable (args : CreateArgs) (fs fs' : Fs) (r : Location)
    (t : TorrentFile) (raw : list Z) :
  a_version args = CliV2 → create args fs = (fs', Ok tt) → create_torrent fs args = Ok t →
  encode_info (TorrentFile.to_info t) = Ok raw →
  (∀ bytes, encode (TorrentFile.to_bencode t) = Ok bytes →
     decode bytes = Ok (TorrentFile.to_bencode t)) →
  let path := final_path fs args t in
  leads cwd (components path) r → straight fs r →
  (∀ i, node fs r = Some (NFile i) → can_read root (Fs.mode_of fs i) = true) →
  let refused := BtTorrent (Unsupported "no matching version") in
  load path fs' = Err refused ∧ validate path fs' = Some (Err refused) ∧
  inspect from_utf8 root cwd encode_info decode path fs' = None.
Proof.
  intros Hver Hcreate Ht Hraw Hcodec path Hpath Hs Hread refused.
  apply create_inv in Hcreate as (t' & bytes & Ht' & He & Hw). rewrite Ht in Ht'. injection Ht' as <-.
  fold path in Hw.
  destruct (write_read root cwd _ r bytes fs fs' Hpath Hs Hw Hread) as [Hrd _].
  assert (∃ v2, t = V2 v2) as [v2 ->].
  { revert Ht. unfold Standalone.create_torrent. rewrite Hver. destruct (file_name args); [|done].
    cbn [rbind]. unfold v2_build. destruct (PieceLength.validate _); [|done]. cbn [rbind].
    destruct (is_empty _); [done|]. destruct (finalize _ _ _) as [[pcs m]|]; [|done]. cbn [rbind].
    destruct (v2_info_hash _ _ _ _); [|done]. intros [= <-]. eauto. }
  assert (load path fs' = Err refused) as Hl.
  { unfold Standalone.load. rewrite Hrd. cbn [map_err rbind]. rewrite (Hcodec _ He). cbn [map_err rbind].
    unfold TorrentFile.apply_from_metadata, TorrentFile.to_bencode. cbn [bt_info]. rewrite Hraw.
    unfold TorrentFile.to_info. cbn [map_err rbind]. by destruct (TorrentFile.files _) as [|? []]. }
  split; [exact Hl|]. unfold Standalone.validate, inspect. by rewrite Hl.
Qed.
End created.

(** The address to serve on is normalised once and for all. *)
Theorem parse_addr_idempotent (addr parsed : string) :
  parse_addr addr = Ok parsed → parse_addr parsed = Ok parsed.
Proof.
  unfold parse_addr. destruct (starts_with ":" addr) eqn:E1; [by intros [= <-]|].
  destruct (starts_with "localhost" addr) eqn:E2; [|intros [= <-]; by rewrite E1, E2].
  intros [= <-]. destruct addr as [|c addr]; [done|]. cbn [replace_from]. rewrite E2. done.
Qed.

(** * Instances of the properties *)

Module StandaloneExamples.
#[local] Existing Instance Toy.ToyCrypto.
#[local] Existing Instance ToyHex.hex.
#[local] Existing Instance MetainfoExamples.toy_text.

(** A directory with one file. *)
Definition disk : Fs := mkFs
  (list_to_map [(["d"], NDir 448); (["d"; "f"], NFile 1)]) (list_to_map [(1, mkInode 420 [1; 2; 3]%Z)]).
Definition args (v : TorrentVersion) : CreateArgs :=
  mkArgs "/d/f" (Some "my film") [] v [["udp://t"]] None None 16384 false None None None.
Definition encode_info (_ : BencodeInfo) : Result string (list Z) := Ok [5%Z].
Definition encode (_ : BencodeTorrent) : Result string (list Z) := Ok [9%Z].
Definition built (v : TorrentVersion) : Result BitTorrentError TorrentFile :=
  create_torrent false ["d"] encode_info BuilderExamples.toy_read 2 0 "v" disk (args v).
Definition torrent (v : TorrentVersion) : TorrentFile :=
  match built v with Ok t => t | Err _ => V1 MetainfoExamples.torrent end.
Definition decode (v : TorrentVersion) (_ : list Z) : Result string BencodeTorrent :=
  Ok (TorrentFile.to_bencode (torrent v)).
Definition made (v : TorrentVersion) : Fs * Result BitTorrentError unit :=
  create false ["d"] encode_info encode BuilderExamples.toy_read 2 0 "v" (args v) disk.
Definition v1 : TorrentV1 :=
  match torrent CliV1 with V1 t => t | V2 _ => MetainfoExamples.torrent end.

Example torrent_path v : v ≠ CliHybrid →
  final_path false ["d"] disk (args v) (torrent v) = "./my_film.torrent".
Proof. intros Hv. destruct v; [vm_compute; reflexivity|vm_compute; reflexivity|done]. Qed.

Lemma made_ok v : v ≠ CliHybrid →
  create false ["d"] encode_info encode BuilderExamples.toy_read 2 0 "v" (args v) disk =
    ((made v).1, Ok tt).
Proof.
  intros Hv. assert ((made v).2 = Ok tt) as Hm
    by (destruct v; [vm_compute; reflexivity|vm_compute; reflexivity|done]).
  change (made v = ((made v).1, Ok tt)). destruct (made v) as [fs r]. simpl in *. by subst.
Qed.

Lemma created_torrent_loads_witness :
  load MetainfoExamples.toy_utf8 false ["d"] encode_info (decode CliV1) "./my_film.torrent"
    (made CliV1).1 = Ok (V1 (reloaded v1)) ∧
  TorrentV1.v1_piece_hashes (reloaded v1) = TorrentV1.v1_piece_hashes v1.
Proof.
  assert (torrent CliV1 = V1 v1) as Ev by (vm_compute; reflexivity).
  destruct (@created_torrent_loads Toy.ToyCrypto Toy.ToyCryptoLaws MetainfoExamples.toy_text ToyHex.hex
    MetainfoExamples.toy_utf8 false ["d"] encode_info encode (decode CliV1) BuilderExamples.toy_read 2 0
    "v" (args CliV1) disk (made CliV1).1 ["d"; "my_film.torrent"] v1 [[1; 2; 3]%Z])
    as (t' & Hl & _ & _ & Hp & _).
  - reflexivity.
  - by apply made_ok.
  - vm_compute. reflexivity.
  - intros name. assert (entries_of (create_v1 false ["d"] 2 disk (args CliV1) name)
      = [mkFileEntry "/d/f" ""]) as -> by (vm_compute; reflexivity).
    constructor; [|constructor]. split; [vm_compute; reflexivity|by apply BuilderExamples.toy_reads].
  - simpl. lia.
  - simpl. lia.
  - vm_compute. constructor.
  - intros b _. unfold decode. by rewrite Ev.
  - exists ["d"], ["my_film.torrent"]. split_and!; [done|done|]. right. split; [|done]. right.
    vm_compute. reflexivity.
  - apply straightb_ok. vm_compute. reflexivity.
  - intros i. vm_compute. discriminate.
  - rewrite <-Ev, torrent_path in Hl by done.
    assert (t' = reloaded v1) as ->; [|by split].
    enough (Ok (V1 t') = Ok (E := BitTorrentError) (V1 (reloaded v1))) as E by (by injection E).
    rewrite <-Hl. vm_compute. reflexivity.
Defined.

Lemma created_v2_unloadable_witness :
  inspect MetainfoExamples.toy_utf8 false ["d"] encode_info (decode CliV2) "./my_film.torrent"
    (made CliV2).1 = None.
Proof.
  destruct (@created_v2_unloadable Toy.ToyCrypto MetainfoExamples.toy_text ToyHex.hex
    MetainfoExamples.toy_utf8 false ["d"] encode_info encode (decode CliV2) BuilderExamples.toy_read 2 0
    "v" (args CliV2) disk (made CliV2).1 ["d"; "my_film.torrent"] (torrent CliV2) [5%Z]) as (_ & _ & Hi).
  - reflexivity.
  - by apply made_ok.
  - vm_compute. reflexivity.
  - reflexivity.
  - intros b _. reflexivity.
  - exists ["d"], ["my_film.torrent"]. split_and!; [done|done|]. right. split; [|done]. right.
    vm_compute. reflexivity.
  - apply straightb_ok. vm_compute. reflexivity.
  - intros i. vm_compute. discriminate.
  - rewrite torrent_path in Hi by done. exact Hi.
Defined.
End StandaloneExamples.
