(* ===== verification/Certs.v ===== *)
(** Identities and where they are kept: [bit_torrent/certs/] (the software and
    the enclave key identities), [utils/certs.rs] (the certificate directory) and
    the command of [standalone.rs] that makes certificates.

    Key generation, certificates and signatures are the crates' ([rcgen],
    [ring]): the class [Rcgen].  A certificate is the bytes to be signed with
    their signature.  Files are those of [Fs]. *)

From S2P Require Import Prelude Net Crypto Auth Tee Fs Disk.

Class Rcgen := {
  KeyPair : Type;
  (** [KeyPair::from_der_and_sign_algo] and [serialize_der]. *)
  key_from_der : list Z → option KeyPair;
  serialize_der : KeyPair → list Z;
  public_key_raw : KeyPair → list Z;
  (** [KeyPair::generate_for], by the randomness drawn. *)
  generate : nat → option KeyPair;
  (** [Ed25519KeyPair::from_pkcs8] and its [sign]. *)
  pkcs8_sign : list Z → option (list Z → list Z);
  (** The signed part of a certificate: name, whether it is an authority,
      subject key, certificate of the issuer if it is another. *)
  tbs : string → bool → list Z → option (list Z) → option (list Z);
  assemble : list Z → list Z → list Z;
}.

(** * The software identity *)

Section soft.
Context `{Crypto} `{Rcgen}.

(** src/src/bit_torrent/certs/soft.rs:14-17 [SoftwareKeyIdentity] *)
Record SoftwareKeyIdentity := mkSoft { key_pair : KeyPair; soft_cert_der : list Z }.

(** src/src/bit_torrent/certs/soft.rs:24-30 [SoftwareKeyIdentity::from_bytes_der] *)
Definition from_bytes_der (cert_bytes priv_key_bytes : list Z)
    : Result CertError SoftwareKeyIdentity :=
  let? key_pair := ok_or CertRcgen (key_from_der priv_key_bytes) in
  Ok (mkSoft key_pair cert_bytes).

(** src/src/bit_torrent/certs/soft.rs:32-37 [SoftwareKeyIdentity::to_bytes_der] *)
Definition to_bytes_der (self : SoftwareKeyIdentity) : list Z * list Z :=
  (soft_cert_der self, serialize_der (key_pair self)).

(** src/src/bit_torrent/certs/soft.rs:88-97 [Signer::sign for SoftwareKeyIdentity] *)
Definition soft_sign (self : SoftwareKeyIdentity) (data : list Z) : Result CertError (list Z) :=
  let pkcs8_key := serialize_der (key_pair self) in
  let? signing_key := ok_or CertFailed (pkcs8_sign pkcs8_key) in
  Ok (signing_key data).

(** src/src/bit_torrent/certs/soft.rs:108-110 [PublicKey::pub_key for SoftwareKeyIdentity] *)
Definition soft_pub_key (self : SoftwareKeyIdentity) : list Z := public_key_raw (key_pair self).

(** The identity as the rest of the program sees it. *)
Definition soft_signer (self : SoftwareKeyIdentity) : Signer :=
  mkSigner (soft_pub_key self) (soft_sign self).

(** [params.self_signed] and [params.signed_by]: the key that signs, by [ring]. *)
Definition sign_cert (issuer : KeyPair) (to_sign : option (list Z)) : Result CertError (list Z) :=
  let? t := ok_or CertRcgen to_sign in
  let? sign := ok_or CertRcgen (pkcs8_sign (serialize_der issuer)) in
  Ok (assemble t (sign t)).

(** src/src/bit_torrent/certs/soft.rs:39-50 [SoftwareKeyIdentity::root] *)
Definition soft_root (rnd : nat) (common_name : string) : Result CertError SoftwareKeyIdentity :=
  let? key_pair := ok_or CertRcgen (generate rnd) in
  let? cert := sign_cert key_pair (tbs common_name true (public_key_raw key_pair) None) in
  Ok (mkSoft key_pair cert).

(** src/src/bit_torrent/certs/soft.rs:20-22 [SoftwareKeyIdentity::new] *)
Definition soft_new (rnd : nat) : Result CertError SoftwareKeyIdentity :=
  soft_root rnd "software-certificate".

(** src/src/bit_torrent/certs/soft.rs:55-72 [KeyIdentity::leaf for SoftwareKeyIdentity] *)
Definition soft_leaf (rnd : nat) (self : SoftwareKeyIdentity) (common_name : string) (as_ca : bool)
    : Result CertError SoftwareKeyIdentity :=
  let? leaf_key := ok_or CertRcgen (generate rnd) in
  let? leaf_cert := sign_cert (key_pair self)
    (tbs common_name as_ca (public_key_raw leaf_key) (Some (soft_cert_der self))) in
  Ok (mkSoft leaf_key leaf_cert).

(** src/src/bit_torrent/certs/soft.rs:74-76 [KeyIdentity::cert_der for SoftwareKeyIdentity] *)
Definition cert_der (self : SoftwareKeyIdentity) : list Z := soft_cert_der self.

(** src/src/bit_torrent/certs/soft.rs:78-84 [KeyIdentity::certified_key for SoftwareKeyIdentity]

    The chain and the private key a server presents. *)
Definition certified_key (self : SoftwareKeyIdentity) : list (list Z) * list Z :=
  ([cert_der self], serialize_der (key_pair self)).
End soft.

(** * The enclave identity *)

Section tee.
Context `{Crypto} `{EnclaveLibs} `{Rcgen} (fuel : nat) (run_ends : nat → bool).

(** src/src/bit_torrent/certs/tee.rs:76-79 [TeeKeyIdentity]

    The certificate and the public key of its signer. *)
Record TeeKeyIdentity := mkTeeId { tki_cert : list Z; tki_pub_key : list Z }.

(** src/src/bit_torrent/certs/tee.rs:66-74 [SigningKey::sign for RcgenSigner] *)
Definition rcgen_sign (msg : list Z) (h : Host) : option (Host * Result CertError (list Z)) :=
  '(h, r) ← tee_sign fuel run_ends msg h; Some (h, map_err (λ _, CertRcgen) r).

(** [params.self_signed] with the enclave's key. *)
Definition tee_self_signed (to_sign : option (list Z)) (h : Host)
    : option (Host * Result CertError (list Z)) :=
  match to_sign with
  | None => Some (h, Err CertRcgen)
  | Some t =>
    '(h, r) ← rcgen_sign t h;
    Some (h, let? sig := r in Ok (assemble t sig))
  end.

(** src/src/bit_torrent/certs/tee.rs:82-94 [TeeKeyIdentity::new] *)
Definition tee_identity_new (h : Host) : option (Host * Result CertError TeeKeyIdentity) :=
  '(h, r) ← tee_get_pubkey fuel run_ends h;
  match r with
  | Err _ => Some (h, Err CertTee)
  | Ok pub_key =>
    '(h, r) ← tee_self_signed (tbs "bqti" true pub_key None) h;
    Some (h, let? cert := r in Ok (mkTeeId cert pub_key))
  end.

(** src/src/bit_torrent/certs/tee.rs:98-113 [KeyIdentity::leaf for TeeKeyIdentity] *)
Definition tee_leaf (self : TeeKeyIdentity) (common_name : string) (as_ca : bool) (h : Host)
    : option (Host * Result CertError TeeKeyIdentity) :=
  '(h, r) ← tee_self_signed (tbs common_name as_ca (tki_pub_key self) None) h;
  Some (h, let? cert := r in Ok (mkTeeId cert (tki_pub_key self))).

(** The schemes of [rustls::SignatureScheme]. *)
Inductive SignatureScheme := ED25519 | OtherScheme (code : Z).
#[export] Instance SignatureScheme_eq_dec : EqDecision SignatureScheme.
Proof using. solve_decision. Defined.

(** src/src/bit_torrent/certs/tee.rs:28-40 [RustlsSigningKey for TeeSigner]

    The scheme of the signer that is chosen, if any; the key has no other. *)
Definition choose_scheme (offered : list SignatureScheme) : option SignatureScheme :=
  if bool_decide (ED25519 ∈ offered) then Some ED25519 else None.

(** src/src/bit_torrent/certs/tee.rs:42-53 [RustlsSigner for TeeSigner] *)
Definition tee_signer_sign (msg : list Z) (h : Host) : option (Host * Result string (list Z)) :=
  '(h, r) ← tee_sign fuel run_ends msg h; Some (h, map_err (λ _, "TEE signing failed") r).

(** src/src/bit_torrent/certs/tee.rs:115-117 [KeyIdentity::cert_der for TeeKeyIdentity] *)
Definition tee_cert_der (self : TeeKeyIdentity) : list Z := tki_cert self.

(** src/src/bit_torrent/certs/tee.rs:119-122 [KeyIdentity::certified_key for TeeKeyIdentity]

    The chain, and the public key of the signer in the enclave. *)
Definition tee_certified_key (self : TeeKeyIdentity) : list (list Z) * list Z :=
  ([tee_cert_der self], tki_pub_key self).

(** src/src/bit_torrent/certs/tee.rs:132-137 [Verifier for TeeKeyIdentity] *)
Definition tee_verify (pub_key data signature : list Z) : bool := ed25519_verify pub_key data signature.

(** src/src/bit_torrent/certs/tee.rs:124-130 [Signer::sign for TeeKeyIdentity]

    Through the signer of lines 42-53. *)
Definition tee_identity_sign (data : list Z) (h : Host)
    : option (Host * Result CertError (list Z)) :=
  '(h, r) ← tee_sign fuel run_ends data h; Some (h, map_err (λ _, CertTee) r).
End tee.

(** * The certificate directory *)

Inductive CertsError :=
| NoDirectory
| NotFound (path : Path)
| CertIo (e : FsError)
| CertFailure (e : CertError).

Section storage.
Context `{Crypto} `{Rcgen} (root : bool) (cwd : Location).
Context (xdg_data_home project_data_dir : option Path).
Notation certs_dir := (certs_dir xdg_data_home project_data_dir).
Notation swarm_dir := (swarm_dir xdg_data_home project_data_dir).

(** src/src/utils/certs.rs:26-26 [CERTIFICATE_ROOT_PATH] *)
Definition CERTIFICATE_ROOT_PATH : string := "ca.der".
(** src/src/utils/certs.rs:28-28 [PRIVATE_KEY_PATH] *)
Definition PRIVATE_KEY_PATH : string := "root_pk.der".

(** src/src/utils/certs.rs:22-24 [CertOptions] *)
Record CertOptions := mkCertOptions { co_dir : option Path }.

(** src/src/utils/certs.rs:31-35 [CertOptions::new] *)
Definition CertOptions_new (dir : Path) : CertOptions := mkCertOptions (Some dir).

(** src/src/utils/certs.rs:45-49 [Default for CertOptions] *)
Definition CertOptions_default : CertOptions := mkCertOptions certs_dir.

(** src/src/utils/certs.rs:37-42 [CertOptions::resolve_dir] *)
Definition resolve_dir (self : CertOptions) : Result CertsError Path :=
  match co_dir self with
  | Some dir => Ok dir
  | None => ok_or NoDirectory certs_dir
  end.

(** A step on the files, with its error. *)
Definition io {A} (m : Io A) (fs : Fs) : Fs * Result CertsError A :=
  match m fs with (fs, r) => (fs, map_err CertIo r) end.

(** src/src/utils/certs.rs:51-56 [ensure_directories] *)
Definition ensure_directories (fs : Fs) : Fs * Result CertsError unit :=
  match swarm_dir with
  | None => (fs, Err NoDirectory)
  | Some swarm_directory => io (ensure_dir root cwd swarm_directory) fs
  end.

(** src/src/utils/certs.rs:58-82 [store_cert]

    Without the feature [tee]: the certificate, then the private key. *)
Definition store_cert (cert : SoftwareKeyIdentity) (options : CertOptions) (fs : Fs)
    : Fs * Result CertsError unit :=
  match resolve_dir options with
  | Err e => (fs, Err e)
  | Ok dir =>
    io (_ ← ensure_dir root cwd dir;
        let '(cert_der, pk_der) := to_bytes_der cert in
        _ ← write root cwd (join dir [CERTIFICATE_ROOT_PATH]) cert_der;
        write root cwd (join dir [PRIVATE_KEY_PATH]) pk_der) fs
  end.

(** src/src/utils/certs.rs:135-159 [read_cert]

    Without the feature [tee]. *)
Definition read_cert (options : CertOptions) (fs : Fs) : Result CertsError SoftwareKeyIdentity :=
  let? dir := resolve_dir options in
  let ca_path := join dir [CERTIFICATE_ROOT_PATH] in
  if negb (exists_ root cwd fs ca_path) then Err (NotFound ca_path)
  else
    let pk_path := join dir [PRIVATE_KEY_PATH] in
    if negb (exists_ root cwd fs pk_path) then Err (NotFound pk_path)
    else
      let? pk := map_err CertIo (read root cwd fs pk_path) in
      let? ca := map_err CertIo (read root cwd fs ca_path) in
      map_err CertFailure (from_bytes_der ca pk).

(** src/src/utils/certs.rs:168-181 [make_ca_root]

    [rnd] is the randomness a new root is made with. *)
Definition make_ca_root (rnd : nat) (fs : Fs) : Fs * Result CertsError SoftwareKeyIdentity :=
  match read_cert CertOptions_default fs with
  | Ok certificate => (fs, Ok certificate)
  | Err _ =>
    match soft_root rnd "BQTI - Certificate" with
    | Err e => (fs, Err (CertFailure e))
    | Ok ca_root =>
      match store_cert ca_root CertOptions_default fs with
      | (fs, Ok _) => (fs, Ok ca_root)
      | (fs, Err e) => (fs, Err e)
      end
    end
  end.

(** src/src/cli.rs:122-126 [CertType] *)
Inductive CertType := CertRoot | CertLeaf.

(** src/src/standalone.rs:156-203 [handle_certs]

    Without the feature [tee]; what is printed is not part of the result. *)
Definition handle_certs (rnd : nat) (kind : CertType) (output : option Path) (fs : Fs)
    : Fs * Result CertsError unit :=
  match output, certs_dir with
  | None, None => (fs, Err NoDirectory)
  | _, _ =>
    let dir := match output with Some path => path | None => default [] certs_dir end in
    match make_ca_root rnd fs with
    | (fs, Err e) => (fs, Err e)
    | (fs, Ok ca_root) =>
      match kind with
      | CertRoot => store_cert ca_root (CertOptions_new dir) fs
      | CertLeaf =>
        match soft_leaf (S rnd) ca_root "localhost" true with
        | Err e => (fs, Err (CertFailure e))
        | Ok leaf =>
          match store_cert ca_root (CertOptions_new dir) fs with
          | (fs, Err e) => (fs, Err e)
          | (fs, Ok _) => store_cert leaf (CertOptions_new dir) fs
          end
        end
      end
    end
  end.
End storage.

(** * Lemmas *)

(** What the program relies on of the crates: a key survives its encoding, and a
    signature made with it has 64 bytes and verifies. *)
Class RcgenLaws `{Crypto} `{Rcgen} : Prop := {
  der_roundtrip k : key_from_der (serialize_der k) = Some k;
  pkcs8_verifies k sign d : pkcs8_sign (serialize_der k) = Some sign →
    ed25519_verify (public_key_raw k) d (sign d) = true;
  pkcs8_length k sign d : pkcs8_sign (serialize_der k) = Some sign → length (sign d) = 64;
}.

(** The software identity is a signer of the kind the admission to the DHT and
    the tokens are proved for. *)
#[export] Instance soft_signer_laws `{RcgenLaws} id : SignerLaws (soft_signer id).
Proof.
  split; cbn; unfold soft_sign; intros d sig; destruct (pkcs8_sign _) as [sign|] eqn:E;
    intros [= <-]; [by eapply pkcs8_verifies|by eapply pkcs8_length].
Qed.

Section storage_lemmas.
Context `{RcgenLaws} (root : bool) (cwd : Location).
Context (xdg_data_home project_data_dir : option Path).

(** A regular file, or nothing, at a location: readable, and its inode there. *)
Definition plain_file (fs : Fs) (r : Location) : Prop :=
  straight fs r ∧
  (node fs r = None ∨
   ∃ i, node fs r = Some (NFile i) ∧ is_Some (inodes fs !! i) ∧ can_read root (mode_of fs i) = true).

(** Two such places that are not names of one file. *)
Definition separate (fs : Fs) (r q : Location) : Prop :=
  r ≠ q ∧ ∀ i, node fs r = Some (NFile i) → node fs q ≠ Some (NFile i).

Lemma read_file fs r i m b :
  resolve root cwd fs true ("/" :: r) = Ok r → node fs r = Some (NFile i) →
  inodes fs !! i = Some (mkInode m b) → can_read root m = true →
  exists_ root cwd fs ("/" :: r) = true ∧ read root cwd fs ("/" :: r) = Ok b.
Proof.
  intros Hr Hn Hi Hm. unfold exists_, read, stat. rewrite Hr. cbn [rbind]. rewrite Hn.
  cbn [ok_or rbind is_ok]. rewrite Hi. cbn [i_mode i_data]. by rewrite Hm.
Qed.

(** Writing one of the two and then the other leaves both. *)
Lemma write_both fs fs1 fs2 r q a b :
  plain_file fs r → plain_file fs q → separate fs r q → r ≠ [] → q ≠ [] →
  straight fs1 q → write root cwd ("/" :: r) a fs = (fs1, Ok tt) →
  write root cwd ("/" :: q) b fs1 = (fs2, Ok tt) →
  (exists_ root cwd fs2 ("/" :: r) = true ∧ read root cwd fs2 ("/" :: r) = Ok a) ∧
  (exists_ root cwd fs2 ("/" :: q) = true ∧ read root cwd fs2 ("/" :: q) = Ok b).
Proof.
  intros [Hr Pr] [Hq Pq] [Hrq Hsep] Hr0 Hq0 Hq1 Wr Wq.
  apply write_spec in Wr as (i & m & Hi & Hia & Hcase & Ho1 & Hin1 & Ht1 & Hres1); [|done..].
  apply write_spec in Wq as (j & n & Hj & Hjb & Hcase2 & Ho2 & Hin2 & Ht2 & Hres2); [|done..].
  assert (Hij : i ≠ j).
  { intros <-. rewrite (Ho1 q) in Hcase2 by done.
    destruct Hcase2 as [[Hqi _]|(_ & Hnone & _)]; [|congruence].
    destruct Hcase as [[Hri _]|(_ & Hnone & _)]; [by eapply Hsep|].
    destruct Pq as [?|(k & ? & [x ?] & _)]; [congruence|]. simplify_eq; congruence. }
  assert (Hm : can_read root m = true).
  { destruct Hcase as [[Hri ->]|(_ & _ & ->)]; [|apply orb_true_r].
    destruct Pr as [?|(k & ? & _ & ?)]; [congruence|]. by simplify_eq. }
  assert (Hn : can_read root n = true).
  { destruct Hcase2 as [[Hqj ->]|(_ & _ & ->)]; [|apply orb_true_r].
    rewrite (Ho1 q) in Hqj by done. destruct Pq as [?|(k & ? & _ & ?)]; [congruence|]. simplify_eq.
    unfold mode_of. rewrite (Hin1 k); [done|]. congruence. }
  split; [|by eapply read_file]. eapply (read_file fs2 r i m a); [|by rewrite Ho2| |done].
  - eapply resolve_more; [done|done|]. by rewrite Hi.
  - by rewrite Hin2.
Qed.

(** What [store_cert] leaves is what [read_cert] finds. *)
Lemma store_read id c fs fs' :
  let ca := c ++ [CERTIFICATE_ROOT_PATH] in
  let pk := c ++ [PRIVATE_KEY_PATH] in
  plain_file fs ca → plain_file fs pk → separate fs ca pk →
  store_cert root cwd xdg_data_home project_data_dir id (CertOptions_new ("/" :: c)) fs
    = (fs', Ok tt) →
  read_cert root cwd xdg_data_home project_data_dir (CertOptions_new ("/" :: c)) fs' = Ok id.
Proof.
  intros ca pk Hca Hpk Hsep. unfold store_cert, read_cert, io. cbn [resolve_dir CertOptions_new co_dir rbind].
  rewrite !join_name by done. fold ca pk. unfold mbind, Io_bind, ensure_dir.
  assert (Hc : straight fs c) by (destruct Hca as [Hca _]; eapply straight_prefix; [done|by eexists]).
  pose proof (create_dir_all_straight root cwd 511 c fs Hc) as Ha.
  destruct (create_dir_all _ _ 511 _ fs) as [fs1 [[]|]]; [|done]. cbn [fst] in Ha.
  assert (Hkeep : ∀ x, node fs1 (c ++ [x]) = node fs (c ++ [x])).
  { intros x. destruct (node fs (c ++ [x])) as [n|] eqn:E; [by apply (grows_node fs); [apply Ha|]|].
    destruct (proj2 Ha _ E) as [?|[Hp _]]; [done|]. apply prefix_length in Hp.
    rewrite length_app in Hp. simpl in Hp. lia. }
  assert (Hplain : ∀ x, plain_file fs (c ++ [x]) → plain_file fs1 (c ++ [x])).
  { intros x [Hx Px]. split; [by eapply adds_dirs_straight|]. unfold mode_of.
    rewrite Hkeep, (proj2 (proj1 Ha)). exact Px. }
  cbn [to_bytes_der].
  destruct (write root cwd ("/" :: ca) (soft_cert_der id) fs1) as [fs2 [[]|]] eqn:W1; [|done].
  destruct (write root cwd ("/" :: pk) (serialize_der (key_pair id)) fs2) as [fs3 [[]|]] eqn:W2;
    [|done]. intros [= <-].
  assert (Hs2 : straight fs2 pk).
  { destruct (Hplain PRIVATE_KEY_PATH Hpk) as [[Hn Hl] _].
    pose proof W1 as W. apply write_spec in W as (i & m & Hi & _ & _ & Ho & _);
      [|by apply Hplain|by destruct c]. split; [done|]. intros q t Hq.
    destruct (decide (q = ca)) as [->|]; [by rewrite Hi|]. rewrite Ho by done. by apply Hl. }
  destruct (write_both fs1 fs2 fs3 ca pk (soft_cert_der id) (serialize_der (key_pair id))
    (Hplain _ Hca) (Hplain _ Hpk)) as [[E1 R1] [E2 R2]];
    [|by destruct c|by destruct c|done|exact W1|exact W2|].
  { destruct Hsep as [Hne Hsep]. split; [done|]. intros i. unfold ca, pk in *. rewrite !Hkeep.
    apply Hsep. }
  rewrite E1, E2, R1, R2. cbn. unfold from_bytes_der. rewrite der_roundtrip. by destruct id.
Qed.
End storage_lemmas.

(** ** Chains *)

(** A leaf of a software identity is signed by the key of that identity, over a
    certificate that names it as the issuer. *)
Lemma soft_leaf_chain `{RcgenLaws} rnd id cn as_ca leaf :
  soft_leaf rnd id cn as_ca = Ok leaf →
  ∃ t sig, cert_der leaf = assemble t sig ∧
    tbs cn as_ca (soft_pub_key leaf) (Some (cert_der id)) = Some t ∧
    ed25519_verify (soft_pub_key id) t sig = true.
Proof.
  unfold soft_leaf, sign_cert. destruct (generate rnd) as [k|]; [|done]. cbn.
  destruct (tbs cn as_ca _ _) as [t|] eqn:Et; [|done]. cbn.
  destruct (pkcs8_sign _) as [sign|] eqn:Es; [|done]. cbn. intros [= <-].
  exists t, (sign t). split_and!; [done|done|]. by eapply pkcs8_verifies.
Qed.

(** A leaf of an enclave identity is signed by itself: it has the key of the
    identity and names no issuer. *)
Lemma tee_leaf_self_signed `{CryptoLaws} `{EnclaveLibs} `{Rcgen} `{!EnclaveLaws} fuel run_ends
    id cn as_ca h h' leaf :
  run_ends (runs h) = true →
  (∀ t, tbs cn as_ca (tki_pub_key id) None = Some t → length t ≤ DATA_MAX_LENGTH) →
  tee_leaf fuel run_ends id cn as_ca h = Some (h', Ok leaf) →
  tki_pub_key leaf = tki_pub_key id ∧
  ∃ t sig, tki_cert leaf = assemble t sig ∧ tbs cn as_ca (tki_pub_key id) None = Some t ∧
    ed25519_verify enclave_pk t sig = true.
Proof.
  intros Hr Hlen. unfold tee_leaf, tee_self_signed, rcgen_sign.
  destruct (tbs cn as_ca _ None) as [t|]; [|done].
  destruct (tee_sign_runs fuel run_ends t h) as [resp ->]; [done|by apply Hlen|]. cbn.
  intros [= _ <-]. split; [done|]. eexists t, _. split_and!; [done|done|].
  apply eapp_sign_verifies.
Qed.

(** * Claims *)

(** An identity that was stored is read back: the certificate and the
    private key written to a directory are those a later start finds there. *)
Theorem store_cert_roundtrip `{RcgenLaws} (root : bool) (cwd : Location) (xdg project : option Path)
    (id : SoftwareKeyIdentity) (c : Location) (fs fs' : Fs) :
  let ca := c ++ [CERTIFICATE_ROOT_PATH] in
  let pk := c ++ [PRIVATE_KEY_PATH] in
  plain_file root fs ca → plain_file root fs pk → separate fs ca pk →
  store_cert root cwd xdg project id (CertOptions_new ("/" :: c)) fs = (fs', Ok tt) →
  read_cert root cwd xdg project (CertOptions_new ("/" :: c)) fs' = Ok id.
Proof. apply store_read. Qed.

Module CertsExamples.
#[local] Existing Instance Toy.ToyCrypto.
#[local] Existing Instance Toy.ToyCryptoLaws.

(** A key is a number, its own encoding; a certificate is what was signed with
    its signature. *)
#[local] Instance rcgen : Rcgen := {
  KeyPair := Z;
  key_from_der bytes := match bytes with [k] => Some k | _ => None end;
  serialize_der k := [k];
  public_key_raw k := [k];
  generate n := Some (Z.of_nat n);
  pkcs8_sign der := Some (λ d, replicate 64 (Toy.checksum (der ++ d)));
  tbs cn ca pk issuer := Some (pk ++ take 1 (default [] issuer));
  assemble t sig := t ++ take 1 sig;
}.

#[local] Instance rcgen_laws : RcgenLaws.
Proof.
  split; [done| |]; intros k sign d [= <-]; [by apply bool_decide_eq_true|reflexivity].
Qed.

Definition empty_disk : Fs := mkFs (list_to_map [(["data"], NDir 448)]) ∅.
Definition xdg : option Path := Some ["/"; "data"].
Definition dir : Location := ["data"; "bqti"; "certs"].
Definition alice : SoftwareKeyIdentity := mkSoft 5%Z [1; 2]%Z.
Definition stored : Fs * Result CertsError unit :=
  store_cert false [] xdg None alice (CertOptions_new ("/" :: dir)) empty_disk.

Lemma store_cert_roundtrip_witness :
  read_cert false [] xdg None (CertOptions_new ("/" :: dir)) stored.1 = Ok alice.
Proof.
  apply (store_cert_roundtrip false [] xdg None alice dir empty_disk stored.1).
  - split; [apply straightb_ok; vm_compute; reflexivity|left; reflexivity].
  - split; [apply straightb_ok; vm_compute; reflexivity|left; reflexivity].
  - split; [discriminate|]. intros i. vm_compute. discriminate.
  - refine (DiskExamples.pair_of stored (Ok tt) _). vm_compute. reflexivity.
Defined.

(** The private key is readable by every user. *)
Example key_is_world_readable :
  (λ x, i_mode x) <$> (match node stored.1 (dir ++ ["root_pk.der"]) with
                       | Some (NFile i) => inodes stored.1 !! i
                       | _ => None end) = Some 420%Z.
Proof. by vm_compute. Qed.

Definition start (fs : Fs) := make_ca_root false [] xdg None 7 fs.
Definition leaf_command (fs : Fs) := handle_certs false [] xdg None 7 CertLeaf None fs.

Definition id_bytes {E} (r : Result E SoftwareKeyIdentity) : option (list Z * list Z) :=
  match r with Ok id => Some (to_bytes_der id) | Err _ => None end.

Definition first_start : Fs * Result CertsError SoftwareKeyIdentity := start empty_disk.
Definition after_leaf : Fs := (leaf_command first_start.1).1.

(** A root is made once and found again. *)
Example root_is_kept : id_bytes (start first_start.1).2 = id_bytes first_start.2 ∧
  id_bytes first_start.2 = Some ([7; 14]%Z, [7%Z]).
Proof. by vm_compute. Qed.

(** The command for a leaf writes it over the root: the next start takes the
    leaf for the root. *)
Example leaf_replaces_root :
  id_bytes (start after_leaf).2 =
    id_bytes (let? ca := map_err (λ _, CertFailed) first_start.2 in soft_leaf 8 ca "localhost" true) ∧
  id_bytes (start after_leaf).2 = Some ([8; 7; 22]%Z, [8%Z]).
Proof. by vm_compute. Qed.

(** When the key cannot be read, a new certificate is written over the old one,
    also when the new key cannot be written. *)
Example unreadable_key_loses_certificate :
  let fs := (start empty_disk).1 in
  match node fs (dir ++ ["root_pk.der"]) with
  | Some (NFile i) =>
    let locked := set_inode i (mkInode 0 [7%Z]) fs in
    let '(fs1, r) := make_ca_root false [] xdg None 9 locked in
    is_ok r = false ∧
    read false [] fs1 ("/" :: dir ++ ["ca.der"]) ≠ read false [] fs ("/" :: dir ++ ["ca.der"])
  | _ => False
  end.
Proof. by vm_compute. Qed.
End CertsExamples.
