(* ===== verification/PgpKeys.v ===== *)
(** The swarm keys a node trusts: [load_pgp_keys] and [load_pgp_signagure] of
    [utils/certs.rs], the thread of [dht/auth/manager.rs] that follows the
    directory of the keys, and the construction of the [AuthManager].

    Parsing and printing a PGP key are the [pgp] crate's.  The watcher reports
    changes as events; each is handled on the file system as it is then. *)

From Stdlib Require Import Ascii.
From S2P Require Import Prelude Net Crypto Auth Tee Fs Disk Certs.

(** * Loading keys *)

(** The text before and after the last dot. *)
Fixpoint rsplit_dot (s : string) : option (string * string) :=
  match s with
  | "" => None
  | String c s =>
    match rsplit_dot s with
    | Some (a, b) => Some (String c a, b)
    | None => if bool_decide (c = "."%char) then Some ("", s) else None
    end
  end.

(** [Path::extension]. *)
Definition extension (p : Path) : option string :=
  n ← path_file_name p;
  match rsplit_dot n with
  | Some ("", _) | None => None
  | Some (_, e) => Some e
  end.

Section keys.
Context `{Crypto} `{AuthCrypto} (root : bool) (cwd : Location).
(** [SignedPublicKey::from_armor_file] on the bytes of a file, and [to_bytes]. *)
Context (from_armor : list Z → option PgpKey) (key_bytes : PgpKey → option (list Z)).

(** src/src/utils/certs.rs:84-89 [extract_swarm_id] *)
Definition extract_swarm_id (public_key : PgpKey) : option (list Z) :=
  sha256 <$> key_bytes public_key.

Definition from_armor_file (fs : Fs) (p : Path) : option PgpKey :=
  match read root cwd fs p with Ok bytes => from_armor bytes | Err _ => None end.

(** src/src/utils/certs.rs:91-106 [load_pgp_keys]

    [None] is an error. *)
Fixpoint load_into (fs : Fs) (keys : gmap (list Z) PgpKey) (paths : list Path)
    : option (gmap (list Z) PgpKey) :=
  match paths with
  | [] => Some keys
  | file_path :: paths =>
    if negb (bool_decide (extension file_path = Some "asc")) then load_into fs keys paths
    else
      public_key ← from_armor_file fs file_path;
      swarm_id ← extract_swarm_id public_key;
      load_into fs (<[swarm_id := public_key]> keys) paths
  end.

Definition load_pgp_keys (fs : Fs) (paths : list Path) : option (gmap (list Z) PgpKey) :=
  load_into fs ∅ paths.

(** * The signature of a bootstrap node *)

Context (xdg_data_home project_data_dir : option Path).
(** [DetachedSignature::from_bytes] and its [to_bytes]. *)
Context (Signature : Type) (signature_from : list Z → option Signature).

(** src/src/utils/certs.rs:108-132 [load_pgp_signagure] *)
Definition load_pgp_signagure (fs : Fs) : option (list Z * Signature) :=
  dir ← certs_dir xdg_data_home project_data_dir;
  let swarm_pubkey := join dir ["swarm.asc"] in
  let pgp_signature := join dir [CERTIFICATE_ROOT_PATH +:+ ".sig"] in
  if negb (exists_ root cwd fs pgp_signature) || negb (exists_ root cwd fs swarm_pubkey) then None
  else
    match read root cwd fs pgp_signature with
    | Err _ => None
    | Ok sig_bytes =>
      public_key ← from_armor_file fs swarm_pubkey;
      swarm_id ← extract_swarm_id public_key;
      signature ← signature_from sig_bytes;
      Some (swarm_id, signature)
    end.

(** * Following the directory *)

(** The kinds of [notify::EventKind] that are told apart, with the paths of the
    event; [WatchError] is an error of the watcher. *)
Inductive WatchEvent :=
| Create (paths : list Path)
| Modify (paths : list Path)
| Remove
| OtherKind
| WatchError.

(** [HashMap::extend]. *)
Definition extend_keys (new keys : gmap (list Z) PgpKey) : gmap (list Z) PgpKey := new ∪ keys.

Definition directory_keys (swarm_dir : Path) (fs : Fs) : option (gmap (list Z) PgpKey) :=
  paths ← inner_files root cwd fs swarm_dir; load_pgp_keys fs paths.

(** src/src/bit_torrent/dht/auth/manager.rs:242-249 [watch_pgp_keys_directory, the start] *)
Definition watch_start (swarm_dir : Path) (fs : Fs) (keys : gmap (list Z) PgpKey)
    : gmap (list Z) PgpKey :=
  match directory_keys swarm_dir fs with
  | Some loaded => extend_keys loaded keys
  | None => keys
  end.

(** src/src/bit_torrent/dht/auth/manager.rs:251-292 [watch_pgp_keys_directory, one event] *)
Definition watch_event (swarm_dir : Path) (keys : gmap (list Z) PgpKey) (fs : Fs) (e : WatchEvent)
    : gmap (list Z) PgpKey :=
  match e with
  | WatchError | OtherKind => keys
  | Create paths | Modify paths =>
    match load_pgp_keys fs paths with
    | Some k => if bool_decide (k = ∅) then keys else extend_keys k keys
    | None => keys
    end
  | Remove =>
    match directory_keys swarm_dir fs with
    | Some k => if bool_decide (k = ∅) then ∅ else extend_keys k ∅
    | None => ∅
    end
  end.

(** src/src/bit_torrent/dht/auth/manager.rs:223-294 [watch_pgp_keys_directory]

    The events with the file system at each; [watching] is whether the watcher
    could be started. *)
Definition watch_pgp_keys_directory (watching : bool) (fs : Fs) (events : list (Fs * WatchEvent))
    : gmap (list Z) PgpKey :=
  match swarm_dir xdg_data_home project_data_dir with
  | None => ∅
  | Some swarm_dir =>
    if negb watching then ∅
    else foldl (λ keys '(fs, e), watch_event swarm_dir keys fs e) (watch_start swarm_dir fs ∅) events
  end.

(** * The manager *)

Context `{Rcgen} (signature_to : Signature → option (list Z)).

(** src/src/bit_torrent/dht/auth/manager.rs:46-86 [AuthManager::new]

    [rnd] makes the leaf's key and [salt] is the first salt; the two tasks it
    spawns are [refresh_salt] and [watch_pgp_keys_directory]. *)
Definition auth_new (rnd : nat) (salt : list Z) (ca_root : SoftwareKeyIdentity) (cert_name : string)
    (fs : Fs) : Result CertError AuthManager :=
  let? leaf_certificate := soft_leaf rnd ca_root cert_name false in
  let pgp_signature := load_pgp_signagure fs in
  Ok (mkAuth (cert_der ca_root)
        ((λ '(id, sig), (id, signature_to sig)) <$> pgp_signature)
        (soft_signer leaf_certificate) salt None).

(** src/src/bit_torrent/dht/auth/manager.rs:71-81 [AuthManager::new, the refresh of the salt] *)
Definition refresh_salt (salt : list Z) (self : AuthManager) : AuthManager :=
  mkAuth (ca_root_der self) (pgp_details self) (inner_cert self) salt (token self).
End keys.

(** * Lemmas *)

Section key_lemmas.
Context `{Crypto} `{AuthCrypto} (root : bool) (cwd : Location).
Context (from_armor : list Z → option PgpKey) (key_bytes : PgpKey → option (list Z)).
Notation load_pgp_keys := (load_pgp_keys root cwd from_armor key_bytes).
Notation load_into := (load_into root cwd from_armor key_bytes).
Notation directory_keys := (directory_keys root cwd from_armor key_bytes).
Notation watch_event := (watch_event root cwd from_armor key_bytes).
Notation watch_start := (watch_start root cwd from_armor key_bytes).

(** The key in a file, with the hash it is filed under. *)
Definition key_of (fs : Fs) (p : Path) : option (list Z * PgpKey) :=
  k ← from_armor_file root cwd from_armor fs p;
  id ← extract_swarm_id key_bytes k; Some (id, k).

Definition asc (p : Path) : Prop := extension p = Some "asc".

(** What a load makes of the files it is given. *)
Lemma load_into_Some fs acc paths :
  (∀ p, p ∈ paths → asc p → is_Some (key_of fs p)) →
  ∃ keys, load_into fs acc paths = Some keys ∧
    (∀ id k, keys !! id = Some k → acc !! id = Some k ∨ ∃ p, p ∈ paths ∧ asc p ∧ key_of fs p = Some (id, k)) ∧
    (∀ id, is_Some (keys !! id) ↔
       is_Some (acc !! id) ∨ ∃ p k, p ∈ paths ∧ asc p ∧ key_of fs p = Some (id, k)).
Proof.
  unfold asc. revert acc. induction paths as [|p paths IH]; intros acc Hall; cbn [PgpKeys.load_into].
  { exists acc. split_and!; [done|by left|]. intros id. split; [by left|].
    intros [?|(p & k & Hp & _)]; [done|by apply elem_of_nil in Hp]. }
  assert (∀ q, q ∈ paths → extension q = Some "asc" → is_Some (key_of fs q)) as Hrest.
  { intros q Hq. apply Hall. by right. }
  case_bool_decide as Hx; cbn [negb].
  - destruct (Hall p) as [[id0 k0] E0]; [by left|done|]. pose proof E0 as E. unfold key_of in E.
    destruct (from_armor_file root cwd from_armor fs p) as [k1|]; [|done]. cbn in E |- *.
    destruct (extract_swarm_id key_bytes k1) as [id1|]; [|done]. cbn in E |- *. injection E as -> ->.
    destruct (IH (<[id0 := k0]> acc) Hrest) as (keys & Hk & Hs & Hm). exists keys. split_and!; [done|..].
    + intros id k Hl. destruct (Hs id k Hl) as [Hin|(q & Hq & ?)]; [|right; exists q; by split; [right|]].
      apply lookup_insert_Some in Hin as [[<- <-]|[_ ?]]; [|by left].
      right. exists p. split; [left|done].
    + intros id. rewrite Hm, lookup_insert_is_Some'. setoid_rewrite elem_of_cons. naive_solver.
  - destruct (IH acc Hrest) as (keys & Hk & Hs & Hm). exists keys. split_and!; [done|..].
    + intros id k Hl. destruct (Hs id k Hl) as [?|(q & Hq & ?)]; [by left|].
      right. exists q. by split; [right|].
    + intros id. rewrite Hm. setoid_rewrite elem_of_cons. naive_solver.
Qed.

Lemma load_into_None fs acc paths p :
  p ∈ paths → asc p → key_of fs p = None → load_into fs acc paths = None.
Proof.
  unfold asc. intros Hp Hx Hn. revert acc Hp.
  induction paths as [|q paths IH]; intros acc Hp; [by apply elem_of_nil in Hp|].
  cbn [PgpKeys.load_into]. apply elem_of_cons in Hp as [<-|Hp].
  - rewrite bool_decide_eq_true_2 by done. cbn [negb]. unfold key_of in Hn.
    destruct (from_armor_file root cwd from_armor fs p) as [k|]; [|done]. cbn in Hn |- *.
    by destruct (extract_swarm_id key_bytes k).
  - case_bool_decide; cbn [negb]; [|by apply IH].
    destruct (from_armor_file _ _ _ _ q) as [k|]; [|done]. cbn.
    destruct (extract_swarm_id key_bytes k); [|done]. cbn. by apply IH.
Qed.

(** The keys of a set of files: the hash of each, if all can be read as keys. *)
Definition keys_of (fs : Fs) (among : Path → Prop) (keys : gmap (list Z) PgpKey) : Prop :=
  (∀ id k, keys !! id = Some k → ∃ p, among p ∧ asc p ∧ key_of fs p = Some (id, k)) ∧
  ∀ id, is_Some (keys !! id) ↔ ∃ p k, among p ∧ asc p ∧ key_of fs p = Some (id, k).

Lemma load_pgp_keys_Some fs paths :
  (∀ p, p ∈ paths → asc p → is_Some (key_of fs p)) →
  ∃ keys, load_pgp_keys fs paths = Some keys ∧ keys_of fs (.∈ paths) keys.
Proof.
  intros (keys & Hk & Hs & Hm)%(load_into_Some _ ∅). exists keys. split_and!; [done|split].
  - intros id k Hl. destruct (Hs id k Hl) as [Hin|?]; [|done]. by rewrite lookup_empty in Hin.
  - intros id. rewrite Hm, lookup_empty. split; [intros [[? [=]]|?]; done|by right].
Qed.

Lemma load_pgp_keys_inv fs paths keys :
  load_pgp_keys fs paths = Some keys → keys_of fs (.∈ paths) keys.
Proof.
  intros Hl. destruct (load_pgp_keys_Some fs paths) as (keys' & Hl' & Hk); [|congruence].
  intros p Hp Hx. destruct (key_of fs p) eqn:E; [done|].
  unfold PgpKeys.load_pgp_keys in Hl. by erewrite load_into_None in Hl.
Qed.

(** The entries of a directory. *)
Definition entry (fs : Fs) (d : Path) (l : Location) (p : Path) : Prop :=
  ∃ name, is_Some (node fs (l ++ [name])) ∧ p = join d [name].

Lemma elem_of_children fs l name : name ∈ children fs l ↔ is_Some (node fs (l ++ [name])).
Proof.
  replace (node fs (l ++ [name])) with (tree fs !! (l ++ [name])) by by destruct l.
  unfold children. rewrite list_elem_of_omap. split.
  - intros (q & Hq & E). case_bool_decide as Hr; [|done]. apply list_elem_of_fmap in Hq as ([q' n] & -> & Hq).
    apply elem_of_map_to_list in Hq. cbn in *. apply last_Some in E as [q0 ->].
    rewrite removelast_app_one in Hr. subst. by rewrite Hq.
  - intros [n Hn]. exists (l ++ [name]). split.
    + apply list_elem_of_fmap. exists (l ++ [name], n). split; [done|]. by apply elem_of_map_to_list.
    + by rewrite bool_decide_eq_true_2, last_snoc by by rewrite removelast_app_one.
Qed.

Lemma inner_files_entries fs d l m :
  stat root cwd fs d = Ok (l, NDir m) → can_read root m = true →
  ∃ paths, inner_files root cwd fs d = Some paths ∧ ∀ p, p ∈ paths ↔ entry fs d l p.
Proof.
  intros Hs Hr. unfold inner_files, read_dir, liftR, gets, mbind, Io_bind. rewrite Hs. cbn -[join]. rewrite Hr.
  eexists. split; [reflexivity|]. intros p. rewrite list_elem_of_fmap. unfold entry.
  setoid_rewrite elem_of_children. naive_solver.
Qed.

(** Keys are filed under their own hash. *)
Definition filed (keys : gmap (list Z) PgpKey) : Prop :=
  ∀ id k, keys !! id = Some k → extract_swarm_id key_bytes k = Some id.

Lemma load_filed fs paths keys : load_pgp_keys fs paths = Some keys → filed keys.
Proof.
  intros [Hs _]%load_pgp_keys_inv id k Hk. destruct (Hs id k Hk) as (p & _ & _ & E). unfold key_of in E.
  destruct (from_armor_file _ _ _ _ p) as [k'|]; [|done]. cbn in E.
  destruct (extract_swarm_id key_bytes k') eqn:Ei; [|done]. cbn in E. by simplify_eq.
Qed.

Lemma extend_filed new keys : filed new → filed keys → filed (extend_keys new keys).
Proof. intros Hn Hk id k [?|[_ ?]]%lookup_union_Some_raw; auto. Qed.

Lemma empty_filed : filed ∅.
Proof. intros id k. by rewrite lookup_empty. Qed.

Lemma directory_filed d fs keys : directory_keys d fs = Some keys → filed keys.
Proof.
  unfold PgpKeys.directory_keys. destruct (inner_files _ _ _ _) as [paths|]; [|done].
  apply load_filed.
Qed.

Lemma watch_event_filed d keys fs e : filed keys → filed (watch_event d keys fs e).
Proof.
  intros Hf. destruct e as [ps|ps| | |]; cbn; [| | |done|done].
  1,2: destruct (load_pgp_keys fs ps) as [k|] eqn:E; [|done]; case_bool_decide; [done|];
       apply extend_filed; [by eapply load_filed|done].
  destruct (directory_keys d fs) as [k|] eqn:E; [|apply empty_filed].
  case_bool_decide; [apply empty_filed|]. apply extend_filed; [by eapply directory_filed|].
  apply empty_filed.
Qed.

Lemma watch_start_filed d fs : filed (watch_start d fs ∅).
Proof.
  unfold PgpKeys.watch_start. destruct (directory_keys d fs) eqn:E; [|apply empty_filed].
  apply extend_filed; [by eapply directory_filed|apply empty_filed].
Qed.

(** Whatever happens, the keys are filed under their hashes. *)
Lemma trusted_filed d fs events :
  filed (foldl (λ keys '(fs, e), watch_event d keys fs e) (watch_start d fs ∅) events).
Proof.
  generalize (watch_start_filed d fs). generalize (watch_start d fs ∅).
  induction events as [|[fs1 e1] es IH]; intros keys Hf; [done|].
  cbn [foldl]. by apply IH, watch_event_filed.
Qed.

Lemma remove_event d keys fs :
  watch_event d keys fs Remove = default ∅ (directory_keys d fs).
Proof.
  cbn. destruct (directory_keys d fs) as [k|]; [|done]. cbn. case_bool_decide as E; [by rewrite E|].
  unfold extend_keys. by rewrite (right_id_L ∅ (∪)).
Qed.

(** Files reported as created or modified. *)
Lemma report_event d keys fs paths e :
  watch_event d keys fs e = watch_event d keys fs (Create paths) →
  ((∀ p, p ∈ paths → asc p → is_Some (key_of fs p)) →
    ∀ id, is_Some (watch_event d keys fs e !! id) ↔
      is_Some (keys !! id) ∨ ∃ p k, p ∈ paths ∧ asc p ∧ key_of fs p = Some (id, k)) ∧
  ((∃ p, p ∈ paths ∧ asc p ∧ key_of fs p = None) → watch_event d keys fs e = keys).
Proof.
  intros ->. cbn. split.
  - intros Hall id. destruct (load_pgp_keys_Some fs paths Hall) as (k & -> & _ & Hk). rewrite <-Hk.
    case_bool_decide as Ek.
    + subst k. rewrite lookup_empty. split; [by left|]. intros [?|[? [=]]]; done.
    + unfold extend_keys. rewrite lookup_union_is_Some. tauto.
  - intros (p & Hp & Hx & Hn). unfold PgpKeys.load_pgp_keys. by erewrite load_into_None.
Qed.
End key_lemmas.

(** * Claims *)

(** C39: The swarm keys a node trusts, given a directory of keys that can be read.  Every
    trusted key is filed under its own hash.  After a removal in the directory
    the trusted keys are exactly those in its [.asc] files then, if each of these can be
    read as a key, and none at all if one cannot.  A file reported as created or
    modified adds the keys of the files reported, if each can be read, and changes
    nothing if one cannot; other events change nothing.  So a key stays trusted,
    whatever its file is replaced by or wherever it is moved, until something is removed. *)
Theorem trusted_keys `{Crypto} `{AuthCrypto} (root : bool) (cwd : Location)
    (from_armor : list Z → option PgpKey) (key_bytes : PgpKey → option (list Z))
    (xdg project : option Path) (d : Path) (l : Location) (m : Z) (fs fs' : Fs)
    (events : list (Fs * WatchEvent)) (paths : list Path) :
  swarm_dir xdg project = Some d →
  stat root cwd fs' d = Ok (l, NDir m) → can_read root m = true →
  let trusted es := watch_pgp_keys_directory root cwd from_armor key_bytes xdg project true fs es in
  let key_of := key_of root cwd from_armor key_bytes fs' in
  let now := trusted events in
  let after e := trusted (events ++ [(fs', e)]) in
  (∀ id k, now !! id = Some k → extract_swarm_id key_bytes k = Some id) ∧
  ((∀ p, entry fs' d l p → asc p → is_Some (key_of p)) →
   ∀ id, (∀ k, after Remove !! id = Some k → ∃ p, entry fs' d l p ∧ asc p ∧ key_of p = Some (id, k)) ∧
         (is_Some (after Remove !! id) ↔ ∃ p k, entry fs' d l p ∧ asc p ∧ key_of p = Some (id, k))) ∧
  ((∃ p, entry fs' d l p ∧ asc p ∧ key_of p = None) → after Remove = ∅) ∧
  (∀ e, e = Create paths ∨ e = Modify paths →
   ((∀ p, p ∈ paths → asc p → is_Some (key_of p)) →
    ∀ id, is_Some (after e !! id) ↔
      is_Some (now !! id) ∨ ∃ p k, p ∈ paths ∧ asc p ∧ key_of p = Some (id, k)) ∧
   ((∃ p, p ∈ paths ∧ asc p ∧ key_of p = None) → after e = now)) ∧
  after OtherKind = now ∧ after WatchError = now.
Proof.
  intros Hd Hstat Hread. cbv zeta. unfold watch_pgp_keys_directory. rewrite Hd. cbn [negb].
  setoid_rewrite foldl_app. cbn [foldl].
  set (keys := foldl _ (watch_start _ _ _ _ _ _ _) events).
  destruct (inner_files_entries root cwd fs' d l m Hstat Hread) as (files & Hfiles & Hentry).
  split_and!; [|setoid_rewrite <-Hentry|setoid_rewrite <-Hentry|..].
  - apply trusted_filed.
  - intros Hall id. rewrite remove_event. unfold directory_keys. rewrite Hfiles. cbn.
    destruct (load_pgp_keys_Some _ _ _ _ _ _ Hall) as (k & -> & Hk1 & Hk2). cbn. auto.
  - intros (p & Hp & Hx & Hn). rewrite remove_event. unfold directory_keys. rewrite Hfiles. cbn.
    unfold load_pgp_keys. by erewrite load_into_None.
  - intros e He. apply report_event. naive_solver.
  - done.
  - done.
Qed.

Module PgpExamples.
#[local] Existing Instance Toy.ToyCrypto.

(** Keys are byte strings that start with 1. *)
#[local] Instance pgp : AuthCrypto := {
  keccak_verify _ _ _ := true; PgpKey := list Z; pgp_verify _ _ _ := true }.
Definition armor (bytes : list Z) : option (list Z) :=
  match bytes with 1%Z :: _ => Some bytes | _ => None end.

Definition swarm : Path := ["/"; "data"; "bqti"; "swarm"].
Definition file (name : string) (i : nat) : Location * Node := (["data"; "bqti"; "swarm"; name], NFile i).
Definition disk (files : list (Location * Node)) : Fs := mkFs
  (list_to_map ([(["data"], NDir 448); (["data"; "bqti"], NDir 448);
                 (["data"; "bqti"; "swarm"], NDir 448)] ++ files))
  (list_to_map [(1, mkInode 420 [1; 10]%Z); (2, mkInode 420 [1; 20]%Z); (3, mkInode 420 [9]%Z)]).

Definition trusted (fs : Fs) (events : list (Fs * WatchEvent)) : list (list Z) :=
  map snd (map_to_list (watch_pgp_keys_directory false [] armor Some (Some ["/"; "data"]) None true fs events)).

Definition one : Fs := disk [file "a.asc" 1].
Definition path_a : Path := swarm ++ ["a.asc"].

(** A key is found at the start, and forgotten when its file is removed. *)
Example removal_revokes :
  trusted one [] = [[1; 10]%Z] ∧ trusted one [(disk [], Remove)] = [].
Proof. by vm_compute. Qed.

(** A file moved away is a modification of its name: its key stays trusted. *)
Example move_does_not_revoke : trusted one [(disk [], Modify [path_a])] = [[1; 10]%Z].
Proof. by vm_compute. Qed.

(** A file overwritten by another key: both are trusted. *)
Example overwrite_does_not_revoke :
  trusted one [(disk [file "a.asc" 2], Modify [path_a])] = [[1; 10]; [1; 20]]%Z.
Proof. by vm_compute. Qed.

(** One unreadable file, and no key is loaded, or all are dropped. *)
Example bad_file_drops_all :
  trusted (disk [file "a.asc" 1; file "b.asc" 3]) [] = [] ∧
  trusted one [(disk [file "a.asc" 1; file "b.asc" 3], Remove)] = [].
Proof. by vm_compute. Qed.

(** The file is replaced by another key and the other file removed: only the new key is
    trusted then. *)
Lemma trusted_keys_witness :
  let fs2 := disk [file "a.asc" 2] in
  let w := watch_pgp_keys_directory false [] armor Some (Some ["/"; "data"]) None true one
             [(fs2, Remove)] in
  (∀ k, w !! sha256 [1; 20]%Z = Some k →
     ∃ p, entry fs2 swarm ["data"; "bqti"; "swarm"] p ∧ asc p ∧
          key_of false [] armor Some fs2 p = Some (sha256 [1; 20]%Z, k)) ∧
  w !! sha256 [1; 20]%Z = Some [1; 20]%Z ∧ w !! sha256 [1; 10]%Z = None.
Proof.
  intros fs2 w. split; [|split; vm_compute; reflexivity].
  destruct (@trusted_keys Toy.ToyCrypto pgp false [] armor Some (Some ["/"; "data"]) None swarm
    ["data"; "bqti"; "swarm"] 448 one fs2 [] []) as (_ & Hr & _); [vm_compute; reflexivity..|].
  apply Hr. intros p (name & [n Hn] & ->) _. cbn in Hn.
  repeat (apply lookup_insert_Some in Hn as [[[=] _]|[_ Hn]]; try done); subst.
  vm_compute. eauto.
Defined.
End PgpExamples.
