(* ===== verification/Endpoint.v ===== *)
(** The endpoint a node serves on: the builders of [network/config.rs] and
    [i2p/builder.rs], the certificate verifier of [certs/config.rs], and the
    start of the daemon in [lib.rs] and [daemon.rs].

    The TLS and QUIC configurations are records of what the builders set; whether
    a chain leads to a root ([webpki]), binding the socket and opening a session
    with the I2P router are parameters. *)

From S2P Require Import Prelude Net Crypto Conn Auth Tee Fs Disk Certs.

(** A chain and the private key a server presents with it. *)
Definition CertifiedKey : Type := list (list Z) * list Z.

Record TransportConfig := mkTransport {
  keep_alive_secs : Z; idle_timeout_ms : Z; segmentation_offload : bool }.

(** How a client checks the certificate of a server. *)
Inductive CertVerifier :=
| NoVerifier
| RootStore (roots : list (list Z)).

Record ClientConfig := mkClient { cc_verifier : CertVerifier; cc_alpn : list string }.
Record ServerConfig := mkServer { sv_key : CertifiedKey; sv_alpn : list string }.

Record EndpointConfig := mkEndpoint {
  ep_server : ServerConfig; ep_client : ClientConfig; ep_transport : TransportConfig }.

Section endpoint.
(** [webpki]: whether a chain for a name leads to one of the roots. *)
Context (chain_ok : list (list Z) → list (list Z) → string → bool).

(** src/src/bit_torrent/certs/config.rs:21-50 [ServerCertVerifier for NoVerifier]

    Beside the root store's check. *)
Definition verify_server_cert (v : CertVerifier) (chain : list (list Z)) (name : string) : bool :=
  match v with
  | NoVerifier => true
  | RootStore roots => chain_ok roots chain name
  end.
End endpoint.

(** src/src/bit_torrent/certs/config.rs:58-65 [SingleCertResolver] *)
Definition resolve_cert (key : CertifiedKey) (client_hello : list Z) : option CertifiedKey := Some key.

Definition ALPN : list string := ["bittorrent-quic"].

(** * The builders *)

(** src/src/bit_torrent/network/config.rs:14-21 [QuicEndpointBuilder] *)
Record QuicEndpointBuilder := mkQuic {
  qb_addr : SocketAddr; qb_transport : TransportConfig; qb_certs : list (list Z);
  qb_key : CertifiedKey; qb_skip_cert_verify : bool }.

Module Quic.
(** src/src/bit_torrent/network/config.rs:24-43 [QuicEndpointBuilder::new] *)
Definition quic_new (addr : SocketAddr) (certs : list (list Z)) (key : CertifiedKey)
    : QuicEndpointBuilder :=
  mkQuic addr (mkTransport 1 10000 false) certs key false.

(** src/src/bit_torrent/network/config.rs:45-48 [QuicEndpointBuilder::transport] *)
Definition transport (config : TransportConfig) (self : QuicEndpointBuilder) : QuicEndpointBuilder :=
  mkQuic (qb_addr self) config (qb_certs self) (qb_key self) (qb_skip_cert_verify self).

(** src/src/bit_torrent/network/config.rs:50-59 [QuicEndpointBuilder::server_crypto] *)
Definition quic_server_crypto (self : QuicEndpointBuilder) : ServerConfig := mkServer (qb_key self) ALPN.

(** src/src/bit_torrent/network/config.rs:61-84 [QuicEndpointBuilder::client_crypto] *)
Definition quic_client_crypto (self : QuicEndpointBuilder) : ClientConfig :=
  mkClient (if qb_skip_cert_verify self then NoVerifier else RootStore (qb_certs self)) ALPN.

(** src/src/bit_torrent/network/config.rs:86-89 [QuicEndpointBuilder::dangerous_no_cert_verify] *)
Definition quic_no_cert_verify (self : QuicEndpointBuilder) : QuicEndpointBuilder :=
  mkQuic (qb_addr self) (qb_transport self) (qb_certs self) (qb_key self) true.

(** src/src/bit_torrent/network/config.rs:91-111 [QuicEndpointBuilder::build]

    [bind] is whether the address can be bound. *)
Definition quic_build (bind : SocketAddr → bool) (self : QuicEndpointBuilder) : option EndpointConfig :=
  let server_crypto := quic_server_crypto self in
  let client_crypto := quic_client_crypto self in
  if bind (qb_addr self) then Some (mkEndpoint server_crypto client_crypto (qb_transport self))
  else None.
End Quic.

(** src/src/i2p/builder.rs:14-20 [I2pEndpointBuilder] *)
Record I2pEndpointBuilder := mkI2pB {
  ib_certs : list (list Z); ib_key : CertifiedKey; ib_skip_cert_verify : bool }.

Module I2pB.
(** src/src/i2p/builder.rs:23-30 [I2pEndpointBuilder::new] *)
Definition i2p_new (certs : list (list Z)) (key : CertifiedKey) : I2pEndpointBuilder :=
  mkI2pB certs key false.

(** src/src/i2p/builder.rs:32-35 [I2pEndpointBuilder::dangerous_no_cert_verify] *)
Definition i2p_no_cert_verify (self : I2pEndpointBuilder) : I2pEndpointBuilder :=
  mkI2pB (ib_certs self) (ib_key self) true.

(** src/src/i2p/builder.rs:37-46 [I2pEndpointBuilder::server_crypto] *)
Definition i2p_server_crypto (self : I2pEndpointBuilder) : ServerConfig := mkServer (ib_key self) ALPN.

(** src/src/i2p/builder.rs:48-58 [I2pEndpointBuilder::transport_config] *)
Definition transport_config : TransportConfig := mkTransport 5 60000 false.

(** src/src/i2p/builder.rs:77-100 [I2pEndpointBuilder::client_crypto] *)
Definition i2p_client_crypto (self : I2pEndpointBuilder) : ClientConfig :=
  mkClient (if ib_skip_cert_verify self then NoVerifier else RootStore (ib_certs self)) ALPN.

(** src/src/i2p/builder.rs:106-138 [I2pEndpointBuilder::build]

    With [create_endpoint] (lines 60-75).  [session] opens a session with the
    router and gives its destination. *)
Definition i2p_build (session : option string) (self : I2pEndpointBuilder)
    : option (EndpointConfig * string) :=
  let server_crypto := i2p_server_crypto self in
  let client_crypto := i2p_client_crypto self in
  session ← session;
  Some (mkEndpoint server_crypto client_crypto transport_config, session).
End I2pB.

(** src/src/lib.rs:23-26 [EndpointBuilder] *)
Inductive EndpointBuilder :=
| BuildQuic (b : QuicEndpointBuilder)
| BuildI2p (b : I2pEndpointBuilder).

(** src/src/bit_torrent/network/endpoint.rs:10-17 [NetworkEndpoint]

    The endpoint, with the destination of the socket for I2P. *)
Inductive NetworkEndpoint :=
| Standard (endpoint : EndpointConfig)
| I2P (endpoint : EndpointConfig) (socket : string).

(** src/src/bit_torrent/network/endpoint.rs:37-43 [NetworkEndpoint::inner] *)
Definition inner (self : NetworkEndpoint) : EndpointConfig :=
  match self with Standard endpoint | I2P endpoint _ => endpoint end.

(** src/src/lib.rs:29-45 [EndpointBuilder::build] *)
Definition build_endpoint (bind : SocketAddr → bool) (session : option string)
    (self : EndpointBuilder) : option NetworkEndpoint :=
  match self with
  | BuildQuic b => Standard <$> Quic.quic_build bind b
  | BuildI2p b => (λ '(e, s), I2P e s) <$> I2pB.i2p_build session b
  end.

(** src/src/lib.rs:47-54 [EndpointBuilder::dangerous_no_cert_verify] *)
Definition no_cert_verify (self : EndpointBuilder) : EndpointBuilder :=
  match self with
  | BuildQuic b => BuildQuic (Quic.quic_no_cert_verify b)
  | BuildI2p b => BuildI2p (I2pB.i2p_no_cert_verify b)
  end.

(** * The start of the daemon *)

Section serve.
Context `{Crypto} `{Rcgen} `{AddrText} (root : bool) (cwd : Location).
Context (xdg project : option Path).
Context (bind : SocketAddr → bool) (session : option string).

(** src/src/daemon.rs:13-66 [handle_serve]

    Up to the connection manager it is built for: the endpoint and the root
    identity.  Without the feature [tee]; [None] is an error. *)
Definition handle_serve (rnd : nat) (addr : string) (no_cert i2p : bool) (fs : Fs)
    : Fs * option (NetworkEndpoint * SoftwareKeyIdentity) :=
  match Peer_new "localhost" addr with
  | None => (fs, None)
  | Some my_self =>
    match ensure_directories root cwd xdg project fs with
    | (fs, Err _) => (fs, None)
    | (fs, Ok _) =>
      match make_ca_root root cwd xdg project rnd fs with
      | (fs, Err _) => (fs, None)
      | (fs, Ok ca_root) =>
        (fs,
         match soft_leaf (S rnd) ca_root "localhost" false with
         | Err _ => None
         | Ok leaf_quic =>
           let certs := [cert_der leaf_quic; cert_der ca_root] in
           let endpoint_config :=
             if i2p then BuildI2p (I2pB.i2p_new certs (certified_key leaf_quic))
             else BuildQuic (Quic.quic_new (peer_address my_self) certs (certified_key leaf_quic)) in
           endpoint ← (if no_cert then build_endpoint bind session (no_cert_verify endpoint_config)
                       else build_endpoint bind session (no_cert_verify endpoint_config));
           Some (endpoint, ca_root)
         end)
      end
    end
  end.
End serve.

(** * What is served *)

Lemma built_verifier bind session b e :
  build_endpoint bind session (no_cert_verify b) = Some e → cc_verifier (ep_client (inner e)) = NoVerifier.
Proof.
  destruct b as [b|b]; cbn; unfold Quic.quic_build, I2pB.i2p_build;
    [destruct (bind _)|destruct session]; by intros [= <-].
Qed.

(** Whatever the flag that asks for it says, a node that serves checks no
    certificate: it takes any chain for any name as the peer it meant to
    reach.  The flag changes nothing at all. *)
Theorem serve_accepts_any_certificate `{Crypto} `{Rcgen} `{AddrText} (root : bool) (cwd : Location)
    (xdg project : option Path) (bind : SocketAddr → bool) (session : option string)
    (rnd : nat) (addr : string) (no_cert i2p : bool) (fs fs' : Fs) (e : NetworkEndpoint)
    (ca : SoftwareKeyIdentity) :
  let serve := handle_serve root cwd xdg project bind session rnd addr in
  (∀ b, serve b i2p fs = serve no_cert i2p fs) ∧
  (serve no_cert i2p fs = (fs', Some (e, ca)) →
   ∀ chain_ok chain name,
     verify_server_cert chain_ok (cc_verifier (ep_client (inner e))) chain name = true).
Proof.
  intros serve. split; [intros b; unfold serve, handle_serve; by destruct b, no_cert|].
  unfold serve, handle_serve. intros E chain_ok chain name.
  destruct (Peer_new _ _); [|done]. destruct (ensure_directories _ _ _ _ _) as [? [?|?]]; [|done].
  destruct (make_ca_root _ _ _ _ _ _) as [? [?|?]]; [|done].
  destruct (soft_leaf _ _ _ _) as [leaf|]; [|done].
  assert (cc_verifier (ep_client (inner e)) = NoVerifier) as ->; [|done].
  destruct no_cert; injection E as _ E; apply bind_Some in E as (x & Hx & [= -> _]);
    by apply built_verifier in Hx.
Qed.
