(* ===== verification/Socket.v ===== *)
(** The local socket of the daemon: where it is ([bqti-ipc/src/lib.rs]), its creation and
    removal by the server of [ipc/server.rs], on the file system of [Fs].

    A socket is a file whose inode stands for the listening server: a client reaches
    the server whose inode it finds at the path. *)

From stdpp Require Import pretty.
From S2P Require Import Prelude Net Fs.

(** src/bqti-ipc/src/lib.rs:153-162 [socket_path]

    The arguments are the two variables of the environment and the user id. *)
Definition socket_path (bqti_socket bqti_instance : option string) (uid : Z) : string :=
  match bqti_socket with
  | Some path => path
  | None =>
    let instance := default "default" bqti_instance in
    "/run/user/" +:+ pretty uid +:+ "/bqti/" +:+ instance +:+ ".sock"
  end.

Section socket.
Context (root : bool) (cwd : Location).

(** [UnixListener::bind]: a new socket, never over an existing entry; its mode is
    777 masked by the [umask] 022. *)
Definition bind (p : Path) : Io nat :=
  r ← new_entry root cwd p;
  i ← gets (λ fs, fresh (dom (inodes fs)));
  _ ← modify (λ fs, set_node r (NFile i) (set_inode i (mkInode 493 []) fs));
  mret i.

(** [let _ = m] *)
Definition ignore {A} (m : Io A) : Io unit := λ fs, ((m fs).1, Ok tt).

(** src/src/ipc/server.rs:67-82 [IpcServer::start, the socket] *)
Definition ipc_bind (path : Path) : Io nat :=
  _ ← match parent path with Some p => create_dir_all root cwd 511 p | None => mret tt end;
  _ ← ignore (remove_file root cwd path);
  listener ← bind path;
  _ ← chmod root cwd 384 path;
  mret listener.

(** src/src/ipc/server.rs:118-123 [Drop for IpcServer] *)
Definition ipc_drop (path : Path) (fs : Fs) : Fs := (ignore (remove_file root cwd path) fs).1.

(** [UnixStream::connect]: the server behind the path, for a process of the user. *)
Definition reached (path : Path) (fs : Fs) : option nat :=
  match stat root cwd fs path with
  | Ok (_, NFile i) => if can_write root (mode_of fs i) then Some i else None
  | _ => None
  end.

(** * Lemmas *)

(** A directory that resolves and can be changed. *)
Record ready (fs : Fs) (u : Location) : Prop := {
  rd_straight : straight fs u;
  rd_resolve : walk root 40 fs true [] u = Ok u;
  rd_dir : ∃ m, node fs u = Some (NDir m) ∧ can_search root m = true ∧ can_write root m = true;
}.

Lemma ready_entry fs u c follow :
  ready fs u → name_ok c → follow = false ∨ is_link (node fs (u ++ [c])) = false →
  resolve root cwd fs follow ("/" :: u ++ [c]) = Ok (u ++ [c]).
Proof.
  intros [Hs Hr (m & Hm & Hse & _)] Hc Hl. rewrite resolve_root. destruct Hs as [Hn Hlk].
  apply (walk_snoc root 40 fs follow [] u u c m); try done. by apply name_ok_snoc.
Qed.

Lemma prefix_ne (q u : Location) c : q `prefix_of` u → q ≠ u ++ [c].
Proof. intros Hq%prefix_length ->. rewrite length_app in Hq. cbn in Hq. lia. Qed.

Lemma prefix_of_snoc (q u : Location) c : q `prefix_of` u ++ [c] → q ≠ u ++ [c] → q `prefix_of` u.
Proof.
  intros [k Hk] Hne. destruct k as [|x k _] using rev_ind; [by rewrite app_nil_r in Hk|].
  rewrite app_assoc in Hk. apply app_inj_tail in Hk as [-> _]. by eexists.
Qed.

Lemma ready_keep fs fs' u c :
  ready fs u → (∀ q, q ≠ u ++ [c] → node fs' q = node fs q) → ready fs' u.
Proof.
  intros [[Hn Hl] Hr Hd] Hq. assert (∀ q, q `prefix_of` u → node fs' q = node fs q) as Hp.
  { intros q Hpre. by apply Hq, prefix_ne. }
  split.
  - split; [done|]. intros q t Hpre. rewrite Hp by done. by apply Hl.
  - apply (walk_same_way root 40 fs); try done. intros q Hpre. left. by apply Hp.
  - by rewrite Hp.
Qed.

Lemma ready_edit fs u c : ready fs u → may_edit root fs (u ++ [c]) = true.
Proof.
  intros [_ _ (m & Hm & Hse & Hw)]. unfold may_edit. by rewrite removelast_app_one, Hm, Hw, Hse.
Qed.

Lemma node_del fs r q : r ≠ [] → node (del_node r fs) q = if decide (q = r) then None else node fs q.
Proof.
  intros Hr. destruct q as [|x q]; [rewrite decide_False; [done|congruence]|].
  case_decide as Hx; [subst r|]; cbn; [by rewrite lookup_delete_eq|by rewrite lookup_delete_ne].
Qed.

(** Removing the entry of a path, unless it is a directory. *)
Lemma remove_ready fs u c :
  ready fs u → name_ok c → (∀ m, node fs (u ++ [c]) ≠ Some (NDir m)) →
  let fs' := (remove_file root cwd ("/" :: u ++ [c]) fs).1 in
  node fs' (u ++ [c]) = None ∧ (∀ q, q ≠ u ++ [c] → node fs' q = node fs q) ∧
  inodes fs' = inodes fs.
Proof.
  intros Hr Hc Hd fs'.
  assert (u ++ [c] ≠ []) as Hne by (by destruct u).
  assert (fs' = fs ∧ node fs (u ++ [c]) = None ∨ fs' = del_node (u ++ [c]) fs) as [[-> Hn]| ->].
  { unfold fs', remove_file, mbind, Io_bind, liftR, gets, modify, fail, lstat.
    rewrite (ready_entry fs u c false) by (auto || by left). cbn [rbind].
    destruct (node fs (u ++ [c])) as [[m|i|t]|] eqn:E; cbn.
    - by destruct (Hd m).
    - rewrite (ready_edit fs u c) by done. by right.
    - rewrite (ready_edit fs u c) by done. by right.
    - by left. }
  - done.
  - split_and!; [| |done].
    + rewrite node_del by done. by rewrite decide_True.
    + intros q Hq. rewrite node_del by done. by rewrite decide_False.
Qed.

(** Without links on the way it does not matter whether the last one is followed. *)
Lemma walk_unfollow links fs cur p r :
  Forall name_ok p → (∀ q t, q `prefix_of` cur ++ p → node fs q ≠ Some (NLink t)) →
  walk root links fs true cur p = Ok r → walk root links fs false cur p = Ok r.
Proof.
  intros Hp. revert cur. induction Hp as [|c p Hc Hp IH]; intros cur Hl; [by destruct links|].
  rewrite !(walk_cons _ _ _ _ _ _ _ Hc). destruct (node fs cur) as [[m| |]|]; try done.
  destruct (can_search root m); [|done].
  assert (cur ++ c :: p = (cur ++ [c]) ++ p) as Hc1 by by rewrite <-(assoc_L (++)).
  rewrite Hc1 in Hl. destruct (node fs (cur ++ [c])) as [[?|?|t]|] eqn:E; try done.
  - by apply IH.
  - exfalso. apply (Hl (cur ++ [c]) t); [by eexists|done].
Qed.

Lemma ready_self fs u : ready fs u → resolve root cwd fs false ("/" :: u) = Ok u.
Proof. intros [[Hn Hl] Hr _]. rewrite resolve_root. by apply walk_unfollow. Qed.

Lemma create_ready fs u : ready fs u → create_dir_all root cwd 511 ("/" :: u) fs = (fs, Ok tt).
Proof.
  intros Hrd. pose proof Hrd as [Hs Hr (m & Hm & _)]. unfold create_dir_all. destruct (length ("/" :: u)) as [|k] eqn:El; [done|].
  assert (is_dir root cwd fs ("/" :: u) = true) as Hd.
  { unfold is_dir, stat. rewrite resolve_root, Hr. cbn. by rewrite Hm. }
  cbn [create_dir_all_at]. unfold mkdir, new_entry, mbind, Io_bind, liftR, gets, fail.
  rewrite (ready_self fs u) by done. rewrite Hm. by rewrite Hd.
Qed.

(** Listening at a path with nothing there. *)
Lemma listen_ready fs u c :
  ready fs u → name_ok c → node fs (u ++ [c]) = None →
  ∃ i, inodes fs !! i = None ∧
    let fs' := set_inode i (mkInode 384 []) (set_node (u ++ [c]) (NFile i)
                 (set_inode i (mkInode 493 []) fs)) in
    (listener ← bind ("/" :: u ++ [c]);
     _ ← chmod root cwd 384 ("/" :: u ++ [c]); mret listener) fs = (fs', Ok i).
Proof.
  intros Hr Hc Hn. exists (fresh (dom (inodes fs))). split; [apply not_elem_of_dom, is_fresh|].
  cbv zeta. set (i := fresh _). unfold bind, new_entry, chmod, stat, mbind, Io_bind, liftR, gets, modify,
    fail, mret, Io_ret. rewrite (ready_entry fs u c false) by (auto || by left).
  rewrite Hn, (ready_edit fs u c) by done. fold i. set (fs1 := set_node _ _ _).
  assert (u ++ [c] ≠ []) as Hne by (by destruct u).
  assert (node fs1 (u ++ [c]) = Some (NFile i)) as Hi by (by apply node_set_eq).
  assert (ready fs1 u) as Hr1.
  { apply (ready_keep fs fs1 u c Hr). intros q Hq. unfold fs1. rewrite node_set_ne by done. by destruct q. }
  rewrite (ready_entry fs1 u c true Hr1 Hc) by (right; by rewrite Hi). cbn [rbind].
  rewrite Hi. cbn [ok_or rbind snd fst]. unfold fs1 at 1. cbn [inodes set_node set_inode].
  by rewrite lookup_insert_eq.
Qed.

(** * Properties *)

(** The daemon's socket.  When its directory is there and can be changed, and no
    directory has its name, starting the server succeeds, also over the socket a
    daemon left that did not end properly; the socket is new, only its user can open
    it, clients reach this server through it, and nothing else in the file
    system has changed; dropping the server removes it again. *)
Theorem socket_lifecycle (u : Location) (c : string) (m : Z) (fs : Fs) :
  let path := "/" :: u ++ [c] in
  straight fs u → name_ok c → stat root cwd fs ("/" :: u) = Ok (u, NDir m) →
  can_search root m = true → can_write root m = true →
  (∀ m', node fs (u ++ [c]) ≠ Some (NDir m')) →
  ∃ fs1 i, ipc_bind path fs = (fs1, Ok i) ∧
    inodes fs !! i = None ∧ inodes fs1 !! i = Some (mkInode 384 []) ∧
    reached path fs1 = Some i ∧
    (∀ q, q ≠ u ++ [c] → node fs1 q = node fs q) ∧
    (∀ j, j ≠ i → inodes fs1 !! j = inodes fs !! j) ∧
    let fs2 := ipc_drop path fs1 in
    reached path fs2 = None ∧ node fs2 (u ++ [c]) = None ∧
    ∀ q, q ≠ u ++ [c] → node fs2 q = node fs q.
Proof.
  intros path Hs Hc Hst Hse Hw Hnd.
  assert (ready fs u) as Hr.
  { unfold stat in Hst. rewrite resolve_root in Hst.
    destruct (walk root 40 fs true [] u) as [q|] eqn:E; [|done]. cbn in Hst.
    destruct (node fs q) eqn:En; [|done]. injection Hst as -> ->. by split; [| |exists m]. }
  destruct (remove_ready fs u c Hr Hc Hnd) as (Hn0 & Hq0 & Hi0). set (fs0 := (remove_file _ _ _ _).1) in *.
  pose proof (ready_keep fs fs0 u c Hr Hq0) as Hr0.
  destruct (listen_ready fs0 u c Hr0 Hc Hn0) as (i & Hi & Hb). set (fs1 := set_inode i _ _) in Hb.
  assert (u ++ [c] ≠ []) as Hne by (by destruct u).
  assert (node fs1 (u ++ [c]) = Some (NFile i)) as Hn1.
  { rewrite <-(node_set_eq fs0 (u ++ [c]) (NFile i) Hne). by destruct (u ++ [c]). }
  assert (∀ q, q ≠ u ++ [c] → node fs1 q = node fs0 q) as Hq1.
  { intros q Hq. rewrite <-(node_set_ne fs0 (u ++ [c]) q (NFile i) Hq). by destruct q. }
  pose proof (ready_keep fs0 fs1 u c Hr0 Hq1) as Hr1.
  assert (inodes fs1 !! i = Some (mkInode 384 [])) as Hi1 by (cbn; by rewrite lookup_insert_eq).
  destruct (remove_ready fs1 u c Hr1 Hc) as (Hn2 & Hq2 & _); [by rewrite Hn1|].
  change ((remove_file root cwd ("/" :: u ++ [c]) fs1).1) with (ipc_drop path fs1) in *.
  exists fs1, i. cbv zeta. split_and!.
  - unfold ipc_bind, path. replace (parent ("/" :: u ++ [c])) with (Some ("/" :: u)) by
      (rewrite parent_abs by done; by rewrite removelast_app_one).
    unfold mbind, Io_bind in *. rewrite create_ready by done. unfold ignore at 1. cbn [fst]. exact Hb.
  - by rewrite <-Hi0.
  - done.
  - unfold reached, stat, path. rewrite (ready_entry fs1 u c true Hr1 Hc) by (right; by rewrite Hn1).
    cbn [rbind]. rewrite Hn1. cbn [ok_or rbind]. unfold mode_of. rewrite Hi1. cbn.
    by destruct root.
  - intros q Hq. by rewrite Hq1, Hq0.
  - intros j Hj. cbn. rewrite !lookup_insert_ne by done. by rewrite Hi0.
  - unfold reached, stat. destruct (resolve root cwd (ipc_drop path fs1) true path) as [q|e] eqn:E;
      [cbn [rbind]|done].
    assert (straight (ipc_drop path fs1) (u ++ [c])) as Hs2.
    { pose proof (ready_keep fs1 _ u c Hr1 Hq2) as [[Hnm Hl] _ _]. split; [by apply name_ok_snoc|].
      intros q' t Hp. destruct (decide (q' = u ++ [c])) as [->|]; [by rewrite Hn2|].
      apply Hl. by eapply prefix_of_snoc. }
    apply resolve_straight in E as ->; [|done]. by rewrite Hn2.
  - done.
  - intros q Hq. by rewrite Hq2, Hq1, Hq0.
Qed.
End socket.

Module SocketExamples.
Definition dir : Location := ["run"; "user"; "1000"; "bqti"].
Definition path : Path := "/" :: dir ++ ["default.sock"].
(** The directory, with the socket of a daemon that crashed. *)
Definition fs0 : Fs :=
  mkFs (list_to_map [(["run"], NDir 493); (["run"; "user"], NDir 493); (["run"; "user"; "1000"], NDir 448);
                     (dir, NDir 448); (dir ++ ["default.sock"], NFile 0)])
       {[ 0 := mkInode 384 [] ]}.

Lemma socket_lifecycle_witness :
  ∃ fs1 i, ipc_bind false [] path fs0 = (fs1, Ok i) ∧ reached false [] path fs1 = Some i ∧
           reached false [] path (ipc_drop false [] path fs1) = None.
Proof.
  destruct (socket_lifecycle false [] dir "default.sock" 448 fs0)
    as (fs1 & i & E & _ & _ & Hr & _ & _ & Hd & _).
  - apply straightb_ok. by vm_compute.
  - by vm_compute.
  - by vm_compute.
  - by vm_compute.
  - by vm_compute.
  - intros m. by vm_compute.
  - exists fs1, i. split_and!; [exact E|exact Hr|exact Hd].
Defined.

(** A second daemon takes the socket of the first without noticing it, and when the first
    ends it removes the socket of the second. *)
Lemma second_daemon_takes_over :
  let '(fs1, first) := ipc_bind false [] path fs0 in
  let '(fs2, second) := ipc_bind false [] path fs1 in
  (reached false [] path fs1, reached false [] path fs2) =
    (match first with Ok i => Some i | Err _ => None end,
     match second with Ok i => Some i | Err _ => None end) ∧
  is_ok first = true ∧ is_ok second = true ∧ first ≠ second ∧
  reached false [] path (ipc_drop false [] path fs2) = None.
Proof. by vm_compute. Qed.

(** The default path of the first instance of a user. *)
Example default_path : socket_path None None 1000 = "/run/user/1000/bqti/default.sock".
Proof. reflexivity. Qed.
End SocketExamples.
