(* ===== verification/Ipc.v ===== *)
(** Commands and events between the daemon and its clients: the types, the state
    and the socket of [bqti-ipc], [src/ipc/server.rs] and [src/ipc/client.rs].

    The daemon's torrents sit behind the trait [Torrenting], an interface here
    too: [dispatch] is proved against it.  [serde_json] is a parameter
    ([Json]), as is the order in which a [HashMap] lists its values ([MapIter]).

    A [broadcast] channel is the log of all that was sent and, for a receiver,
    the position it has reached; a receiver more than the capacity behind is told
    that it lags.  Publishing an event takes two steps, applying it to the state
    and sending it, and a watching client several; [ipc_step] interleaves them. *)

From Stdlib Require Import Ascii.
From stdpp Require Import pretty.
From S2P Require Import Prelude Net Crypto Metainfo Magnet.

(** * Messages *)

(** src/bqti-ipc/src/lib.rs:17-50 [Request] *)
Inductive Request :=
| RStatus (info_hash : option string)
| RAddDownload (link user_space : string)
| RAddSeed (name : option string) (path : string) (piece_length : Z)
    (announce : list (list string)) (seeds nodes : option (list string)) (private : bool)
    (comment created_by : option string)
| RPauseSession (info_hash : string)
| RResumeSession (info_hash : string)
| RRemoveTorrent (info_hash : string)
| RTorrents
| RShutdown
| REventStream.

(** src/bqti-ipc/src/lib.rs:99-117 [TorrentState] *)
Inductive IpcTorrentState :=
| SPending
| SPaused
| SDownloading (current total_pieces download_rate : Z)
| SVerifying (verified total : Z)
| SSeeding (upload_rate peers : Z).

(** src/bqti-ipc/src/lib.rs:119-124 [Torrent] *)
Record Torrent := mkListed {
  t_info_hash : string;
  t_name : string;
  t_state : IpcTorrentState;
}.

(** src/bqti-ipc/src/lib.rs:126-132 [DaemonStatus] *)
Record DaemonStatus := mkStatus {
  ds_version : string;
  ds_active_torrents : Z;
  ds_upload_rate : Z;
  ds_download_rate : Z;
}.

(** src/bqti-ipc/src/lib.rs:52-62 [Response] *)
Inductive Response :=
| Handled
| PTorrentAdded (info_hash : string)
| PSeedAdded (info_hash : string)
| PRemoved (info_hash : string)
| PStatus (status : DaemonStatus)
| PTorrents (torrents : list Torrent)
| PTorrent (torrent : Torrent).

(** src/bqti-ipc/src/lib.rs:15-15 [Reply] *)
Definition Reply : Type := Result string Response.

(** src/bqti-ipc/src/lib.rs:64-97 [Event] *)
Inductive Event :=
| ExposeTorrent (info_hash magnet : string)
| SessionStateChanged (info_hash name : string) (state : IpcTorrentState)
| DownloadComplted (info_hash resource_path : string)
| TorrentAdded (info_hash name : string) (state : IpcTorrentState)
| TorrentRemoved (info_hash : string)
| EventError (info_hash message : string).

#[export] Instance IpcTorrentState_eq_dec : EqDecision IpcTorrentState.
Proof. solve_decision. Defined.
#[export] Instance Torrent_eq_dec : EqDecision Torrent.
Proof. solve_decision. Defined.

(** * The state of the daemon's clients *)

(** src/bqti-ipc/src/state.rs:12-15 [IpcState] *)
Abbreviation IpcState := (gmap string Torrent).

(** The order in which a [HashMap] lists its values. *)
Class MapIter := map_values : IpcState → list Torrent.
Class MapIterLaws `{MapIter} : Prop :=
  map_values_perm : ∀ m, map_values m ≡ₚ (map_to_list m).*2.

Module IpcState.
(** src/bqti-ipc/src/state.rs:18-27 [IpcState::replicate] *)
Definition replicate `{MapIter} (self : IpcState) : list Event :=
  map (λ torrent, SessionStateChanged (t_info_hash torrent) (t_name torrent) (t_state torrent))
    (map_values self).

(** src/bqti-ipc/src/state.rs:29-66 [IpcState::apply]

    The event is passed on in every case. *)
Definition apply (self : IpcState) (event : Event) : IpcState * option Event :=
  match event with
  | SessionStateChanged info_hash name state =>
    (match self !! info_hash with
     | Some torrent => <[info_hash := mkListed (t_info_hash torrent) name state]> self
     | None => self
     end, Some event)
  | TorrentAdded info_hash name state =>
    (<[info_hash := mkListed info_hash name state]> self, Some event)
  | TorrentRemoved info_hash => (delete info_hash self, Some event)
  | _ => (self, Some event)
  end.
End IpcState.

(** * The torrents behind the daemon *)

(** src/src/bit_torrent/bqti.rs:63-73 [SeedingOptions] *)
Record SeedingOptions := mkSeeding {
  so_path : string;
  so_name : option string;
  so_piece_length : Z;
  so_announce : list (list string);
  so_seeds : option (list string);
  so_nodes : option (list string);
  so_private : bool;
  so_comment : option string;
  so_created_by : option string;
}.

(** src/src/bit_torrent/bqti.rs:75-83 [TorrentAction] *)
Inductive TorrentAction :=
| ADownload (source : TorrentSource) (user_space : string)
| ASeed (options : SeedingOptions).

(** src/src/bit_torrent/bqti.rs:102-112 [Torrenting]

    Over the state [T] of the implementation, with the text of its errors. *)
Class Torrenting (T : Type) := {
  TorrentingError : Type;
  error_text : TorrentingError → string;
  add_torrent : T → TorrentAction → T * Result TorrentingError TorrentFile;
  remove_torrent : T → InfoHash → T * Result TorrentingError InfoHash;
  pause_torrent : T → InfoHash → T * Result TorrentingError InfoHash;
  resume_torrent : T → InfoHash → T * Result TorrentingError InfoHash;
}.

(** What a client of the interface relies on: a hash that is answered is the one
    that was given, and a torrent has a hash of the right size. *)
Class TorrentingLaws (T : Type) `{Torrenting T} : Prop := {
  remove_same t h t' h' : remove_torrent t h = (t', Ok h') → h' = h;
  add_wf t a t' f : add_torrent t a = (t', Ok f) → InfoHash.wf (TorrentFile.info_hash f);
}.

(** * The server *)

(** src/src/ipc/server.rs:23-23 [EVENT_STREAM_BUFFER_SIZE] *)
Definition EVENT_STREAM_BUFFER_SIZE : nat := 64.

(** A receiver of a [broadcast] channel at a position of the log. *)
Inductive Recv := Received (e : Event) | Lagged (n : nat) | Empty.
Definition recv (capacity : nat) (log : list Event) (pos : nat) : Recv :=
  if capacity <? length log - pos then Lagged (length log - pos - capacity)
  else match log !! pos with Some e => Received e | None => Empty end.

(** src/src/ipc/server.rs:40-45 [ClientCtx] *)
Record ClientCtx (T : Type) := mkCtx {
  cx_event_tx : list Event;
  cx_bqti : T;
  cx_state : IpcState;
  cx_cancelled : bool;
}.
#[global] Arguments mkCtx {T} _ _ _ _.
#[global] Arguments cx_event_tx {T} _.
#[global] Arguments cx_bqti {T} _.
#[global] Arguments cx_state {T} _.
#[global] Arguments cx_cancelled {T} _.

Module Server.
Section server.
Context {T : Type} `{Torrenting T} `{MapIter} `{Hex}.
Implicit Types (ctx : ClientCtx T).

Definition set_bqti ctx (t : T) : ClientCtx T :=
  mkCtx (cx_event_tx ctx) t (cx_state ctx) (cx_cancelled ctx).

(** src/src/ipc/server.rs:47-58 [ClientCtx::emit]

    And [IpcServer::send_event], lines 106-115, which is the same. *)
Definition emit ctx (event : Event) : ClientCtx T :=
  let '(state, event) := IpcState.apply (cx_state ctx) event in
  let log := match event with Some e => cx_event_tx ctx ++ [e] | None => cx_event_tx ctx end in
  mkCtx log (cx_bqti ctx) state (cx_cancelled ctx).

(** src/src/ipc/server.rs:253-388 [dispatch] *)
Definition dispatch (version : string) (request : Request) ctx : ClientCtx T * Reply :=
  match request with
  | RStatus _ => (ctx, Ok (PStatus (mkStatus version 0 0 0)))
  | RAddDownload link user_space =>
    match source_parse link with
    | Err e => (ctx, Err e)
    | Ok source =>
      match add_torrent (cx_bqti ctx) (ADownload source user_space) with
      | (t, Err e) => (set_bqti ctx t, Err (error_text e))
      | (t, Ok torrent_file) =>
        let info_hash := InfoHash.to_string (TorrentFile.info_hash torrent_file) in
        (emit (set_bqti ctx t) (TorrentAdded info_hash (TorrentFile.name torrent_file) SPending),
         Ok (PTorrentAdded info_hash))
      end
    end
  | RAddSeed name path piece_length announce seeds nodes private comment created_by =>
    match add_torrent (cx_bqti ctx)
            (ASeed (mkSeeding path name piece_length announce seeds nodes private comment
                      created_by)) with
    | (t, Err e) => (set_bqti ctx t, Err (error_text e))
    | (t, Ok torrent_file) =>
      let info_hash := InfoHash.to_string (TorrentFile.info_hash torrent_file) in
      (emit (set_bqti ctx t) (TorrentAdded info_hash (TorrentFile.name torrent_file) SPending),
       Ok (PSeedAdded info_hash))
    end
  | RRemoveTorrent info_hash =>
    match InfoHash.from_hex info_hash with
    | None => (ctx, Err "info hash invalid")
    | Some info_hash =>
      match remove_torrent (cx_bqti ctx) info_hash with
      | (t, Err e) => (set_bqti ctx t, Err (error_text e))
      | (t, Ok info_hash) =>
        (emit (set_bqti ctx t) (TorrentRemoved (InfoHash.to_string info_hash)),
         Ok (PRemoved (InfoHash.to_string info_hash)))
      end
    end
  | RResumeSession info_hash =>
    match InfoHash.from_hex info_hash with
    | None => (ctx, Err "info hash invalid")
    | Some info_hash =>
      match resume_torrent (cx_bqti ctx) info_hash with
      | (t, Err e) => (set_bqti ctx t, Err (error_text e))
      | (t, Ok _) => (set_bqti ctx t, Ok Handled)
      end
    end
  | RPauseSession info_hash =>
    match InfoHash.from_hex info_hash with
    | None => (ctx, Err "info hash invalid")
    | Some info_hash =>
      let hash := InfoHash.to_string info_hash in
      match pause_torrent (cx_bqti ctx) info_hash with
      | (t, Err e) => (set_bqti ctx t, Err (error_text e))
      | (t, Ok _) =>
        (emit (set_bqti ctx t) (SessionStateChanged hash "" SPaused), Ok Handled)
      end
    end
  | RTorrents => (ctx, Ok (PTorrents (map_values (cx_state ctx))))
  | RShutdown => (mkCtx (cx_event_tx ctx) (cx_bqti ctx) (cx_state ctx) true, Ok Handled)
  | REventStream => (ctx, Ok Handled)
  end.
End server.
End Server.

(** * Lines on the socket *)

(** [serde_json]: the text of a message, on one line, and its reading. *)
Class Json := {
  request_to_json : Request → string;
  request_from_json : string → Result string Request;
  reply_to_json : Reply → string;
  reply_from_json : string → Result string Reply;
  event_to_json : Event → string;
  event_from_json : string → Result string Event;
}.

Definition newline : Ascii.ascii := Ascii.ascii_of_nat 10.
Definition line (s : string) : string := s +:+ String newline "".

(** What is written is one line; it reads back, the end of the line being white
    space; and a refusal is not an event. *)
Class JsonLaws `{Json} : Prop := {
  request_one_line r : contains_char newline (request_to_json r) = false;
  reply_one_line r : contains_char newline (reply_to_json r) = false;
  request_reads r : request_from_json (line (request_to_json r)) = Ok r;
  reply_reads r : reply_from_json (line (reply_to_json r)) = Ok r;
  event_reads e : event_from_json (line (event_to_json e)) = Ok e;
  refusal_no_event m : ∃ e, event_from_json (line (reply_to_json (Err m))) = Err e;
}.

(** [read_until(b'\n')] and [read_line]: up to the end of the line, included, or
    of the input; and what is left. *)
Fixpoint read_until (s : string) : string * string :=
  match s with
  | "" => ("", "")
  | String c s =>
    if Ascii.eqb c newline then (String c "", s)
    else let '(l, rest) := read_until s in (String c l, rest)
  end.

Module Stream.
Section stream.
Context {T : Type} `{Torrenting T} `{MapIter} `{Hex} `{Json}.
Implicit Types (ctx : ClientCtx T).

(** How a connection ends: at once, with a reply, or turned into a stream of
    events after the reply. *)
Inductive Served := SClosed | SReplied (out : string) | SStreaming (out : string).

(** src/src/ipc/server.rs:157-195 [handle_client]

    Up to the stream of events; [input] is what the client writes. *)
Definition handle_client (version : string) (input : string) ctx : ClientCtx T * Served :=
  let '(buf, _) := read_until input in
  if bool_decide (buf = "") then (ctx, SClosed)
  else
    let request := request_from_json buf in
    let is_event_stream := match request with Ok REventStream => true | _ => false end in
    let '(ctx, reply) :=
      match request with
      | Ok req => Server.dispatch version req ctx
      | Err e => (ctx, Err ("invalid request: " +:+ e))
      end in
    let out := line (reply_to_json reply) in
    (ctx, if is_event_stream then SStreaming out else SReplied out).

(** src/src/ipc/server.rs:203-217 [handle_event_stream, the snapshot] *)
Definition snapshot (state : IpcState) : list string :=
  map (λ event, line (event_to_json event)) (IpcState.replicate state).

Inductive Forward := Wrote (l : string) | Ended (l : string) | Waits.

(** src/src/ipc/server.rs:219-250 [handle_event_stream, the loop]

    One turn of it, for a client that reads. *)
Definition forward (log : list Event) (pos : nat) : Forward :=
  match recv EVENT_STREAM_BUFFER_SIZE log pos with
  | Received event => Wrote (line (event_to_json event))
  | Lagged n => Ended (line (reply_to_json (Err ("lagged: missed " +:+ pretty n +:+ " events"))))
  | Empty => Waits
  end.

(** src/bqti-ipc/src/socket.rs:31-34 [Socket::send, the request] *)
Definition send_request (request : Request) : string := line (request_to_json request).

(** src/bqti-ipc/src/socket.rs:36-39 [Socket::send, the reply] *)
Definition read_reply (input : string) : Result string Reply := reply_from_json (read_until input).1.

(** src/bqti-ipc/src/socket.rs:45-53 [Socket::event_stream, one item] *)
Definition next_event (l : string) : option (Result string Event) :=
  if bool_decide (l = "") then None else Some (event_from_json l).

(** src/src/ipc/client.rs:24-34 [ipc]

    Over a connection that [handle_client] serves. *)
Definition ipc (version : string) (request : Request) ctx : ClientCtx T * Result string Response :=
  let '(ctx, served) := handle_client version (send_request request) ctx in
  let out := match served with SClosed => "" | SReplied out | SStreaming out => out end in
  (ctx, match read_reply out with
        | Ok (Ok response) => Ok response
        | Ok (Err e) => Err e
        | Err e => Err e
        end).
End stream.
End Stream.

(** * The client *)

Module Client.
(** src/src/ipc/client.rs:264-264 [handle_status, relevant] *)
Definition relevant (info_hash : option string) (hash : string) : bool :=
  match info_hash with Some h => bool_decide (h = hash) | None => true end.

Definition listed (info_hash : string) (t : Torrent) : bool := bool_decide (t_info_hash t = info_hash).

(** [iter_mut().find(..)] and the assignment to what it finds. *)
Fixpoint set_first (info_hash : string) (state : IpcTorrentState) (l : list Torrent) : list Torrent :=
  match l with
  | [] => []
  | t :: l =>
    if listed info_hash t then mkListed (t_info_hash t) (t_name t) state :: l
    else t :: set_first info_hash state l
  end.

(** src/src/ipc/client.rs:241-254 [handle_status, the listing] *)
Definition status_list (info_hash : option string) (torrents : list Torrent)
    : Result string (list Torrent) :=
  match info_hash with
  | None => Ok torrents
  | Some hash =>
    match List.filter (listed hash) torrents with
    | [] => Err ("torrent " +:+ hash +:+ " not found")
    | torrents => Ok torrents
    end
  end.

(** src/src/ipc/client.rs:266-296 [handle_status, one event] *)
Definition status_event (info_hash : option string) (torrents : list Torrent) (event : Event)
    : list Torrent :=
  match event with
  | TorrentRemoved hash =>
    if relevant info_hash hash then List.filter (λ t, negb (listed hash t)) torrents else torrents
  | TorrentAdded hash name state =>
    if relevant info_hash hash then torrents ++ [mkListed hash name state] else torrents
  | SessionStateChanged hash _ state =>
    if relevant info_hash hash then set_first hash state torrents else torrents
  | _ => torrents
  end.

(** What [watch_single] prints. *)
Inductive Output :=
| BarOpened (total : Z) (name : string)
| BarAt (position : Z)
| BarVerified (name : string)
| BarCleared
| Exposed (info_hash magnet : string).

(** src/src/ipc/client.rs:59-92 [watch_single, one event]

    Whether a bar is open, what is printed, and whether the loop is left.  The
    hash of [ExposeTorrent] is not compared with the one that is watched. *)
Definition watch_event (info_hash : string) (bar : bool) (event : Event)
    : bool * list Output * bool :=
  match event with
  | SessionStateChanged hash name state =>
    if bool_decide (hash = info_hash) then
      match state with
      | SVerifying verified total =>
        let opened := if bar then [] else [BarOpened total name] in
        if (verified =? total)%Z
        then (true, opened ++ [BarAt verified; BarVerified name], true)
        else (true, opened ++ [BarAt verified], false)
      | _ => (false, if bar then [BarCleared] else [], false)
      end
    else (bar, [], false)
  | ExposeTorrent hash magnet =>
    (false, (if bar then [BarCleared] else []) ++ [Exposed hash magnet], true)
  | _ => (bar, [], false)
  end.

(** src/src/ipc/client.rs:50-96 [watch_single]

    Over the events the stream gives; what is printed, and whether the loop was
    left before the stream ended. *)
Fixpoint watch_single (info_hash : string) (bar : bool) (events : list Event) : list Output * bool :=
  match events with
  | [] => ([], false)
  | event :: events =>
    let '(bar, out, stop) := watch_event info_hash bar event in
    if stop then (out, true)
    else let '(out', stopped) := watch_single info_hash bar events in (out ++ out', stopped)
  end.

(** src/src/cli.rs:86-108 [DownloadCommand] *)
Inductive DownloadCommand :=
| DAdd (torrent : string) (watch : bool)
| DStop (info_hash : string)
| DPause (info_hash : string)
| DResume (info_hash : string)
| DList.

Section commands.
(** [current_dir] and [Path::join]. *)
Context (current_dir : string) (path_join : string → string → string).

(** src/src/ipc/client.rs:15-22 [get_pwd] *)
Definition get_pwd (link : string) : string := path_join current_dir link.

(** src/src/ipc/client.rs:189-195 [resolve_link] *)
Definition resolve_link (torrent : string) : string :=
  if starts_with "magnet:" torrent then torrent else get_pwd torrent.

(** src/src/ipc/client.rs:129-187 [handle_download]

    The request that is sent; what is printed is left out. *)
Definition download_request (command : DownloadCommand) : Request :=
  match command with
  | DAdd torrent _ => RAddDownload (resolve_link torrent) current_dir
  | DStop info_hash => RRemoveTorrent info_hash
  | DPause info_hash => RPauseSession info_hash
  | DResume info_hash => RResumeSession info_hash
  | DList => RTorrents
  end.

(** src/src/ipc/client.rs:137-145 [handle_download]

    The torrent that is watched after the reply. *)
Definition download_watch (command : DownloadCommand) (response : Response) : option string :=
  match command, response with
  | DAdd _ true, PTorrentAdded info_hash => Some info_hash
  | _, _ => None
  end.

(** src/src/ipc/client.rs:197-230 [handle_seed] *)
Definition seed_request (path : string) (name : option string) (announce : list (list string))
    (seeds nodes : option (list string)) (piece_length : Z) (private : bool)
    (comment created_by : option string) : Request :=
  RAddSeed name (get_pwd path) piece_length announce seeds nodes private comment created_by.

(** src/src/ipc/client.rs:234-238 [handle_seed]

    The torrent that is watched after the reply. *)
Definition seed_watch (response : Response) : Result string string :=
  match response with PSeedAdded info_hash => Ok info_hash | _ => Err "unexpected response" end.
End commands.
End Client.

(** * A watching client and the daemon *)

Module Watch.
(** Where the task that serves the stream is. *)
Inductive Task := TNone | TSubscribed (pos : nat) | TStreaming (pos : nat) | TClosed.

(** Where [handle_status] is. *)
Inductive View := VStart | VOpen (torrents : list Torrent) | VEnded (error : string).

Record Sys := mkSys {
  sy_state : IpcState;
  sy_log : list Event;
  sy_pending : list Event;
  sy_task : Task;
  sy_wire : list string;
  sy_view : View;
}.

(** The steps of the system: the two halves of [emit], the [n]-th of those
    under way sending first; the listing; the three phases of the stream's task;
    and the reading of a line. *)
Inductive Act :=
| Apply (e : Event)
| Send (n : nat)
| Listing
| Subscribe
| Snapshot
| ForwardOne
| Read.

Section watch.
Context `{MapIter} `{Json} (info_hash : option string).
Implicit Types (s : Sys).

(** src/src/ipc/client.rs:261-297 [handle_status, one line]

    With [event_stream], whose items it takes. *)
Definition status_line (torrents : list Torrent) (l : string) : View :=
  match Stream.next_event l with
  | None => VEnded ""
  | Some (Err e) => VEnded e
  | Some (Ok event) => VOpen (Client.status_event info_hash torrents event)
  end.

(** src/src/ipc/server.rs:197-251 [handle_event_stream]

    Interleaved with the emitters and the client; [None] when the step is not
    enabled. *)
Definition act s (a : Act) : option Sys :=
  let '(mkSys st log pending task wire view) := s in
  match a with
  | Apply e =>
    let '(st, e) := IpcState.apply st e in
    Some (mkSys st log (pending ++ option_list e) task wire view)
  | Send n =>
    e ← pending !! n;
    Some (mkSys st (log ++ [e]) (delete n pending) task wire view)
  | Listing =>
    match view with
    | VStart =>
      Some (mkSys st log pending task wire
              match Client.status_list info_hash (map_values st) with
              | Ok torrents => VOpen torrents
              | Err e => VEnded e
              end)
    | _ => None
    end
  | Subscribe =>
    match view, task with
    | VOpen _, TNone => Some (mkSys st log pending (TSubscribed (length log)) wire view)
    | _, _ => None
    end
  | Snapshot =>
    match task with
    | TSubscribed pos =>
      Some (mkSys st log pending (TStreaming pos) (wire ++ Stream.snapshot st) view)
    | _ => None
    end
  | ForwardOne =>
    match task with
    | TStreaming pos =>
      match Stream.forward log pos with
      | Stream.Wrote l => Some (mkSys st log pending (TStreaming (S pos)) (wire ++ [l]) view)
      | Stream.Ended l => Some (mkSys st log pending TClosed (wire ++ [l]) view)
      | Stream.Waits => None
      end
    | _ => None
    end
  | Read =>
    match view, wire with
    | VOpen torrents, l :: wire => Some (mkSys st log pending task wire (status_line torrents l))
    | _, _ => None
    end
  end.

Definition watch_start (st : IpcState) (log : list Event) : Sys := mkSys st log [] TNone [] VStart.

(** The schedules in which a client keeps in step: events are sent in the order
    they were applied, no torrent is added twice, and nothing is published
    between the listing and the subscription. *)
Definition calm s (a : Act) : Prop :=
  match a with
  | Apply e =>
    (match e with TorrentAdded hash _ _ => sy_state s !! hash = None | _ => True end) ∧
    (match sy_view s, sy_task s with VOpen _, TNone => False | _, _ => True end)
  | Send n => n = 0 ∧ (match sy_view s, sy_task s with VOpen _, TNone => False | _, _ => True end)
  | Listing => sy_pending s = []
  | _ => True
  end.

Definition calm_step s s' : Prop := ∃ a, calm s a ∧ act s a = Some s'.

(** The state a client sees for a torrent. *)
Definition seen (torrents : list Torrent) (hash : string) : option IpcTorrentState :=
  t_state <$> List.find (Client.listed hash) torrents.
Definition known (st : IpcState) (hash : string) : option IpcTorrentState :=
  t_state <$> st !! hash.

(** The view of a client is the daemon's state, for the torrents it asked for. *)
Definition mirrors (torrents : list Torrent) (st : IpcState) : Prop :=
  ∀ hash, seen torrents hash =
    if Client.relevant info_hash hash then known st hash else None.
End watch.
End Watch.

(** * Lemmas *)

(** Every torrent is listed under its own hash. *)
Definition keyed (st : IpcState) : Prop := map_Forall (λ k t, t_info_hash t = k) st.

Lemma apply_keyed st e : keyed st → keyed (IpcState.apply st e).1.
Proof.
  unfold keyed. intros Hk. destruct e as [| h n s | |h n s|h|]; simpl; try done.
  - destruct (st !! h) as [t|] eqn:E; [|done]. apply map_Forall_insert_2; [|done].
    by apply (Hk _ _ E).
  - by apply map_Forall_insert_2.
  - by apply map_Forall_delete.
Qed.

Lemma apply_forwards st e : (IpcState.apply st e).2 = Some e.
Proof. by destruct e. Qed.

Section view.
Import Watch.
Context `{MapIterLaws} `{JsonLaws} (info_hash : option string).
Implicit Types (c : option IpcTorrentState) (es : list Event).

(** What an event makes of one torrent of a client's view. *)
Definition cell_step (hash : string) c (e : Event) : option IpcTorrentState :=
  match e with
  | SessionStateChanged h _ state => if bool_decide (h = hash) then (λ _, state) <$> c else c
  | TorrentAdded h _ state =>
    if bool_decide (h = hash) then Some (default state c) else c
  | TorrentRemoved h => if bool_decide (h = hash) then None else c
  | _ => c
  end.
Definition cell hash c es : option IpcTorrentState := foldl (cell_step hash) c es.

Lemma find_snoc {A} (p : A → bool) l x :
  List.find p (l ++ [x]) = match List.find p l with Some y => Some y
                           | None => if p x then Some x else None end.
Proof. induction l as [|y l IH]; simpl; [done|]. by destruct (p y). Qed.

Lemma seen_filter_ne l h hash :
  seen (List.filter (λ t, negb (Client.listed h t)) l) hash =
  if bool_decide (h = hash) then None else seen l hash.
Proof.
  unfold seen, Client.listed. induction l as [|t l IH]; simpl; [by case_bool_decide|].
  repeat (case_bool_decide; simpl; simplify_eq; try done).
Qed.

Lemma seen_set_first l h state hash :
  seen (Client.set_first h state l) hash =
  if bool_decide (h = hash) then (λ _, state) <$> seen l hash else seen l hash.
Proof.
  unfold seen, Client.listed. induction l as [|t l IH]; simpl; [by case_bool_decide|].
  unfold Client.listed in *.
  repeat (case_bool_decide; simpl in *; simplify_eq; try done).
Qed.

Lemma seen_event l e hash : Client.relevant info_hash hash = true →
  seen (Client.status_event info_hash l e) hash = cell_step hash (seen l hash) e.
Proof.
  intros Hr. destruct e as [| h n s | |h n s|h|]; simpl; try done.
  - destruct (Client.relevant info_hash h) eqn:E; [by rewrite seen_set_first|].
    case_bool_decide; [congruence|done].
  - destruct (Client.relevant info_hash h) eqn:E.
    + unfold seen. rewrite find_snoc. unfold Client.listed at 2. simpl.
      destruct (List.find _ l); simpl; by case_bool_decide.
    + case_bool_decide; [congruence|done].
  - destruct (Client.relevant info_hash h) eqn:E; [by rewrite seen_filter_ne|].
    case_bool_decide; [congruence|done].
Qed.

Lemma seen_irrelevant l e hash : Client.relevant info_hash hash = false →
  seen (Client.status_event info_hash l e) hash = seen l hash.
Proof.
  intros Hr. assert (∀ h, Client.relevant info_hash h = true → bool_decide (h = hash) = false) as Hne.
  { intros h Hh. apply bool_decide_eq_false. by intros ->; rewrite Hr in Hh. }
  destruct e as [| h n s | |h n s|h|]; simpl; try done;
    destruct (Client.relevant info_hash h) eqn:E; try done; apply Hne in E.
  - by rewrite seen_set_first, E.
  - unfold seen. rewrite find_snoc. unfold Client.listed at 2. simpl. rewrite E.
    by destruct (List.find _ l).
  - by rewrite seen_filter_ne, E.
Qed.

(** The daemon's state follows the same rule when no torrent is added twice. *)
Lemma known_apply st e hash :
  (match e with TorrentAdded h _ _ => st !! h = None | _ => True end) →
  known (IpcState.apply st e).1 hash = cell_step hash (known st hash) e.
Proof.
  unfold known. destruct e as [| h n s | |h n s|h|]; simpl; intros Ha; try done.
  - destruct (st !! h) as [t|] eqn:E; case_bool_decide; subst; simplify_map_eq; try done.
  - case_bool_decide; subst; simplify_map_eq; done.
  - case_bool_decide; subst; simplify_map_eq; done.
Qed.

(** A run of events either settles a torrent's state or leaves it alone. *)
Lemma cell_settles hash es :
  (∀ x y, cell hash (Some x) es = cell hash (Some y) es) ∨
  (∀ x, cell hash (Some x) es = Some x).
Proof.
  unfold cell. induction es as [|e es IH]; [by right|].
  destruct e as [| h n s | |h n s|h|]; simpl; try done; case_bool_decide; try done; by left.
Qed.

(** Replaying events over the state they lead to ends in that state. *)
Lemma cell_replay hash c es :
  cell hash (match c, cell hash c es with Some _, Some y => Some y | _, _ => c end) es =
  cell hash c es.
Proof.
  destruct c as [x|]; [|done]. destruct (cell hash (Some x) es) as [y|] eqn:E; [|done].
  destruct (cell_settles hash es) as [Hs|Hs]; [by rewrite (Hs y x)|].
  rewrite Hs in E. by injection E as ->.
Qed.

Definition changes (l : list Torrent) : list Event :=
  map (λ t, SessionStateChanged (t_info_hash t) (t_name t) (t_state t)) l.

Lemma cell_changes hash c l : NoDup (map t_info_hash l) →
  cell hash c (changes l) =
  match c, seen l hash with Some _, Some y => Some y | _, _ => c end.
Proof.
  unfold cell, seen, Client.listed, changes. revert c. induction l as [|t l IH]; intros c Hnd; simpl.
  { by destruct c. }
  apply NoDup_cons in Hnd as [Hni Hnd]. rewrite IH by done. case_bool_decide as E; [|done].
  destruct c as [x|]; [|done]. simpl.
  destruct (List.find _ l) as [t'|] eqn:F; [|done]. simpl. exfalso.
  apply List.find_some in F as [Fi Fe%bool_decide_eq_true]. apply Hni. rewrite E, <- Fe.
  by apply list_elem_of_In, List.in_map.
Qed.

Lemma values_keys st : keyed st → NoDup (map t_info_hash (map_values st)).
Proof.
  intros Hk. rewrite map_values_perm. apply (NoDup_fmap_2_strong (t_info_hash)).
  - intros t1 t2 ([k1 ?] & -> & Ha)%list_elem_of_fmap ([k2 ?] & -> & Hb)%list_elem_of_fmap.
    apply elem_of_map_to_list in Ha, Hb. simpl. rewrite (Hk _ _ Ha), (Hk _ _ Hb).
    intros ->. congruence.
  - apply (NoDup_fmap_2_strong snd); [|apply NoDup_map_to_list].
    intros [k1 t1] [k2 t2] Ha%elem_of_map_to_list Hb%elem_of_map_to_list. simpl. intros <-.
    by rewrite <- (Hk _ _ Ha), <- (Hk _ _ Hb).
Qed.

Lemma seen_values st hash : keyed st → seen (map_values st) hash = known st hash.
Proof.
  intros Hk. unfold seen, known.
  destruct (List.find _ _) as [t|] eqn:F; simpl.
  - apply List.find_some in F as [Fi Fe%bool_decide_eq_true].
    apply list_elem_of_In in Fi. rewrite map_values_perm in Fi.
    apply list_elem_of_fmap in Fi as ([k t'] & -> & Hi). apply elem_of_map_to_list in Hi.
    simpl in *. rewrite (Hk _ _ Hi) in Fe. subst. by rewrite Hi.
  - destruct (st !! hash) as [t|] eqn:E; [|done]. exfalso.
    assert (t ∈ map_values st) as Hi.
    { rewrite map_values_perm. apply list_elem_of_fmap. exists (hash, t).
      by rewrite elem_of_map_to_list. }
    apply list_elem_of_In in Hi. eapply List.find_none in F; [|done].
    apply bool_decide_eq_false in F. by apply F, (Hk _ _ E).
Qed.

Lemma cell_app hash c es es' : cell hash c (es ++ es') = cell hash (cell hash c es) es'.
Proof. apply foldl_app. Qed.

Lemma next_event_line s : Stream.next_event (line s) = Some (event_from_json (line s)).
Proof. unfold Stream.next_event, line. by destruct s. Qed.

Lemma status_list_mirrors st torrents : keyed st →
  Client.status_list info_hash (map_values st) = Ok torrents → mirrors info_hash torrents st.
Proof.
  intros Hk. unfold Client.status_list, mirrors, Client.relevant.
  destruct info_hash as [h|]; [|intros [= <-] hash; by apply seen_values].
  intros Hs hash. assert (torrents = List.filter (Client.listed h) (map_values st)) as ->.
  { by destruct (List.filter _ _); simplify_eq. }
  rewrite <- (seen_values st hash Hk). clear Hs. unfold seen, Client.listed.
  induction (map_values st) as [|t l IH]; simpl; [by case_bool_decide|].
  repeat (case_bool_decide; simpl; simplify_eq; try done).
Qed.

(** The view a client will have once it has read [es]. *)
Definition will_mirror (torrents : list Torrent) (es : list Event) (st : IpcState) : Prop :=
  ∀ hash, (if Client.relevant info_hash hash then cell hash (seen torrents hash) es
           else seen torrents hash) =
          (if Client.relevant info_hash hash then known st hash else None).

Definition event_lines es : list string := map (λ e, line (event_to_json e)) es.

Record in_step (s : Sys) : Prop := {
  is_keyed : keyed (sy_state s);
  is_view :
    match sy_view s, sy_task s with
    | VStart, TNone => sy_wire s = []
    | VStart, _ => False
    | VOpen ts, TNone => sy_wire s = [] ∧ sy_pending s = [] ∧ mirrors info_hash ts (sy_state s)
    | VOpen ts, TSubscribed pos =>
      sy_wire s = [] ∧ pos ≤ length (sy_log s) ∧
      will_mirror ts (drop pos (sy_log s) ++ sy_pending s) (sy_state s)
    | VOpen ts, TStreaming pos =>
      pos ≤ length (sy_log s) ∧ ∃ ws, sy_wire s = event_lines ws ∧
      will_mirror ts (ws ++ drop pos (sy_log s) ++ sy_pending s) (sy_state s)
    | VOpen ts, TClosed => ∃ ws m,
      sy_wire s = event_lines ws ++ [line (reply_to_json (Err m))]
    | VEnded _, TStreaming _ | VEnded _, TSubscribed _ => False
    | VEnded _, _ => True
    end;
}.

Lemma will_mirror_apply ts es st e :
  (match e with TorrentAdded h _ _ => st !! h = None | _ => True end) →
  will_mirror ts es st → will_mirror ts (es ++ [e]) (IpcState.apply st e).1.
Proof.
  intros Ha Hw hash. specialize (Hw hash). destruct (Client.relevant _ _); [|done].
  rewrite cell_app, Hw. simpl. by rewrite known_apply.
Qed.

Lemma will_mirror_snapshot ts es st : keyed st →
  will_mirror ts es st → will_mirror ts (changes (map_values st) ++ es) st.
Proof.
  intros Hk Hw hash. specialize (Hw hash). destruct (Client.relevant _ _); [|done].
  rewrite cell_app, cell_changes by (by apply values_keys). rewrite seen_values by done.
  rewrite <- Hw. pose proof (cell_replay hash (seen ts hash) es). by destruct (seen ts hash).
Qed.

Lemma will_mirror_read ts e es st :
  will_mirror ts (e :: es) st → will_mirror (Client.status_event info_hash ts e) es st.
Proof.
  intros Hw hash. specialize (Hw hash). destruct (Client.relevant _ _) eqn:E.
  - by rewrite seen_event.
  - by rewrite seen_irrelevant.
Qed.

Lemma drop_send {A} pos (log : list A) e p : pos ≤ length log →
  drop pos (log ++ [e]) ++ p = drop pos log ++ e :: p.
Proof. intros Hp. rewrite drop_app_le by done. by rewrite <- (assoc_L (++)). Qed.

Lemma in_step_publish s a s' : (match a with Apply _ | Send _ => True | _ => False end) →
  in_step s → calm s a → act info_hash s a = Some s' → in_step s'.
Proof.
  intros Ha [Hk Hv] Hc Hs. destruct s as [st log p task wire view], a as [e|n| | | | |]; try done;
    simpl in *; clear Ha.
  - destruct (IpcState.apply st e) as [st' o] eqn:E. pose proof (apply_forwards st e) as Ho.
    rewrite E in Ho. simpl in Ho. subst o. injection Hs as <-. destruct Hc as [Hadd Hc].
    split; simpl; [by pose proof (apply_keyed st e Hk); rewrite E in *|].
    pose proof (λ ts es, will_mirror_apply ts es st e Hadd) as Hw. rewrite E in Hw. simpl in Hw.
    destruct view as [|ts|], task as [|pos|pos|]; try done.
    + destruct Hv as (? & ? & Hv). rewrite (assoc_L (++)). auto.
    + destruct Hv as (? & ws & ? & Hv). split; [done|]. exists ws. split; [done|].
      rewrite !(assoc_L (++)). apply Hw. by rewrite <- (assoc_L (++)).
  - destruct Hc as [-> Hc]. destruct p as [|e p]; [done|]. injection Hs as <-. split; simpl; [done|].
    destruct view as [|ts|], task as [|pos|pos|]; try done.
    + destruct Hv as (? & ? & Hv). rewrite length_app, drop_send by done. simpl.
      split_and!; [done|lia|done].
    + destruct Hv as (? & ws & ? & Hv). rewrite length_app, drop_send by done.
      split; [simpl; lia|]. by exists ws.
Qed.

Lemma in_step_stream s a s' : (match a with Apply _ | Send _ | Read => False | _ => True end) →
  in_step s → calm s a → act info_hash s a = Some s' → in_step s'.
Proof.
  intros Ha [Hk Hv] Hc Hs. destruct s as [st log p task wire view], a as [e|n| | | | |]; try done;
    simpl in *; clear Ha.
  - destruct view; try done. destruct task; try done. injection Hs as <-. split; [done|]. simpl.
    destruct (Client.status_list _ _) eqn:E; [|done].
    split_and!; [done..|]. by apply status_list_mirrors.
  - destruct view as [|ts|], task; try done. injection Hs as <-. split; [done|]. simpl.
    destruct Hv as (-> & -> & Hv). split_and!; [done..|]. rewrite drop_all. intros hash.
    specialize (Hv hash). simpl. by destruct (Client.relevant _ _).
  - destruct task as [|pos| |]; try done. injection Hs as <-. split; [done|]. simpl.
    destruct view as [|ts|]; try done. destruct Hv as (-> & ? & Hv). split; [done|].
    exists (changes (map_values st)). split; [done|]. by apply will_mirror_snapshot.
  - destruct task as [| |pos|]; try done. unfold Stream.forward, recv in Hs.
    destruct view as [|ts|]; try done.
    destruct Hv as (Hp & ws & -> & Hv).
    destruct (_ <? _); [|destruct (log !! pos) as [e|] eqn:E; [|done]];
      injection Hs as <-; (split; [done|]); simpl.
    + eexists ws, _. done.
    + split; [by apply lookup_lt_Some in E|]. exists (ws ++ [e]).
      split; [by unfold event_lines; rewrite map_app|].
      rewrite <- (assoc_L (++)). by rewrite (drop_S _ _ _ E) in Hv.
Qed.

Lemma in_step_read s s' : in_step s → act info_hash s Read = Some s' → in_step s'.
Proof.
  intros [Hk Hv] Hs. destruct s as [st log p task wire view]. simpl in *.
  destruct view as [|ts|]; try done. destruct wire as [|l wire]; [done|]. injection Hs as <-.
  split; [done|]. simpl. unfold status_line. destruct task as [|pos|pos|]; try naive_solver.
  - destruct Hv as (Hp & [|e ws] & Hw & Hv); [done|]. injection Hw as -> ->.
    rewrite next_event_line, event_reads. split; [done|]. exists ws. split; [done|].
    by apply will_mirror_read.
  - destruct Hv as ([|e ws] & m & Hw).
    + injection Hw as -> ->. rewrite next_event_line. destruct (refusal_no_event m) as [e ->]. done.
    + injection Hw as -> ->. rewrite next_event_line, event_reads. by exists ws, m.
Qed.

Lemma calm_in_step s s' : in_step s → calm_step info_hash s s' → in_step s'.
Proof.
  intros Hi (a & Hc & Ha). destruct a; match type of Ha with act _ _ ?a = _ =>
    first [by apply (in_step_publish s a) | by apply (in_step_stream s a)
          | by apply (in_step_read s)] end.
Qed.

Lemma calm_run_in_step s s' : in_step s → rtc (calm_step info_hash) s s' → in_step s'.
Proof. intros Hi Hr. induction Hr; eauto using calm_in_step. Qed.

Lemma start_in_step st log : keyed st → in_step (watch_start st log).
Proof. done. Qed.

(** What is left to deliver. *)
Definition backlog (s : Sys) : nat :=
  3 * length (sy_pending s) + length (sy_wire s) +
  match sy_task s with TStreaming pos => 2 * (length (sy_log s) - pos) | _ => 0 end.

Definition delivered (st : IpcState) (s : Sys) : Prop :=
  sy_state s = st ∧
  match sy_view s with
  | VOpen ts => mirrors info_hash ts st
  | VEnded _ => sy_task s = TClosed
  | VStart => False
  end.

(** Unless all is delivered, a step that publishes nothing delivers more. *)
Lemma deliver_one s ts : in_step s → sy_view s = VOpen ts →
  (match sy_task s with TStreaming _ | TClosed => True | _ => False end) →
  delivered (sy_state s) s ∨
  ∃ s', calm_step info_hash s s' ∧ sy_state s' = sy_state s ∧ backlog s' < backlog s ∧
    (match sy_task s' with TStreaming _ | TClosed => True | _ => False end) ∧
    (match sy_view s' with VOpen _ => True | _ => sy_task s' = TClosed ∧ sy_view s' ≠ VStart end).
Proof.
  intros [Hk Hv] Ets Ht. destruct s as [st log p task wire view]. unfold delivered, backlog. simpl in *.
  subst view. destruct task as [| |pos|]; try done.
  - destruct Hv as (Hp & ws & -> & Hv).
    destruct p as [|e p].
    + destruct ws as [|e ws].
      * destruct (decide (pos = length log)) as [->|Hne].
        { left. split; [done|]. intros hash. specialize (Hv hash). rewrite drop_all in Hv.
          by destruct (Client.relevant _ _). }
        right. destruct (lookup_lt_is_Some_2 log pos) as [e He]; [lia|].
        destruct (act info_hash (mkSys st log [] (TStreaming pos) [] (VOpen ts)) ForwardOne)
          as [s'|] eqn:E; simpl in E; unfold Stream.forward, recv in E; rewrite He in E;
          destruct (_ <? _) eqn:L; simplify_eq; eexists; (split; [exists ForwardOne; split; [done|];
            simpl; unfold Stream.forward, recv; by rewrite L, ?He|]); simpl; split_and!; try done; lia.
      * right. eexists. split; [exists Read; split; [done|]; simpl; reflexivity|]. simpl.
        unfold status_line. rewrite next_event_line, event_reads. split_and!; try done; lia.
    + right. eexists. split; [exists (Send 0); split; [done|]; simpl; reflexivity|]. simpl.
      rewrite length_app. simpl. split_and!; try done; lia.
  - right. destruct Hv as (ws & m & ->). destruct ws as [|e ws];
      (eexists; split; [exists Read; split; [done|]; simpl; reflexivity|]); simpl;
      unfold status_line; rewrite next_event_line.
    + destruct (refusal_no_event m) as [err ->]. split_and!; try done; lia.
    + rewrite event_reads. split_and!; try done; lia.
Qed.

Lemma deliver_all s ts : in_step s → sy_view s = VOpen ts →
  (match sy_task s with TStreaming _ | TClosed => True | _ => False end) →
  ∃ s', rtc (calm_step info_hash) s s' ∧ delivered (sy_state s) s'.
Proof.
  remember (backlog s) as n eqn:En. revert s ts En.
  induction n as [n IH] using lt_wf_ind. intros s ts -> Hi Hv Ht.
  destruct (deliver_one s ts Hi Hv Ht) as [Hd|(s' & Hs & Est & Hb & Ht' & Hv')].
  { by exists s. }
  destruct (sy_view s') as [|ts'|] eqn:E; [naive_solver| |].
  - destruct (IH _ Hb s' ts' eq_refl (calm_in_step _ _ Hi Hs) E Ht') as (s2 & Hr & Hd).
    rewrite Est in Hd. exists s2. split; [by eapply rtc_l|done].
  - exists s'. split; [by apply rtc_once|]. unfold delivered. rewrite E. naive_solver.
Qed.
End view.

(** ** The daemon's listing *)

Section listing.
Context {T : Type} `{TorrentingLaws T} `{MapIterLaws} `{HexLaws}.
Implicit Types (ctx : ClientCtx T).

(** Every torrent is listed under the text of an info hash. *)
Definition canonical (st : IpcState) : Prop :=
  map_Forall (λ k t, t_info_hash t = k ∧ ∃ h, InfoHash.wf h ∧ k = InfoHash.to_string h) st.

Definition canonical_event (e : Event) : Prop :=
  match e with
  | TorrentAdded k _ _ => ∃ h, InfoHash.wf h ∧ k = InfoHash.to_string h
  | _ => True
  end.

Lemma apply_canonical st e : canonical st → canonical_event e → canonical (IpcState.apply st e).1.
Proof.
  unfold canonical. intros Hc He. destruct e as [| h n s | |h n s|h|]; simpl; try done.
  - destruct (st !! h) as [t|] eqn:E; [|done]. apply map_Forall_insert_2; [|done].
    by apply (Hc _ _ E).
  - by apply map_Forall_insert_2.
  - by apply map_Forall_delete.
Qed.

Lemma emit_apply ctx e :
  Server.emit ctx e = mkCtx (cx_event_tx ctx ++ [e]) (cx_bqti ctx) (IpcState.apply (cx_state ctx) e).1
                        (cx_cancelled ctx).
Proof. unfold Server.emit. by destruct e. Qed.

Lemma canonical_values st t : canonical st →
  t ∈ map_values st ↔ st !! t_info_hash t = Some t.
Proof.
  intros Hc. rewrite map_values_perm, list_elem_of_fmap. split.
  - intros ([k t'] & -> & Hi). apply elem_of_map_to_list in Hi. simpl.
    by rewrite (proj1 (Hc _ _ Hi)).
  - intros Hi. exists (t_info_hash t, t). by rewrite elem_of_map_to_list.
Qed.

(** No torrent is listed under another spelling of a hash. *)
Lemma canonical_deleted st h k t : canonical st →
  delete (InfoHash.to_string h) st !! k = Some t → InfoHash.from_hex k ≠ Some h.
Proof.
  intros Hc [Hne Hk]%lookup_delete_Some Hh. destruct (Hc _ _ Hk) as (_ & h' & Hwf & ->).
  destruct (info_hash_roundtrip h' Hwf) as (_ & Hr & _). rewrite Hr in Hh. by injection Hh as ->.
Qed.

(** What each kind of reply says of the listing and the events. *)
Definition reply_effect (request : Request) ctx ctx' (reply : Reply) : Prop :=
  match reply with
  | Err _ => cx_state ctx' = cx_state ctx ∧ cx_event_tx ctx' = cx_event_tx ctx ∧
             cx_cancelled ctx' = cx_cancelled ctx
  | Ok (PTorrentAdded h) | Ok (PSeedAdded h) =>
    ∃ name, cx_state ctx' = <[h := mkListed h name SPending]> (cx_state ctx) ∧
            cx_event_tx ctx' = cx_event_tx ctx ++ [TorrentAdded h name SPending]
  | Ok (PRemoved h) =>
    cx_event_tx ctx' = cx_event_tx ctx ++ [TorrentRemoved h] ∧
    ∃ s hash, request = RRemoveTorrent s ∧ InfoHash.from_hex s = Some hash ∧
      ∀ k t, cx_state ctx' !! k = Some t ↔
             cx_state ctx !! k = Some t ∧ InfoHash.from_hex k ≠ Some hash
  | Ok (PTorrents l) => ctx' = ctx ∧ ∀ t, t ∈ l ↔ cx_state ctx !! t_info_hash t = Some t
  | _ => True
  end.

Lemma add_effect ctx a t f name :
  canonical (cx_state ctx) → add_torrent (cx_bqti ctx) a = (t, Ok f) →
  canonical (cx_state (Server.emit (Server.set_bqti ctx t)
    (TorrentAdded (InfoHash.to_string (TorrentFile.info_hash f)) name SPending))).
Proof.
  intros Hc Ha. rewrite emit_apply. apply apply_canonical; [done|]. simpl.
  exists (TorrentFile.info_hash f). split; [by eapply add_wf|done].
Qed.

(** Against any implementation of the trait [Torrenting]: every command
    keeps each torrent listed under the text of its info hash.  A refused
    command changes neither the listing nor the events; an addition lists the
    torrent as pending and announces it; after a removal the listing has no
    torrent whose hash is the one that was given, however the request spelled
    it, and every other torrent is as before; a listing has exactly the torrents
    of the state. *)
Theorem dispatch_listing (version : string) (request : Request) ctx ctx' (reply : Reply)
    (Hc : canonical (cx_state ctx))
    (Hd : Server.dispatch version request ctx = (ctx', reply)) :
  canonical (cx_state ctx') ∧ reply_effect request ctx ctx' reply.
Proof.
  destruct request; simpl in Hd.
  - by injection Hd as <- <-.
  - destruct (source_parse link) as [src|e]; [|by injection Hd as <- <-].
    destruct (add_torrent _ _) as [t [f|e]] eqn:E; injection Hd as <- <-; [|done].
    split; [by eapply add_effect|]. rewrite emit_apply. by eexists.
  - destruct (add_torrent _ _) as [t [f|e]] eqn:E; injection Hd as <- <-; [|done].
    split; [by eapply add_effect|]. rewrite emit_apply. by eexists.
  - destruct (InfoHash.from_hex info_hash); [|by injection Hd as <- <-].
    destruct (pause_torrent _ _) as [t [f|e]] eqn:E; injection Hd as <- <-; [|done].
    split; [|done]. rewrite emit_apply. by apply apply_canonical.
  - destruct (InfoHash.from_hex info_hash); [|by injection Hd as <- <-].
    by destruct (resume_torrent _ _) as [t [f|e]] eqn:E; injection Hd as <- <-.
  - destruct (InfoHash.from_hex info_hash) as [h|] eqn:Eh; [|by injection Hd as <- <-].
    destruct (remove_torrent _ _) as [t [f|e]] eqn:E; injection Hd as <- <-; [|done].
    apply remove_same in E as ->. rewrite emit_apply. split; [by apply apply_canonical|].
    split; [done|]. exists info_hash, h. split_and!; [done..|]. simpl. intros k t'. split.
    + intros Hk. split; [by apply lookup_delete_Some in Hk as [_ ?]|]. by eapply canonical_deleted.
    + intros [Hk Hne]. apply lookup_delete_Some. split; [|done]. intros <-. apply Hne.
      by eapply info_hash_roundtrip, from_hex_wf.
  - injection Hd as <- <-. split; [done|]. split; [done|]. intros t. by apply canonical_values.
  - by injection Hd as <- <-.
  - by injection Hd as <- <-.
Qed.
End listing.

(** ** A command through the socket *)

Lemma read_until_line s rest : contains_char newline s = false →
  read_until (s +:+ String newline rest) = (line s, rest).
Proof.
  induction s as [|c s IH]; intros Hc; [done|].
  simpl in Hc. apply orb_false_iff in Hc as [Hc Hs].
  change (String c s +:+ String newline rest) with (String c (s +:+ String newline rest)).
  cbn [read_until]. apply bool_decide_eq_false in Hc.
  destruct (Ascii.eqb_spec c newline) as [->|_]; [done|]. by rewrite (IH Hs).
Qed.

(** A command sent through the socket gets the answer of [dispatch] and has
    its effect: one line goes each way and is read back as it was meant. *)
Lemma ipc_transparent {T : Type} `{Torrenting T} `{MapIter} `{Hex} `{JsonLaws}
    (version : string) (request : Request) (ctx : ClientCtx T) :
  Stream.ipc version request ctx =
  let '(ctx', reply) := Server.dispatch version request ctx in (ctx', reply).
Proof.
  unfold Stream.ipc, Stream.handle_client, Stream.send_request, Stream.read_reply.
  unfold line at 1. rewrite read_until_line by apply request_one_line.
  rewrite bool_decide_eq_false_2 by (unfold line; by destruct (request_to_json request)).
  rewrite request_reads. destruct (Server.dispatch version request ctx) as [ctx' reply].
  assert (read_until (line (reply_to_json reply)) = (line (reply_to_json reply), "")) as Hr.
  { unfold line at 1. by apply read_until_line, reply_one_line. }
  destruct request; simpl; rewrite Hr; simpl; rewrite reply_reads; by destruct reply.
Qed.

(** ** The view of a watching client *)

(** C31: In a schedule that sends events in the order they were applied, adds no
    torrent twice and publishes nothing between a client's listing and its
    subscription, the client never shows anything it should not for long: once
    it has read all that was published, its list has for every torrent it asked
    for the state the daemon has, and no other torrent; and from any point the
    deliveries under way bring it there, unless it fell more than the buffer
    behind, when it ends with an error instead.  This holds although the snapshot
    repeats events that are delivered again. *)
Theorem status_mirrors `{MapIterLaws} `{JsonLaws} (info_hash : option string) (st : IpcState)
    (log : list Event) (s : Watch.Sys) (ts : list Torrent)
    (Hk : keyed st)
    (Hr : rtc (Watch.calm_step info_hash) (Watch.watch_start st log) s)
    (Hv : Watch.sy_view s = Watch.VOpen ts)
    (Ht : match Watch.sy_task s with Watch.TStreaming _ | Watch.TClosed => True | _ => False end) :
  (Watch.sy_wire s = [] → Watch.sy_pending s = [] →
   Watch.sy_task s = Watch.TStreaming (length (Watch.sy_log s)) →
   Watch.mirrors info_hash ts (Watch.sy_state s)) ∧
  ∃ s', rtc (Watch.calm_step info_hash) s s' ∧ delivered info_hash (Watch.sy_state s) s'.
Proof.
  assert (in_step info_hash s) as Hi by (eapply calm_run_in_step; [|done]; done).
  split; [|by eapply deliver_all].
  intros Hw Hp Et. destruct Hi as [_ Hi]. rewrite Hv, Et, Hw, Hp, drop_all in Hi.
  destruct Hi as (_ & [|e ws] & Ews & Hm); [|done]. intros hash. specialize (Hm hash).
  by destruct (Client.relevant _ _).
Qed.

Module IpcExamples.
#[local] Instance values : MapIter := λ m, (map_to_list m).*2.
#[local] Instance values_laws : MapIterLaws.
Proof. by intros m. Qed.

(** ** A text coding of the messages *)

#[local] Instance state_countable : Countable IpcTorrentState.
Proof.
  refine (inj_countable' (λ s, match s with
      | SPending => inl None | SPaused => inl (Some (0, 0))
      | SDownloading a b c => inr (inl (a, b, c))
      | SVerifying a b => inr (inr (inl (a, b)))
      | SSeeding a b => inr (inr (inr (a, b))) end)
    (λ x, match x with
      | inl None => SPending | inl (Some _) => SPaused
      | inr (inl (a, b, c)) => SDownloading a b c
      | inr (inr (inl (a, b))) => SVerifying a b
      | inr (inr (inr (a, b))) => SSeeding a b end) _)%Z.
  by intros [].
Defined.

#[local] Instance torrent_countable : Countable Torrent.
Proof.
  refine (inj_countable' (λ t, (t_info_hash t, t_name t, t_state t))
    (λ '(h, n, s), mkListed h n s) _).
  by intros [].
Defined.

#[local] Instance event_eq_dec : EqDecision Event.
Proof. solve_decision. Defined.
#[local] Instance event_countable : Countable Event.
Proof.
  refine (inj_countable' (λ e, match e with
      | ExposeTorrent a b => inl (inl (a, b))
      | SessionStateChanged a b c => inr (inl (inl (a, b, c)))
      | DownloadComplted a b => inl (inr (inl (a, b)))
      | TorrentAdded a b c => inr (inl (inr (a, b, c)))
      | TorrentRemoved a => inr (inr a)
      | EventError a b => inl (inr (inr (a, b))) end)
    (λ x, match x with
      | inl (inl (a, b)) => ExposeTorrent a b
      | inr (inl (inl (a, b, c))) => SessionStateChanged a b c
      | inl (inr (inl (a, b))) => DownloadComplted a b
      | inr (inl (inr (a, b, c))) => TorrentAdded a b c
      | inr (inr a) => TorrentRemoved a
      | inl (inr (inr (a, b))) => EventError a b end) _).
  by intros [].
Defined.

#[local] Instance request_eq_dec : EqDecision Request.
Proof. solve_decision. Defined.
#[local] Instance request_countable : Countable Request.
Proof.
  refine (inj_countable' (λ r, match r with
      | RStatus a => inl (inl a)
      | RAddDownload a b => inl (inr (inl (a, b)))
      | RAddSeed a b c d e f g h i => inl (inr (inr (a, b, c, d, e, f, g, h, i)))
      | RPauseSession a => inr (inl (inl a))
      | RResumeSession a => inr (inl (inr a))
      | RRemoveTorrent a => inr (inr (inl a))
      | RTorrents => inr (inr (inr 0%Z)) | RShutdown => inr (inr (inr 1%Z))
      | REventStream => inr (inr (inr 2%Z)) end)
    (λ x, match x with
      | inl (inl a) => RStatus a
      | inl (inr (inl (a, b))) => RAddDownload a b
      | inl (inr (inr (a, b, c, d, e, f, g, h, i))) => RAddSeed a b c d e f g h i
      | inr (inl (inl a)) => RPauseSession a
      | inr (inl (inr a)) => RResumeSession a
      | inr (inr (inl a)) => RRemoveTorrent a
      | inr (inr (inr 0%Z)) => RTorrents
      | inr (inr (inr 1%Z)) => RShutdown
      | inr (inr (inr _)) => REventStream end) _).
  by intros [].
Defined.

#[local] Instance status_eq_dec : EqDecision DaemonStatus.
Proof. solve_decision. Defined.
#[local] Instance response_eq_dec : EqDecision Response.
Proof. solve_decision. Defined.
#[local] Instance response_countable : Countable Response.
Proof.
  refine (inj_countable' (λ r, match r with
      | Handled => inl (inl None)
      | PTorrentAdded a => inl (inl (Some a))
      | PSeedAdded a => inl (inr (inl a))
      | PRemoved a => inl (inr (inr a))
      | PStatus (mkStatus a b c d) => inr (inl (a, b, c, d))
      | PTorrents a => inr (inr (inl a))
      | PTorrent a => inr (inr (inr a)) end)
    (λ x, match x with
      | inl (inl None) => Handled
      | inl (inl (Some a)) => PTorrentAdded a
      | inl (inr (inl a)) => PSeedAdded a
      | inl (inr (inr a)) => PRemoved a
      | inr (inl (a, b, c, d)) => PStatus (mkStatus a b c d)
      | inr (inr (inl a)) => PTorrents a
      | inr (inr (inr a)) => PTorrent a end) _).
  by intros [| | | |[]| |].
Defined.

Fixpoint digits (p : positive) : string :=
  match p with
  | xH => ""
  | xO p => String "0"%char (digits p)
  | xI p => String "1"%char (digits p)
  end.
Fixpoint undigits (s : string) : positive :=
  match s with
  | String "0"%char s => xO (undigits s)
  | String "1"%char s => xI (undigits s)
  | _ => xH
  end.

Lemma undigits_line p : undigits (line (digits p)) = p.
Proof.
  unfold line. induction p as [p IH|p IH|]; [| |done]; cbn [digits].
  - change (xI (undigits (digits p +:+ String newline "")) = xI p). by rewrite IH.
  - change (xO (undigits (digits p +:+ String newline "")) = xO p). by rewrite IH.
Qed.

Lemma digits_line p : contains_char newline (digits p) = false.
Proof. induction p as [p IH|p IH|]; [apply IH|apply IH|done]. Qed.

Definition to_text `{Countable A} (tag : Ascii.ascii) (x : A) : string := String tag (digits (encode x)).
Definition of_text `{Countable A} (tag : Ascii.ascii) (s : string) : Result string A :=
  match s with
  | String c s =>
    if Ascii.eqb c tag then ok_or "invalid" (decode (undigits s)) else Err "unexpected type"
  | "" => Err "empty"
  end.

Lemma of_to_text `{Countable A} tag (x : A) : of_text tag (line (to_text tag x)) = Ok x.
Proof.
  unfold to_text, line. cbn [String.append of_text].
  change (String tag (digits (encode x)) +:+ String newline "")
    with (String tag (line (digits (encode x)))).
  cbn [of_text]. by rewrite Ascii.eqb_refl, undigits_line, decode_encode.
Qed.

#[local] Instance json : Json := {
  request_to_json := to_text "q"; request_from_json := of_text "q";
  reply_to_json r := match r with Ok p => to_text "p" p | Err m => to_text "m" m end;
  reply_from_json s :=
    match of_text "p" s with
    | Ok p => Ok (Ok p)
    | Err _ => match of_text "m" s with Ok m => Ok (Err m) | Err e => Err e end
    end;
  event_to_json := to_text "e"; event_from_json := of_text "e";
}.

#[local] Instance json_laws : JsonLaws.
Proof.
  split.
  - intros r. apply digits_line.
  - intros [r|m]; apply digits_line.
  - intros r. apply (of_to_text "q").
  - intros [r|m]; cbn [reply_from_json reply_to_json json].
    + by rewrite (of_to_text "p").
    + change (of_text (A := Response) "p" (line (to_text "m" m))) with (Err (A := Response) "unexpected type").
      by rewrite (of_to_text "m").
  - intros e. apply (of_to_text "e").
  - intros m. by eexists.
Qed.

(** ** Schedules *)

Import Watch.
Definition run (acts : list Act) (s : Sys) : option Sys :=
  foldl (λ o a, s ← o; act None s a) (Some s) acts.

Definition one : IpcState := {[ "aa" := mkListed "aa" "film" SPending ]}.

(** A client that watches one torrent while another is added and the first
    changes state between the subscription and the snapshot. *)
Definition schedule : list Act :=
  [Listing; Subscribe; Apply (TorrentAdded "bb" "song" SPending); Send 0;
   Apply (SessionStateChanged "aa" "film" (SVerifying 1 4)); Snapshot; Send 0;
   ForwardOne; ForwardOne; Read; Read; Read; Read].

Definition view_after (acts : list Act) : option (list (string * IpcTorrentState)) :=
  s ← run acts (watch_start one []);
  match sy_view s with
  | VOpen ts => Some (map (λ t, (t_info_hash t, t_state t)) ts)
  | _ => None
  end.

Example schedule_view :
  view_after schedule = Some [("aa", SVerifying 1 4); ("bb", SPending)].
Proof. vm_compute. reflexivity. Qed.

(** A torrent added between the listing and the subscription is never shown: the
    snapshot repeats the states of torrents, not their additions. *)
Example addition_missed :
  view_after [Listing; Apply (TorrentAdded "bb" "song" SPending); Send 0; Subscribe; Snapshot;
              Read; Read] = Some [("aa", SPending)].
Proof. vm_compute. reflexivity. Qed.

(** Two emitters that send in the other order leave the client on the older
    state. *)
Example sends_reordered :
  view_after [Listing; Subscribe; Snapshot; Apply (SessionStateChanged "aa" "film" (SVerifying 1 4));
              Apply (SessionStateChanged "aa" "film" (SVerifying 2 4)); Send 1; Send 0;
              ForwardOne; ForwardOne; Read; Read; Read] = Some [("aa", SVerifying 1 4)].
Proof. vm_compute. reflexivity. Qed.

(** A client that watches its own seed stops at the magnet link of another. *)
Example watch_stops_at_other :
  Client.watch_single "aa" false [ExposeTorrent "bb" "magnet:bb"; ExposeTorrent "aa" "magnet:aa"] =
  ([Client.Exposed "bb" "magnet:bb"], true).
Proof. reflexivity. Qed.

(** The first steps of the schedule, up to the snapshot. *)
Definition subscribed : Sys :=
  default (watch_start ∅ []) (run (take 6 schedule) (watch_start one [])).

Lemma calm_run acts s s' :
  run acts s = Some s' →
  Forall (λ i, ∀ si a, run (take i acts) s = Some si → acts !! i = Some a → calm si a) (seq 0 (length acts)) →
  rtc (calm_step None) s s'.
Proof.
  revert s'. induction acts as [|a acts IH] using rev_ind; intros s' Hr Hc; [by injection Hr as ->|].
  unfold run in Hr. rewrite foldl_app in Hr. simpl in Hr.
  destruct (foldl _ _ acts) as [s1|] eqn:E; [|done].
  eapply rtc_r; [apply IH; [done|]|].
  - rewrite Forall_forall in Hc |- *. intros i Hi si b Hs Hb. apply elem_of_seq in Hi.
    apply (Hc i); [apply elem_of_seq; rewrite length_app; lia|by rewrite take_app_le by lia|].
    by apply lookup_app_l_Some.
  - exists a. split; [|done]. rewrite Forall_forall in Hc. apply (Hc (length acts)).
    + apply elem_of_seq. rewrite length_app. simpl. lia.
    + by rewrite take_app_length.
    + apply list_lookup_middle. done.
Qed.

Lemma status_mirrors_witness :
  ∃ s', rtc (calm_step None) subscribed s' ∧ delivered None (sy_state subscribed) s'.
Proof.
  apply (status_mirrors None one [] subscribed [mkListed "aa" "film" SPending]).
  - apply map_Forall_singleton. reflexivity.
  - apply (calm_run (take 6 schedule)); [vm_compute; reflexivity|].
    repeat constructor; intros si a Hs Ha; vm_compute in Hs, Ha; injection Hs as <-;
      injection Ha as <-; simpl; repeat split.
  - vm_compute. reflexivity.
  - vm_compute. exact I.
Defined.

(** ** A daemon that knows one torrent file *)

Definition hash1 : InfoHash := HashV1 (replicate 20 171%Z).
Definition film : TorrentFile :=
  V1 (mkV1 (mkCommon hash1 "film" None None 16384 None None None None None) false [] (SingleFile (mkFile 5 ["film"] None))).

#[local] Instance toy_torrents : Torrenting (list InfoHash) := {
  TorrentingError := string;
  error_text e := e;
  add_torrent t a :=
    if bool_decide (hash1 ∈ t) then (t, Err "exists") else (hash1 :: t, Ok film);
  remove_torrent t h := (List.filter (λ x, negb (bool_decide (x = h))) t, Ok h);
  pause_torrent t h := (t, Ok h);
  resume_torrent t h := (t, Ok h);
}.

#[local] Instance toy_torrents_laws : TorrentingLaws (list InfoHash).
Proof.
  split; [by intros t h t' h' [= _ ->]|].
  intros t a t' f. simpl. case_bool_decide; [done|]. intros [= _ <-]. by apply (bool_decide_unpack _).
Qed.

#[local] Existing Instance ToyHex.hex.
#[local] Existing Instance ToyHex.hex_laws.

Definition idle : ClientCtx (list InfoHash) := mkCtx [] [] ∅ false.
Definition added : ClientCtx (list InfoHash) :=
  (Server.dispatch "1" (RAddDownload "film.torrent" "home") idle).1.

(** Pausing a torrent loses its name. *)
Example pause_loses_name :
  map t_name (map_values (cx_state added)) = ["film"] ∧
  map t_name (map_values (cx_state
    (Server.dispatch "1" (RPauseSession (InfoHash.to_string hash1)) added).1)) = [""].
Proof. vm_compute. done. Qed.

Lemma dispatch_listing_witness :
  canonical (cx_state added) ∧
  reply_effect (RAddDownload "film.torrent" "home") idle added
    (Server.dispatch "1" (RAddDownload "film.torrent" "home") idle).2.
Proof.
  apply (dispatch_listing "1" (RAddDownload "film.torrent" "home") idle).
  - apply map_Forall_empty.
  - reflexivity.
Defined.
End IpcExamples.
