(* ===== verification/Console.v ===== *)
(** What is printed: [utils/mod.rs], [utils/console.rs] and the [Display] of the daemon's
    status in [bqti-ipc/src/lib.rs].

    A function that prints gives the text it writes.  The colours are those of the crate
    [console], an argument; dates are formatted by [chrono], an argument too.
    A text is its bytes in UTF-8. *)

From stdpp Require Import pretty.
From S2P Require Import Prelude Float Net Crypto Metainfo Fs Certs Ipc.

(** The attributes of the crate [console] that are used. *)
Inductive Attr := Green | Red | Yellow | Blue | Bold | Dim.

Definition nl : string := String newline "".
Definition println (s : string) : string := s +:+ nl.
Fixpoint repeat_str (s : string) (n : nat) : string :=
  match n with O => "" | S n => s +:+ repeat_str s n end.

(** Bytes that do not continue a character, [str::is_char_boundary] and [str::chars]. *)
Definition starts_char (c : Ascii.ascii) : bool :=
  let n := Ascii.nat_of_ascii c in (n <? 128) || (192 <=? n).
Definition char_count (s : string) : nat :=
  length (List.filter starts_char (String.list_ascii_of_string s)).

(** [{:^w}] and [{:>w}] *)
Definition center (w : nat) (s : string) : string :=
  let pad := w - char_count s in
  repeat_str " " (pad / 2) +:+ s +:+ repeat_str " " (pad - pad / 2).
Definition align_right (w : nat) (s : string) : string := repeat_str " " (w - char_count s) +:+ s.

(** * Sizes *)

(** src/src/utils/mod.rs:134-145 [format_size] *)
Definition format_size (bytes : Z) : string :=
  let bytes_f := of_u64 bytes in
  if (1024 * 1024 * 1024 <=? bytes)%Z then
    to_fixed 2 (fdiv bytes_f (of_u64 1073741824)) +:+ " GB"
  else if (1024 * 1024 <=? bytes)%Z then to_fixed 2 (fdiv bytes_f (of_u64 1048576)) +:+ " MB"
  else if (1024 <=? bytes)%Z then to_fixed 2 (fdiv bytes_f (of_u64 1024)) +:+ " KB"
  else pretty bytes +:+ " B".

(** src/bqti-ipc/src/lib.rs:143-151 [fmt_bytes] *)
Definition fmt_bytes (bytes : Z) : string :=
  if (bytes =? 0)%Z then "0 B"
  else if (bytes <? 1024)%Z then pretty bytes +:+ " B"
  else if (bytes <? 1048576)%Z then to_fixed 1 (fdiv (of_u64 bytes) (of_u64 1024)) +:+ " KB"
  else if (bytes <? 1073741824)%Z then to_fixed 1 (fdiv (of_u64 bytes) (of_u64 1048576)) +:+ " MB"
  else to_fixed 1 (fdiv (of_u64 bytes) (of_u64 1073741824)) +:+ " GB".

(** src/bqti-ipc/src/lib.rs:134-141 [Display for DaemonStatus] *)
Definition status_text (self : DaemonStatus) : string :=
  println ("bqti daemon v" +:+ ds_version self) +:+
  println ("  torrents : " +:+ pretty (ds_active_torrents self)) +:+
  println ("  upload   : " +:+ fmt_bytes (ds_upload_rate self) +:+ "/s") +:+
  println ("  download : " +:+ fmt_bytes (ds_download_rate self) +:+ "/s").

(** src/src/utils/console.rs:171-179 [format_rate] *)
Definition format_rate (bytes_per_sec : Z) : string :=
  if (1000000 <=? bytes_per_sec)%Z then to_fixed 1 (fdiv (of_u64 bytes_per_sec) (of_u64 1000000)) +:+ " MB"
  else if (1000 <=? bytes_per_sec)%Z then to_fixed 1 (fdiv (of_u64 bytes_per_sec) (of_u64 1000)) +:+ " KB"
  else pretty bytes_per_sec +:+ " B".

(** src/src/utils/console.rs:29-31 [short_hash] *)
Definition short_hash (hash : string) : string :=
  let boundary :=
    match String.get 8 hash with
    | Some c => starts_char c
    | None => String.length hash =? 8
    end in
  if boundary then String.substring 0 8 hash else hash.

(** * The torrent file *)

Section torrent.
(** [DateTime::from_timestamp(date, 0)], formatted. *)
Context `{Hex} `{AddrText} (format_date : Z → option string).

Definition divider : string := repeat_str "─" 60.
Definition thin : string := repeat_str "+" 59.

(** src/src/utils/mod.rs:9-132 [print_torrent] *)
Definition print_torrent_file (torrent : TorrentFile) (all : bool) : string :=
  let entry url := println ("       ↳ " +:+ url) in
  let rule := println "" +:+ println ("  " +:+ thin) in
  let files := TorrentFile.files torrent in
  let hashes := TorrentFile.piece_hashes torrent in
  println ("┌" +:+ divider +:+ "┐") +:+
  println ("│" +:+ center 59 "🧲 TORRENT INFO" +:+ "│") +:+
  println ("└" +:+ divider +:+ "┘") +:+ println "" +:+
  println ("  🔑 Info Hash    " +:+ hex_encode (InfoHash.as_ref (TorrentFile.info_hash torrent))) +:+
  rule +:+ println "" +:+
  match TorrentFile.announce torrent with
  | Some announce => println ("  📡 Announce     " +:+ announce) +:+ println ""
  | None => ""
  end +:+
  match TorrentFile.torrent_dht_nodes torrent with
  | Some dht_nodes =>
    println "  📡 BootStrap nodes" +:+
    String.concat "" (map (λ b, entry (TorrentAddr.addr_to_string b)) dht_nodes) +:+ println ""
  | None => ""
  end +:+
  match TorrentFile.announce_list torrent with
  | Some announce_list =>
    println "  📡 Trackers" +:+
    String.concat "" (imap (λ i tier, println ("     Tier " +:+ pretty (S i)) +:+
                                      String.concat "" (map entry tier)) announce_list)
  | None => ""
  end +:+
  match TorrentFile.torrent_web_seeds torrent with
  | Some web_seeds => println "  🌐 Web Seeds" +:+ String.concat "" (map entry web_seeds)
  | None => ""
  end +:+
  rule +:+ println "" +:+
  println ("  📦 Name         " +:+ TorrentFile.name torrent) +:+
  println ("  🧩 Piece Length " +:+ format_size (TorrentFile.piece_length torrent)) +:+
  match files with
  | [] => println "  📄 Mode        Error No File Found"
  | [_] => println "  📄 Mode         Single File"
  | _ =>
    println ("  📁 Mode         Multi File (" +:+ pretty (length files) +:+ " files)") +:+
    String.concat "" (map (λ file, entry (String.concat "/" (ef_path file) +:+ " — " +:+
                                          format_size (u64 (ef_length file)))) files)
  end +:+
  println "" +:+ println ("  💾 Total Size   " +:+ format_size (TorrentFile.total_size torrent)) +:+
  rule +:+ println "" +:+
  println ("  🔢 Pieces       " +:+ pretty (length hashes)) +:+
  (if all then
     rule +:+ println "  🔍 Piece Hashes" +:+
     String.concat "" (imap (λ i hash, println ("     [" +:+ align_right 6 (pretty i) +:+ "] " +:+
                                                hex_encode hash)) hashes)
   else "") +:+
  rule +:+ println "" +:+
  println ("  💬 Version      " +:+ pretty (TorrentFile.version torrent)) +:+
  match TorrentFile.comment torrent with Some comment => println ("  💬 Comment      " +:+ comment) | None => "" end +:+
  match TorrentFile.created_by torrent with
  | Some created_by => println ("  🛠  Created By   " +:+ created_by)
  | None => ""
  end +:+
  match TorrentFile.creation_date torrent with
  | Some creation_date =>
    println ("  📅 Created On   " +:+ default (pretty creation_date) (format_date (i64 creation_date)))
  | None => ""
  end +:+
  println "" +:+ println ("  " +:+ repeat_str "─" 60).
End torrent.

(** * The client *)

Section console.
(** [style(text)] with its attributes in the order they are given. *)
Context (style : list Attr → string → string).

(** src/src/utils/console.rs:33-51 [print_queue] *)
Definition print_queue (info_hash : string) : string :=
  println (nl +:+ "  " +:+ style [Green; Bold] "✓" +:+ " " +:+ style [Green] "torrent queued" +:+ nl) +:+
  println ("    " +:+ style [Dim] "hash" +:+ "   " +:+ style [Bold] (short_hash info_hash)) +:+
  println ("    " +:+ style [Dim] "hint" +:+ "    " +:+ style [Dim] "bqti status").

(** src/src/utils/console.rs:53-64 [expose_torrent] *)
Definition expose_torrent (info_hash magnet : string) : string :=
  println ("    " +:+ style [Dim] "hash" +:+ "   " +:+ style [Bold] (short_hash info_hash)) +:+
  println ("    " +:+ style [Dim] "magnet" +:+ "  " +:+ style [Blue; Bold] magnet).

(** The three notices of a command that was carried out. *)
Definition notice (colour : Attr) (done info_hash : string) : string :=
  println (nl +:+ "  " +:+ style [colour; Bold] "✓" +:+ " " +:+ style [colour] done +:+ nl) +:+
  println ("    " +:+ style [Dim] "hash" +:+ "   " +:+ style [Bold] info_hash +:+ nl).

(** src/src/utils/console.rs:66-77 [print_removed] *)
Definition print_removed (info_hash : string) : string := notice Red "torrent removed" info_hash.
(** src/src/utils/console.rs:79-90 [print_resumed] *)
Definition print_resumed (info_hash : string) : string := notice Green "torrent resumed" info_hash.
(** src/src/utils/console.rs:92-103 [print_paused] *)
Definition print_paused (info_hash : string) : string := notice Yellow "torrent paused" info_hash.

(** src/src/utils/console.rs:181-192 [format_bar]

    [None] is the panic of [repeat] when the bytes of the cells do not fit an
    [isize]. *)
Definition format_bar (current total width : Z) : option string :=
  let filled := share current total width in
  let empty := Z.max 0 (width - filled) in
  if (2 ^ 63 <=? 3 * filled)%Z then None
  else Some
    (style [Dim] "[" +:+ style [Blue] (repeat_str "█" (Z.to_nat filled)) +:+
     style [Blue; Dim] (repeat_str "▓" (Z.to_nat (Z.min empty 1))) +:+
     style [Dim] (repeat_str "░" (Z.to_nat (Z.max 0 (empty - 1)))) +:+ style [Dim] "]").

(** src/src/utils/console.rs:105-156 [print_torrent] *)
Definition print_torrent (torrent : Torrent) : option string :=
  state ←
    match t_state torrent with
    | SPending => Some (style [Dim] "pending")
    | SVerifying verified total =>
      let pct := share verified total 100 in
      bar ← format_bar verified total 20;
      Some (style [Blue] "verifying" +:+ " " +:+ bar +:+ "  " +:+ pretty pct +:+ "%")
    | SDownloading current total_pieces download_rate =>
      let pct := share current total_pieces 100 in
      bar ← format_bar current total_pieces 20;
      Some (style [Red; Bold] "↓" +:+ " " +:+ bar +:+ " " +:+ pretty pct +:+ "%  " +:+
            style [Dim] "@" +:+ " " +:+ style [Blue] (format_rate download_rate) +:+ "/s")
    | SSeeding upload_rate peers =>
      Some (style [Green; Bold] "↑ seeding" +:+ " " +:+ style [Dim] "@" +:+ " " +:+
            style [Green] (format_rate upload_rate) +:+ "/s  " +:+
            style [Green; Bold] (pretty peers) +:+ " " +:+ style [Dim] "peers")
    | SPaused => Some (style [Yellow] "⏸ paused")
    end;
  Some (println ("  " +:+ style [Dim] "·" +:+ " " +:+ style [Green; Bold] (t_name torrent) +:+ "  " +:+ state) +:+
        println ("    " +:+ style [Dim] "hash" +:+ "   " +:+ style [Dim] (t_info_hash torrent) +:+ nl)).

Definition escape : string := String (Ascii.ascii_of_nat 27) "".

Fixpoint print_all (torrents : list Torrent) : option string :=
  match torrents with
  | [] => Some ""
  | torrent :: torrents =>
    text ← print_torrent torrent; rest ← print_all torrents; Some (text +:+ rest)
  end.

(** src/src/utils/console.rs:158-169 [print_torrent_list] *)
Definition print_torrent_list (torrents : list Torrent) : option string :=
  let clear := escape +:+ "[2J" +:+ escape +:+ "[1;1H" in
  match torrents with
  | [] => Some (clear +:+ println ("  " +:+ style [Dim] "·" +:+ " no active torrents"))
  | _ => rest ← print_all torrents; Some (clear +:+ rest)
  end.

(** ** Certificates *)

Context `{Crypto} `{Hex} `{Rcgen} (display : Path → string).

(** src/src/utils/console.rs:217-225 [print_certs, fingerprint] *)
Definition fingerprint (id : SoftwareKeyIdentity) : string :=
  String.concat ":" (map (λ b, hex_encode [b]) (sha256 (cert_der id))).

(** src/src/utils/console.rs:209-285 [print_certs]

    [None] is the panic of [expect] when a leaf is missing. *)
Definition print_certs (kind : CertType) (dir : Path) (identity : SoftwareKeyIdentity)
    (leaf : option SoftwareKeyIdentity) : option string :=
  let file label gap name :=
    println ("    " +:+ style [Dim] label +:+ gap +:+ style [Bold] (display (join dir [name]))) in
  let print id :=
    println (nl +:+ "    " +:+ style [Dim] "fingerprint" +:+ "   " +:+
             style [Bold] ("sha256:" +:+ fingerprint id) +:+ nl) in
  let header :=
    println (nl +:+ "  " +:+ style [Green; Bold] "✓" +:+ " " +:+
             style [Green] (match kind with
                            | CertRoot => "root ca generated"
                            | CertLeaf => "certificates generated"
                            end) +:+ nl) in
  match kind with
  | CertRoot =>
    Some (header +:+ file "cert" "    " "ca.der" +:+ print identity +:+
          println ("    " +:+ style [Dim] "hint" +:+ "    " +:+
                   style [Dim] "distribute this to peers for mutual TLS" +:+ nl))
  | CertLeaf =>
    leaf ← leaf;
    Some (header +:+ file "root ca" "  " "ca.der" +:+ file "leaf" "    " "quic.der" +:+
          file "key" "     " "quic_pk.der" +:+ print leaf)
  end.
End console.

(** * Properties *)

Section properties.
Context (style : list Attr → string → string).

(** The bar that is printed for given numbers of cells. *)
Definition bar_text (filled tip rest : nat) : string :=
  style [Dim] "[" +:+ style [Blue] (repeat_str "█" filled) +:+ style [Blue; Dim] (repeat_str "▓" tip) +:+
  style [Dim] (repeat_str "░" rest) +:+ style [Dim] "]".

(** A bar has as many cells as it is wide, empty at the start, full at the end, and never
    fewer filled cells than for less progress. *)
Theorem progress_bar (current current' total width : Z)
    (Hc : (0 ≤ current ≤ current')%Z) (Hc' : (current' ≤ total)%Z) (Ht : (0 < total < 2 ^ 32)%Z)
    (Hw : (0 ≤ width < 2 ^ 32)%Z) :
  ∃ filled tip rest, format_bar style current total width = Some (bar_text filled tip rest) ∧
    Z.of_nat (filled + tip + rest) = width ∧ tip ≤ 1 ∧ (rest = 0 ∨ tip = 1) ∧
    (Z.of_nat filled ≤ share current' total width)%Z ∧
    (current = 0%Z → filled = 0) ∧ (current = total → Z.of_nat filled = width).
Proof.
  pose proof (share_le current total width ltac:(lia) ltac:(lia) ltac:(lia)) as Hs.
  pose proof (share_mono current current' total width Hc Hc' ltac:(lia) ltac:(lia)) as Hm.
  set (filled := share current total width) in *. unfold format_bar. fold filled. cbv zeta.
  destruct (Z.leb_spec (2 ^ 63) (3 * filled)); [lia|].
  eexists _, _, _. split; [reflexivity|]. split_and!; [lia|lia|lia|lia| |].
  - intros ->. unfold filled. rewrite share_none by lia. done.
  - intros ->. unfold filled. rewrite share_all by lia. lia.
Qed.

(** The counts of a state of a torrent with pieces. *)
Definition counts_ok (state : IpcTorrentState) : Prop :=
  match state with
  | SDownloading current total _ | SVerifying current total => (0 ≤ current ≤ total)%Z ∧ (0 < total < 2 ^ 32)%Z
  | _ => True
  end.

(** A listing of such torrents is printed; a torrent without pieces of which some are said to
    be there makes the client panic. *)
Theorem listing_printed (torrents : list Torrent) :
  (Forall (λ t, counts_ok (t_state t)) torrents → is_Some (print_torrent_list style torrents)) ∧
  ∀ current, (0 < current < 2 ^ 32)%Z → format_bar style current 0 20 = None.
Proof.
  split.
  - intros Ht. assert (is_Some (print_all style torrents)) as [s Hs].
    { induction Ht as [|t torrents Ht _ [s IH]]; [by eexists|]. cbn [print_all]. rewrite IH.
      assert (is_Some (print_torrent style t)) as [x Hx].
      { unfold print_torrent. destruct (t_state t) as [| |c n r|c n|r p]; try by eexists.
        all: destruct Ht as [Hc Hn]; destruct (progress_bar c c n 20) as (? & ? & ? & -> & _); try lia;
          by eexists. }
      rewrite Hx. by eexists. }
    unfold print_torrent_list. destruct torrents; [by eexists|]. rewrite Hs. by eexists.
  - intros current Hc. unfold format_bar, share. destruct (of_u64_exact current) as (e & He & ->); [lia|].
    cbn [of_u64 nearest fdiv Z.eqb]. pose proof (pow_pos (- e)) as Hp. rewrite Z.max_r in Hp by lia.
    change (of_u64 0) with (Fin 0 0). cbn [fdiv Z.eqb]. destruct (Z.eqb_spec (current * 2 ^ (- e)) 0); [nia|].
    done.
Qed.

(** Sizes are printed to the nearest hundredth of their unit, a tie to the even one, in the
    largest of the units that is not more than the size. *)
Theorem format_size_nearest (bytes : Z) (Hb : (0 ≤ bytes < 2 ^ 53)%Z) :
  let print j unit := print_fixed 2 (round_even (bytes * 100) (2 ^ j)) +:+ unit in
  format_size bytes =
    if (2 ^ 30 <=? bytes)%Z then print 30%Z " GB" else if (2 ^ 20 <=? bytes)%Z then print 20%Z " MB"
    else if (2 ^ 10 <=? bytes)%Z then print 10%Z " KB" else pretty bytes +:+ " B".
Proof.
  cbv zeta. unfold format_size. cbv zeta. change (1024 * 1024 * 1024)%Z with (2 ^ 30)%Z.
  change (1024 * 1024)%Z with (2 ^ 20)%Z. change 1024%Z with (2 ^ 10)%Z.
  change 1073741824%Z with (2 ^ 30)%Z. change 1048576%Z with (2 ^ 20)%Z.
  destruct (Z.leb_spec (2 ^ 30) bytes); [by rewrite (fixed_dyadic 2 bytes 30) by lia|].
  destruct (Z.leb_spec (2 ^ 20) bytes); [by rewrite (fixed_dyadic 2 bytes 20) by lia|].
  destruct (Z.leb_spec (2 ^ 10) bytes); [by rewrite (fixed_dyadic 2 bytes 10) by lia|]. done.
Qed.
End properties.

Module ConsoleExamples.
(** Without colours. *)
Definition plain : list Attr → string → string := λ _ s, s.

(** The last size below a megabyte is printed as 1024 kilobytes, and the next as one
    megabyte. *)
Example rounds_past_the_unit :
  format_size 1048575 = "1024.00 KB" ∧ format_size 1048576 = "1.00 MB" ∧
  format_rate 999950 = "1000.0 KB" ∧ format_rate 1234567 = "1.2 MB" ∧ fmt_bytes 1536 = "1.5 KB".
Proof. by vm_compute. Qed.

Example half_way :
  format_bar plain 512 1024 20 = Some "[██████████▓░░░░░░░░░]" ∧
  format_bar plain 1024 1024 20 = Some "[████████████████████]" ∧
  short_hash "0123456789abcdef" = "01234567" ∧ short_hash "0123" = "0123".
Proof. by vm_compute. Qed.

Example titles : center 59 "🧲 TORRENT INFO" =
  "                      🧲 TORRENT INFO                       ".
Proof. by vm_compute. Qed.
End ConsoleExamples.
