(* ===== verification/Cli.v ===== *)
(** The command line: the commands of [cli.rs], their choice in [main.rs], and the client of
    [ipc/client.rs] with what it prints.

    A client command is one exchange over the local socket ([Ipc.Stream.ipc]), or two, and what
    is printed of the answers; the stream of events it may then open, and the list it
    keeps from it, are [Ipc.Watch]'s.  The parsing of arguments is [clap]'s. *)

From S2P Require Import Prelude Net Crypto Metainfo Magnet Fs Certs Standalone Ipc Console.
Import Client.

(** src/src/cli.rs:46-84 [Daemon] *)
Inductive Daemon :=
| CDownload (command : DownloadCommand)
| CSeed (path : string) (name : option string) (announce : list (list string))
    (seeds nodes : option (list string)) (piece_length : Z) (private : bool)
    (comment created_by : option string)
| CStatus (info_hash : option string).

(** src/src/cli.rs:14-44 [SubCommand] *)
Inductive SubCommand :=
| SubServe (addr : string) (no_cert i2p : bool)
| SubDaemon (command : Daemon)
| SubCerts (kind : CertType) (output : option Path)
| SubTorrent (torrent : TorrentCommand).

(** src/src/cli.rs:4-12 [Cli] *)
Record Cli := mkCli { cli_verbose : bool; cli_subcommand : option SubCommand }.

(** src/src/main.rs:21-33 [main]

    With the four programs it chooses from, and the help. *)
Definition main {R : Type} (print_help : R) (handle_client : Daemon → R)
    (handle_certs : CertType → option Path → R) (handle_torrent : TorrentCommand → bool → R)
    (handle_serve : string → bool → bool → R) (cli : Cli) : R :=
  match cli_subcommand cli with
  | None => print_help
  | Some (SubDaemon daemon) => handle_client daemon
  | Some (SubCerts kind output) => handle_certs kind output
  | Some (SubTorrent torrent) => handle_torrent torrent (cli_verbose cli)
  | Some (SubServe addr no_cert i2p) => handle_serve addr no_cert i2p
  end.

(** What a client does after its answer: the text it prints ([None] for a panic), and what
    it goes on to watch. *)
Inductive Next :=
| NDone
| NStatus (torrents : list Torrent) (info_hash : option string)
| NSingle (info_hash : string).

Section client.
Context {T : Type} `{Torrenting T} `{MapIter} `{Hex} `{Json}.
Context (version : string) (style : list Attr → string → string).
Context (current_dir : string) (path_join : string → string → string).
Implicit Types (ctx : ClientCtx T).

(** src/src/ipc/client.rs:24-34 [ipc]

    [up] is whether the daemon's socket can be reached. *)
Definition ipc (up : bool) (request : Request) ctx : ClientCtx T * Result string Response :=
  if up then Stream.ipc version request ctx
  else (ctx, Err "could not connect to bqti daemon — is it running?").

(** src/src/ipc/client.rs:241-254 [handle_status, before the events] *)
Definition handle_status (up : bool) (info_hash : option string) ctx
    : ClientCtx T * Result string Next :=
  let '(ctx, response) := ipc up RTorrents ctx in
  (ctx,
   match response with
   | Ok (PTorrents torrents) =>
     let? torrents := status_list info_hash torrents in Ok (NStatus torrents info_hash)
   | Ok _ => Err "unexpected response"
   | Err e => Err e
   end).

(** src/src/ipc/client.rs:129-187 [handle_download]

    The text that is printed, [None] for a panic of the console, and the end.  Between the
    two exchanges of an addition that is watched, others change the daemon
    ([meanwhile]), and the second may not reach it ([still_up]). *)
Definition handle_download (up still_up : bool) (meanwhile : ClientCtx T → ClientCtx T)
    (command : DownloadCommand) ctx : ClientCtx T * option string * Result string Next :=
  let '(ctx, response) := ipc up (download_request current_dir path_join command) ctx in
  match response with
  | Err e => (ctx, Some "", Err e)
  | Ok response =>
    match command with
    | DAdd _ watch =>
      match response with
      | PTorrentAdded info_hash =>
        let text := Some (print_queue style info_hash) in
        if watch : bool then
          let '(ctx, next) := handle_status still_up (Some info_hash) (meanwhile ctx) in
          (ctx, text, next)
        else (ctx, text, Ok NDone)
      | _ => (ctx, Some "", Ok NDone)
      end
    | DStop info_hash => (ctx, Some (print_removed style info_hash), Ok NDone)
    | DPause info_hash => (ctx, Some (print_paused style info_hash), Ok NDone)
    | DResume info_hash => (ctx, Some (print_resumed style info_hash), Ok NDone)
    | DList =>
      match response with
      | PTorrents [] => (ctx, Some (println ("  " +:+ style [Dim] "·" +:+ " no active torrents")), Ok NDone)
      | PTorrents torrents => (ctx, print_all style torrents, Ok NDone)
      | _ => (ctx, Some "", Ok NDone)
      end
    end
  end.

(** src/src/ipc/client.rs:98-127 [handle_client]

    With [handle_seed] (lines 197-239); a spinner is shown meanwhile. *)
Definition handle_client (up still_up : bool) (meanwhile : ClientCtx T → ClientCtx T) (cli : Daemon)
    ctx : ClientCtx T * option string * Result string Next :=
  match cli with
  | CDownload command => handle_download up still_up meanwhile command ctx
  | CSeed path name announce seeds nodes piece_length private comment created_by =>
    let '(ctx, response) :=
      ipc up (seed_request current_dir path_join path name announce seeds nodes piece_length private
             comment created_by) ctx in
    (ctx, Some "", let? response := response in
                   let? info_hash := seed_watch response in Ok (NSingle info_hash))
  | CStatus info_hash => let '(ctx, next) := handle_status up info_hash ctx in (ctx, Some "", next)
  end.
End client.

(** * Properties *)

Section properties.
Context {T : Type} `{TorrentingLaws T} `{MapIterLaws} `{HexLaws} `{JsonLaws}.
Context (version : string) (style : list Attr → string → string).
Context (current_dir : string) (path_join : string → string → string).
Implicit Types (ctx : ClientCtx T).

(** The daemon has taken a torrent in: it is listed as pending, and announced. *)
Definition added ctx ctx' (action : TorrentAction) (h : string) : Prop :=
  ∃ f, add_torrent (cx_bqti ctx) action = (cx_bqti ctx', Ok f) ∧
    h = InfoHash.to_string (TorrentFile.info_hash f) ∧
    cx_state ctx' = <[h := mkListed h (TorrentFile.name f) SPending]> (cx_state ctx) ∧
    cx_event_tx ctx' = cx_event_tx ctx ++ [TorrentAdded h (TorrentFile.name f) SPending].

(** What a command that ends well has done and says. *)
Definition told (meanwhile : ClientCtx T → ClientCtx T) (command : DownloadCommand) ctx ctx'
    (text : option string) (next : Next) : Prop :=
  match command with
  | DAdd torrent watch => ∃ source h ctx1,
    source_parse (resolve_link current_dir path_join torrent) = Ok source ∧
    added ctx ctx1 (ADownload source current_dir) h ∧ text = Some (print_queue style h) ∧
    if watch then ctx' = meanwhile ctx1 ∧ ∃ t l, cx_state ctx' !! h = Some t ∧
      next = NStatus l (Some h) ∧ ∀ t', t' ∈ l ↔ t' = t
    else ctx' = ctx1 ∧ next = NDone
  | DStop s => text = Some (print_removed style s) ∧ next = NDone ∧
    ∃ hash, InfoHash.from_hex s = Some hash ∧
    remove_torrent (cx_bqti ctx) hash = (cx_bqti ctx', Ok hash) ∧
    cx_event_tx ctx' = cx_event_tx ctx ++ [TorrentRemoved (InfoHash.to_string hash)] ∧
    ∀ k t, cx_state ctx' !! k = Some t ↔ cx_state ctx !! k = Some t ∧ InfoHash.from_hex k ≠ Some hash
  | DPause s => text = Some (print_paused style s) ∧ next = NDone ∧
    ∃ hash, InfoHash.from_hex s = Some hash ∧
    (∃ h', pause_torrent (cx_bqti ctx) hash = (cx_bqti ctx', Ok h')) ∧
    ∀ k, cx_state ctx' !! k =
      if decide (k = InfoHash.to_string hash) then (λ _, mkListed k "" SPaused) <$> cx_state ctx !! k
      else cx_state ctx !! k
  | DResume s => text = Some (print_resumed style s) ∧ next = NDone ∧
    ∃ hash, InfoHash.from_hex s = Some hash ∧
    (∃ h', resume_torrent (cx_bqti ctx) hash = (cx_bqti ctx', Ok h')) ∧
    cx_state ctx' = cx_state ctx ∧ cx_event_tx ctx' = cx_event_tx ctx
  | DList => ctx' = ctx ∧ next = NDone ∧ ∃ l, (∀ t, t ∈ l ↔ cx_state ctx !! t_info_hash t = Some t) ∧
    match l with
    | [] => text = Some (println ("  " +:+ style [Dim] "·" +:+ " no active torrents"))
    | _ => text = print_all style l
    end
  end.

(** The two ways to fail: nothing was done, or the torrent was added and could not be
    watched, since the daemon was gone by then or no longer lists it. *)
Definition failed (still_up : bool) (meanwhile : ClientCtx T → ClientCtx T) (cli : Daemon) ctx ctx'
    (text : option string) : Prop :=
  (text = Some "" ∧ cx_state ctx' = cx_state ctx ∧ cx_event_tx ctx' = cx_event_tx ctx) ∨
  ∃ torrent source h ctx1, cli = CDownload (DAdd torrent true) ∧
    added ctx ctx1 (ADownload source current_dir) h ∧ text = Some (print_queue style h) ∧
    ctx' = meanwhile ctx1 ∧ (still_up = false ∨ cx_state ctx' !! h = None).

(** The torrents a status starts from. *)
Lemma status_told up ih ctx ctx' r :
  canonical (cx_state ctx) → handle_status version up ih ctx = (ctx', r) →
  ctx' = ctx ∧
  match r with
  | Ok next => (∀ h, ih = Some h → is_Some (cx_state ctx !! h)) ∧ ∃ l, next = NStatus l ih ∧
    ∀ t, t ∈ l ↔ cx_state ctx !! t_info_hash t = Some t ∧ relevant ih (t_info_hash t) = true
  | Err _ => up = false ∨ ∃ h, ih = Some h ∧ cx_state ctx !! h = None
  end.
Proof.
  intros Hc. unfold handle_status, ipc. destruct up; [|intros [= <- <-]; by eauto].
  rewrite ipc_transparent. cbn [Server.dispatch].
  intros [= <- <-]. split; [done|]. unfold status_list. destruct ih as [h|].
  - destruct (List.filter (listed h) (map_values (cx_state ctx))) as [|t0 l0] eqn:Ef; cbn [rbind].
    + right. exists h. split; [done|]. destruct (cx_state ctx !! h) as [t|] eqn:Et; [|done]. exfalso.
      assert (t_info_hash t = h) as Eh by by apply (Hc _ _ Et).
      assert (t ∈ List.filter (listed h) (map_values (cx_state ctx))) as Hin; [|by rewrite Ef in Hin; apply elem_of_nil in Hin].
      apply elem_of_filterb. rewrite canonical_values, Eh by done. split; [done|].
      by apply bool_decide_eq_true.
    + split.
      { intros h' [= <-]. assert (t0 ∈ List.filter (listed h) (map_values (cx_state ctx))) as Hin
          by (rewrite Ef; by left).
        apply elem_of_filterb in Hin as [Hin <-%bool_decide_eq_true].
        apply canonical_values in Hin; [|done]. by rewrite Hin. }
      exists (t0 :: l0). split; [done|]. intros t. rewrite <-Ef, elem_of_filterb.
      rewrite canonical_values by done. unfold listed, relevant. rewrite !bool_decide_eq_true.
      split; (intros [? ?]; split; congruence).
  - split; [done|]. eexists. split; [done|]. intros t. rewrite canonical_values by done. naive_solver.
Qed.

Lemma pause_marks ctx t hash k :
  canonical (cx_state ctx) →
  cx_state (Server.emit (Server.set_bqti ctx t)
    (SessionStateChanged (InfoHash.to_string hash) "" SPaused)) !! k =
  if decide (k = InfoHash.to_string hash) then (λ _, mkListed k "" SPaused) <$> cx_state ctx !! k
  else cx_state ctx !! k.
Proof.
  intros Hc. rewrite emit_apply. cbn. destruct (cx_state ctx !! InfoHash.to_string hash) as [u|] eqn:E.
  - rewrite (proj1 (Hc _ _ E)). case_decide as Ek.
    + subst k. by rewrite lookup_insert_eq, E.
    + by rewrite lookup_insert_ne.
  - case_decide as Ek; [|done]. subst k. by rewrite E.
Qed.

Lemma download_told up still_up meanwhile command ctx ctx' text r :
  canonical (cx_state ctx) →
  (∀ ctx, canonical (cx_state ctx) → canonical (cx_state (meanwhile ctx))) →
  handle_download version style current_dir path_join up still_up meanwhile command ctx = (ctx', text, r) →
  canonical (cx_state ctx') ∧
  match r with
  | Err _ => failed still_up meanwhile (CDownload command) ctx ctx' text
  | Ok next => told meanwhile command ctx ctx' text next
  end.
Proof.
  intros Hc Hmean. unfold handle_download, ipc. destruct up; [|intros [= <- <- <-]; by split; [|left]].
  rewrite ipc_transparent.
  destruct (Server.dispatch _ _ ctx) as [ctx1 [response|e]] eqn:Hd;
    destruct (dispatch_listing _ _ _ _ _ Hc Hd) as [Hc1 He].
  2:{ intros [= <- <- <-]. destruct He as (? & ? & _). by split; [|left]. }
  destruct command as [torrent watch|s|s|s|]; cbn [download_request] in Hd; cbn [Server.dispatch] in Hd.
  - destruct (source_parse _) as [source|] eqn:Esrc; [|done].
    destruct (add_torrent _ _) as [t [f|]] eqn:Ea; [|done]. rewrite emit_apply in Hd.
    injection Hd as E1 <-. set (h := InfoHash.to_string _) in *.
    assert (added ctx ctx1 (ADownload source current_dir) h) as Hadd.
    { exists f. by rewrite <-E1. }
    destruct watch; [|intros [= <- <- <-]; split; [done|]; by exists source, h, ctx1].
    destruct (handle_status version still_up (Some h) (meanwhile ctx1)) as [ctx2 next] eqn:Es.
    apply status_told in Es as [-> Hs]; [|by apply Hmean].
    intros [= <- <- <-]. split; [by apply Hmean|]. destruct next as [next|].
    + exists source, h, ctx1. split_and!; try done. destruct Hs as (Hin & l & -> & Hl).
      destruct (Hin h eq_refl) as [u Eu]. exists u, l. split_and!; [done..|].
      intros t'. rewrite Hl. unfold relevant. rewrite bool_decide_eq_true. split.
      * intros [Ht Eh]. rewrite <-Eh, Eu in Ht. by injection Ht as ->.
      * intros ->. assert (t_info_hash u = h) as -> by by apply (Hmean _ Hc1 _ _ Eu). done.
    + right. exists torrent, source, h, ctx1. split_and!; try done.
      destruct Hs as [?|(h' & [= <-] & ?)]; auto.
  - destruct (InfoHash.from_hex s) as [hash|] eqn:Eh; [|done].
    destruct (remove_torrent _ _) as [t [f|]] eqn:Er; [|done]. pose proof Er as ->%remove_same.
    rewrite emit_apply in Hd. injection Hd as E1 <-.
    intros [= <- <- <-]. split; [done|]. split_and!; [done..|]. exists hash.
    destruct He as [Hev (s' & hash' & [= <-] & Eh' & Hrest)].
    rewrite Eh in Eh'. injection Eh' as <-. split_and!; [done| |done|done]. by rewrite <-E1.
  - destruct (InfoHash.from_hex s) as [hash|] eqn:Eh; [|done].
    destruct (pause_torrent _ _) as [t [f|]] eqn:Ep; [|done]. injection Hd as <- <-.
    intros [= <- <- <-]. split; [done|]. split_and!; [done..|]. exists hash. split_and!; [done| |].
    + exists f. by rewrite emit_apply.
    + intros k. by apply pause_marks.
  - destruct (InfoHash.from_hex s) as [hash|] eqn:Eh; [|done].
    destruct (resume_torrent _ _) as [t [f|]] eqn:Ep; [|done]. injection Hd as <- <-.
    intros [= <- <- <-]. split; [done|]. split_and!; [done..|]. exists hash. split_and!; by eauto.
  - injection Hd as <- <-. destruct He as [_ Hl].
    destruct (map_values (cx_state ctx)) as [|t l] eqn:Ev; intros [= <- <- <-]; (split; [done|]);
      (split_and!; [done..|]); [by exists []|by exists (t :: l)].
Qed.

(** C33: What a client command reports is what the daemon did, through the socket and against
    any implementation of the trait [Torrenting], up to where the client opens the stream
    of events.  A command that adds a torrent has had it accepted, listed as pending under the
    hash that is printed, and announced; when it is to be watched, the client goes on with just
    that torrent as the daemon lists it by then.  After a removal is reported the listing
    is the one before less every torrent with that hash, however it was spelled; what is
    paused is marked and loses its name in the listing, the others staying as they were; a resumption
    leaves the listing to the events that follow; a listing prints exactly the torrents of
    the daemon, and a status starts from exactly those it asked for.  A command that ends
    with an error has printed nothing and changed neither the listing nor the events, with one
    exception: a torrent added to be watched is added and reported, and the error is that
    the daemon was gone, or no longer listed it, when its status was asked for. *)
Theorem client_told (up still_up : bool) (meanwhile : ClientCtx T → ClientCtx T) (cli : Daemon)
    ctx ctx' (text : option string) (r : Result string Next)
    (Hc : canonical (cx_state ctx))
    (Hmeanwhile : ∀ ctx, canonical (cx_state ctx) → canonical (cx_state (meanwhile ctx)))
    (Hrun : handle_client version style current_dir path_join up still_up meanwhile cli ctx =
            (ctx', text, r)) :
  canonical (cx_state ctx') ∧
  match r with
  | Err _ => failed still_up meanwhile cli ctx ctx' text
  | Ok next =>
    match cli with
    | CDownload command => told meanwhile command ctx ctx' text next
    | CSeed path name announce seeds nodes piece_length private comment created_by => ∃ h,
      next = NSingle h ∧
      added ctx ctx' (ASeed (mkSeeding (get_pwd current_dir path_join path) name piece_length announce
        seeds nodes private comment created_by)) h
    | CStatus ih => ctx' = ctx ∧ ∃ l, next = NStatus l ih ∧
      ∀ t, t ∈ l ↔ cx_state ctx !! t_info_hash t = Some t ∧ relevant ih (t_info_hash t) = true
    end
  end.
Proof.
  destruct cli as [command|path name announce seeds nodes pl private comment by_|ih];
    cbn [handle_client] in Hrun.
  - by apply download_told in Hrun.
  - unfold ipc in Hrun. destruct up; [|injection Hrun as <- <- <-; by split; [|left]].
    rewrite ipc_transparent in Hrun.
    destruct (Server.dispatch _ _ ctx) as [ctx1 [response|e]] eqn:Hd;
      destruct (dispatch_listing _ _ _ _ _ Hc Hd) as [Hc1 He].
    2:{ injection Hrun as <- <- <-. destruct He as (? & ? & _). by split; [|left]. }
    cbn [Server.dispatch seed_request] in Hd. destruct (add_torrent _ _) as [t [f|]] eqn:Ea; [|done].
    rewrite emit_apply in Hd. injection Hd as E1 <-. injection Hrun as <- <- <-. split; [done|].
    eexists. split; [done|]. exists f. by rewrite <-E1.
  - destruct (handle_status version up ih ctx) as [ctx1 next] eqn:E. injection Hrun as <- <- <-.
    destruct (status_told up ih ctx ctx1 next Hc E) as [-> Hn]. split; [done|].
    destruct next as [next|]; [by destruct Hn|by left].
Qed.
End properties.

Module CliExamples.
Import IpcExamples ConsoleExamples.
#[local] Existing Instances json json_laws toy_torrents toy_torrents_laws values values_laws ToyHex.hex
  ToyHex.hex_laws.

Definition join_paths (dir name : string) : string := dir +:+ "/" +:+ name.
Definition client (meanwhile : ClientCtx (list InfoHash) → ClientCtx (list InfoHash)) (cli : Daemon)
    (ctx : ClientCtx (list InfoHash)) :=
  handle_client "1" plain "home" join_paths true true meanwhile cli ctx.

Definition add : Daemon := CDownload (DAdd "film.torrent" true).
Definition hash_text : string := InfoHash.to_string hash1.

(** A torrent that the daemon does not have is reported as removed. *)
Example stop_unknown :
  client id (CDownload (DStop hash_text)) idle =
  (mkCtx [TorrentRemoved hash_text] [] ∅ false, Some (print_removed plain hash_text), Ok NDone).
Proof. by vm_compute. Qed.

(** Another client removes the torrent before this one asks for its status. *)
Definition removes (ctx : ClientCtx (list InfoHash)) : ClientCtx (list InfoHash) :=
  (Server.dispatch "1" (RRemoveTorrent hash_text) ctx).1.

Example removed_meanwhile :
  (client removes add idle).1.2 = Some (print_queue plain hash_text) ∧
  (client removes add idle).2 = Err ("torrent " +:+ hash_text +:+ " not found").
Proof. by vm_compute. Qed.

Lemma client_told_witness :
  told plain "home" join_paths id (DAdd "film.torrent" true) idle (client id add idle).1.1
    (Some (print_queue plain hash_text))
    (NStatus [mkListed hash_text "film" SPending] (Some hash_text)) ∧
  failed plain "home" true removes add idle (client removes add idle).1.1
    (Some (print_queue plain hash_text)).
Proof.
  split.
  - apply (client_told "1" plain "home" join_paths true true id add idle (client id add idle).1.1
      (Some (print_queue plain hash_text)) (Ok (NStatus [mkListed hash_text "film" SPending] (Some hash_text))));
      [apply map_Forall_empty|done|by vm_compute].
  - apply (client_told "1" plain "home" join_paths true true removes add idle
      (client removes add idle).1.1 (Some (print_queue plain hash_text))
      (Err ("torrent " +:+ hash_text +:+ " not found")));
      [apply map_Forall_empty| |by vm_compute].
    intros ctx Hc. unfold removes. destruct (Server.dispatch _ _ ctx) as [ctx1 r] eqn:E.
    by apply (dispatch_listing "1" (RRemoveTorrent hash_text) ctx ctx1 r).
Defined.
End CliExamples.
