(* ===== verification/Manager.v ===== *)
(** The sessions of the daemon: [session/manager.rs], with what it reads of
    [session/cache.rs] at the start.

    A session is an [Arc]: a number that names an object of the heap
    [sm_sessions], so that the two tables of the manager can hold the same one.
    The object joins the life cycle of [Session] and the peer table of [Bep],
    which share the state and the bit field.  A transition that the manager asks
    for runs undisturbed here; [Session] shows what interleaving it can do.  What
    the disk answers is an argument. *)

From S2P Require Import Prelude Net Crypto BitField Metainfo Magnet Chunks Bep Session Download Ipc.

(** * Sessions *)

(** src/src/bit_torrent/session/session.rs:39-42 [SessionMode] *)
Inductive SessionMode :=
| ModeDownload (destination_dir : string)
| ModeSeed (source_dir : string).

(** src/src/bit_torrent/session/session.rs:44-55 [TorrentSession] *)
Record TorrentSession := mkTS {
  ts_metadata : TorrentFile;
  ts_config : Session.Config;
  ts_peers : gmap SocketAddr PeerState;
}.

Definition ts_hash (s : TorrentSession) : InfoHash := TorrentFile.info_hash (ts_metadata s).
Definition set_config (c : Session.Config) (s : TorrentSession) : TorrentSession :=
  mkTS (ts_metadata s) c (ts_peers s).

(** A session as the handlers of [Bep] see it, and what they leave of it. *)
Definition bep_view (host : list Z) (s : TorrentSession) : Bep.Session :=
  mkSession (ts_hash s) (length (TorrentFile.piece_hashes (ts_metadata s)))
    (TorrentState.current_mode (c_state (ts_config s))) (c_bitfield (ts_config s)) (ts_peers s) host.
Definition bep_put (b : Bep.Session) (s : TorrentSession) : TorrentSession :=
  mkTS (ts_metadata s) (Session.set_bitfield (ts_config s) (s_bitfield b)) (s_peers b).

(** src/src/bit_torrent/session/manager.rs:28-41 [SessionManagerError] *)
Inductive SessionManagerError :=
| SessionCorrupted
| AlreadyExists (hash : string)
| SessionError (e : TorrentSessionError)
| NotFound (hash : string).

(** src/src/bit_torrent/session/manager.rs:56-59 [QueuedTorrent] *)
Record QueuedTorrent := mkQueued { qt_mode : SessionMode; qt_torrent : TorrentFile }.

(** src/src/bit_torrent/session/manager.rs:51-67 [SessionManagerInner, SessionManager]

    With the heap of sessions, whether [queue_worker] still runs, and the
    directories removed from the disk. *)
Record SessionManager := mkSM {
  by_hash : gmap InfoHash nat;
  by_peer : gmap SocketAddr nat;
  sm_sessions : gmap nat TorrentSession;
  sm_next : nat;
  sm_queue : list QueuedTorrent;
  sm_worker : bool;
  sm_cancelled : bool;
  sm_purged : list string;
}.

Definition set_by_hash f self := mkSM (f (by_hash self)) (by_peer self) (sm_sessions self)
  (sm_next self) (sm_queue self) (sm_worker self) (sm_cancelled self) (sm_purged self).
Definition set_by_peer f self := mkSM (by_hash self) (f (by_peer self)) (sm_sessions self)
  (sm_next self) (sm_queue self) (sm_worker self) (sm_cancelled self) (sm_purged self).
Definition set_sessions f self := mkSM (by_hash self) (by_peer self) (f (sm_sessions self))
  (sm_next self) (sm_queue self) (sm_worker self) (sm_cancelled self) (sm_purged self).
Definition set_queue f self := mkSM (by_hash self) (by_peer self) (sm_sessions self)
  (sm_next self) (f (sm_queue self)) (sm_worker self) (sm_cancelled self) (sm_purged self).
Definition set_worker b self := mkSM (by_hash self) (by_peer self) (sm_sessions self)
  (sm_next self) (sm_queue self) b (sm_cancelled self) (sm_purged self).
Definition add_purged d self := mkSM (by_hash self) (by_peer self) (sm_sessions self)
  (sm_next self) (sm_queue self) (sm_worker self) (sm_cancelled self) (sm_purged self ++ d).

(** src/src/bit_torrent/session/state.rs:218-232 [TorrentState::purge]

    The directory that is removed. *)
Definition purge (st : Session.TorrentState) : option string :=
  match st with
  | Downloading path _ _ _ => Some path
  | Seeding path _ _ => Some path
  | _ => None
  end.

Module SessionManager.
Section manager.
Context `{Crypto} `{Hex} (host : list Z) (env : TorrentFile → Session.Env).
Implicit Types (self : SessionManager).

(** src/src/bit_torrent/session/manager.rs:70-99 [SessionManager::new] *)
Definition manager_new : SessionManager := mkSM ∅ ∅ ∅ 0 [] true false [].

(** src/src/bit_torrent/session/manager.rs:111-146 [SessionManager::dispatch, the session]

    The session a message is for. *)
Definition route self (message : StandardMessage) (source : SocketAddr)
    : SessionManager * option nat :=
  match message with
  | MHandshake info_hash _ =>
    match InfoHash.try_from info_hash with
    | Err _ => (self, None)
    | Ok info_hash =>
      match by_hash self !! info_hash with
      | None => (self, None)
      | Some session => (set_by_peer <[source := session]> self, Some session)
      end
    end
  | _ => (self, by_peer self !! source)
  end.

(** What a handler that panics has written. *)
Record Left := mkLeft { lf_bitfield : BitField; lf_peers : gmap SocketAddr PeerState }.

(** src/src/bit_torrent/session/manager.rs:148-159 [SessionManager::dispatch, the handler]

    [run] is [BepRouter::handle_request] on the message; the reply channel goes
    with it. *)
Definition deliver (run : H unit) (left_by : Left) (source : SocketAddr) (s : TorrentSession)
    : TorrentSession * list Effect :=
  match run (bep_view host s) with
  | None => (mkTS (ts_metadata s) (Session.set_bitfield (ts_config s) (lf_bitfield left_by))
               (lf_peers left_by), [])
  | Some (b, effs, r) =>
    let s := bep_put b s in
    match r with
    | Err ConnectionManagerErr =>
      (mkTS (ts_metadata s) (ts_config s) (delete source (ts_peers s)), effs)
    | _ => (s, effs)
    end
  end.

(** src/src/bit_torrent/session/manager.rs:105-160 [SessionManager::dispatch] *)
Definition dispatch (handle : StandardMessage → SocketAddr → H unit) (left_by : Left) self
    (message : StandardMessage) (source : SocketAddr) : SessionManager * list Effect :=
  let '(self, session) := route self message source in
  match session with
  | None => (self, [])
  | Some id =>
    match sm_sessions self !! id with
    | None => (self, [])
    | Some s =>
      let '(s, effs) := deliver (handle message source) left_by source s in
      (set_sessions <[id := s]> self, effs)
    end
  end.

(** src/src/bit_torrent/session/manager.rs:162-183 [SessionManager::add]

    Sending fails once the worker has returned. *)
Definition add self (mode : SessionMode) (torrent : TorrentFile)
    : SessionManager * Result SessionManagerError unit :=
  let info_hash := TorrentFile.info_hash torrent in
  if bool_decide (is_Some (by_hash self !! info_hash))
  then (self, Err (AlreadyExists (InfoHash.to_string info_hash)))
  else if sm_worker self
  then (set_queue (λ q, q ++ [mkQueued mode torrent]) self, Ok tt)
  else (self, Err SessionCorrupted).

(** src/src/bit_torrent/session/manager.rs:185-188 [SessionManager::get] *)
Definition get self (info_hash : InfoHash) : option nat := by_hash self !! info_hash.

(** [TorrentSession::transition], undisturbed. *)
Definition transition (to : Transition) (s : TorrentSession)
    : TorrentSession * Result TorrentSessionError unit :=
  let '(c, pc) := run_transition (env (ts_metadata s)) (ts_config s) to in
  (set_config c s, match pc with Returned r => r | _ => Err StateError end).

Definition transition_of self (info_hash : InfoHash) (to : Transition)
    : SessionManager * Result SessionManagerError unit :=
  match id ← get self info_hash; s ← sm_sessions self !! id; Some (id, s) with
  | None => (self, Err (NotFound (InfoHash.to_string info_hash)))
  | Some (id, s) =>
    let '(s, r) := transition to s in
    (set_sessions <[id := s]> self, map_err SessionError r)
  end.

(** src/src/bit_torrent/session/manager.rs:190-197 [SessionManager::pause] *)
Definition pause self (info_hash : InfoHash) := transition_of self info_hash Pause.

(** src/src/bit_torrent/session/manager.rs:199-211 [SessionManager::resume] *)
Definition resume self (info_hash : InfoHash) := transition_of self info_hash Resume.

(** src/src/bit_torrent/session/manager.rs:213-220 [SessionManager::cancel] *)
Definition cancel self (info_hash : InfoHash) := transition_of self info_hash Cancel.

(** src/src/bit_torrent/session/manager.rs:222-239 [SessionManager::remove]

    The object stays in the heap: tasks may still hold it. *)
Definition remove self (info_hash : InfoHash) : SessionManager :=
  match by_hash self !! info_hash with
  | None => self
  | Some session =>
    let self := set_by_hash (delete info_hash) self in
    let self := set_by_peer (filter (λ '(_, s), s ≠ session)) self in
    match sm_sessions self !! session with
    | None => self
    | Some s => add_purged (option_list (purge (c_state (ts_config s)))) self
    end
  end.

(** src/src/bit_torrent/session/session.rs:63-118 [TorrentSession::new]

    Watching for disconnections and finding peers start after it. *)
Definition session_create (mode : SessionMode) (metadata : TorrentFile)
    : Result TorrentSessionError TorrentSession :=
  let piece_count := length (TorrentFile.piece_hashes metadata) in
  let session := mkTS metadata (session_new piece_count) ∅ in
  let '(session, r) :=
    transition match mode with
               | ModeSeed source_dir => Seed source_dir
               | ModeDownload destination_dir => Download destination_dir
               end session in
  let? _ := r in Ok session.

(** src/src/bit_torrent/session/manager.rs:284-317 [queue_worker, one torrent] *)
Definition queue_worker self : SessionManager :=
  match sm_queue self with
  | [] => self
  | mkQueued mode torrent :: queue =>
    let self := set_queue (λ _, queue) self in
    if sm_cancelled self then set_worker false self
    else
      match session_create mode torrent with
      | Err _ => self
      | Ok session =>
        let id := sm_next self in
        let self := set_sessions <[id := session]> self in
        let self := mkSM (by_hash self) (by_peer self) (sm_sessions self) (S id) (sm_queue self)
                      (sm_worker self) (sm_cancelled self) (sm_purged self) in
        set_by_hash <[TorrentFile.info_hash torrent := id]> self
      end
  end.

(** src/src/bit_torrent/session/manager.rs:380-384 [Drop for SessionManager] *)
Definition manager_drop self : SessionManager :=
  mkSM (by_hash self) (by_peer self) (sm_sessions self) (sm_next self) (sm_queue self)
    (sm_worker self) true (sm_purged self).
End manager.
End SessionManager.
Import SessionManager.

(** * Events for the clients *)

(** src/src/bit_torrent/session/manager.rs:333-370 [session_events_worker, one event] *)
Definition ipc_event `{AddrText} `{Hex} (torrent : TorrentFile) (event : SessionEvent) : Ipc.Event :=
  let info_hash := InfoHash.to_string (TorrentFile.info_hash torrent) in
  match event with
  | PieceVerified total_pieces current =>
    SessionStateChanged info_hash (TorrentFile.name torrent) (SVerifying current total_pieces)
  | SeedStarted => ExposeTorrent info_hash (MagnetLink.magnet_to_string (magnet torrent))
  | PieceDownloaded total_pieces current =>
    SessionStateChanged info_hash (TorrentFile.name torrent) (SDownloading current total_pieces 0)
  | DownloadCompleted resource_path => DownloadComplted info_hash resource_path
  | EIdle => SessionStateChanged info_hash (TorrentFile.name torrent) SPaused
  end.

(** * The cache *)

(** src/src/bit_torrent/session/cache.rs:15-24 [CachingMode] *)
Inductive CachingMode :=
| CacheDownload (user_space : string) (metafile : TorrentFile)
| CacheSeed (user_space : string) (metafile : TorrentFile).

(** src/src/bit_torrent/session/cache.rs:26-30 [SessionCache] *)
Record SessionCache := mkCache {
  sc_dir : string;
  sc_torrent : TorrentFile;
  sc_resume : option ResumeFile;
}.

Section cache.
Context `{Hex}.
(** The disk: the two directories of [utils/bqti.rs], the entries of a directory
    and whether each is one, [load], and the resume file of a directory. *)
Context (downloads_dir uploads_dir : option string)
  (read_dir : string → option (list (string * bool)))
  (load : string → option TorrentFile)
  (ensure_download_dir : string → option string)
  (ensure_upload_dir : string → TorrentFile → option string)
  (stored_resume : string → option ResumeFile).

(** src/src/bit_torrent/session/cache.rs:33-54 [SessionCache::new] *)
Definition cache_new (mode : CachingMode) : option SessionCache :=
  '(cache_dir, metafile) ←
    match mode with
    | CacheDownload _ metafile =>
      dir ← ensure_download_dir (InfoHash.to_string (TorrentFile.info_hash metafile));
      Some (dir, metafile)
    | CacheSeed user_space metafile =>
      dir ← ensure_upload_dir user_space metafile; Some (dir, metafile)
    end;
  Some (mkCache cache_dir metafile
          (ResumeFile.resume_open (stored_resume cache_dir) (TorrentFile.info_hash metafile))).

(** src/src/bit_torrent/session/cache.rs:100-102 [SessionCache::load_torrent] *)
Definition load_torrent (dir : string) : option TorrentFile := load (path_push dir ".torrent").

(** src/src/bit_torrent/session/cache.rs:77-94 [SessionCache::load_from_cache, one section] *)
Definition load_section (cache_dir : option string)
    (make_mode : string → TorrentFile → CachingMode) : list CachingMode :=
  match path ← cache_dir; read_dir path with
  | None => []
  | Some entries =>
    omap (M := list) (λ '(info_hash, is_dir),
      if (is_dir : bool) then make_mode info_hash <$> load_torrent info_hash else None) entries
  end.

(** src/src/bit_torrent/session/cache.rs:56-98 [SessionCache::load_from_cache] *)
Definition load_from_cache : list CachingMode :=
  load_section downloads_dir CacheDownload ++ load_section uploads_dir CacheSeed.

(** src/src/bit_torrent/session/manager.rs:246-265 [restore_cache, one entry] *)
Definition restored (cache_mode : CachingMode) : QueuedTorrent :=
  match cache_mode with
  | CacheDownload user_space metafile => mkQueued (ModeDownload user_space) metafile
  | CacheSeed user_space metafile => mkQueued (ModeSeed user_space) metafile
  end.

(** src/src/bit_torrent/session/manager.rs:242-275 [restore_cache] *)
Definition restore_cache (self : SessionManager) : SessionManager :=
  if sm_worker self then set_queue (λ q, q ++ map restored load_from_cache) self else self.
End cache.

(** * Runs *)

(** What happens to the manager: a message from an authenticated peer, a command,
    the queue's worker taking a torrent, a session going on by itself, a
    disconnection. *)
Inductive MEvent :=
| EvMessage (handle : StandardMessage → SocketAddr → H unit) (left_by : Left)
    (message : StandardMessage) (source : SocketAddr)
| EvAdd (mode : SessionMode) (torrent : TorrentFile)
| EvQueue
| EvTransition (info_hash : InfoHash) (to : Transition)
| EvRemove (info_hash : InfoHash)
| EvLife (session : nat) (a : Session.Action)
| EvLost (session : nat) (addr : SocketAddr)
| EvRestore (cached : list CachingMode)
| EvDrop.

(** What is seen of it. *)
Inductive Out :=
| Handled (peer : SocketAddr) (session : nat) (message : StandardMessage)
| Gone (session : nat)
| Silent.

Section runs.
Context `{Crypto} `{Hex} (host : list Z) (env : TorrentFile → Session.Env).
Implicit Types (m : SessionManager).

Definition exec m (e : MEvent) : SessionManager * Out :=
  match e with
  | EvMessage handle left_by message source =>
    ((dispatch host handle left_by m message source).1,
     match (route m message source).2 with
     | Some id => Handled source id message
     | None => Silent
     end)
  | EvAdd mode torrent => ((add m mode torrent).1, Silent)
  | EvQueue => (queue_worker env m, Silent)
  | EvTransition info_hash to => ((transition_of env m info_hash to).1, Silent)
  | EvRemove info_hash =>
    (remove m info_hash, match by_hash m !! info_hash with Some id => Gone id | None => Silent end)
  | EvLife id a =>
    (set_sessions (alter (λ s, set_config (Session.act (ts_config s) a) s) id) m, Silent)
  | EvLost id addr =>
    (set_sessions (alter (λ s, mkTS (ts_metadata s) (ts_config s) (delete addr (ts_peers s))) id) m,
     Silent)
  | EvRestore cached =>
    (if sm_worker m then set_queue (λ q, q ++ map restored cached) m else m, Silent)
  | EvDrop => (manager_drop m, Silent)
  end.

Fixpoint run m (es : list MEvent) : SessionManager * list Out :=
  match es with
  | [] => (m, [])
  | e :: es =>
    let '(m, o) := exec m e in
    let '(m, os) := run m es in (m, o :: os)
  end.

(** * Lemmas *)

Lemma run_snoc m es e :
  run m (es ++ [e]) =
  let '(m1, os) := run m es in let '(m2, o) := exec m1 e in (m2, os ++ [o]).
Proof.
  revert m. induction es as [|e' es IH]; intros m; cbn [app run].
  - by destruct (exec m e).
  - destruct (exec m e') as [m1 o]. rewrite IH. destruct (run m1 es) as [m2 os].
    by destruct (exec m2 e).
Qed.

(** No step forgets a session or changes the torrent of one. *)
Definition keeps m m' : Prop :=
  ∀ id s, sm_sessions m !! id = Some s →
          ∃ s', sm_sessions m' !! id = Some s' ∧ ts_metadata s' = ts_metadata s.

Lemma keeps_insert m id s s' : sm_sessions m !! id = Some s → ts_metadata s' = ts_metadata s →
  keeps m (set_sessions <[id := s']> m).
Proof.
  intros Hs He j t Hj. simpl. destruct (decide (id = j)) as [<-|Hne].
  - exists s'. rewrite lookup_insert_eq. split; [done|]. congruence.
  - exists t. by rewrite lookup_insert_ne.
Qed.

Lemma keeps_alter m id f : (∀ s, ts_metadata (f s) = ts_metadata s) →
  keeps m (set_sessions (alter f id) m).
Proof.
  intros Hf j t Hj. simpl. destruct (decide (id = j)) as [<-|Hne].
  - exists (f t). by rewrite lookup_alter_eq, Hj.
  - exists t. by rewrite lookup_alter_ne.
Qed.

Lemma transition_metadata to s : ts_metadata (transition env to s).1 = ts_metadata s.
Proof. unfold transition. by destruct (run_transition _ _ _). Qed.

Lemma session_create_metadata mode t s : session_create env mode t = Ok s → ts_metadata s = t.
Proof.
  unfold session_create. cbv zeta. destruct (transition env _ _) as [s1 [[]|e]] eqn:E; simpl; [|done].
  intros [= <-]. pose proof (transition_metadata
    (match mode with ModeSeed d => Seed d | ModeDownload d => Download d end)
    (mkTS t (session_new (length (TorrentFile.piece_hashes t))) ∅)) as Hm.
  by rewrite E in Hm.
Qed.

Lemma deliver_metadata h l src s : ts_metadata (deliver host h l src s).1 = ts_metadata s.
Proof. unfold deliver. destruct (h _) as [[[b effs] [|[]]]|]; done. Qed.

(** The tables: a session stands under the hash of its torrent, ids are fresh,
    and every id names a session. *)
Record tables m : Prop := {
  tb_hash h id : by_hash m !! h = Some id → ∃ s, sm_sessions m !! id = Some s ∧ ts_hash s = h;
  tb_fresh id : is_Some (sm_sessions m !! id) → id < sm_next m;
}.

Lemma tables_keeps m m' : tables m → by_hash m' = by_hash m → sm_next m' = sm_next m →
  dom (sm_sessions m') = dom (sm_sessions m) → keeps m m' → tables m'.
Proof.
  intros [Hh Hf] Eh En Ed Hk. split.
  - intros h id. rewrite Eh. intros (s & Hs & <-)%Hh. destruct (Hk _ _ Hs) as (s' & ? & E).
    exists s'. unfold ts_hash. by rewrite E.
  - intros id Hid. rewrite En. apply Hf. apply elem_of_dom. rewrite <- Ed. by apply elem_of_dom.
Qed.

Lemma route_frame m msg src :
  by_hash (route m msg src).1 = by_hash m ∧ sm_sessions (route m msg src).1 = sm_sessions m ∧
  sm_next (route m msg src).1 = sm_next m.
Proof.
  destruct msg; simpl; try done. destruct (InfoHash.try_from _); simpl; [|done].
  by destruct (by_hash m !! _).
Qed.

Lemma dispatch_frame h l m msg src (m' := (dispatch host h l m msg src).1) :
  by_hash m' = by_hash m ∧ by_peer m' = by_peer (route m msg src).1 ∧ sm_next m' = sm_next m ∧
  dom (sm_sessions m') = dom (sm_sessions m) ∧ keeps m m'.
Proof.
  subst m'. unfold dispatch. pose proof (route_frame m msg src) as (Eh & Es & En).
  destruct (route m msg src) as [m1 [id|]]; simpl in *.
  2:{ split_and!; try done; [by rewrite Es|]. intros id s. rewrite Es. eauto. }
  destruct (sm_sessions m1 !! id) as [s|] eqn:E.
  2:{ simpl. split_and!; try done; [by rewrite Es|]. intros j s. rewrite Es. eauto. }
  pose proof (deliver_metadata (h msg src) l src s) as Hd.
  destruct (deliver _ _ _ _ _) as [s' effs]. simpl in *. split_and!; try done.
  - rewrite dom_insert_L, Es. apply elem_of_dom_2 in E. rewrite Es in E. set_solver.
  - intros j t Hj. rewrite <- Es in Hj. by destruct (keeps_insert m1 id s s' E Hd j t Hj) as (t' & ? & ?); eauto.
Qed.

Lemma transition_of_frame m h to (m' := (transition_of env m h to).1) :
  by_hash m' = by_hash m ∧ by_peer m' = by_peer m ∧ sm_next m' = sm_next m ∧
  dom (sm_sessions m') = dom (sm_sessions m) ∧ keeps m m'.
Proof.
  subst m'. unfold transition_of.
  destruct (get m h) as [id|]; simpl; [|split_and!; try done; intros ???; eauto].
  destruct (sm_sessions m !! id) as [s|] eqn:E; simpl; [|split_and!; try done; intros ???; eauto].
  pose proof (transition_metadata to s) as Hd.
  destruct (transition env to s) as [s' r]. simpl in *. split_and!; try done.
  - rewrite dom_insert_L. apply elem_of_dom_2 in E. set_solver.
  - by eapply keeps_insert.
Qed.

Lemma remove_frame m h (m' := remove m h) :
  sm_sessions m' = sm_sessions m ∧ sm_next m' = sm_next m ∧
  (∀ k id, by_hash m' !! k = Some id → by_hash m !! k = Some id) ∧
  (∀ p id, by_peer m' !! p = Some id → by_peer m !! p = Some id ∧ by_hash m !! h ≠ Some id).
Proof.
  subst m'. unfold remove. destruct (by_hash m !! h) as [id|] eqn:E; [|by naive_solver]. simpl.
  destruct (sm_sessions m !! id); simpl; (split_and!; [done|done|..]).
  all: try (intros k j Hk; by apply lookup_delete_Some in Hk as [_ ?]).
  all: intros p j Hp; apply map_lookup_filter_Some in Hp as [? ?]; split; [done|congruence].
Qed.

Lemma queue_frame m (m' := queue_worker env m) :
  tables m → tables m' ∧ by_peer m' = by_peer m ∧ keeps m m'.
Proof.
  subst m'. intros [Hh Hf]. unfold queue_worker. destruct (sm_queue m) as [|[mode t] q].
  { split_and!; [done..|]. intros ???; eauto. }
  cbn [set_queue sm_cancelled]. destruct (sm_cancelled m).
  { split_and!; [|done|intros ???; eauto]. split; [apply Hh|apply Hf]. }
  destruct (session_create env mode t) as [s|e] eqn:E.
  2:{ split_and!; [|done|intros ???; eauto]. split; [apply Hh|apply Hf]. }
  apply session_create_metadata in E.
  assert (sm_sessions m !! sm_next m = None) as Hn.
  { destruct (sm_sessions m !! sm_next m) eqn:Es; [|done]. enough (sm_next m < sm_next m) by lia. eauto. }
  assert (keeps m (set_sessions <[sm_next m := s]> m)) as Hk.
  { intros j u Hj. exists u. simpl. rewrite lookup_insert_ne; [done|]. congruence. }
  split_and!; [split|done|exact Hk]; simpl.
  - intros h id. rewrite lookup_insert_Some. intros [[<- <-]|[_ Hid]].
    + exists s. rewrite lookup_insert_eq. unfold ts_hash. by rewrite E.
    + destruct (Hh _ _ Hid) as (u & Hu & <-). destruct (Hk _ _ Hu) as (u' & ? & Eu).
      exists u'. unfold ts_hash. by rewrite Eu.
  - intros id. rewrite lookup_insert_is_Some'. intros [<-|Hid]; [lia|]. specialize (Hf _ Hid). lia.
Qed.

(** The last handshake of [p] that a session took is the [j]-th thing seen, it
    was taken by [id], and [id] was not removed since. *)
Definition last_greeting (os : list Out) (p : SocketAddr) (id j : nat) (ih : list Z) : Prop :=
  (∃ pid, os !! j = Some (Handled p id (MHandshake ih pid))) ∧
  ∀ k o, j < k → os !! k = Some o →
    o ≠ Gone id ∧ ∀ id' ih' pid', o ≠ Handled p id' (MHandshake ih' pid').

Definition serves m (id : nat) (ih : list Z) : Prop :=
  ∃ s, sm_sessions m !! id = Some s ∧ InfoHash.try_from ih = Ok (ts_hash s).

Record routed m (os : list Out) : Prop := {
  rt_tables : tables m;
  rt_peer p id : by_peer m !! p = Some id → ∃ j ih, last_greeting os p id j ih ∧ serves m id ih;
}.

Lemma serves_keeps m m' id ih : keeps m m' → serves m id ih → serves m' id ih.
Proof.
  intros Hk (s & Hs & Ht). destruct (Hk _ _ Hs) as (s' & ? & E). exists s'. split; [done|].
  unfold ts_hash in *. by rewrite E.
Qed.

(** A thing seen that leaves the route of [p] to [id] alone. *)
Definition spares (o : Out) (p : SocketAddr) (id : nat) : Prop :=
  o ≠ Gone id ∧ ∀ id' ih' pid', o ≠ Handled p id' (MHandshake ih' pid').

Lemma last_greeting_snoc os o p id j ih :
  last_greeting os p id j ih → spares o p id → last_greeting (os ++ [o]) p id j ih.
Proof.
  intros [(pid & Hj) Hl] Ho. split.
  - exists pid. by apply lookup_app_l_Some.
  - intros k o' Hk [Hk'|[Hlen Hk']]%lookup_app_Some; [by eapply Hl|].
    apply list_lookup_singleton_Some in Hk' as [_ <-]. done.
Qed.

Lemma routed_snoc m os m' o : routed m os → tables m' → keeps m m' →
  (∀ p id, by_peer m' !! p = Some id →
     (by_peer m !! p = Some id ∧ spares o p id) ∨
     ∃ ih pid, o = Handled p id (MHandshake ih pid) ∧ serves m' id ih) →
  routed m' (os ++ [o]).
Proof.
  intros [_ Hp] Ht Hk Hb. split; [done|]. intros p id Hid.
  destruct (Hb _ _ Hid) as [[Hold Ho]|(ih & pid & -> & Hs)].
  - destruct (Hp _ _ Hold) as (j & ih & Hl & Hs). exists j, ih.
    split; [by apply last_greeting_snoc|by eapply serves_keeps].
  - exists (length os), ih. split; [|done]. split.
    + exists pid. by apply list_lookup_middle.
    + intros k o Hlt Hk'. apply lookup_lt_Some in Hk'. rewrite length_app in Hk'. simpl in Hk'. lia.
Qed.

Lemma routed_silent m os m' : routed m os → tables m' → keeps m m' → by_peer m' = by_peer m →
  routed m' (os ++ [Silent]).
Proof. intros Hr Ht Hk E. apply (routed_snoc m); try done. intros p id. rewrite E. by left. Qed.

Lemma keeps_same m m' : sm_sessions m' = sm_sessions m → keeps m m'.
Proof. intros E id s. rewrite E. eauto. Qed.

Lemma tables_same m m' : tables m → by_hash m' = by_hash m → sm_sessions m' = sm_sessions m →
  sm_next m' = sm_next m → tables m'.
Proof. intros [Hh Hf] Eh Es En. split; rewrite ?Eh, ?Es, ?En; done. Qed.

(** A step that touches neither the tables nor the sessions. *)
Lemma routed_same m os m' : routed m os → by_hash m' = by_hash m → by_peer m' = by_peer m →
  sm_sessions m' = sm_sessions m → sm_next m' = sm_next m → routed m' (os ++ [Silent]).
Proof.
  intros Hr Eh Ep Es En. apply (routed_silent m); [done| |by apply keeps_same|done].
  by apply (tables_same m); [apply Hr|..].
Qed.

Lemma dom_alter_sessions f id m : dom (sm_sessions (set_sessions (alter f id) m)) = dom (sm_sessions m).
Proof. apply dom_alter_L. Qed.

Lemma route_spares m msg src p id :
  by_peer (route m msg src).1 !! p = Some id →
  (by_peer m !! p = Some id ∧
   spares (match (route m msg src).2 with Some id => Handled src id msg | None => Silent end) p id) ∨
  ∃ ih pid h, msg = MHandshake ih pid ∧ src = p ∧ (route m msg src).2 = Some id ∧
    InfoHash.try_from ih = Ok h ∧ by_hash m !! h = Some id.
Proof.
  destruct msg as [ih pid| | | | | | | |]; simpl;
    try (intros Hp; left; split; [done|]; by destruct (by_peer m !! src)).
  destruct (InfoHash.try_from ih) as [h|e] eqn:E; simpl; [|by left].
  destruct (by_hash m !! h) as [id'|] eqn:Eh; simpl; [|by left].
  rewrite lookup_insert_Some. intros [[<- <-]|[Hne Hp]].
  - right. by exists ih, pid, h.
  - left. split; [done|]. split; [done|]. by intros ??? [= ? ?].
Qed.

Lemma exec_routed m os e : routed m os → routed (exec m e).1 (os ++ [(exec m e).2]).
Proof.
  intros Hr. pose proof (rt_tables _ _ Hr) as Ht.
  destruct e as [h l msg src|mode t| |ih to|ih|id a|id addr|cached|]; simpl.
  - destruct (dispatch_frame h l m msg src) as (Eh & Ep & En & Ed & Hk).
    apply (routed_snoc m); [done|by eapply tables_keeps|done|]. intros p id. rewrite Ep.
    intros [Hs|(ih & pid & hh & -> & -> & E2 & Et & Hh)]%route_spares; [by left|]. right. rewrite E2.
    exists ih, pid. split; [done|]. apply (serves_keeps m); [done|].
    destruct (tb_hash _ Ht _ _ Hh) as (s & ? & <-). by exists s.
  - apply (routed_same m); try done; unfold add; case_bool_decide; try done;
      by destruct (sm_worker m).
  - destruct (queue_frame m Ht) as (? & ? & ?). by apply (routed_silent m).
  - destruct (transition_of_frame m ih to) as (Eh & Ep & En & Ed & Hk).
    apply (routed_silent m); try done. by eapply tables_keeps.
  - destruct (remove_frame m ih) as (Es & En & Hh & Hp).
    assert (keeps m (remove m ih)) as Hk by by apply keeps_same.
    apply (routed_snoc m); [done| |done|].
    + destruct Ht as [Hth Htf]. split; rewrite ?Es, ?En; [|done]. intros k id Hid. eauto.
    + intros p id [Hid Hne]%Hp. left. split; [done|].
      destruct (by_hash m !! ih) as [id'|]; [|done]. split; [congruence|done].
  - apply (routed_silent m); try done; [|by apply keeps_alter].
    eapply tables_keeps; try done; [apply dom_alter_sessions|by apply keeps_alter].
  - apply (routed_silent m); try done; [|by apply keeps_alter].
    eapply tables_keeps; try done; [apply dom_alter_sessions|by apply keeps_alter].
  - apply (routed_same m); try done; by destruct (sm_worker m).
  - by apply (routed_same m).
Qed.

Lemma run_routed es : routed (run manager_new es).1 (run manager_new es).2.
Proof.
  induction es as [|e es IH] using rev_ind.
  - split; [|done]. split; [done|]. by intros id [].
  - rewrite run_snoc. destruct (run manager_new es) as [m os]. simpl in IH.
    pose proof (exec_routed m os e IH) as Hx. by destruct (exec m e) as [m' o].
Qed.

(** C25: Whatever commands, restarts of the cache, failures, disconnections and
    messages come before it, a message is handed to a session of the torrent its
    sender asked for: a handshake goes to a session whose info hash is the one
    it carries, and any other message to the very session that took the sender's
    last handshake, which has not been removed since. *)
Theorem messages_routed (es : list MEvent) (msg : StandardMessage) (p : SocketAddr) (id : nat)
    (Hr : (route (run manager_new es).1 msg p).2 = Some id) :
  match msg with
  | MHandshake ih _ => serves (run manager_new es).1 id ih
  | _ => ∃ j ih, last_greeting (run manager_new es).2 p id j ih ∧ serves (run manager_new es).1 id ih
  end.
Proof.
  pose proof (run_routed es) as [Ht Hp].
  destruct msg as [ih pid| | | | | | | |]; try by apply Hp. simpl in Hr.
  destruct (InfoHash.try_from ih) as [h|e] eqn:E; simpl in Hr; [|done].
  destruct (by_hash _ !! h) as [id'|] eqn:Eh; simpl in Hr; [|done]. injection Hr as ->.
  destruct (tb_hash _ Ht _ _ Eh) as (s & ? & <-). by exists s.
Qed.

(** A removed torrent is forgotten: it is not found, no peer is sent to the
    session it had, and its directory is removed unless the session is idle. *)
Lemma remove_forgets m h id s : by_hash m !! h = Some id → sm_sessions m !! id = Some s →
  get (remove m h) h = None ∧ (∀ p, by_peer (remove m h) !! p ≠ Some id) ∧
  sm_purged (remove m h) = sm_purged m ++ option_list (purge (c_state (ts_config s))).
Proof.
  intros Hh Hs. destruct (remove_frame m h) as (_ & _ & _ & Hp).
  split_and!.
  - unfold remove, get. rewrite Hh. simpl. rewrite Hs. simpl. apply lookup_delete_eq.
  - intros p [_ Hne]%Hp. done.
  - unfold remove. rewrite Hh. simpl. by rewrite Hs.
Qed.
End runs.

Module ManagerExamples.
#[local] Existing Instance ToyHex.hex.
#[local] Existing Instance Toy.ToyCrypto.

Definition env : TorrentFile → Session.Env := λ _, SessionExamples.env.
Definition peer : SocketAddr := SocketV4 1 1.
Definition ignore : StandardMessage → SocketAddr → H unit := λ _ _, hret tt.
Definition nothing : Left := mkLeft (BitField.empty 0) ∅.
Definition film : TorrentFile := IpcExamples.film.
Definition hash : InfoHash := TorrentFile.info_hash film.
Definition hello : StandardMessage := MHandshake (InfoHash.to_vec hash) [7%Z].

Definition message (m : StandardMessage) : MEvent := EvMessage ignore nothing m peer.
Definition after (es : list MEvent) : SessionManager := (run [] env manager_new es).1.

(** A torrent is added and a peer greets it. *)
Definition greeted : list MEvent := [EvAdd (ModeDownload "home") film; EvQueue; message hello].

Lemma messages_routed_witness :
  ∃ j ih, last_greeting (run [] env manager_new greeted).2 peer 0 j ih ∧
          serves (run [] env manager_new greeted).1 0 ih.
Proof.
  apply (messages_routed [] env greeted MInterested peer 0). vm_compute. reflexivity.
Defined.

(** Two additions of one torrent before the queue is served both succeed: the
    second session takes the place of the first, whose peers are still sent to
    it. *)
Example queued_twice :
  let m := after [EvAdd (ModeDownload "home") film; EvAdd (ModeDownload "work") film; EvQueue;
                  message hello; EvQueue] in
  get m hash = Some 1 ∧ (route m MInterested peer).2 = Some 0.
Proof. vm_compute. done. Qed.

(** The directory of a paused torrent stays when it is removed, and its torrent
    file with it: the next start restores the session. *)
Example paused_not_purged :
  sm_purged (after [EvAdd (ModeDownload "home") film; EvQueue; EvRemove hash]) = ["cache/home"] ∧
  sm_purged (after [EvAdd (ModeDownload "home") film; EvQueue; EvTransition hash Pause;
                    EvRemove hash]) = [].
Proof. vm_compute. done. Qed.

(** Removing a torrent cancels nothing: the session, which the search for peers
    still holds, goes on downloading into the directory that was removed. *)
Example removed_goes_on :
  (λ s, (TorrentState.current_mode (c_state (ts_config s)),
         bool_decide (c_cancelled (ts_config s) = ∅))) <$>
    sm_sessions (after [EvAdd (ModeDownload "home") film; EvQueue; EvRemove hash]) !! 0 =
  Some (MDownloading, true).
Proof. vm_compute. reflexivity. Qed.

(** A download that is restored goes to its cache directory, not to the user's. *)
Example restored_destination :
  map qt_mode (sm_queue (restore_cache (Some "data/downloads") None
      (λ _, Some [("data/downloads/ab", true)]) (λ _, Some film) manager_new)) =
  [ModeDownload "data/downloads/ab"].
Proof. vm_compute. reflexivity. Qed.
End ManagerExamples.
