(* ===== verification/Events.v ===== *)
(** The way of a session's events to the daemon's picture of its torrents: the
    channel of each session and [session_events_worker] of [session/manager.rs], the
    broadcast channel of the session manager, and the task of
    [Bqti::serve_forever] that feeds [IpcServer::send_event].

    A [Hub] is the state of all of them; an action is one turn of one task.  The
    last leg, from the daemon's state to the clients that watch it, is in [Ipc]. *)

From S2P Require Import Prelude Net Crypto Metainfo Session Ipc Manager.

(** src/src/bit_torrent/session/manager.rs:24-24 [SESSION_EVENT_SIZE] *)
Definition SESSION_EVENT_SIZE : nat := 32.

(** src/src/bit_torrent/session/manager.rs:26-26 [BROADCAST_IPC_EVENT_SIZE] *)
Definition BROADCAST_IPC_EVENT_SIZE : nat := 32.

(** A session's torrent, whether its worker runs, the events in its channel, and all
    that were put in it. *)
Record Outbox := mkOutbox {
  ob_torrent : TorrentFile;
  ob_running : bool;
  ob_queue : list SessionEvent;
  ob_sent : list SessionEvent;
}.

(** [h_log] is what was broadcast, with the session it came from; [h_subscribed] says
    whether the forwarding task has its receiver yet, which gets what is
    broadcast from position [h_start] on, and [h_pos] is where it has got to; [h_state] is the daemon's state and [h_applied] the
    events applied to it, of which [h_forwarded] came from sessions. *)
Record Hub := mkHub {
  h_sessions : list Outbox;
  h_cancelled : bool;
  h_log : list (nat * Event);
  h_subscribed : bool;
  h_start : nat;
  h_pos : nat;
  h_forwarding : bool;
  h_state : IpcState;
  h_applied : list Event;
  h_forwarded : list Event;
}.

Inductive HubAction :=
| HStart (torrent : TorrentFile)
| HSend (i : nat) (event : SessionEvent)
| HWork (i : nat)
| HStop (i : nat)
| HSubscribe
| HForward
| HEmit (event : Event)
| HDropManager.

(** The session manager as it is made, long before [serve_forever] subscribes to it:
    its queue worker and the restoring of the cache are running. *)
Definition hub_new : Hub := mkHub [] false [] false 0 0 false ∅ [] [].

Section hub.
Context `{AddrText} `{Hex}.

Definition set_outbox (i : nat) (o : Outbox) (log : list (nat * Event)) (h : Hub) : Hub :=
  mkHub (<[i := o]> (h_sessions h)) (h_cancelled h) log (h_subscribed h) (h_start h) (h_pos h) (h_forwarding h) (h_state h)
    (h_applied h) (h_forwarded h).

(** src/src/bit_torrent/session/manager.rs:284-296 [queue_worker, the channel of a session] *)
Definition start_session (torrent : TorrentFile) (h : Hub) : Hub :=
  if h_cancelled h then h
  else mkHub (h_sessions h ++ [mkOutbox torrent true [] []]) (h_cancelled h) (h_log h) (h_subscribed h) (h_start h) (h_pos h)
         (h_forwarding h) (h_state h) (h_applied h) (h_forwarded h).

(** src/src/bit_torrent/session/session.rs:120-125 [TorrentSession::send_event]

    A sender waits for room; without a worker the event is dropped. *)
Definition session_send (i : nat) (event : SessionEvent) (h : Hub) : Hub :=
  match h_sessions h !! i with
  | Some o =>
    if ob_running o && (length (ob_queue o) <? SESSION_EVENT_SIZE) then
      set_outbox i (mkOutbox (ob_torrent o) true (ob_queue o ++ [event]) (ob_sent o ++ [event]))
        (h_log h) h
    else h
  | None => h
  end.

(** src/src/bit_torrent/session/manager.rs:320-378 [session_events_worker]

    One turn of the loop: an event, or the end when the manager is gone. *)
Definition session_events_worker (i : nat) (h : Hub) : Hub :=
  match h_sessions h !! i with
  | Some (mkOutbox torrent true (event :: queue) sent) =>
    set_outbox i (mkOutbox torrent true queue sent) (h_log h ++ [(i, ipc_event torrent event)]) h
  | _ => h
  end.
Definition stop_worker (i : nat) (h : Hub) : Hub :=
  match h_sessions h !! i with
  | Some o => if h_cancelled h then
                set_outbox i (mkOutbox (ob_torrent o) false (ob_queue o) (ob_sent o)) (h_log h) h
              else h
  | None => h
  end.

(** src/src/ipc/server.rs:106-115 [IpcServer::send_event]

    The state, and what was applied to it. *)
Definition server_send_event (event : Event) (st : IpcState) (applied : list Event)
    : IpcState * list Event :=
  ((IpcState.apply st event).1, applied ++ [event]).

(** src/src/bit_torrent/bqti.rs:239-240 [Bqti::serve_forever, subscribing]

    Once; a new receiver of a broadcast channel gets what is sent from then on
    ([SessionManager::subscribe]). *)
Definition subscribe (h : Hub) : Hub :=
  if h_subscribed h then h
  else mkHub (h_sessions h) (h_cancelled h) (h_log h) true (length (h_log h)) (length (h_log h)) true
         (h_state h) (h_applied h) (h_forwarded h).

(** src/src/bit_torrent/bqti.rs:243-247 [Bqti::serve_forever, forwarding events]

    [while let Ok(event)] ends the task at any error of the receiver. *)
Definition forward_events (h : Hub) : Hub :=
  if h_forwarding h then
    match recv BROADCAST_IPC_EVENT_SIZE (map snd (h_log h)) (h_pos h) with
    | Received event =>
      let '(st, applied) := server_send_event event (h_state h) (h_applied h) in
      mkHub (h_sessions h) (h_cancelled h) (h_log h) (h_subscribed h) (h_start h) (S (h_pos h)) true st applied
        (h_forwarded h ++ [event])
    | Lagged _ =>
      mkHub (h_sessions h) (h_cancelled h) (h_log h) (h_subscribed h) (h_start h) (h_pos h) false
        (h_state h) (h_applied h) (h_forwarded h)
    | Empty => h
    end
  else h.

Definition hub_step (h : Hub) (a : HubAction) : Hub :=
  match a with
  | HStart torrent => start_session torrent h
  | HSend i event => session_send i event h
  | HWork i => session_events_worker i h
  | HStop i => stop_worker i h
  | HSubscribe => subscribe h
  | HForward => forward_events h
  | HEmit event =>
    let '(st, applied) := server_send_event event (h_state h) (h_applied h) in
    mkHub (h_sessions h) (h_cancelled h) (h_log h) (h_subscribed h) (h_start h) (h_pos h)
      (h_forwarding h) st applied (h_forwarded h)
  | HDropManager =>
    mkHub (h_sessions h) true (h_log h) (h_subscribed h) (h_start h) (h_pos h) (h_forwarding h)
      (h_state h) (h_applied h) (h_forwarded h)
  end.

Definition hub_run (h : Hub) (acts : list HubAction) : Hub := foldl hub_step h acts.

(** * The invariant *)

(** The events that came from session [i]. *)
Definition from_session (i : nat) (log : list (nat * Event)) : list Event :=
  omap (λ '(j, e), if j =? i then Some e else None) log.

Lemma from_session_snoc i j log e :
  from_session i (log ++ [(j, e)]) = from_session i log ++ if j =? i then [e] else [].
Proof. unfold from_session. rewrite omap_app. cbn. by destruct (j =? i). Qed.

Definition outbox_ok (log : list (nat * Event)) (i : nat) (o : Outbox) : Prop :=
  map (ipc_event (ob_torrent o)) (ob_sent o) =
    from_session i log ++ map (ipc_event (ob_torrent o)) (ob_queue o) ∧
  length (ob_queue o) ≤ SESSION_EVENT_SIZE.

Record hub_inv (h : Hub) : Prop := {
  hi_sessions : ∀ i o, h_sessions h !! i = Some o → outbox_ok (h_log h) i o;
  hi_tags : ∀ j e, (j, e) ∈ h_log h → j < length (h_sessions h);
  hi_forwarded : h_forwarded h = take (h_pos h - h_start h) (drop (h_start h) (map snd (h_log h)));
  hi_start : h_start h ≤ h_pos h;
  hi_subscribed : h_subscribed h = false → h_forwarding h = false ∧ h_forwarded h = [];
  hi_pos : h_pos h ≤ length (h_log h);
  hi_state : h_state h = foldl (λ st e, (IpcState.apply st e).1) ∅ (h_applied h);
  hi_applied : h_forwarded h `sublist_of` h_applied h;
}.

Lemma inv_set_outbox h i o :
  is_Some (h_sessions h !! i) → outbox_ok (h_log h) i o → hub_inv h →
  hub_inv (set_outbox i o (h_log h) h).
Proof.
  intros Hi Ho []. split; try done; cbn.
  - intros j o' Hj. destruct (decide (j = i)) as [->|].
    + rewrite list_lookup_insert_eq in Hj by by apply lookup_lt_is_Some. by injection Hj as <-.
    + rewrite list_lookup_insert_ne in Hj by done. eauto.
  - intros j e Hj. rewrite length_insert. eauto.
Qed.

Lemma hub_inv_worker h i : hub_inv h → hub_inv (session_events_worker i h).
Proof.
  intros Hi. unfold session_events_worker.
  destruct (h_sessions h !! i) as [[t [] [|e q] snt]|] eqn:Eo; try done.
  pose proof (hi_sessions h Hi i _ Eo) as [Hsent Hlen]. cbn in Hsent, Hlen.
  pose proof (lookup_lt_Some _ _ _ Eo) as Hlt. destruct Hi. split; cbn; try done.
  - intros j o Hj. destruct (decide (j = i)) as [->|Hne].
    + rewrite list_lookup_insert_eq in Hj by done. injection Hj as <-. split; cbn; [|lia].
      rewrite from_session_snoc, Nat.eqb_refl, <-app_assoc. done.
    + rewrite list_lookup_insert_ne in Hj by done. destruct (hi_sessions0 j o Hj) as [Hs Hl].
      split; [|done]. by rewrite from_session_snoc, (proj2 (Nat.eqb_neq i j)), app_nil_r by done.
  - intros j e' [Hj|Hj%list_elem_of_singleton]%elem_of_app; rewrite length_insert; [by eauto|].
    by injection Hj as -> ->.
  - rewrite map_app, drop_app_le by (rewrite length_map; lia).
    rewrite take_app_le by (rewrite length_drop, length_map; lia). done.
  - rewrite length_app. lia.
Qed.

Lemma inv_forward h : hub_inv h → hub_inv (forward_events h).
Proof.
  intros Hi. unfold forward_events. destruct (h_forwarding h) eqn:Hf; [|done].
  assert (h_subscribed h = true) as Hsub.
  { destruct (h_subscribed h) eqn:E; [done|]. apply (hi_subscribed h Hi) in E as [??]. congruence. }
  unfold recv. destruct (_ <? _); [by destruct Hi; split; cbn; try done; rewrite Hsub|].
  destruct (map snd (h_log h) !! h_pos h) as [e|] eqn:Ee; [|done]. destruct Hi. cbn. split; cbn; try done.
  - rewrite hi_forwarded0. replace (S (h_pos h) - h_start h) with (S (h_pos h - h_start h)) by lia.
    symmetry. apply take_S_r. rewrite lookup_drop. by replace (_ + _) with (h_pos h) by lia.
  - lia.
  - by rewrite Hsub.
  - apply lookup_lt_Some in Ee. rewrite length_map in Ee. lia.
  - rewrite foldl_app. cbn. by rewrite hi_state0.
  - by apply sublist_app.
Qed.

Lemma inv_hub_step h a : hub_inv h → hub_inv (hub_step h a).
Proof.
  intros Hi. destruct a; cbn [hub_step].
  - unfold start_session. destruct (h_cancelled h); [done|]. destruct Hi. split; cbn; try done.
    + intros i o [Ho|[Hl Ho]]%lookup_app_Some; [by eauto|].
      destruct (i - length (h_sessions h)) as [|] eqn:E; [|done]. injection Ho as <-.
      split; cbn; [|lia]. rewrite app_nil_r. symmetry.
      assert (∀ l, (∀ j e, (j, e) ∈ l → j < length (h_sessions h)) → from_session i l = []) as Hn; [|by auto].
      induction l as [|[j e] l IH]; intros Hall; [done|]. cbn.
      rewrite (proj2 (Nat.eqb_neq j i)) by (specialize (Hall j e ltac:(by left)); lia).
      apply IH. intros j' e' Hj. apply (Hall j' e'). by right.
    + intros j e Hj. rewrite length_app. specialize (hi_tags0 j e Hj). lia.
  - unfold session_send. destruct (h_sessions h !! i) as [o|] eqn:Eo; [|done].
    destruct (ob_running o && _) eqn:Er; [|done]. b2p.
    destruct (hi_sessions h Hi i o Eo) as [Hs Hl]. apply inv_set_outbox; [done| |done].
    split; cbn; [|rewrite length_app; cbn; unfold SESSION_EVENT_SIZE in *; lia].
    by rewrite !map_app, Hs, <-app_assoc.
  - by apply hub_inv_worker.
  - unfold stop_worker. destruct (h_sessions h !! i) as [o|] eqn:Eo; [|done].
    destruct (h_cancelled h); [|done]. apply inv_set_outbox; [done| |done].
    exact (hi_sessions h Hi i o Eo).
  - unfold subscribe. destruct (h_subscribed h) eqn:Es; [done|]. destruct Hi. split; cbn; try done.
    rewrite Nat.sub_diag. cbn. by apply hi_subscribed0.
  - by apply inv_forward.
  - destruct Hi. split; cbn; try done.
    + rewrite foldl_app. cbn. by rewrite hi_state0.
    + by apply sublist_inserts_r.
  - by destruct Hi.
Qed.

Lemma inv_hub_run acts : hub_inv (hub_run hub_new acts).
Proof.
  unfold hub_run. assert (hub_inv hub_new) as Hi.
  { split; cbn; try done; try lia. intros j e He. by inversion He. }
  revert Hi. generalize hub_new. induction acts as [|a acts IH]; intros h Hi; [done|].
  cbn. by apply IH, inv_hub_step.
Qed.

(** * Properties *)

(** Broadcasting only adds to the log, and the start of the receiver is set once. *)
Lemma hub_step_log h a :
  (∃ rest, h_log (hub_step h a) = h_log h ++ rest) ∧
  (h_subscribed h = true → h_subscribed (hub_step h a) = true ∧ h_start (hub_step h a) = h_start h) ∧
  (a ≠ HSubscribe → h_subscribed (hub_step h a) = h_subscribed h).
Proof.
  assert (∃ rest, h_log h = h_log h ++ rest) as Hnil by (exists []; by rewrite app_nil_r).
  destruct a; cbn [hub_step]; unfold start_session, session_send, session_events_worker, stop_worker,
    subscribe, forward_events; repeat case_match; cbn; split_and!; try done; by eexists.
Qed.

Lemma hub_run_log h acts :
  (∃ rest, h_log (hub_run h acts) = h_log h ++ rest) ∧
  (h_subscribed h = true → h_start (hub_run h acts) = h_start h) ∧
  (HSubscribe ∉ acts → h_subscribed (hub_run h acts) = h_subscribed h).
Proof.
  revert h. induction acts as [|a acts IH]; intros h.
  { split_and!; [exists []; by rewrite app_nil_r|done..]. }
  change (hub_run h (a :: acts)) with (hub_run (hub_step h a) acts).
  destruct (hub_step_log h a) as ([r1 H1] & H2 & H3), (IH (hub_step h a)) as ([r2 H4] & H5 & H6).
  split_and!.
  - exists (r1 ++ r2). by rewrite H4, H1, <-app_assoc.
  - intros [Hs Hp]%H2. by rewrite H5.
  - intros [Ha Hr]%not_elem_of_cons. rewrite H6, H3; done.
Qed.

(** C32: What the daemon knows of a session comes from its events in order.  Whatever the
    sessions, the workers, the clients and the forwarding task do, before and after
    the daemon subscribes to the session manager: the events of a session are
    broadcast in the order they were sent; none broadcast before the subscription is ever
    forwarded, and of those broadcast later the forwarded ones are a prefix, none
    left out; and the daemon's state is the result of applying the forwarded
    ones, among the clients' own, one by one. *)
Theorem session_events_in_order (before after : list HubAction) (Hfirst : HSubscribe ∉ before) :
  let h0 := hub_run hub_new before in
  let h := hub_run hub_new (before ++ HSubscribe :: after) in
  (∀ i o, h_sessions h !! i = Some o →
     from_session i (h_log h) `prefix_of` map (ipc_event (ob_torrent o)) (ob_sent o)) ∧
  h_forwarded h0 = [] ∧
  (∃ later, h_log h = h_log h0 ++ later ∧ h_forwarded h `prefix_of` map snd later) ∧
  h_forwarded h `sublist_of` h_applied h ∧
  h_state h = foldl (λ st e, (IpcState.apply st e).1) ∅ (h_applied h).
Proof.
  intros h0 h. pose proof (inv_hub_run before) as Hi0. fold h0 in Hi0.
  pose proof (inv_hub_run (before ++ HSubscribe :: after)) as Hi. fold h in Hi.
  destruct (hub_run_log hub_new before) as (_ & _ & Hs). specialize (Hs Hfirst). fold h0 in Hs.
  assert (h = hub_run (subscribe h0) after) as Hh.
  { unfold h, hub_run. by rewrite foldl_app. }
  assert (subscribe h0 = mkHub (h_sessions h0) (h_cancelled h0) (h_log h0) true (length (h_log h0))
    (length (h_log h0)) true (h_state h0) (h_applied h0) (h_forwarded h0)) as Esub.
  { unfold subscribe. by rewrite Hs. }
  destruct (hub_run_log (subscribe h0) after) as ([later Hlog] & Hstart & _). rewrite <-Hh in *.
  rewrite Esub in Hlog, Hstart. specialize (Hstart eq_refl). cbn in Hlog, Hstart.
  split; [|split; [|split; [|split]]].
  - intros i o Ho. destruct (hi_sessions h Hi i o Ho) as [Hq _]. rewrite Hq. by eexists.
  - by apply (hi_subscribed h0 Hi0).
  - exists later. split; [done|]. rewrite (hi_forwarded h Hi), Hstart, Hlog, map_app.
    rewrite drop_app_length' by by rewrite length_map. apply prefix_take.
  - apply (hi_applied h Hi).
  - apply (hi_state h Hi).
Qed.

Lemma forwarder_stays_stopped h acts :
  h_subscribed h = true → h_forwarding h = false →
  h_forwarding (hub_run h acts) = false ∧ h_forwarded (hub_run h acts) = h_forwarded h.
Proof.
  revert h. induction acts as [|a acts IH]; intros h Hs Hf; [done|].
  change (hub_run h (a :: acts)) with (hub_run (hub_step h a) acts).
  destruct (hub_step_log h a) as (_ & [Hs' _] & _); [done|].
  assert (h_forwarding (hub_step h a) = false ∧ h_forwarded (hub_step h a) = h_forwarded h) as [H1 H2].
  { destruct a; cbn [hub_step]; unfold start_session, session_send, session_events_worker, stop_worker,
      subscribe, forward_events; try rewrite Hf; try rewrite Hs; try done; by repeat case_match. }
  destruct (IH (hub_step h a) Hs' H1) as [? ->]. by split.
Qed.

(** A burst of events cuts the clients off for good: once more than 32 events
    are waiting when the forwarding task runs, it ends, and from then on, whatever
    happens, no event of any session is applied to the daemon's state again. *)
Theorem lag_ends_forwarding (acts acts' : list HubAction) :
  let h := hub_run hub_new acts in
  h_forwarding h = true → BROADCAST_IPC_EVENT_SIZE < length (h_log h) - h_pos h →
  let h' := hub_run (hub_step h HForward) acts' in
  h_forwarding h' = false ∧ h_forwarded h' = h_forwarded h.
Proof.
  intros h Hf Hlag h'. pose proof (inv_hub_run acts) as Hi. fold h in Hi.
  assert (h_subscribed h = true) as Hs.
  { destruct (h_subscribed h) eqn:E; [done|]. apply (hi_subscribed h Hi) in E as [??]. congruence. }
  unfold h'. cbn [hub_step]. unfold forward_events. rewrite Hf.
  unfold recv. rewrite length_map, (proj2 (Nat.ltb_lt _ _)) by done.
  by apply (forwarder_stays_stopped (mkHub (h_sessions h) (h_cancelled h) (h_log h) (h_subscribed h)
    (h_start h) (h_pos h) false (h_state h) (h_applied h) (h_forwarded h)) acts').
Qed.
End hub.

Module EventsExamples.
#[local] Existing Instance ToyHex.hex.
#[local] Existing Instance MetainfoExamples.toy_text.

Definition film : TorrentFile := IpcExamples.film.

(** A session that checks 40 pieces while the forwarding task does not run. *)
Definition verify (n : nat) : list HubAction :=
  flat_map (λ i, [HSend 0 (PieceVerified (Z.of_nat n) (Z.of_nat i)); HWork 0]) (seq 1 n).
Definition burst : list HubAction := HStart film :: HSubscribe :: verify 40.

Lemma lag_ends_forwarding_witness :
  h_forwarded (hub_run (hub_step (hub_run hub_new burst) HForward)
    [HSend 0 SeedStarted; HWork 0; HForward; HForward]) = [].
Proof.
  destruct (lag_ends_forwarding burst [HSend 0 SeedStarted; HWork 0; HForward; HForward]) as [_ Hf].
  - vm_compute. reflexivity.
  - unfold BROADCAST_IPC_EVENT_SIZE. vm_compute. lia.
  - rewrite Hf. vm_compute. reflexivity.
Defined.

(** The same events, when the task keeps up. *)
Example keeping_up :
  length (h_forwarded (hub_run hub_new (HStart film :: HSubscribe :: flat_map (λ a, [a; HForward]) (verify 40)))) = 40.
Proof. vm_compute. reflexivity. Qed.

(** A restored session that has checked its pieces before the daemon subscribes: what it
    said by then is lost, the rest arrives. *)
Definition early : list HubAction := HStart film :: verify 2 ++ [HSend 0 SeedStarted].
Definition late : list HubAction := [HWork 0; HSend 0 EIdle; HWork 0; HForward; HForward].

Lemma session_events_in_order_witness :
  let h := hub_run hub_new (early ++ HSubscribe :: late) in
  h_forwarded h `sublist_of` h_applied h ∧ length (h_log h) = 4 ∧
  h_forwarded h = map (ipc_event film) [SeedStarted; EIdle].
Proof.
  split; [|split; vm_compute; reflexivity].
  destruct (session_events_in_order early late) as (_ & _ & _ & Hs & _); [|exact Hs].
  intros Hin%list_elem_of_In. vm_compute in Hin. intuition discriminate.
Defined.

(** When it said nothing after it, the daemon never lists it. *)
Example early_events_lost :
  h_state (hub_run hub_new (HStart film :: verify 2 ++ HSubscribe :: replicate 5 HForward)) = ∅.
Proof. vm_compute. reflexivity. Qed.
End EventsExamples.
