(* ===== verification/Bqti.v ===== *)
(** The daemon: [src/bit_torrent/bqti.rs] and [load] of [bit_torrent/mod.rs].

    [Bqti] joins the parts that the other files model.  It implements the
    interface [Torrenting] that [Ipc] is proved against, and gives each packet to
    the part it is for: [serve_packet] is the task spawned for one packet.  What
    the disk, the network and the clock answer are arguments, and so are the messages
    that the handlers send meanwhile and what happens to the table of pending calls
    while they make requests. *)

From stdpp Require Import pretty.
From S2P Require Import Prelude Net Crypto BitField Wire Metainfo Magnet Chunks Builder Routing.
From S2P Require Import Store Auth Conn Rpc Kademlia Pex Bep Session Download Ipc Manager.

(** * Errors *)

(** src/src/bit_torrent/error.rs:5-18 [BitTorrentError] *)
Inductive BitTorrentError :=
| BtIo (msg : string)
| BtCodec (msg : string)
| BtInvalidPath
| BtTorrent (e : TorrentError).

(** src/src/bit_torrent/bqti.rs:31-53 [BqtiTorretingError]

    Less the error of a command type that is not used. *)
Inductive BqtiTorretingError :=
| BqSession (e : TorrentSessionError)
| BqManager (e : SessionManagerError)
| BqBitTorrent (e : BitTorrentError)
| BqTorrent (e : TorrentError)
| BqFailedToLoad
| BqUnsupported (feature : string).

(** src/src/bit_torrent/torrent/metainfo/mod.rs:23-39 [Display for TorrentError] *)
Definition torrent_error_text (e : TorrentError) : string :=
  match e with
  | Hash20Error => "piece hash doesn't have 20 bytes"
  | Failed msg => "failed: " +:+ msg
  | NotValid msg => "validation failed: " +:+ msg
  | UnsupportedVersion v => "unsupported version, " +:+ pretty v
  | Unsupported msg => "unsupported, " +:+ msg
  end.

(** src/src/bit_torrent/session/mod.rs:13-29 [Display for TorrentSessionError]

    The text of a chunk error is left out. *)
Definition session_error_text (e : TorrentSessionError) : string :=
  match e with
  | FailedToLoad => "failed to load .torrent file"
  | StateError => "wrong state"
  | UnableToFindXDGFolder => "unable to find the home directory"
  | InvalidTransition to => "invalid transition: " +:+ to
  | ChunkReaderError => ""
  end.

(** src/src/bit_torrent/session/manager.rs:28-41 [Display for SessionManagerError] *)
Definition manager_error_text (e : SessionManagerError) : string :=
  match e with
  | SessionCorrupted => "session is corrupted"
  | AlreadyExists hash => "torrent already exists, " +:+ hash
  | SessionError e => session_error_text e
  | NotFound hash => "session identified by " +:+ hash +:+ ", doesn't exist"
  end.

(** src/src/bit_torrent/error.rs:5-18 [Display for BitTorrentError] *)
Definition bit_torrent_error_text (e : BitTorrentError) : string :=
  match e with
  | BtIo msg => "io error: " +:+ msg
  | BtCodec msg => "codec error: " +:+ msg
  | BtInvalidPath => "path invalid or not found"
  | BtTorrent e => "torrent error: " +:+ torrent_error_text e
  end.

(** src/src/bit_torrent/bqti.rs:31-53 [Display for BqtiTorretingError] *)
Definition bqti_error_text (e : BqtiTorretingError) : string :=
  match e with
  | BqSession e => session_error_text e
  | BqManager e => manager_error_text e
  | BqBitTorrent e => bit_torrent_error_text e
  | BqTorrent e => torrent_error_text e
  | BqFailedToLoad => "failed to load .torrent file"
  | BqUnsupported feature => "unsupported feature: " +:+ feature
  end.

(** * Torrent files *)

(** [Path::file_name], of a path whose last component is a name. *)
Definition file_name (path : string) : option string :=
  match last (components path) with
  | Some c => if bool_decide (c ∈ ["/"; "."; ".."]) then None else Some c
  | None => None
  end.

Section files.
Context `{Crypto} `{AddrText} `{Hex} `{Tree}.
(** [std::fs::read] of a path, [serde_bencode]'s reading and writing, and the
    sizes of the reads of a file. *)
Context (read : string → Result string (list Z))
  (decode : list Z → Result string BencodeTorrent)
  (from_utf8 : BencodeTorrent.from_utf8_t)
  (encode_info : BencodeInfo → Result string (list Z))
  (read_count : string → nat → nat → nat).
(** The depth of the directory walk, the time and the program's version. *)
Context (depth : nat) (now : Z) (version : string).

(** src/src/bit_torrent/mod.rs:23-29 [load] *)
Definition load (path : string) : Result BitTorrentError TorrentFile :=
  let? bytes := map_err BtIo (read path) in
  let? info := map_err BtCodec (decode bytes) in
  map_err BtTorrent (TorrentFile.apply_from_metadata from_utf8 encode_info info).

(** src/src/bit_torrent/torrent/metainfo/mod.rs:143-145 [Integrity::validate]

    The check of a version 2 torrent always ends ([v2_validate_ends]). *)
Definition validate (t : TorrentFile) : Result TorrentError unit :=
  match t with
  | V1 t => TorrentV1.v1_validate t
  | V2 t => default (Err Hash20Error) (v2_validate t)
  end.

(** src/src/bit_torrent/bqti.rs:137-161 [Torrenting::add_torrent, a seed] *)
Definition seed_torrent (options : SeedingOptions)
    : Result BqtiTorretingError (TorrentFile * SessionMode) :=
  let? name :=
    ok_or BqFailedToLoad
      (match so_name options with Some n => Some n | None => file_name (so_path options) end) in
  let builder := V1Builder_new name (so_path options) (i64 (so_piece_length options)) in
  let builder := builder_file depth builder (so_path options) in
  let builder := builder_announce_list builder (so_announce options) in
  let builder := builder_dht_nodes builder (so_nodes options) in
  let builder := builder_web_seeds builder (so_seeds options) in
  let builder := builder_comment builder (so_comment options) in
  let builder := builder_private builder (so_private options) in
  let builder := builder_created_by builder (so_created_by options) in
  let? torrent := map_err BqTorrent (build read_count encode_info now version builder) in
  Ok (torrent, ModeSeed (so_path options)).

(** src/src/bit_torrent/bqti.rs:120-162 [Torrenting::add_torrent, the torrent] *)
Definition action_torrent (action : TorrentAction)
    : Result BqtiTorretingError (TorrentFile * SessionMode) :=
  match action with
  | ADownload source user_space =>
    match source with
    | SourceFile torrent_path =>
      let? torrent := map_err BqBitTorrent (load torrent_path) in
      Ok (torrent, ModeDownload user_space)
    | SourceMagnet _ => Err (BqUnsupported "magnet links")
    end
  | ASeed options => seed_torrent options
  end.

Context (env : TorrentFile → Session.Env).

(** src/src/bit_torrent/bqti.rs:116-172 [Torrenting::add_torrent for Bqti] *)
Definition bqti_add (self : SessionManager) (action : TorrentAction)
    : SessionManager * Result BqtiTorretingError TorrentFile :=
  match action_torrent action with
  | Err e => (self, Err e)
  | Ok (torrent_file, mode) =>
    match validate torrent_file with
    | Err e => (self, Err (BqTorrent e))
    | Ok _ =>
      let '(self, r) := SessionManager.add self mode torrent_file in
      (self, let? _ := map_err BqManager r in Ok torrent_file)
    end
  end.

(** src/src/bit_torrent/bqti.rs:174-177 [Torrenting::remove_torrent for Bqti] *)
Definition bqti_remove (self : SessionManager) (info_hash : InfoHash)
    : SessionManager * Result BqtiTorretingError InfoHash :=
  (SessionManager.remove self info_hash, Ok info_hash).

(** src/src/bit_torrent/bqti.rs:179-182 [Torrenting::pause_torrent for Bqti] *)
Definition bqti_pause (self : SessionManager) (info_hash : InfoHash)
    : SessionManager * Result BqtiTorretingError InfoHash :=
  let '(self, r) := SessionManager.pause env self info_hash in
  (self, let? _ := map_err BqManager r in Ok info_hash).

(** src/src/bit_torrent/bqti.rs:184-187 [Torrenting::resume_torrent for Bqti] *)
Definition bqti_resume (self : SessionManager) (info_hash : InfoHash)
    : SessionManager * Result BqtiTorretingError InfoHash :=
  let '(self, r) := SessionManager.resume env self info_hash in
  (self, let? _ := map_err BqManager r in Ok info_hash).

(** src/src/bit_torrent/bqti.rs:114-188 [Torrenting for Bqti] *)
Definition bqti_torrenting : Torrenting SessionManager := {|
  TorrentingError := BqtiTorretingError;
  error_text := bqti_error_text;
  add_torrent := bqti_add;
  remove_torrent := bqti_remove;
  pause_torrent := bqti_pause;
  resume_torrent := bqti_resume;
|}.
End files.

(** * Packets *)

(** src/src/bit_torrent/bqti.rs:55-61 [Bqti]

    The connection manager is a field of [bq_kademlia]. *)
Record Bqti `{AuthCrypto} := mkBqti {
  bq_kademlia : Kademlia;
  bq_rpc : RpcHandler;
  bq_pex : PexRouter;
  bq_sessions : SessionManager;
}.
#[global] Arguments Bqti {_}.
#[global] Arguments mkBqti {_} _ _ _ _.
#[global] Arguments bq_kademlia {_} _.
#[global] Arguments bq_rpc {_} _.
#[global] Arguments bq_pex {_} _.
#[global] Arguments bq_sessions {_} _.

(** A call of [ConnectionManager::send] to the address of a peer, with what the transport
    does: whether a stream can be opened and written. *)
Record Send := mkSend { sd_peer : SocketAddr; sd_message : Message; sd_opens : bool; sd_writes : bool }.

Definition sends_made (io : list Send) (m : ConnectionManager) : ConnectionManager :=
  foldl (λ m s, (ConnectionManager.cm_send (sd_opens s) (sd_writes s) m
                   (Peer_from_socket (sd_peer s)) (sd_message s)).2) m io.

Section serve.
Context `{Crypto} `{AuthCrypto} `{PacketCodec} `{SetIter}.
(** The outcomes of the other parts, as in the files that model them. *)
Context (now : Z) (manifest : string → Result unit (list Z))
  (rpc : nat → ConnectionManager → Node → DhtRequest + AuthDhtRequest →
         Result RpcError DhtResponse * ConnectionManager)
  (outcome : nat → SendOutcome) (pick : nat → nat) (order : list Node → list Node) (fuel : nat)
  (pex_from_bytes : list Z → option PexMessage) (pex_sent : SendResult)
  (std_from_bytes : list Z → option StandardMessage)
  (host : list Z) (handle : StandardMessage → SocketAddr → H unit) (left_by : SessionManager.Left).
(** The sends of the handler of a peer message or of an exchange, and the events of the
    table of pending calls while DHT requests are made: their registration, sending and
    end, between which packets of other tasks may come in. *)
Context (io : list Send) (calls : list RpcEvent).

Definition authenticated (c : Connection) : bool :=
  Connection.is_inbound_authenticated c || Connection.is_outbound_authenticated c.

(** The tasks started for the addresses of an exchange, one after the other; the
    outcome of each is ignored. *)
Definition announce_all (info_hash : Key) (addrs : list SocketAddr) (k : Kademlia) : Kademlia :=
  foldl (λ k addr, match announce_peer now rpc pick order fuel info_hash addr k with
                   | Some (_, k) => k | None => k end) k addrs.

(** The table of pending calls after the DHT node went from [k] to [k']: it is as it was
    if nothing was exchanged. *)
Definition rpc_after (k k' : Kademlia) (h : RpcHandler) : RpcHandler :=
  if k_clock k =? k_clock k' then h else foldl rpc_exec h calls.

(** src/src/bit_torrent/bqti.rs:256-304 [Bqti::serve_forever, one packet]

    [None] when the handler of a DHT packet panics. *)
Definition serve_packet (self : Bqti) (incoming : Packet SocketAddr) : option Bqti :=
  let src := source_addr incoming in
  let conns := k_conns (bq_kademlia self) in
  match id ← ConnectionManager.get_connection conns src; c ← heap conns !! id; Some (id, c) with
  | None => Some self
  | Some (id, connection) =>
    match packet_message incoming with
    | KeepAlive => Some self
    | DHT payload =>
      match packet_from_bytes payload with
      | Err _ => Some self
      | Ok packet =>
        let '(rpc_handler, request) := RpcHandler.dispatch (bq_rpc self) packet in
        match request with
        | None => Some (mkBqti (bq_kademlia self) rpc_handler (bq_pex self) (bq_sessions self))
        | Some request =>
          '(_, kademlia) ← handle_packet now manifest rpc outcome request src id (bq_kademlia self);
          Some (mkBqti kademlia (rpc_after (bq_kademlia self) kademlia rpc_handler)
                  (bq_pex self) (bq_sessions self))
        end
      end
    | PEX payload =>
      if authenticated connection then
        match pex_from_bytes payload with
        | None => Some self
        | Some pex =>
          let '(_, router, _, discovered) :=
            PexRouter.handle_incoming pex_sent (bq_pex self) pex src in
          let kademlia := announce_all (px_info_hash pex) discovered
                            (set_conns (sends_made io) (bq_kademlia self)) in
          Some (mkBqti kademlia (rpc_after (bq_kademlia self) kademlia (bq_rpc self))
                  router (bq_sessions self))
        end
      else Some self
    | Standard payload =>
      if authenticated connection then
        match std_from_bytes payload with
        | None => Some self
        | Some msg =>
          Some (mkBqti (set_conns (sends_made io) (bq_kademlia self)) (bq_rpc self) (bq_pex self)
                  (SessionManager.dispatch host handle left_by (bq_sessions self) msg src).1)
        end
      else Some self
    end
  end.
End serve.

(** * The interface of the clients *)

Section laws.
Context `{CryptoLaws} `{AddrText} `{Hex} `{Tree}.
Context (read : string → Result string (list Z))
  (decode : list Z → Result string BencodeTorrent)
  (from_utf8 : BencodeTorrent.from_utf8_t)
  (encode_info : BencodeInfo → Result string (list Z))
  (read_count : string → nat → nat → nat) (depth : nat) (now : Z) (version : string)
  (env : TorrentFile → Session.Env).

Lemma v1_new_wf b : InfoHash.wf (InfoHash.v1_new b).
Proof. split; [apply sha1_length|apply sha1_bytes]. Qed.

Lemma v2_new_wf b : InfoHash.wf (InfoHash.v2_new b).
Proof. split; [apply sha256_length|apply sha256_bytes]. Qed.

Lemma v1_from_bencode_hash md h t :
  TorrentV1.v1_from_bencode from_utf8 md h = Ok t → tc_info_hash (v1_info t) = h.
Proof.
  unfold TorrentV1.v1_from_bencode. destruct (BencodeInfo.mode _); simpl; [|done]. by intros [= <-].
Qed.

Lemma v2_from_bencode_hash md h t :
  TorrentV2.v2_from_bencode from_utf8 md h = Ok t → tc_info_hash (v2_info t) = h.
Proof.
  unfold TorrentV2.v2_from_bencode. cbv zeta. repeat case_match; intros [= <-]; done.
Qed.

Lemma load_wf path t : load read decode from_utf8 encode_info path = Ok t →
  InfoHash.wf (TorrentFile.info_hash t).
Proof.
  unfold load, TorrentFile.apply_from_metadata. destruct (read path); simpl; [|done].
  destruct (decode _) as [md|]; simpl; [|done]. destruct (encode_info _) as [raw|]; simpl; [|done].
  destruct (bi_pieces _), (bi_file_tree _); simpl; try done.
  - destruct (TorrentV2.v2_from_bencode _ _ _) as [t2|] eqn:E; simpl; [|done]. intros [= <-].
    apply v2_from_bencode_hash in E. unfold TorrentFile.info_hash. simpl. rewrite E. apply v2_new_wf.
  - destruct (TorrentV1.v1_from_bencode _ _ _) as [t1|] eqn:E; simpl; [|done]. intros [= <-].
    apply v1_from_bencode_hash in E. unfold TorrentFile.info_hash. simpl. rewrite E. apply v1_new_wf.
Qed.

Lemma build_wf b t : build read_count encode_info now version b = Ok t →
  InfoHash.wf (TorrentFile.info_hash t).
Proof.
  unfold build, builder_info_hash. destruct (PieceLength.validate _); simpl; [|done].
  destruct (is_empty _); [done|]. destruct (finalize _ _ _) as [[pieces mode]|]; simpl; [|done].
  destruct (encode_info _) as [raw|]; simpl; [|done]. intros [= <-]. apply v1_new_wf.
Qed.

(** The daemon keeps what [Ipc] relies on. *)
#[export] Instance bqti_torrenting_laws :
  @TorrentingLaws SessionManager
    (bqti_torrenting read decode from_utf8 encode_info read_count depth now version env).
Proof.
  split; [by intros t h t' h' [= _ <-]|].
  intros m a m' t. cbn. unfold bqti_add, action_torrent, seed_torrent.
  assert (∀ t0 mode, (match validate t0 with
     | Ok _ => let '(self, r) := SessionManager.add m mode t0 in
               (self, let? _ := map_err BqManager r in Ok t0)
     | Err e => (m, Err (BqTorrent e)) end) = (m', Ok t) → t = t0) as Hadd.
  { intros t0 mode. destruct (validate t0); [|done].
    by destruct (SessionManager.add m mode t0) as [? [|]]; simpl; intros [= _ <-] || done. }
  destruct a as [[?|path] us|o].
  - done.
  - destruct (load _ _ _ _ path) as [t0|] eqn:E; simpl; [|done]. intros ->%Hadd. by eapply load_wf.
  - cbv zeta. destruct (ok_or _ _) as [n|]; simpl; [|done].
    destruct (build _ _ _ _ _) as [t0|] eqn:E; simpl; [|done]. intros ->%Hadd. by eapply build_wf.
Qed.
End laws.

(** * What a packet can reach *)

Section gate.
Context `{Crypto} `{AuthCrypto} `{PacketCodec} `{SetIter}.

(** The connection object of an address. *)
Definition connection_of (self : Bqti) (src : SocketAddr) : option Connection :=
  id ← ConnectionManager.get_connection (k_conns (bq_kademlia self)) src;
  heap (k_conns (bq_kademlia self)) !! id.

(** A DHT request over a connection without an inbound token is refused. *)
Lemma request_refused now manifest rpc outcome e src id (k : Kademlia) c :
  heap (k_conns k) !! id = Some c → Connection.inbound_sender c = None →
  handle_packet now manifest rpc outcome (Rpc.Request e) src id k =
  Some (Err (KAuthError InvalidToken), k).
Proof.
  intros Hc Hi. unfold handle_packet, kbind, kget, klift.
  rewrite Hc. cbn [mbind option_bind]. by rewrite Hi.
Qed.

(** A reply goes to the call that waits for its number. *)
Lemma reply_delivered (h : RpcHandler) e k id p :
  Rpc.pending h !! env_id e = Some k → Rpc.calls h !! k = Some (Waiting id p None) →
  let h' := (RpcHandler.dispatch h (Rpc.Response e)).1 in
  Rpc.calls h' !! k = Some (Waiting id p (Some (payload e))) ∧
  ∀ j, j ≠ k → Rpc.calls h' !! j = Rpc.calls h !! j.
Proof.
  intros Hp Hk. cbn. rewrite Hp. cbn. rewrite Hk. cbn.
  split; [by eapply list_lookup_insert_eq, lookup_lt_Some|].
  intros j Hj. by apply list_lookup_insert_ne.
Qed.

(** Sending changes no table and no mark of authentication: at most whether a connection
    has its control stream. *)
Lemma sends_made_frame io m :
  connections (sends_made io m) = connections m ∧
  ∀ id, (λ c, (inbound_auth c, outbound_auth c, cancelled c)) <$> heap (sends_made io m) !! id =
        (λ c, (inbound_auth c, outbound_auth c, cancelled c)) <$> heap m !! id.
Proof.
  revert m. induction io as [|s io IH]; intros m; [done|]. cbn [sends_made foldl].
  match goal with |- context [foldl _ ?x io] => set (m1 := x) end.
  destruct (IH m1) as [Ht Hh]. fold (sends_made io m1). rewrite Ht.
  split; [apply cm_send_table|]. intros id. rewrite Hh. subst m1. clear.
  unfold ConnectionManager.cm_send. destruct (ConnectionManager.get_local_ip m); [|done].
  destruct (ConnectionManager.is_self_connection _ _); [done|].
  destruct (connections m !! _) as [i|]; [|done]. destruct (heap m !! i) as [c|] eqn:Ec; [|done].
  unfold Connection.send_control.
  assert (∀ c' l, inbound_auth c' = inbound_auth c → outbound_auth c' = outbound_auth c →
    cancelled c' = cancelled c →
    (λ c, (inbound_auth c, outbound_auth c, cancelled c)) <$>
      heap (set_sent l (set_heap (insert i c') m)) !! id =
    (λ c, (inbound_auth c, outbound_auth c, cancelled c)) <$> heap m !! id) as Hput.
  { intros c' l E1 E2 E3. cbn. destruct (decide (i = id)) as [<-|Hne].
    - rewrite lookup_insert_eq, Ec. cbn. congruence.
    - by rewrite lookup_insert_ne. }
  repeat case_match; simplify_eq; try done; by apply (Hput _ (λ l, l)).
Qed.

(** C26: What a packet can reach.  One from an address without a connection changes
    nothing.  Over a connection that is authenticated in neither direction, a peer
    message and an exchange of addresses change nothing; nor does a DHT request over
    one that is not authenticated for receiving, whatever was proved the other way.  A
    reply asks for no authentication: whatever connection it comes over, it is given
    to the call that waits for its number and to no other, and the DHT node stays as it
    was.  (Handshakes ask for none either; what they do is another theorem's.)  A peer message over an authenticated connection can change the sessions, but not
    the routing table, the stored values, the tokens, the pending calls or the
    peer exchange, nor which connection stands for an address and how it is
    authenticated; and no DHT packet and no exchange changes a session. *)
Theorem packet_gate now manifest rpc outcome pick order fuel pex_from_bytes pex_sent
    std_from_bytes host handle left_by io calls (self self' : Bqti) (incoming : Packet SocketAddr)
    (Hs : serve_packet now manifest rpc outcome pick order fuel pex_from_bytes pex_sent
            std_from_bytes host handle left_by io calls self incoming = Some self') :
  (connection_of self (source_addr incoming) = None → self' = self) ∧
  (∀ c, connection_of self (source_addr incoming) = Some c →
     match packet_message incoming with
     | KeepAlive => self' = self
     | PEX _ | Standard _ => authenticated c = false → self' = self
     | DHT payload =>
       (∀ e, packet_from_bytes payload = Ok (Rpc.Request e) → inbound_auth c = None → self' = self) ∧
       (∀ e, packet_from_bytes payload = Ok (Rpc.Response e) →
          bq_kademlia self' = bq_kademlia self ∧
          ∀ k id p, Rpc.pending (bq_rpc self) !! env_id e = Some k →
            Rpc.calls (bq_rpc self) !! k = Some (Waiting id p None) →
            Rpc.calls (bq_rpc self') !! k = Some (Waiting id p (Some (Rpc.payload e))) ∧
            ∀ j, j ≠ k → Rpc.calls (bq_rpc self') !! j = Rpc.calls (bq_rpc self) !! j)
     end) ∧
  match packet_message incoming with
  | KeepAlive => self' = self
  | DHT _ => bq_pex self' = bq_pex self ∧ bq_sessions self' = bq_sessions self
  | PEX _ => bq_sessions self' = bq_sessions self
  | Standard _ =>
    let k := bq_kademlia self in
    let k' := bq_kademlia self' in
    k_table k' = k_table k ∧ k_store k' = k_store k ∧ k_auth k' = k_auth k ∧
    bq_rpc self' = bq_rpc self ∧ bq_pex self' = bq_pex self ∧
    ∀ addr, ConnectionManager.get_connection (k_conns k') addr =
              ConnectionManager.get_connection (k_conns k) addr ∧
            (authenticated <$> connection_of self' addr) = (authenticated <$> connection_of self addr)
  end.
Proof.
  unfold serve_packet, connection_of in *. destruct incoming as [msg src rep]. cbn in *.
  destruct (connections (k_conns (bq_kademlia self)) !! src) as [id|] eqn:Eid; cbn in *.
  2:{ injection Hs as <-. split_and!; [done|done|by destruct msg]. }
  destruct (heap (k_conns (bq_kademlia self)) !! id) as [c|] eqn:Ec; cbn in *.
  2:{ injection Hs as <-. split_and!; [done|done|by destruct msg]. }
  split; [done|]. destruct msg as [|payload|payload|payload].
  - by injection Hs as <-.
  - destruct (packet_from_bytes payload) as [packet|] eqn:Ep; [|by injection Hs as <-].
    destruct packet as [e|e|e]; cbn [RpcHandler.dispatch] in Hs.
    + destruct (handle_packet _ _ _ _ _ _ _ _) as [[r kad]|] eqn:Ek; [|done].
      injection Hs as <-. split; [|done]. intros c' [= <-]. split; [|done]. intros ? _ Hi.
      rewrite (request_refused _ _ _ _ _ _ _ _ c) in Ek by done. injection Ek as <- <-.
      unfold rpc_after. rewrite Nat.eqb_refl. by destruct self.
    + destruct (handle_packet _ _ _ _ _ _ _ _) as [[r kad]|] eqn:Ek; [|done].
      by injection Hs as <-.
    + assert (self' = mkBqti (bq_kademlia self) (RpcHandler.dispatch (bq_rpc self) (Rpc.Response e)).1
                (bq_pex self) (bq_sessions self)) as ->.
      { cbn [RpcHandler.dispatch]. repeat case_match; simplify_eq; done. }
      split; [|done]. intros c' [= <-]. split; [done|]. intros e' [= <-]. split; [done|].
      intros k i p. apply reply_delivered.
  - destruct (authenticated c) eqn:Ea.
    + destruct (pex_from_bytes payload) as [pex|]; [|by injection Hs as <-; split; [congruence|]].
      destruct (PexRouter.handle_incoming _ _ _ _) as [[[? router] ?] discovered].
      injection Hs as <-. split; [congruence|done].
    + by injection Hs as <-.
  - destruct (authenticated c) eqn:Ea; [|by injection Hs as <-].
    destruct (std_from_bytes payload); injection Hs as <-; (split; [congruence|]); [|done].
    cbn. destruct (sends_made_frame io (k_conns (bq_kademlia self))) as [Ht Hh].
    split_and!; try done. intros addr. unfold ConnectionManager.get_connection. rewrite Ht.
    split; [done|]. destruct (connections _ !! addr) as [i|]; [|done]. cbn.
    specialize (Hh i). destruct (heap (sends_made io _) !! i), (heap _ !! i); try done.
    cbn in Hh |- *. injection Hh as Hin Hout _.
    unfold authenticated, Connection.is_inbound_authenticated, Connection.is_outbound_authenticated.
    by rewrite Hin, Hout.
Qed.
End gate.

Module BqtiExamples.
Import KadExamples.
#[local] Existing Instance Toy.ToyCrypto.
#[local] Instance codec : PacketCodec := {| encode_packet _ := None; decode_packet _ := None |}.
#[local] Instance iter : SetIter := elements.

Definition no_left : SessionManager.Left := SessionManager.mkLeft (BitField.empty 0) ∅.
Definition daemon (key : option Key) : Bqti :=
  mkBqti (server key) RpcHandler.rpc_new PexRouter.pex_create
    (ManagerExamples.after [EvAdd (ModeDownload "home") ManagerExamples.film; EvQueue]).
Definition greeting : Packet SocketAddr := Packet_new (Standard [1%Z]) my_addr.
Definition served (key : option Key) : option Bqti :=
  serve_packet 1000 no_manifest no_rpc sends (λ n, n) id 3 (λ _, None) SendSuccess
    (λ _, Some ManagerExamples.hello) [] ManagerExamples.ignore no_left [] [] (daemon key) greeting.

(** The same greeting is taken over an authenticated connection. *)
Example greeting_taken :
  (λ b, by_peer (bq_sessions b) !! my_addr) <$> served (Some server_key) = Some (Some 0) ∧
  (λ b, by_peer (bq_sessions b) !! my_addr) <$> served None = Some None.
Proof. vm_compute. done. Qed.

Definition after_greeting : Bqti := default (daemon None) (served None).

Lemma packet_gate_witness : served None = Some after_greeting ∧ after_greeting = daemon None.
Proof.
  assert (served None = Some after_greeting) as Hs.
  { assert (bool_decide (is_Some (served None)) = true) as Hb by (vm_compute; reflexivity).
    apply bool_decide_eq_true in Hb as [b Hb]. unfold after_greeting. by rewrite Hb. }
  split; [exact Hs|].
  destruct (packet_gate 1000 no_manifest no_rpc sends (λ n, n) id 3 (λ _, None) SendSuccess
    (λ _, Some ManagerExamples.hello) [] ManagerExamples.ignore no_left [] [] (daemon None)
    after_greeting greeting Hs) as (_ & Hg & _).
  apply (Hg (mkConn 0 my_addr true false None false)); vm_compute; reflexivity.
Defined.
End BqtiExamples.
