(* ===== verification/Serve.v ===== *)
(** The daemon as a whole: [Bqti::new] and [Bqti::serve_forever] of [bqti.rs], with the accept
    loop of [ipc/server.rs].  The main task takes packets from the channel of the
    connections and starts a task for each, until the user interrupts it; then it
    cancels the listener, closes the connections, aborts its tasks and drops the server
    of the local socket.  What a task does with its packet is
    [Bqti.serve_packet], and the socket is [Socket]'s.

    A task can stop at each of its awaits, so it runs in stretches, which are changes
    of the daemon's state here; between them other tasks run, those of the clients and
    of the sessions among them, and it can be aborted. *)

From S2P Require Import Prelude Net Crypto BitField Wire Routing Store Auth Fs Conn Rpc Pex Bep.
From S2P Require Import Kademlia Manager Socket Bqti.

(** src/src/bit_torrent/bqti.rs:190-217 [Bqti::new]

    The parts that can fail are given by their results: the Kademlia node, and the
    router of the peer protocol, which the session manager is made from. *)
Definition Bqti_new `{AuthCrypto} {E : Type} (kademlia : Result E Kademlia)
    (bep_router : Result E SessionManager) : Result E Bqti :=
  let rpc_handler := RpcHandler.rpc_new in
  let? kademlia := kademlia in
  let pex_router := PexRouter.pex_create in
  let? torrenting_session := bep_router in
  Ok (mkBqti kademlia rpc_handler pex_router torrenting_session).

(** src/src/bit_torrent/bqti.rs:314-314 [Bqti::serve_forever, connection_manager.shutdown] *)
Definition close_connections `{AuthCrypto} (b : Bqti) : Bqti :=
  mkBqti (set_conns ConnectionManager.shutdown (bq_kademlia b)) (bq_rpc b) (bq_pex b) (bq_sessions b).

(** Where the main task is: in its loop, or after it, before each of the four calls that
    end it. *)
Inductive Phase := Serving | Cancelling | Closing | Joining | Dropping | Ended.

#[export] Instance Phase_eq_dec : EqDecision Phase.
Proof. solve_decision. Defined.

Section serve_forever.
(** The daemon's state and the shutdown of its connections. *)
Context {D : Type} (close_all : D → D).
Context (root : bool) (cwd : Location) (path : Path).

(** [sv_done] and [sv_aborted] are the packets whose tasks ended by themselves and were
    aborted; [sv_clients] counts the tasks of the accept loop, which are not the main
    task's. *)
Record Serve := mkServe {
  sv_state : D;
  sv_phase : Phase;
  sv_queue : list (Packet SocketAddr);
  sv_tasks : list (Packet SocketAddr);
  sv_done : list (Packet SocketAddr);
  sv_aborted : list (Packet SocketAddr);
  sv_listening : bool;
  sv_forwarding : bool;
  sv_accepting : bool;
  sv_cancelled : bool;
  sv_clients : nat;
  sv_fs : Fs;
}.

(** [VStretch]: a task of a packet runs up to its next await.  [VEnd]: it returns, or
    panics.  [VOther]: any other task runs, such as the handler of a client's command. *)
Inductive ServeEvent :=
| VArrive (p : Packet SocketAddr)
| VTake
| VStretch (i : nat) (f : D → D)
| VEnd (i : nat)
| VOther (f : D → D)
| VCtrlC
| VMain
| VAccept (ok : bool)
| VShutdownRequest.

Definition with_state (d : D) (s : Serve) : Serve :=
  mkServe d (sv_phase s) (sv_queue s) (sv_tasks s) (sv_done s) (sv_aborted s)
    (sv_listening s) (sv_forwarding s) (sv_accepting s) (sv_cancelled s) (sv_clients s) (sv_fs s).
Definition with_packets (queue tasks finished : list (Packet SocketAddr)) (s : Serve) : Serve :=
  mkServe (sv_state s) (sv_phase s) queue tasks finished (sv_aborted s)
    (sv_listening s) (sv_forwarding s) (sv_accepting s) (sv_cancelled s) (sv_clients s) (sv_fs s).

Definition serve_new (d : D) (fs : Fs) : Serve :=
  mkServe d Serving [] [] [] [] true true true false 0 fs.

(** src/src/bit_torrent/bqti.rs:226-248 [Bqti::serve_forever, before the loop] *)
Definition serve_start (d : D) (fs : Fs) : Result FsError Serve :=
  match ipc_bind root cwd path fs with
  | (_, Err e) => Err e
  | (fs, Ok _) => Ok (serve_new d fs)
  end.

(** src/src/bit_torrent/bqti.rs:250-256 [Bqti::serve_forever, the loop]

    The branch of a packet: its task joins the set. *)
Definition take_packet (s : Serve) : Serve :=
  match sv_phase s, sv_queue s with
  | Serving, p :: queue => with_packets queue (sv_tasks s ++ [p]) (sv_done s) s
  | _, _ => s
  end.

(** src/src/bit_torrent/bqti.rs:307-311 [Bqti::serve_forever, the signal] *)
Definition interrupt (s : Serve) : Serve :=
  mkServe (sv_state s) (match sv_phase s with Serving => Cancelling | p => p end) (sv_queue s)
    (sv_tasks s) (sv_done s) (sv_aborted s) (sv_listening s) (sv_forwarding s) (sv_accepting s)
    (sv_cancelled s) (sv_clients s) (sv_fs s).

Definition run_stretch (i : nat) (f : D → D) (s : Serve) : Serve :=
  match sv_tasks s !! i with None => s | Some _ => with_state (f (sv_state s)) s end.

Definition end_task (i : nat) (s : Serve) : Serve :=
  match sv_tasks s !! i with
  | None => s
  | Some p => with_packets (sv_queue s) (remove_at i (sv_tasks s)) (sv_done s ++ [p]) s
  end.

(** src/src/bit_torrent/bqti.rs:313-318 [Bqti::serve_forever, after the loop]

    One statement.  Shutting the set of tasks down aborts them and waits for them, the
    listener and the forwarding task included; with the latter goes the other
    reference to the server. *)
Definition wind_down (s : Serve) : Serve :=
  let next ph d tasks aborted listening forwarding fs :=
    mkServe d ph (sv_queue s) tasks (sv_done s) aborted listening forwarding (sv_accepting s)
      (sv_cancelled s) (sv_clients s) fs in
  match sv_phase s with
  | Serving | Ended => s
  | Cancelling =>
    next Closing (sv_state s) (sv_tasks s) (sv_aborted s) false (sv_forwarding s) (sv_fs s)
  | Closing =>
    next Joining (close_all (sv_state s)) (sv_tasks s) (sv_aborted s) (sv_listening s)
      (sv_forwarding s) (sv_fs s)
  | Joining =>
    next Dropping (sv_state s) [] (sv_aborted s ++ sv_tasks s) false false (sv_fs s)
  | Dropping =>
    next Ended (sv_state s) (sv_tasks s) (sv_aborted s) (sv_listening s) (sv_forwarding s)
      (ipc_drop root cwd path (sv_fs s))
  end.

(** src/src/ipc/server.rs:125-155 [accept_loop]

    One turn: a client, whose task is started, or an error, which ends the loop.  The
    branch of the cancelled token does nothing and the loop goes on. *)
Definition accept_turn (ok : bool) (s : Serve) : Serve :=
  if negb (sv_accepting s) then s
  else
    mkServe (sv_state s) (sv_phase s) (sv_queue s) (sv_tasks s) (sv_done s) (sv_aborted s)
      (sv_listening s) (sv_forwarding s) ok (sv_cancelled s)
      (if ok then S (sv_clients s) else sv_clients s) (sv_fs s).

Definition serve_step (s : Serve) (e : ServeEvent) : Serve :=
  match e with
  | VArrive p => with_packets (sv_queue s ++ [p]) (sv_tasks s) (sv_done s) s
  | VTake => take_packet s
  | VStretch i f => run_stretch i f s
  | VEnd i => end_task i s
  | VOther f => with_state (f (sv_state s)) s
  | VCtrlC => interrupt s
  | VMain => wind_down s
  | VAccept ok => accept_turn ok s
  | VShutdownRequest =>
    mkServe (sv_state s) (sv_phase s) (sv_queue s) (sv_tasks s) (sv_done s) (sv_aborted s)
      (sv_listening s) (sv_forwarding s) (sv_accepting s) true (sv_clients s) (sv_fs s)
  end.

Definition serve_run (s : Serve) (es : list ServeEvent) : Serve := foldl serve_step s es.

Definition arrivals (es : list ServeEvent) : list (Packet SocketAddr) :=
  omap (λ e, match e with VArrive p => Some p | _ => None end) es.

(** What the tasks that are not packets' do to the state. *)
Definition others (es : list ServeEvent) : list (D → D) :=
  omap (λ e, match e with VOther f => Some f | _ => None end) es.

Definition mains (es : list ServeEvent) : nat :=
  length (List.filter (λ e, match e with VMain => true | _ => false end) es).
End serve_forever.
#[global] Arguments Serve : clear implicits.
#[global] Arguments ServeEvent : clear implicits.

(** * The run of the daemon *)

Section serve_lemmas.
Context {D : Type} (close_all : D → D).
Context (root : bool) (cwd : Location) (path : Path).
Notation step := (serve_step close_all root cwd path).
Notation run := (serve_run close_all root cwd path).
Implicit Types (s : Serve D) (es : list (ServeEvent D)).

Lemma serve_run_snoc s es e : run s (es ++ [e]) = step (run s es) e.
Proof. unfold serve_run. by rewrite foldl_app. Qed.

(** The calls left before the main task returns. *)
Definition calls_left (p : Phase) : nat :=
  match p with Serving => 5 | Cancelling => 4 | Closing => 3 | Joining => 2 | Dropping => 1 | Ended => 0 end.

(** What the main task has done by each of its phases. *)
Record serve_inv (fs0 : Fs) (es : list (ServeEvent D)) s : Prop := {
  si_packets : ∃ taken, arrivals es = taken ++ sv_queue s ∧
    sv_done s ++ sv_tasks s ++ sv_aborted s ≡ₚ taken;
  si_serving : sv_phase s = Serving ↔ VCtrlC ∉ es;
  si_joined : calls_left (sv_phase s) < 2 →
    sv_tasks s = [] ∧ sv_listening s = false ∧ sv_forwarding s = false;
  si_aborted : 2 ≤ calls_left (sv_phase s) → sv_aborted s = [];
  si_fs : sv_fs s = if decide (sv_phase s = Ended) then ipc_drop root cwd path fs0 else fs0;
}.

Lemma serve_inv_new d fs : serve_inv fs [] (serve_new d fs).
Proof.
  split; cbn; try done.
  - by exists [].
  - split; [set_solver|done].
  - lia.
Qed.

Lemma arrivals_snoc es e :
  arrivals (es ++ [e]) = arrivals es ++ match e with VArrive p => [p] | _ => [] end.
Proof. unfold arrivals. rewrite omap_app. by destruct e. Qed.

(** A step that leaves the phase, the aborted tasks and what the main task owns. *)
Lemma serve_inv_keep fs0 es s e queue tasks finished d accepting cancelled clients :
  let s' := mkServe d (sv_phase s) queue tasks finished (sv_aborted s) (sv_listening s)
              (sv_forwarding s) accepting cancelled clients (sv_fs s) in
  serve_inv fs0 es s → e ≠ VCtrlC →
  (∀ taken, arrivals es = taken ++ sv_queue s → sv_done s ++ sv_tasks s ++ sv_aborted s ≡ₚ taken →
     ∃ taken', arrivals (es ++ [e]) = taken' ++ queue ∧ finished ++ tasks ++ sv_aborted s ≡ₚ taken') →
  (calls_left (sv_phase s) < 2 → sv_tasks s = [] → tasks = []) →
  serve_inv fs0 (es ++ [e]) s'.
Proof.
  intros s' [(taken & Ha & Hp) Hs Hj Hab Hfs] Hne Ht Hk. subst s'. split; cbn; try done.
  - by apply (Ht taken).
  - rewrite Hs. set_solver.
  - intros Hl. destruct (Hj Hl) as (H1 & ? & ?). auto.
Qed.

Lemma take_packet_inv fs0 es s :
  serve_inv fs0 es s → serve_inv fs0 (es ++ [VTake]) (take_packet s).
Proof.
  intros Hi. unfold take_packet.
  assert (serve_inv fs0 (es ++ [VTake]) s) as Hsame.
  { destruct s. apply (serve_inv_keep _ _ _ VTake) with (1 := Hi); [done| |done].
    intros taken. rewrite arrivals_snoc, app_nil_r. eauto. }
  destruct (sv_phase s) eqn:Hph, (sv_queue s) as [|p q] eqn:Hq; try exact Hsame.
  apply serve_inv_keep; [done|done| |by rewrite Hph; cbn; lia].
  intros taken Ha Hp. exists (taken ++ [p]). rewrite arrivals_snoc, app_nil_r, Ha, Hq, <-app_assoc.
  split; [done|]. rewrite <-Hp. solve_Permutation.
Qed.

Lemma wind_down_inv fs0 es s :
  serve_inv fs0 es s → serve_inv fs0 (es ++ [VMain]) (wind_down close_all root cwd path s).
Proof.
  intros [(taken & Ha & Hp) Hs Hj Hab Hfs].
  assert (VCtrlC ∉ es ++ [VMain] ↔ sv_phase s = Serving) as Hs' by (rewrite Hs; set_solver).
  pose proof (arrivals_snoc es VMain) as Harr. rewrite Ha, app_nil_r in Harr.
  unfold wind_down. destruct (sv_phase s) eqn:Hph; cbn in *; split; cbn; rewrite ?Hph; try done;
    try lia; try (by exists taken); try (by rewrite Hs'); try (by intros _; apply Hj; lia);
    try (by intros _; apply Hab; lia).
  - exists taken. split; [done|]. rewrite <-Hp. rewrite Hab by lia. cbn. by rewrite app_nil_r.
  - by rewrite Hfs.
Qed.

Lemma serve_inv_step fs0 es s e :
  serve_inv fs0 es s → serve_inv fs0 (es ++ [e]) (step s e).
Proof.
  intros Hi.
  assert (∀ taken, match e with VArrive _ => False | _ => True end →
    arrivals es = taken ++ sv_queue s → arrivals (es ++ [e]) = taken ++ sv_queue s) as Hquiet.
  { intros taken He Ha. rewrite arrivals_snoc, Ha. destruct e; (done || by rewrite app_nil_r). }
  assert (match e with VArrive _ | VCtrlC => False | _ => True end → serve_inv fs0 (es ++ [e]) s) as Hsame.
  { intros He. destruct s. apply (serve_inv_keep _ _ _ e) with (1 := Hi); [by destruct e| |done].
    intros taken Ha Hp. exists taken. split; [apply Hquiet; [by destruct e|done]|done]. }
  destruct e as [p| |i f|i|f| | |ok|]; cbn [serve_step].
  - apply serve_inv_keep; [done|done| |done]. intros taken Ha Hp. exists taken.
    by rewrite arrivals_snoc, Ha, app_assoc.
  - by apply take_packet_inv.
  - unfold run_stretch. destruct (sv_tasks s !! i); [|by apply Hsame].
    apply serve_inv_keep; [done|done| |done]. intros taken Ha Hp. exists taken. auto.
  - unfold end_task. destruct (sv_tasks s !! i) as [p|] eqn:Hp; [|by apply Hsame].
    apply serve_inv_keep; [done|done| |by intros _ Ht; rewrite Ht in Hp].
    intros taken Ha Hperm. exists taken. split; [auto|]. rewrite <-Hperm.
    rewrite <-(remove_at_Permutation _ _ _ Hp) at 2. solve_Permutation.
  - apply serve_inv_keep; [done|done| |done]. intros taken Ha Hp. exists taken. auto.
  - destruct Hi as [(taken & Ha & Hp) Hs Hj Hab Hfs]. split; cbn.
    + exists taken. auto.
    + split; [by destruct (sv_phase s)|set_solver].
    + intros Hl. apply Hj. destruct (sv_phase s); cbn in *; lia.
    + intros Hl. apply Hab. destruct (sv_phase s); cbn in *; lia.
    + rewrite Hfs. by destruct (sv_phase s).
  - by apply wind_down_inv.
  - unfold accept_turn. destruct (sv_accepting s) eqn:E; cbn; [|by apply Hsame].
    apply serve_inv_keep; [done|done| |done]. intros taken Ha Hp. exists taken. auto.
  - apply serve_inv_keep; [done|done| |done]. intros taken Ha Hp. exists taken. auto.
Qed.

Lemma serve_inv_run d fs es : serve_inv fs es (run (serve_new d fs) es).
Proof.
  induction es as [|e es IH] using rev_ind; [apply serve_inv_new|].
  rewrite serve_run_snoc. by apply serve_inv_step.
Qed.

(** After the interrupt every call of the main task brings its end nearer, nothing
    takes it back, and no packet is taken. *)
Lemma after_interrupt_step s e :
  sv_phase s ≠ Serving →
  sv_phase (step s e) ≠ Serving ∧
  calls_left (sv_phase (step s e)) = calls_left (sv_phase s) - match e with VMain => 1 | _ => 0 end ∧
  sv_queue (step s e) = sv_queue s ++ match e with VArrive p => [p] | _ => [] end.
Proof.
  intros Hne. destruct e as [p| |i f|i|f| | |ok|]; cbn; rewrite ?app_nil_r, ?Nat.sub_0_r;
    unfold take_packet, run_stretch, end_task, wind_down, accept_turn;
    destruct (sv_phase s) eqn:Hph; try done; repeat case_match; cbn; rewrite ?Hph, ?app_nil_r; done.
Qed.

Lemma after_interrupt_run s es :
  sv_phase s ≠ Serving →
  sv_phase (run s es) ≠ Serving ∧
  calls_left (sv_phase (run s es)) = calls_left (sv_phase s) - mains es ∧
  sv_queue (run s es) = sv_queue s ++ arrivals es.
Proof.
  intros Hn. induction es as [|e es (H1 & H2 & H3)] using rev_ind.
  { cbn. rewrite app_nil_r. split_and!; [done|lia|done]. }
  rewrite serve_run_snoc. destruct (after_interrupt_step (run s es) e H1) as (H4 & H5 & H6).
  split_and!; [done| |by rewrite H6, H3, arrivals_snoc, app_assoc].
  rewrite H5, H2. unfold mains. rewrite List.filter_app, length_app. destruct e; cbn; lia.
Qed.

(** Once the main task has ended, only the others' tasks change anything. *)
Lemma ended_run s es : sv_phase s = Ended → sv_tasks s = [] →
  let s' := run s es in
  sv_phase s' = Ended ∧ sv_tasks s' = [] ∧ sv_fs s' = sv_fs s ∧
  sv_state s' = foldl (λ d f, f d) (sv_state s) (others es).
Proof.
  intros Hph Ht. cbv zeta.
  induction es as [|e es (H1 & H2 & H3 & H4)] using rev_ind; [done|].
  rewrite serve_run_snoc. unfold others. rewrite omap_app, foldl_app. fold (others es).
  rewrite <-H4, <-H3. set (s' := run s es) in *. clearbody s'.
  destruct e as [p| |i f|i|f| | |ok|]; cbn;
    unfold take_packet, run_stretch, end_task, wind_down, accept_turn; rewrite ?H1, ?H2; cbn;
    repeat case_match; (split_and!; done).
Qed.
End serve_lemmas.

(** * Properties *)


Module ServeExamples.
Import KadExamples BqtiExamples SocketExamples.
#[local] Existing Instances Toy.ToyCrypto codec iter.

Definition serve_one (p : Packet SocketAddr) (b : Bqti) : Bqti :=
  default b (serve_packet 1000 no_manifest no_rpc sends (λ n, n) id 3 (λ _, None) SendSuccess
    (λ _, Some ManagerExamples.hello) [] ManagerExamples.ignore no_left [] [] b p).

(** Another task, between two stretches of the packet's. *)
Definition stop_sessions (b : Bqti) : Bqti :=
  mkBqti (bq_kademlia b) (bq_rpc b) (bq_pex b) (SessionManager.manager_drop (bq_sessions b)).

(** A greeting is served, a client asks for a shutdown, another greeting arrives, and the user
    interrupts the daemon in the middle of its task. *)
Definition session : list (ServeEvent Bqti) :=
  [VArrive greeting; VTake; VStretch 0 (serve_one greeting); VEnd 0; VAccept true; VShutdownRequest;
   VArrive greeting; VTake; VOther stop_sessions; VStretch 0 (serve_one greeting); VCtrlC; 
   VMain; VArrive greeting; VMain; VAccept true; VMain; VMain].

Definition started : Serve Bqti :=
  match serve_start false [] path (daemon None) fs0 with
  | Ok s => s | Err _ => serve_new (daemon None) fs0 end.
Definition served_session : Serve Bqti :=
  serve_run close_connections false [] path started session.

End ServeExamples.
