(* ===== verification/Start.v ===== *)
(** The parts of the daemon put together: [Kademlia::new], [BepRouter::new] and the end of
    [handle_serve], and what holds of the whole while it runs.

    A step of the daemon is the task of a packet, a call of the DHT by the discovery tasks,
    a tick of the tasks that prune the store, change the salt and follow the keys of the
    swarm, a step of the peer exchange or of the session manager, or any change of
    the connections.

    Each step runs at one time and to its end before the next: a call of the DHT that
    waits for answers in the code, and lets others run meanwhile, is one step here.  What
    it waits for is decided by the arguments of the step, which can change the
    connections between two of its requests.  A lookup that the fuel of a step
    does not suffice for leaves the state as it was; [Lookup] shows how much
    suffices. *)

From S2P Require Import Prelude Net Crypto BitField Wire Metainfo Fs Routing Store Auth Conn Rpc Pex Bep.
From S2P Require Import Kademlia Lookup KadInv Certs PgpKeys Session Manager Bqti Serve.

(** src/src/bit_torrent/session/bep/router.rs:30-33 [BepPeer] *)
Record BepPeer := mkBepPeer { bp_id : list Z; bp_addr : SocketAddr }.

(** src/src/bit_torrent/session/bep/router.rs:61-68 [BepRouter]

    Its host and its prover; the connections, the DHT and the peer exchange are those of
    the daemon. *)
Record BepRouter := mkBepRouter { br_host : BepPeer; br_prover : Signer }.

(** src/src/bit_torrent/dht/auth/manager.rs:29-29 [REQUEST_NUMBER] *)
Definition REQUEST_NUMBER : Z := 100.
(** src/src/bit_torrent/dht/auth/manager.rs:30-30 [REQUEST_PER_SECOND] *)
Definition REQUEST_PER_SECOND : Z := 60.

(** src/src/bit_torrent/network/manager.rs:53-68 [ManagerOptions, with its default] *)
Record ManagerOptions := mkOptions { mo_max_connections : nat; mo_handshake_timeout : Z }.
Definition ManagerOptions_default : ManagerOptions := mkOptions 50 60.

(** The errors of the two constructors. *)
Inductive StartError :=
| StartKademlia (e : KademliaError)
| StartCert (e : CertError)
| StartConnection (e : ConnectionManagerError).

Section start.
Context `{Crypto} `{AuthCrypto} `{Rcgen} (root : bool) (cwd : Location).
Context (from_armor : list Z → option PgpKey) (key_bytes : PgpKey → option (list Z)).
Context (xdg_data_home project_data_dir : option Path).
Context (Signature : Type) (signature_from : list Z → option Signature).
Context (signature_to : Signature → option (list Z)).

(** src/src/bit_torrent/dht/kademlia/mod.rs:79-95 [Kademlia::new]

    The keys of the swarm are those of the thread that follows them, which has not
    run yet. *)
Definition Kademlia_new (rnd : nat) (salt : list Z) (conns : ConnectionManager)
    (certificate : SoftwareKeyIdentity) (fs : Fs) : Result KademliaError Kademlia :=
  let? auth_manager := map_err KCertErr
    (auth_new root cwd from_armor key_bytes xdg_data_home project_data_dir Signature signature_from
       signature_to rnd salt certificate "kademlia" fs) in
  let? local_addr := map_err KConnectionError (ConnectionManager.get_local_ip conns) in
  let host := from_socket (Key_new (signer_pub_key (inner_cert auth_manager))) local_addr in
  let route_table := RouteTable.table_new host in
  Ok (mkKad auth_manager ∅ (RateLimiter.limiter_new REQUEST_NUMBER REQUEST_PER_SECOND) conns
        DHTStore.store_new route_table 0 []).

(** src/src/bit_torrent/dht/kademlia/mod.rs:96-113 [Kademlia::new, the pruning task]

    One tick. *)
Definition prune_tick (now : Z) (self : Kademlia) : Kademlia := set_store (DHTStore.prune now) self.

(** src/src/bit_torrent/session/bep/router.rs:71-95 [BepRouter::new]

    With [make_prover] for the software identity. *)
Definition BepRouter_new (rnd : nat) (conns : ConnectionManager) (certificate : SoftwareKeyIdentity)
    : Result StartError BepRouter :=
  let? bep_certificate := map_err StartCert (soft_leaf rnd certificate "bep certificate" false) in
  let prover := soft_signer bep_certificate in
  let public_key := soft_pub_key bep_certificate in
  let? local_addr := map_err StartConnection (ConnectionManager.get_local_ip conns) in
  Ok (mkBepRouter (mkBepPeer public_key local_addr) prover).

(** src/src/daemon.rs:60-62 [handle_serve, the daemon]

    The connection manager for the address of the endpoint, and the daemon on it. *)
Definition start_daemon (rnd : nat) (salt : list Z) (local : option SocketAddr) (probe : option IpAddr)
    (ca_root : SoftwareKeyIdentity) (fs : Fs) : Result StartError Bqti :=
  let manager := ConnectionManager.cm_new local probe (mo_max_connections ManagerOptions_default) in
  Bqti_new (map_err StartKademlia (Kademlia_new rnd salt manager ca_root fs))
    (let? _ := BepRouter_new (S rnd) manager ca_root in Ok SessionManager.manager_new).
End start.

(** * Running *)

(** What the rest of the system decides in one step. *)
Record Outcomes := mkOutcomes {
  oc_now : Z;
  oc_manifest : string → Result unit (list Z);
  oc_rpc : nat → ConnectionManager → Node → DhtRequest + AuthDhtRequest →
           Result RpcError DhtResponse * ConnectionManager;
  oc_send : nat → SendOutcome;
  oc_pick : nat → nat;
  oc_order : list Node → list Node;
  oc_fuel : nat;
  oc_pex : SendResult;
  oc_handle : StandardMessage → SocketAddr → H unit;
  oc_left : SessionManager.Left;
  oc_io : list Send;
  oc_calls : list RpcEvent;
}.

(** The calls the discovery tasks make of the DHT. *)
Inductive DhtCall :=
| CJoin (prove_fuel : nat) (bootstrap : Node)
| CGetPeers (resolve : string → option SocketAddr) (info_hash : Key)
| CAnnounce (i2p : option string) (info_hash : Key)
| CRefresh (rng : nat → nat → bool).

Inductive DaemonEvent `{AuthCrypto} :=
| DPacket (o : Outcomes) (p : Packet SocketAddr)
| DCall (o : Outcomes) (c : DhtCall)
| DPrune (now : Z)
| DSalt (salt : list Z)
| DKeys (keys : gmap (list Z) PgpKey)
| DConns (conns : ConnectionManager)
| DPex (e : PexEvent)
| DSession (e : MEvent).

Section run.
Context `{Crypto} `{AuthCrypto} `{PacketCodec} `{SetIter} `{Hex}.
Context (pex_from_bytes : list Z → option PexMessage)
  (std_from_bytes : list Z → option StandardMessage)
  (host_id : list Z) (env : TorrentFile → Session.Env) (version : string).

Definition on_kademlia (f : Kademlia → Kademlia) (b : Bqti) : Bqti :=
  mkBqti (f (bq_kademlia b)) (bq_rpc b) (bq_pex b) (bq_sessions b).

(** The state after a computation.  A panic ends its task alone; it leaves the state as it
    was, and so does a lookup that the fuel does not suffice for. *)
Definition after {A} (m : K A) (k : Kademlia) : Kademlia :=
  match m k with Some (_, k') => k' | None => k end.

Definition dht_call (o : Outcomes) (c : DhtCall) : Kademlia → Kademlia :=
  match c with
  | CJoin prove_fuel bootstrap =>
    after (join_network (oc_now o) (oc_rpc o) version (oc_pick o) prove_fuel (oc_fuel o) bootstrap)
  | CGetPeers resolve info_hash =>
    after (get_peers (oc_now o) (oc_rpc o) (oc_pick o) resolve (oc_fuel o) info_hash)
  | CAnnounce i2p info_hash =>
    after (announce (oc_now o) (oc_rpc o) (oc_pick o) (oc_order o) (oc_fuel o) i2p info_hash)
  | CRefresh rng => after (refresh_buckets (oc_now o) (oc_rpc o) (oc_pick o) (oc_fuel o) rng)
  end.

Definition daemon_step (b : Bqti) (e : DaemonEvent) : Bqti :=
  match e with
  | DPacket o p =>
    default b (serve_packet (oc_now o) (oc_manifest o) (oc_rpc o) (oc_send o) (oc_pick o) (oc_order o)
      (oc_fuel o) pex_from_bytes (oc_pex o) std_from_bytes host_id (oc_handle o) (oc_left o)
      (oc_io o) (oc_calls o) b p)
  | DCall o c => on_kademlia (dht_call o c) b
  | DPrune now => on_kademlia (prune_tick now) b
  | DSalt salt => on_kademlia (set_auth_manager (refresh_salt salt)) b
  | DKeys keys =>
    on_kademlia (λ k, mkKad (k_auth k) keys (k_limiter k) (k_conns k) (k_store k) (k_table k)
                        (k_clock k) (k_out k)) b
  | DConns conns => on_kademlia (set_conns (λ _, conns)) b
  | DPex e => mkBqti (bq_kademlia b) (bq_rpc b) (pex_step (bq_pex b) e) (bq_sessions b)
  | DSession e =>
    mkBqti (bq_kademlia b) (bq_rpc b) (bq_pex b) (Manager.exec host_id env (bq_sessions b) e).1
  end.

Definition daemon_run : Bqti → list DaemonEvent → Bqti := foldl daemon_step.

(** The time of a step, for those that look at the clock. *)
Definition time_of (e : DaemonEvent) : option Z :=
  match e with DPacket o _ | DCall o _ => Some (oc_now o) | DPrune now => Some now | _ => None end.

(** The clock does not go back, and stays within 64 bits. *)
Fixpoint timed (t : Z) (es : list DaemonEvent) : Prop :=
  match es with
  | [] => True
  | e :: es => let t' := default t (time_of e) in
    (t ≤ t' ∧ t' + DEFAULT_TTL < 2 ^ 64)%Z ∧ timed t' es
  end.
End run.

(** * The invariant *)

Section invariant.
Context `{CryptoLaws} `{AuthCrypto} `{PacketCodec} `{SetIter} `{Hex}.
Context (pex_from_bytes : list Z → option PexMessage)
  (std_from_bytes : list Z → option StandardMessage)
  (host_id : list Z) (env : TorrentFile → Session.Env) (version : string).
Notation step := (daemon_step pex_from_bytes std_from_bytes host_id env version).
Notation run := (daemon_run pex_from_bytes std_from_bytes host_id env version).

Record daemon_ok (t : Z) (h : Node) (cert : Signer) (b : Bqti) : Prop := {
  dk_kademlia : kad_ok t h cert (bq_kademlia b);
  dk_pex : bounded (bq_pex b);
  dk_sessions : ∃ os, routed (bq_sessions b) os;
}.

Lemma after_ok {A} t h cert (m : K A) k :
  kpres (KadInv.keeps t) m → kad_ok t h cert k → kad_ok t h cert (after m k).
Proof.
  intros Hm Hk. unfold after. destruct (m k) as [[r k']|] eqn:E; [|done]. by eapply Hm.
Qed.

Lemma dht_call_ok t h cert o c k : (0 ≤ oc_now o ∧ oc_now o + DEFAULT_TTL < 2 ^ 64)%Z →
  oc_now o = t → kad_ok t h cert k → kad_ok t h cert (dht_call version o c k).
Proof.
  intros Hn <-. destruct c; apply after_ok; auto using keeps_join, keeps_get_peers, keeps_announce,
    keeps_refresh.
Qed.

Lemma announce_all_ok t rpc pick order fuel h cert ih addrs k : (0 ≤ t ∧ t + DEFAULT_TTL < 2 ^ 64)%Z →
  kad_ok t h cert k → kad_ok t h cert (announce_all t rpc pick order fuel ih addrs k).
Proof.
  intros Hn. revert k. induction addrs as [|a addrs IH]; intros k Hk; [done|]. cbn. apply IH.
  apply (after_ok t h cert (announce_peer t rpc pick order fuel ih a)); [|done].
  by apply keeps_store.
Qed.

Lemma serve_packet_ok t h cert o p b b' : (0 ≤ t ∧ t + DEFAULT_TTL < 2 ^ 64)%Z → oc_now o = t →
  daemon_ok t h cert b →
  serve_packet (oc_now o) (oc_manifest o) (oc_rpc o) (oc_send o) (oc_pick o) (oc_order o)
    (oc_fuel o) pex_from_bytes (oc_pex o) std_from_bytes host_id (oc_handle o) (oc_left o)
    (oc_io o) (oc_calls o) b p = Some b' →
  daemon_ok t h cert b'.
Proof.
  intros Hn -> Hb. unfold serve_packet.
  match goal with |- (match ?m with _ => _ end = _ → _) => destruct m as [[id c]|] end;
    [|by intros [= <-]].
  destruct (packet_message p) as [|payload|payload|payload].
  - by intros [= <-].
  - destruct (packet_from_bytes payload) as [q|]; [|by intros [= <-]].
    destruct (RpcHandler.dispatch (bq_rpc b) q) as [rh [request|]]; [|intros [= <-]; by destruct Hb].
    destruct (handle_packet _ _ _ _ _ _ _ _) as [[r k]|] eqn:E; [|done]. intros [= <-].
    destruct Hb as [Hk ??]. split; try done. eapply keeps_packet; [done|exact E|done].
  - destruct (authenticated c); [|by intros [= <-]].
    destruct (pex_from_bytes payload) as [m|]; [|by intros [= <-]].
    destruct Hb as [Hk Hp Hs].
    pose proof (bounded_step _ (EvIncoming (oc_pex o) m (source_addr p)) Hp) as Hp'. cbn in Hp'.
    destruct (PexRouter.handle_incoming _ _ _ _) as [[[r x] out] found]. intros [= <-].
    split; [|done|done]. apply announce_all_ok; [done|]. by destruct Hk.
  - destruct (authenticated c); [|by intros [= <-]].
    destruct (std_from_bytes payload) as [m|]; [|by intros [= <-]]. intros [= <-].
    destruct Hb as [Hk Hp [os Hs]]. split; [by destruct Hk|done|]. eexists.
    exact (exec_routed host_id env _ os (EvMessage (oc_handle o) (oc_left o) m (source_addr p)) Hs).
Qed.

Lemma daemon_ok_later t t' h cert b : (t ≤ t')%Z → daemon_ok t h cert b → daemon_ok t' h cert b.
Proof. intros Hle [Hk ??]. split; try done. by eapply kad_ok_later. Qed.

Lemma daemon_step_ok t h cert b e :
  (0 ≤ t)%Z → let t' := default t (time_of e) in (t ≤ t' ∧ t' + DEFAULT_TTL < 2 ^ 64)%Z →
  daemon_ok t h cert b → daemon_ok t' h cert (step b e).
Proof.
  intros Ht0 t' Ht Hb%(daemon_ok_later t t'); [|lia].
  destruct e as [o p|o c|now|salt|keys|conns|e|e]; cbn [time_of default from_option id] in t'; subst t';
    cbn [daemon_step].
  - destruct (serve_packet _ _ _ _ _ _ _ _ _ _ _ _ _ _ _ _ _) as [b'|] eqn:E; [|done].
    eapply serve_packet_ok; [|done|done|exact E]. cbn in *. lia.
  - destruct Hb as [Hk ??]. split; try done. apply dht_call_ok; [cbn in *; lia|done|done].
  - destruct Hb as [Hk ??]. split; try done. by apply keeps_prune.
  - destruct Hb as [[]??]. by split.
  - destruct Hb as [[]??]. by split.
  - destruct Hb as [[]??]. by split.
  - destruct Hb. split; try done. by apply bounded_step.
  - destruct Hb as [Hk Hp [os Hs]]. split; try done. eexists. by apply exec_routed.
Qed.

Lemma daemon_run_ok t h cert b es :
  (0 ≤ t)%Z → timed t es → daemon_ok t h cert b → ∃ t', daemon_ok t' h cert (run b es).
Proof.
  revert t b. induction es as [|e es IH]; intros t b Ht0; [by eauto|]. cbn [timed]. intros [Ht Hes] Hb.
  eapply IH; [|exact Hes|by apply daemon_step_ok]. lia.
Qed.
End invariant.

(** * Properties *)

(** C27: The daemon as a whole keeps the invariants of its parts.  With an address and two
    certificates it starts; from then on, whatever packets it serves and whatever the
    rest of the system answers, through lookups, announcements, prunings, changes of
    the salt, of the keys, of the connections and of the sessions, one step after
    the other and as long as the clock does not go back: the DHT node is the host of the
    certificate made at the start, its routing table has 256 buckets of at most 20
    nodes with distinct keys, each in the bucket of its key, and not the host; the store has
    at most 10000 entries under distinct keys, first to expire first; no swarm of
    the peer exchange has more than 200 peers; a session stands under the hash of
    its torrent, and every peer with a route has a session. *)
Theorem daemon_invariant `{CryptoLaws} `{AuthCrypto} `{Rcgen} `{PacketCodec} `{SetIter} `{Hex}
    (root : bool) (cwd : Location) (from_armor : list Z → option PgpKey)
    (key_bytes : PgpKey → option (list Z)) (xdg project : option Path)
    (Signature : Type) (signature_from : list Z → option Signature)
    (signature_to : Signature → option (list Z))
    (pex_from_bytes : list Z → option PexMessage) (std_from_bytes : list Z → option StandardMessage)
    (host_id : list Z) (env : TorrentFile → Session.Env) (version : string)
    (rnd : nat) (salt : list Z) (local : option SocketAddr) (probe : option IpAddr)
    (ca_root leaf leaf' : SoftwareKeyIdentity) (fs : Fs) (addr : SocketAddr)
    (t0 : Z) (es : list DaemonEvent)
    (Haddr : ConnectionManager.get_local_ip (ConnectionManager.cm_new local probe 50) = Ok addr)
    (Hleaf : soft_leaf rnd ca_root "kademlia" false = Ok leaf)
    (Hleaf' : soft_leaf (S rnd) ca_root "bep certificate" false = Ok leaf')
    (Ht0 : (0 ≤ t0)%Z) (Htimed : timed t0 es) :
  ∃ b0, start_daemon root cwd from_armor key_bytes xdg project Signature signature_from signature_to
          rnd salt local probe ca_root fs = Ok b0 ∧
  let b := daemon_run pex_from_bytes std_from_bytes host_id env version b0 es in
  let k := bq_kademlia b in
  let m := bq_sessions b in
  (inner_cert (k_auth k) = soft_signer leaf ∧
   host (k_table k) = from_socket (Key_new (soft_pub_key leaf)) addr) ∧
  (length (kbuckets (k_table k)) = 256 ∧
   ∀ i bucket, kbuckets (k_table k) !! i = Some bucket →
     length (nodes bucket) ≤ 20 ∧ NoDup (map node_id (nodes bucket)) ∧
     ∀ n, n ∈ nodes bucket → node_id n ≠ node_id (host (k_table k)) ∧
       RouteTable.get_bucket_index (k_table k) (node_id n) = i) ∧
  (length (store (k_store k)) ≤ 10000 ∧ NoDup (map fst (store (k_store k))) ∧
   StronglySorted (λ x y, expires_at x.2 ≤ expires_at y.2)%Z (store (k_store k))) ∧
  (∀ ih swarm, swarms (bq_pex b) !! ih = Some swarm → size swarm ≤ 200) ∧
  (∀ h id, by_hash m !! h = Some id → ∃ s, sm_sessions m !! id = Some s ∧ ts_hash s = h) ∧
  (∀ p id, by_peer m !! p = Some id → is_Some (sm_sessions m !! id)).
Proof.
  set (node := from_socket (Key_new (soft_pub_key leaf)) addr).
  unfold start_daemon, Kademlia_new, BepRouter_new, auth_new.
  change (mo_max_connections ManagerOptions_default) with 50.
  rewrite Hleaf, Hleaf', Haddr. cbn [rbind map_err Bqti_new]. eexists. split; [reflexivity|].
  match goal with |- context [daemon_run _ _ _ _ _ ?x es] => set (b0 := x) end.
  assert (daemon_ok t0 node (soft_signer leaf) b0) as Hb0.
  { split.
    - split; [apply table_new_ok|done|done|done|]. by apply (store_run_ok t0), run_new.
    - by intros ih swarm.
    - exists []. split; [|done]. split; [done|]. by intros id []. }
  destruct (daemon_run_ok pex_from_bytes std_from_bytes host_id env version t0 node (soft_signer leaf) b0 es
    Ht0 Htimed Hb0) as (t & [[Ht Hh Hc Hm [Hnd Hb Hs _]] Hp (os & [[Hhash _] Hpeer])]).
  cbv zeta. split_and!; try done.
  - apply Ht.
  - intros i bucket Hi. destruct (tb_bucket _ Ht i bucket Hi) as [_ Hl Hn Hk].
    split_and!; [exact Hl|exact Hn|]. intros n Hin. by eapply Forall_forall in Hk.
  - rewrite Hm in Hb. exact Hb.
  - intros p id Hid. destruct (Hpeer p id Hid) as (_ & ih & _ & s & Hsn & _). by exists s.
Qed.

Module StartExamples.
Import KadExamples CertsExamples BqtiExamples.
#[local] Existing Instances Toy.ToyCrypto Toy.ToyCryptoLaws codec iter rcgen ToyHex.hex.

Definition outcomes : Outcomes :=
  mkOutcomes 1000 no_manifest no_rpc sends (λ n, n) (λ l, l) 3 SendSuccess ManagerExamples.ignore no_left
    [] [].

(** A torrent is added, a peer connects and greets it, the torrent is announced to the DHT,
    and later the store is pruned. *)
Definition day : list DaemonEvent :=
  [DSession (EvAdd (ModeDownload "home") ManagerExamples.film); DSession EvQueue;
   DConns (one_conn server_addr my_addr (Some (Key_new [7%Z]))); DPacket outcomes greeting;
   DCall outcomes (CAnnounce None (Key_new [3%Z])); DPrune 1500].

Definition leaf (rnd : nat) (name : string) : SoftwareKeyIdentity :=
  match soft_leaf rnd alice name false with Ok l => l | Err _ => alice end.

Definition start_here : Result StartError Bqti :=
  start_daemon false [] (λ _, None) (λ _, None) None None unit (λ _, None) (λ _, None) 1 [4%Z]
    (Some server_addr) None alice empty_disk.
Definition running (es : list DaemonEvent) : Result StartError Bqti :=
  let? b := start_here in
  Ok (daemon_run (λ _, None) (λ _, Some ManagerExamples.hello) [] ManagerExamples.env "1" b es).

(** The peer has its route, the announced torrent is in the store, and after its time it
    is pruned. *)
Example day_passes :
  (let? b := running day in
   Ok (by_peer (bq_sessions b) !! my_addr, length (store (k_store (bq_kademlia b))))) = Ok (Some 0, 1) ∧
  (let? b := running (day ++ [DPrune 3100]) in Ok (length (store (k_store (bq_kademlia b))))) = Ok 0.
Proof. by vm_compute. Qed.

Lemma daemon_invariant_witness :
  ∃ b, running day = Ok b ∧ length (kbuckets (k_table (bq_kademlia b))) = 256 ∧
    length (store (k_store (bq_kademlia b))) ≤ 10000 ∧
    is_Some (sm_sessions (bq_sessions b) !! 0).
Proof.
  destruct (daemon_invariant false [] (λ _, None) (λ _, None) None None unit (λ _, None) (λ _, None)
    (λ _, None) (λ _, Some ManagerExamples.hello) [] ManagerExamples.env "1" 1 [4%Z] (Some server_addr)
    None alice (leaf 1 "kademlia") (leaf 2 "bep certificate") empty_disk server_addr 0 day)
    as (b0 & E & _ & (Hl & _) & (Hs & _) & _ & _ & Hp).
  - by vm_compute.
  - by vm_compute.
  - by vm_compute.
  - done.
  - by repeat split.
  - unfold running, start_here. rewrite E. eexists. split; [reflexivity|]. split; [exact Hl|].
    split; [exact Hs|]. apply (Hp my_addr).
    injection E as <-. by vm_compute.
Defined.
End StartExamples.
